(** * Cap'n Proto wire-format runtime: layout engine, arena and packed codec

    A shallow embedding of the C++ sources
      - [c++/src/capnproto/arena.h]            (ReadLimiter, SegmentReader, SegmentBuilder)
      - [c++/src/capnproto/arena.c++]          (ReaderArena, BuilderArena)
      - [c++/src/capnproto/layout.c++]         (WirePointer, WireHelpers, StructReader)
      - [c++/src/capnproto/serialize-packed.c++] (PackedInputStream, PackedOutputStream)
    followed by the properties proved about it.

    Conventions.  A 64-bit word is a [Z]; its first 32-bit half (little endian)
    is the low half.  Quantities of type [WordCount], [ElementCount], ... are
    32-bit unsigned ([uint]); the [...64] variants are 64-bit.  A [const word*]
    is a word index (a [Z], it may be out of range) into an array that is known
    from the context; [nullptr] is [None]. *)

From Stdlib Require Import ZArith List Lia Bool String.
From stdpp Require Import base list.
Import ListNotations.

Local Open Scope Z_scope.

(** ** Machine integers *)

Definition u8 (x : Z) : Z := x mod 2 ^ 8.
Definition u16 (x : Z) : Z := x mod 2 ^ 16.
Definition u32 (x : Z) : Z := x mod 2 ^ 32.
Definition u64 (x : Z) : Z := x mod 2 ^ 64.

(** [static_cast<int32_t>] of a 32-bit pattern. *)
Definition i32 (x : Z) : Z :=
  if u32 x <? 2 ^ 31 then u32 x else u32 x - 2 ^ 32.

(** Word [i] of an array; reading outside the array is undefined in C++ and
    yields 0 here. *)
Definition wordAt (ws : list Z) (i : Z) : Z :=
  if i <? 0 then 0 else default 0 (ws !! Z.to_nat i).

(** Byte [i] of an array of little-endian words. *)
Definition byteAt (ws : list Z) (i : Z) : Z :=
  Z.land (Z.shiftr (wordAt ws (i / 8)) (8 * (i mod 8))) 255.

(** ** Element sizes *)

(** Modelled from the spec: the [FieldSize] enumeration and the tables
    [dataBitsPerElement] and [pointersPerElement] are declared in [layout.h],
    which is not part of the sources; the spec lists the codes in order with
    their widths. *)
Inductive FieldSize : Set :=
| VOID | BIT | BYTE | TWO_BYTES | FOUR_BYTES | EIGHT_BYTES | POINTER | INLINE_COMPOSITE.

Definition FieldSize_of_Z (z : Z) : FieldSize :=
  match z with
  | 0 => VOID | 1 => BIT | 2 => BYTE | 3 => TWO_BYTES
  | 4 => FOUR_BYTES | 5 => EIGHT_BYTES | 6 => POINTER | _ => INLINE_COMPOSITE
  end.

Definition FieldSize_to_Z (s : FieldSize) : Z :=
  match s with
  | VOID => 0 | BIT => 1 | BYTE => 2 | TWO_BYTES => 3
  | FOUR_BYTES => 4 | EIGHT_BYTES => 5 | POINTER => 6 | INLINE_COMPOSITE => 7
  end.

Definition dataBitsPerElement (s : FieldSize) : Z :=
  match s with
  | VOID => 0 | BIT => 1 | BYTE => 8 | TWO_BYTES => 16
  | FOUR_BYTES => 32 | EIGHT_BYTES => 64 | POINTER => 0 | INLINE_COMPOSITE => 0
  end.

Definition pointersPerElement (s : FieldSize) : Z :=
  match s with POINTER => 1 | _ => 0 end.

Definition BITS_PER_WORD : Z := 64.
Definition BITS_PER_POINTER : Z := 64.
Definition BYTES_PER_WORD : Z := 8.
Definition POINTER_SIZE_IN_WORDS : Z := 1.
Definition WORDS_PER_POINTER : Z := 1.

(** ** WirePointer (layout.c++) *)

Module WirePointer.

Inductive Kind : Set := STRUCT | LIST | FAR | RESERVED_3.

Definition Kind_to_Z (k : Kind) : Z :=
  match k with STRUCT => 0 | LIST => 1 | FAR => 2 | RESERVED_3 => 3 end.

Definition Kind_of_Z (z : Z) : Kind :=
  match z with 0 => STRUCT | 1 => LIST | 2 => FAR | _ => RESERVED_3 end.

Definition Kind_eqb (a b : Kind) : bool := Kind_to_Z a =? Kind_to_Z b.

(** The two 32-bit halves of the pointer word. *)
Definition offsetAndKind (w : Z) : Z := Z.land w (2 ^ 32 - 1).
Definition upper32Bits (w : Z) : Z := Z.land (Z.shiftr w 32) (2 ^ 32 - 1).

(** The word whose halves are [lo] and [hi]. *)
Definition halves (lo hi : Z) : Z := Z.lor (u32 lo) (Z.shiftl (u32 hi) 32).

Definition set_offsetAndKind (v : Z) (w : Z) : Z := halves v (upper32Bits w).
Definition set_upper32Bits (v : Z) (w : Z) : Z := halves (offsetAndKind w) v.

Definition kind (w : Z) : Kind := Kind_of_Z (Z.land (offsetAndKind w) 3).

(** [this] is the word index of the pointer itself. *)
Definition target (this : Z) (w : Z) : Z :=
  this + 1 + Z.shiftr (i32 (offsetAndKind w)) 2.

Definition setKindAndTarget (this : Z) (k : Kind) (tgt : Z) (w : Z) : Z :=
  set_offsetAndKind (Z.lor (Z.shiftl (tgt - this - 1) 2) (Kind_to_Z k)) w.

Definition setKindWithZeroOffset (k : Kind) (w : Z) : Z :=
  set_offsetAndKind (Kind_to_Z k) w.

Definition inlineCompositeListElementCount (w : Z) : Z :=
  Z.shiftr (offsetAndKind w) 2.

Definition setKindAndInlineCompositeListElementCount (k : Kind) (elementCount : Z) (w : Z) : Z :=
  set_offsetAndKind (Z.lor (Z.shiftl elementCount 2) (Kind_to_Z k)) w.

Definition farPositionInSegment (w : Z) : Z := Z.shiftr (offsetAndKind w) 3.

Definition isDoubleFar (w : Z) : bool :=
  Z.land (Z.shiftr (offsetAndKind w) 2) 1 =? 1.

Definition setFar (isDoubleFar : bool) (pos : Z) (w : Z) : Z :=
  set_offsetAndKind
    (Z.lor (Z.lor (Z.shiftl pos 3) (Z.shiftl (if isDoubleFar then 1 else 0) 2))
           (Kind_to_Z FAR)) w.

(** [structRef] *)
Definition dataSize (w : Z) : Z := Z.land (upper32Bits w) (2 ^ 16 - 1).
Definition ptrCount (w : Z) : Z := Z.land (Z.shiftr (upper32Bits w) 16) (2 ^ 16 - 1).
Definition wordSize (w : Z) : Z := dataSize w + ptrCount w * WORDS_PER_POINTER.
Definition structRef_set (ds rc : Z) (w : Z) : Z :=
  set_upper32Bits (Z.lor (u16 ds) (Z.shiftl (u16 rc) 16)) w.

(** [listRef] *)
Definition elementSize (w : Z) : FieldSize := FieldSize_of_Z (Z.land (upper32Bits w) 7).
Definition elementCount (w : Z) : Z := Z.shiftr (upper32Bits w) 3.
Definition inlineCompositeWordCount (w : Z) : Z := elementCount w.
Definition listRef_set (es : FieldSize) (ec : Z) (w : Z) : Z :=
  set_upper32Bits (Z.lor (Z.shiftl ec 3) (FieldSize_to_Z es)) w.
Definition listRef_setInlineComposite (wc : Z) (w : Z) : Z :=
  set_upper32Bits (Z.lor (Z.shiftl wc 3) (FieldSize_to_Z INLINE_COMPOSITE)) w.

(** [farRef] *)
Definition segmentId (w : Z) : Z := upper32Bits w.
Definition farRef_set (si : Z) (w : Z) : Z := set_upper32Bits si w.

Definition isNull (w : Z) : bool :=
  (offsetAndKind w =? 0) && (upper32Bits w =? 0).

End WirePointer.

(** ** Error reporting *)

(** Modelled from the spec: the macros [VALIDATE_INPUT], [FAIL_VALIDATE_INPUT]
    and [FAIL_RECOVERABLE_CHECK] are defined in [logging.h], which is not part
    of the sources.  Per the spec a failed validation produces a recorded error
    and execution continues with the recovery block; the log is the list of
    messages recorded so far, oldest first. *)
Definition ErrorLog : Type := list string.

Definition record (msg : string) (log : ErrorLog) : ErrorLog := log ++ [msg].

(** ** ReadLimiter, SegmentReader, ReaderArena (arena.h, arena.c++) *)

Module Reader.

(** The mutable state of a [ReaderArena] is its [ReadLimiter] and the error
    log; the segments of the message are immutable.  [violated] lists the
    debug preconditions found false so far, see [DPRECOND]. *)
Record ReaderArena : Type := mkReaderArena {
  message : list (list Z);     (* MessageReader::getSegment(id), by id *)
  limit : Z;                   (* ReadLimiter::limit, a WordCount64 *)
  errors : ErrorLog;
  violated : ErrorLog
}.

Definition set_limit (l : Z) (a : ReaderArena) : ReaderArena :=
  mkReaderArena (message a) l (errors a) (violated a).

Definition recordError (msg : string) (a : ReaderArena) : ReaderArena :=
  mkReaderArena (message a) (limit a) (record msg (errors a)) (violated a).

(** Modelled from the spec: the macro [DPRECOND] is defined in [logging.h],
    which is not part of the sources.  Per the spec a precondition failure is
    fatal; the check is made in builds without [NDEBUG] only.  A failed
    [DPRECOND] is noted in [violated] and the model goes on as the build
    without the check does: a build that makes the check stops at the first
    entry of [violated], so that a run of the model is a run of that build as
    long as [violated] stays empty. *)
Definition DPRECOND (cond : bool) (msg : string) (a : ReaderArena) : ReaderArena :=
  if cond then a
  else mkReaderArena (message a) (limit a) (errors a) (record msg (violated a)).

(** [ReaderArena::ReaderArena]: the limiter starts at the traversal limit. *)
Definition newReaderArena (segments : list (list Z)) (traversalLimitInWords : Z) : ReaderArena :=
  mkReaderArena segments traversalLimitInWords [] [].

(** [ReaderArena::reportReadLimitReached] *)
Definition reportReadLimitReached (a : ReaderArena) : ReaderArena :=
  recordError "Exceeded message traversal limit.  See capnproto::ReaderOptions." a.

(** [ReadLimiter::canRead] *)
Definition canRead (amount : Z) (a : ReaderArena) : bool * ReaderArena :=
  if amount >? limit a then (false, reportReadLimitReached a)
  else (true, set_limit (limit a - amount) a).

(** [ReadLimiter::unread] *)
Definition unread (amount : Z) (a : ReaderArena) : ReaderArena :=
  let newValue := u64 (limit a + amount) in
  if newValue >? limit a then set_limit newValue a else a.

(** [ReaderArena::tryGetSegment].  The map [moreSegments] only caches the
    [SegmentReader] built for an id; an empty array compares equal to
    [nullptr]. *)
Definition tryGetSegment (id : Z) (a : ReaderArena) : option nat :=
  if id <? 0 then None else
  match message a !! Z.to_nat id with
  | Some [] => None
  | Some _ => Some (Z.to_nat id)
  | None => None
  end.

Definition getArray (id : nat) (a : ReaderArena) : list Z :=
  default [] (message a !! id).

(** Modelled from the spec: [intervalLength] is declared in [type-safety.h],
    which is not part of the sources; the spec gives the length of the
    interval as [to - from]. *)
Definition intervalLength (from to : Z) : Z := to - from.

(** [SegmentReader::containsInterval].  [from] and [to] are word indices
    relative to the start of the segment; the byte addresses compared by the
    source are [8 * from] and [8 * to] past the start. *)
Definition containsInterval (id : nat) (from to : Z) (a : ReaderArena) : bool * ReaderArena :=
  if (from >=? 0) && (to <=? Z.of_nat (length (getArray id a))) then
    canRead (intervalLength (8 * from) (8 * to) / BYTES_PER_WORD) a
  else (false, a).

(** ** Readers of layout.c++ *)

(** A [SegmentReader*]: either a segment of the arena, or [nullptr] for an
    unchecked message, in which case the array the pointers index (a default
    value compiled into the schema) is carried along. *)
Inductive SegmentRef : Type :=
| Checked (id : nat)
| Unchecked (blob : list Z).

(** A [const WirePointer*]: an array and a word index into it. *)
Definition Loc : Type := (SegmentRef * Z)%type.

Definition arrayOf (s : SegmentRef) (a : ReaderArena) : list Z :=
  match s with Checked id => getArray id a | Unchecked blob => blob end.

Definition wordOf (r : Loc) (a : ReaderArena) : Z := wordAt (arrayOf (fst r) a) (snd r).

(** [WireHelpers::roundUpToWords] for bits (64-bit) and for bytes (32-bit). *)
Definition roundUpToWords_bits (bits : Z) : Z := u32 (u64 (bits + 63) / BITS_PER_WORD).
Definition roundUpToWords_bytes (bytes : Z) : Z := u32 (bytes + 7) / BYTES_PER_WORD.

(** [WireHelpers::boundsCheck] *)
Definition boundsCheck (segment : SegmentRef) (start end_ : Z) (a : ReaderArena)
  : bool * ReaderArena :=
  match segment with
  | Unchecked _ => (true, a)
  | Checked id => containsInterval id start end_ a
  end.

(** [WireHelpers::followFars] (reader overload).  Returns the target
    ([None] is [nullptr]) with the updated [ref] and [segment].  The
    preconditions of [ref->farPositionInSegment()] and [ref->isDoubleFar()]
    hold by the test of [ref->kind()]; the one of
    [pad->farPositionInSegment()] is checked where the source evaluates it. *)
Definition followFars (ref : Loc) (segment : SegmentRef) (a : ReaderArena)
  : option Z * Loc * SegmentRef * ReaderArena :=
  let w := wordOf ref a in
  match segment with
  | Checked _ =>
    if WirePointer.Kind_eqb (WirePointer.kind w) WirePointer.FAR then
      match tryGetSegment (WirePointer.segmentId w) a with
      | None =>
        (None, ref, segment,
         recordError "Message contains far pointer to unknown segment." a)
      | Some id1 =>
        let ptr := WirePointer.farPositionInSegment w in
        let padWords := (1 + (if WirePointer.isDoubleFar w then 1 else 0)) * POINTER_SIZE_IN_WORDS in
        let '(ok, a1) := boundsCheck (Checked id1) ptr (ptr + padWords) a in
        if negb ok then
          (None, ref, Checked id1,
           recordError "Message contains out-of-bounds far pointer." a1)
        else
          let pad : Loc := (Checked id1, ptr) in
          if negb (WirePointer.isDoubleFar w) then
            (Some (WirePointer.target ptr (wordOf pad a1)), pad, Checked id1, a1)
          else
            let ref1 : Loc := (Checked id1, ptr + 1) in
            match tryGetSegment (WirePointer.segmentId (wordOf pad a1)) a1 with
            | None =>
              (None, ref1, Checked id1,
               recordError "Message contains double-far pointer to unknown segment." a1)
            | Some id2 =>
              let a2 :=
                DPRECOND (WirePointer.Kind_eqb (WirePointer.kind (wordOf pad a1)) WirePointer.FAR)
                  "positionInSegment() should only be called on FAR pointers." a1 in
              (Some (WirePointer.farPositionInSegment (wordOf pad a1)), ref1, Checked id2, a2)
            end
      end
    else (Some (WirePointer.target (snd ref) w), ref, segment, a)
  | Unchecked _ => (Some (WirePointer.target (snd ref) w), ref, segment, a)
  end.

(** Modelled from the spec: [StructReader], [ListReader] and [Text::Reader]
    are declared in [layout.h] and [blob.h], which are not part of the sources;
    the fields are the constructor arguments used in layout.c++, and the
    default-constructed reader has every field null or zero. *)
Record StructReader : Type := mkStructReader {
  sr_segment : SegmentRef;
  sr_data : option Z;
  sr_pointers : option Z;
  sr_dataSize : Z;             (* bits *)
  sr_pointerCount : Z;
  sr_bit0Offset : Z;
  sr_nestingLimit : Z
}.

Definition StructReader_default : StructReader :=
  mkStructReader (Unchecked []) None None 0 0 0 0.

Record ListReader : Type := mkListReader {
  lr_segment : SegmentRef;
  lr_ptr : option Z;
  lr_elementCount : Z;
  lr_step : Z;                 (* bits per element *)
  lr_structDataSize : Z;       (* bits *)
  lr_structPointerCount : Z;
  lr_nestingLimit : Z
}.

Definition ListReader_default : ListReader :=
  mkListReader (Unchecked []) None 0 0 0 0 0.

(** A [const char*]: into a segment (byte offset), or into static storage. *)
Inductive CharPtr : Type :=
| SegmentChars (s : SegmentRef) (byteOffset : Z)
| StaticChars (bytes : list Z).

Record TextReader : Type := mkTextReader { t_ptr : CharPtr; t_size : Z }.

(** The bytes viewed by a text or data reader. *)
Definition charAt (p : CharPtr) (i : Z) (a : ReaderArena) : Z :=
  match p with
  | SegmentChars s off => byteAt (arrayOf s a) (off + i)
  | StaticChars bytes => if i <? 0 then 0 else default 0 (bytes !! Z.to_nat i)
  end.

Definition textBytes (t : TextReader) (a : ReaderArena) : list Z :=
  map (fun i => charAt (t_ptr t) (Z.of_nat i) a) (seq 0 (Z.to_nat (t_size t))).

(** The part of [WireHelpers::readStructPointer] after the label [useDefault];
    [None] stands for [goto useDefault]. *)
Definition readStructPointer_checks (segment : SegmentRef) (ref : Loc) (nestingLimit : Z)
    (a : ReaderArena) : option StructReader * ReaderArena :=
  if negb (nestingLimit >? 0) then
    (None, recordError
       "Message is too deeply-nested or contains cycles.  See capnproto::ReadOptions." a)
  else
    let '(ptr, ref1, segment1, a1) := followFars ref segment a in
    match ptr with
    | None => (None, a1)
    | Some ptr =>
      let w := wordOf ref1 a1 in
      if negb (WirePointer.Kind_eqb (WirePointer.kind w) WirePointer.STRUCT) then
        (None, recordError
           "Message contains non-struct pointer where struct pointer was expected." a1)
      else
        let '(ok, a2) := boundsCheck segment1 ptr (ptr + WirePointer.wordSize w) a1 in
        if negb ok then
          (None, recordError "Message contained out-of-bounds struct pointer." a2)
        else
          (Some (mkStructReader segment1 (Some ptr) (Some (ptr + WirePointer.dataSize w))
                   (WirePointer.dataSize w * BITS_PER_WORD) (WirePointer.ptrCount w)
                   0 (nestingLimit - 1)), a2)
    end.

(** [WireHelpers::readStructPointer].  The default value is used at most
    once: [defaultValue] is reset to [nullptr] when it is taken. *)
Definition readStructPointer (segment : SegmentRef) (ref : option Loc)
    (defaultValue : option (list Z)) (nestingLimit : Z) (a : ReaderArena)
  : StructReader * ReaderArena :=
  let useDefault (a : ReaderArena) :=
    match defaultValue with
    | None => (StructReader_default, a)
    | Some blob =>
      if WirePointer.isNull (wordAt blob 0) then (StructReader_default, a)
      else
        match readStructPointer_checks (Unchecked blob) (Unchecked blob, 0) nestingLimit a with
        | (Some r, a1) => (r, a1)
        | (None, a1) => (StructReader_default, a1)
        end
    end in
  match ref with
  | None => useDefault a
  | Some r =>
    if WirePointer.isNull (wordOf r a) then useDefault a
    else
      match readStructPointer_checks segment r nestingLimit a with
      | (Some x, a1) => (x, a1)
      | (None, a1) => useDefault a1
      end
  end.

(** The part of [WireHelpers::readListPointer] after the label [useDefault]. *)
Definition readListPointer_checks (segment : SegmentRef) (ref : Loc)
    (expectedElementSize : FieldSize) (nestingLimit : Z) (a : ReaderArena)
  : option ListReader * ReaderArena :=
  if negb (nestingLimit >? 0) then
    (None, recordError
       "Message is too deeply-nested or contains cycles.  See capnproto::ReadOptions." a)
  else
    let '(ptr, ref1, segment1, a1) := followFars ref segment a in
    match ptr with
    | None => (None, a1)
    | Some ptr0 =>
      let w := wordOf ref1 a1 in
      if negb (WirePointer.Kind_eqb (WirePointer.kind w) WirePointer.LIST) then
        (None, recordError
           "Message contains non-list pointer where list pointer was expected." a1)
      else
        match WirePointer.elementSize w with
        | INLINE_COMPOSITE =>
          let wordCount := WirePointer.inlineCompositeWordCount w in
          let tagLoc : Loc := (segment1, ptr0) in
          let ptr := ptr0 + POINTER_SIZE_IN_WORDS in
          let '(ok, a2) :=
            boundsCheck segment1 (ptr - POINTER_SIZE_IN_WORDS) (ptr + wordCount) a1 in
          if negb ok then
            (None, recordError "Message contains out-of-bounds list pointer." a2)
          else
            let tag := wordOf tagLoc a2 in
            if negb (WirePointer.Kind_eqb (WirePointer.kind tag) WirePointer.STRUCT) then
              (None, recordError
                 "INLINE_COMPOSITE lists of non-STRUCT type are not supported." a2)
            else
              let size := WirePointer.inlineCompositeListElementCount tag in
              let wordsPerElement := WirePointer.wordSize tag in
              (* [size] is an [ElementCount], read from the 32-bit
                 [offsetAndKind], and [wordsPerElement] a [uint] ratio: the
                 product is a 32-bit unsigned value (the other branch widens
                 with [ElementCount64] before it multiplies). *)
              if negb (u32 (size * wordsPerElement) <=? wordCount) then
                (None, recordError
                   "INLINE_COMPOSITE list's elements overrun its word count." a2)
              else
                let result (ptr : Z) :=
                  Some (mkListReader segment1 (Some ptr) size
                          (wordsPerElement * BITS_PER_WORD)
                          (WirePointer.dataSize tag * BITS_PER_WORD)
                          (WirePointer.ptrCount tag) (nestingLimit - 1)) in
                match expectedElementSize with
                | VOID => (result ptr, a2)
                | BIT =>
                  (None, recordError "Expected a bit list, but got a list of structs." a2)
                | BYTE | TWO_BYTES | FOUR_BYTES | EIGHT_BYTES =>
                  if negb (WirePointer.dataSize tag >? 0) then
                    (None, recordError
                       "Expected a primitive list, but got a list of pointer-only structs." a2)
                  else (result ptr, a2)
                | POINTER =>
                  let ptr := ptr + WirePointer.dataSize tag in
                  if negb (WirePointer.ptrCount tag >? 0) then
                    (None, recordError
                       "Expected a pointer list, but got a list of data-only structs." a2)
                  else (result ptr, a2)
                | INLINE_COMPOSITE => (result ptr, a2)
                end
        | es =>
          let dataSize := dataBitsPerElement es in
          let pointerCount := pointersPerElement es in
          let step := dataSize + pointerCount * BITS_PER_POINTER in
          let '(ok, a2) :=
            boundsCheck segment1 ptr0
              (ptr0 + roundUpToWords_bits (WirePointer.elementCount w * step)) a1 in
          if negb ok then
            (None, recordError "Message contains out-of-bounds list pointer." a2)
          else
            let expectedDataBitsPerElement := dataBitsPerElement expectedElementSize in
            let expectedPointersPerElement := pointersPerElement expectedElementSize in
            if negb (expectedDataBitsPerElement <=? dataSize) then
              (None, recordError "Message contained list with incompatible element type." a2)
            else if negb (expectedPointersPerElement <=? pointerCount) then
              (None, recordError "Message contained list with incompatible element type." a2)
            else
              (Some (mkListReader segment1 (Some ptr0) (WirePointer.elementCount w) step
                       dataSize pointerCount (nestingLimit - 1)), a2)
        end
    end.

(** [WireHelpers::readListPointer] *)
Definition readListPointer (segment : SegmentRef) (ref : option Loc)
    (defaultValue : option (list Z)) (expectedElementSize : FieldSize) (nestingLimit : Z)
    (a : ReaderArena) : ListReader * ReaderArena :=
  let useDefault (a : ReaderArena) :=
    match defaultValue with
    | None => (ListReader_default, a)
    | Some blob =>
      if WirePointer.isNull (wordAt blob 0) then (ListReader_default, a)
      else
        match readListPointer_checks (Unchecked blob) (Unchecked blob, 0)
                expectedElementSize nestingLimit a with
        | (Some r, a1) => (r, a1)
        | (None, a1) => (ListReader_default, a1)
        end
    end in
  match ref with
  | None => useDefault a
  | Some r =>
    if WirePointer.isNull (wordOf r a) then useDefault a
    else
      match readListPointer_checks segment r expectedElementSize nestingLimit a with
      | (Some x, a1) => (x, a1)
      | (None, a1) => useDefault a1
      end
  end.

(** The label [useDefault] of [readTextPointer]: a null [defaultValue] is
    replaced by the empty string literal. *)
Definition defaultText (defaultValue : option (list Z)) (defaultSize : Z) : TextReader :=
  mkTextReader (StaticChars (match defaultValue with None => [0] | Some d => d end))
               defaultSize.

(** [WireHelpers::readTextPointer] *)
Definition readTextPointer (segment : SegmentRef) (ref : option Loc)
    (defaultValue : option (list Z)) (defaultSize : Z) (a : ReaderArena)
  : TextReader * ReaderArena :=
  let useDefault (a : ReaderArena) := (defaultText defaultValue defaultSize, a) in
  match ref with
  | None => useDefault a
  | Some r =>
    if WirePointer.isNull (wordOf r a) then useDefault a
    else
      let '(ptr, ref1, segment1, a1) := followFars r segment a in
      match ptr with
      | None => useDefault a1
      | Some ptr =>
        let w := wordOf ref1 a1 in
        let size := WirePointer.elementCount w in
        if negb (WirePointer.Kind_eqb (WirePointer.kind w) WirePointer.LIST) then
          useDefault (recordError
            "Message contains non-list pointer where text was expected." a1)
        else
          match WirePointer.elementSize w with
          | BYTE =>
            let '(ok, a2) :=
              boundsCheck segment1 ptr
                (ptr + roundUpToWords_bytes (WirePointer.elementCount w)) a1 in
            if negb ok then
              useDefault (recordError "Message contained out-of-bounds text pointer." a2)
            else if negb (size >? 0) then
              useDefault (recordError
                "Message contains text that is not NUL-terminated." a2)
            else
              let cptr := SegmentChars segment1 (8 * ptr) in
              let size := size - 1 in
              if negb (charAt cptr size a2 =? 0) then
                useDefault (recordError
                  "Message contains text that is not NUL-terminated." a2)
              else (mkTextReader cptr size, a2)
          | _ =>
            useDefault (recordError
              "Message contains list pointer of non-bytes where text was expected." a1)
          end
      end
  end.

(** [WireHelpers::readDataPointer].  A null [defaultValue] stays null: the
    reader then views no bytes. *)
Definition defaultData (defaultValue : option (list Z)) (defaultSize : Z) : TextReader :=
  mkTextReader (StaticChars (match defaultValue with None => [] | Some d => d end))
               defaultSize.

Definition readDataPointer (segment : SegmentRef) (ref : option Loc)
    (defaultValue : option (list Z)) (defaultSize : Z) (a : ReaderArena)
  : TextReader * ReaderArena :=
  let useDefault (a : ReaderArena) := (defaultData defaultValue defaultSize, a) in
  match ref with
  | None => useDefault a
  | Some r =>
    if WirePointer.isNull (wordOf r a) then useDefault a
    else
      let '(ptr, ref1, segment1, a1) := followFars r segment a in
      match ptr with
      | None => useDefault a1
      | Some ptr =>
        let w := wordOf ref1 a1 in
        let size := WirePointer.elementCount w in
        if negb (WirePointer.Kind_eqb (WirePointer.kind w) WirePointer.LIST) then
          useDefault (recordError
            "Message contains non-list pointer where data was expected." a1)
        else
          match WirePointer.elementSize w with
          | BYTE =>
            let '(ok, a2) :=
              boundsCheck segment1 ptr
                (ptr + roundUpToWords_bytes (WirePointer.elementCount w)) a1 in
            if negb ok then
              useDefault (recordError "Message contained out-of-bounds data pointer." a2)
            else (mkTextReader (SegmentChars segment1 (8 * ptr)) size, a2)
          | _ =>
            useDefault (recordError
              "Message contains list pointer of non-bytes where data was expected." a1)
          end
      end
  end.

(** *** StructReader *)

(** [ptrIndex >= pointerCount ? nullptr : pointers + ptrIndex] *)
Definition pointerField (r : StructReader) (ptrIndex : Z) : option Loc :=
  if ptrIndex >=? sr_pointerCount r then None
  else Some (sr_segment r, default 0 (sr_pointers r) + ptrIndex).

(** [StructReader::getStructField] *)
Definition getStructField (r : StructReader) (ptrIndex : Z) (defaultValue : option (list Z))
    (a : ReaderArena) : StructReader * ReaderArena :=
  readStructPointer (sr_segment r) (pointerField r ptrIndex) defaultValue (sr_nestingLimit r) a.

(** [StructReader::getListField] *)
Definition getListField (r : StructReader) (ptrIndex : Z) (expectedElementSize : FieldSize)
    (defaultValue : option (list Z)) (a : ReaderArena) : ListReader * ReaderArena :=
  readListPointer (sr_segment r) (pointerField r ptrIndex) defaultValue expectedElementSize
    (sr_nestingLimit r) a.

(** [StructReader::getBlobField<Text>] *)
Definition getBlobField_Text (r : StructReader) (ptrIndex : Z)
    (defaultValue : option (list Z)) (defaultSize : Z) (a : ReaderArena)
  : TextReader * ReaderArena :=
  readTextPointer (sr_segment r) (pointerField r ptrIndex) defaultValue defaultSize a.

(** [StructReader::getBlobField<Data>] *)
Definition getBlobField_Data (r : StructReader) (ptrIndex : Z)
    (defaultValue : option (list Z)) (defaultSize : Z) (a : ReaderArena)
  : TextReader * ReaderArena :=
  readDataPointer (sr_segment r) (pointerField r ptrIndex) defaultValue defaultSize a.

(** [StructReader::isPointerFieldNull] *)
Definition isPointerFieldNull (r : StructReader) (ptrIndex : Z) (a : ReaderArena) : bool :=
  (ptrIndex >=? sr_pointerCount r)
  || WirePointer.isNull (wordOf (sr_segment r, default 0 (sr_pointers r) + ptrIndex) a).

(** [StructReader::readRoot] *)
Definition readRoot (location : Z) (segment : nat) (nestingLimit : Z) (a : ReaderArena)
  : StructReader * ReaderArena :=
  let '(ok, a1) := boundsCheck (Checked segment) location (location + POINTER_SIZE_IN_WORDS) a in
  if negb ok then
    readStructPointer (Checked segment) None None nestingLimit
      (recordError "Root location out-of-bounds." a1)
  else
    readStructPointer (Checked segment) (Some (Checked segment, location)) None nestingLimit a1.

End Reader.

(** ** SegmentBuilder and BuilderArena (arena.h, arena.c++) *)

Module Builder.

(** A [SegmentBuilder]: the array [ptr] of the underlying [SegmentReader] and
    the bump pointer [pos], kept as a word offset from [ptr.begin()]. *)
Record SegmentBuilder : Type := mkSegmentBuilder {
  sb_words : list Z;
  sb_pos : Z
}.

Definition sb_end (s : SegmentBuilder) : Z := Z.of_nat (length (sb_words s)).

(** [SegmentBuilder::SegmentBuilder]: [pos(ptr.begin())] *)
Definition newSegmentBuilder (ptr : list Z) : SegmentBuilder := mkSegmentBuilder ptr 0.

(** [SegmentBuilder::available] *)
Definition available (s : SegmentBuilder) : Z := Reader.intervalLength (sb_pos s) (sb_end s).

(** [SegmentBuilder::allocate]: [None] is [nullptr], otherwise the old [pos]. *)
Definition sb_allocate (amount : Z) (s : SegmentBuilder) : option Z * SegmentBuilder :=
  if amount >? Reader.intervalLength (sb_pos s) (sb_end s) then (None, s)
  else (Some (sb_pos s), mkSegmentBuilder (sb_words s) (sb_pos s + amount)).

(** [SegmentBuilder::currentlyAllocated]: [arrayPtr(ptr.begin(), pos - ptr.begin())] *)
Definition currentlyAllocated (s : SegmentBuilder) : list Z :=
  take (Z.to_nat (sb_pos s)) (sb_words s).

(** [memset(start, 0, n * sizeof(word))] inside one array. *)
Definition zeroWords (start n : nat) (ws : list Z) : list Z :=
  list_inserts start (replicate n 0) ws.

(** [SegmentBuilder::reset] *)
Definition reset (s : SegmentBuilder) : SegmentBuilder :=
  let start := 0 in
  mkSegmentBuilder (zeroWords (Z.to_nat start) (Z.to_nat (sb_pos s - start)) (sb_words s)) start.

(** The arena: segment 0 and [moreSegments->builders], in id order; the empty
    list is the arena before its first allocation.  [b_message] is
    [MessageBuilder::allocateSegment] (message.h is not part of the sources):
    given the number of segments allocated so far and a minimum size it
    returns the fresh array. *)
Record BuilderArena : Type := mkBuilderArena {
  b_message : nat -> Z -> list Z;
  b_segments : list SegmentBuilder;
  b_errors : ErrorLog
}.

(** A [word*] or [WirePointer*] of a builder: segment id and word offset. *)
Definition BLoc : Type := (nat * Z)%type.

(** Builder code runs on a state and has no defined result ([None]) when the
    source dereferences outside an array, uses a segment that does not exist,
    fails a fatal [CHECK], or when the recursion budget is exhausted. *)
Definition M (A : Type) : Type := BuilderArena -> option (A * BuilderArena).

Definition ret {A : Type} (x : A) : M A := fun a => Some (x, a).
Definition fail {A : Type} : M A := fun _ => None.
Definition bind {A B : Type} (m : M A) (k : A -> M B) : M B :=
  fun a => match m a with Some (x, a1) => k x a1 | None => None end.

Notation "'let*' x ':=' m 'in' k" := (bind m (fun x => k))
  (at level 10, x pattern, m at level 100, k at level 200).
Notation "m ';;' k" := (bind m (fun _ => k))
  (at level 100, k at level 200, right associativity).

Definition set_segments (segs : list SegmentBuilder) (a : BuilderArena) : BuilderArena :=
  mkBuilderArena (b_message a) segs (b_errors a).

Definition recordError (msg : string) : M unit :=
  fun a => Some (tt, mkBuilderArena (b_message a) (b_segments a) (record msg (b_errors a))).

Definition inRange (i n : Z) (ws : list Z) : bool :=
  (0 <=? i) && (0 <=? n) && (i + n <=? Z.of_nat (length ws)).

(** [*p] *)
Definition load (p : BLoc) : M Z := fun a =>
  match b_segments a !! fst p with
  | Some s =>
    if inRange (snd p) 1 (sb_words s) then Some (wordAt (sb_words s) (snd p), a) else None
  | None => None
  end.

(** [*p = v] *)
Definition store (p : BLoc) (v : Z) : M unit := fun a =>
  match b_segments a !! fst p with
  | Some s =>
    if inRange (snd p) 1 (sb_words s) then
      Some (tt, set_segments
                  (<[fst p := mkSegmentBuilder (<[Z.to_nat (snd p) := v]> (sb_words s)) (sb_pos s)]>
                     (b_segments a)) a)
    else None
  | None => None
  end.

(** A setter applied to the pointer at [p]. *)
Definition update (p : BLoc) (f : Z -> Z) : M unit :=
  let* w := load p in store p (f w).

(** [memset(p, 0, n * sizeof(word))] *)
Definition memset0 (p : BLoc) (n : Z) : M unit := fun a =>
  match b_segments a !! fst p with
  | Some s =>
    if inRange (snd p) n (sb_words s) then
      Some (tt, set_segments
                  (<[fst p := mkSegmentBuilder
                       (zeroWords (Z.to_nat (snd p)) (Z.to_nat n) (sb_words s)) (sb_pos s)]>
                     (b_segments a)) a)
    else None
  | None => None
  end.

(** The [n] words starting at [p]. *)
Definition loadWords (p : BLoc) (n : Z) : M (list Z) := fun a =>
  match b_segments a !! fst p with
  | Some s =>
    if inRange (snd p) n (sb_words s) then
      Some (take (Z.to_nat n) (drop (Z.to_nat (snd p)) (sb_words s)), a)
    else None
  | None => None
  end.

Definition storeWords (p : BLoc) (vs : list Z) : M unit := fun a =>
  match b_segments a !! fst p with
  | Some s =>
    if inRange (snd p) (Z.of_nat (length vs)) (sb_words s) then
      Some (tt, set_segments
                  (<[fst p := mkSegmentBuilder
                       (list_inserts (Z.to_nat (snd p)) vs (sb_words s)) (sb_pos s)]>
                     (b_segments a)) a)
    else None
  | None => None
  end.

(** [memcpy(dst, src, n * sizeof(word))] between builder arrays. *)
Definition memcpy (dst src : BLoc) (n : Z) : M unit :=
  let* vs := loadWords src n in storeWords dst vs.

(** [for (uint i = 0; i < n; i++) body(i)] *)
Fixpoint forLoop (n : nat) (i : Z) (body : Z -> M unit) : M unit :=
  match n with
  | O => ret tt
  | S n1 => body i ;; forLoop n1 (i + 1) body
  end.

(** [SegmentBuilder::allocate] on segment [id] of the arena. *)
Definition segAllocate (id : nat) (amount : Z) : M (option Z) := fun a =>
  match b_segments a !! id with
  | Some s =>
    let '(r, s1) := sb_allocate amount s in
    Some (r, set_segments (<[id := s1]> (b_segments a)) a)
  | None => None
  end.

(** [BuilderArena::getSegment]: crashes when the id is not valid. *)
Definition getSegment (id : Z) : M nat := fun a =>
  if (0 <=? id) && (id <? Z.of_nat (length (b_segments a))) then Some (Z.to_nat id, a)
  else None.

(** [BuilderArena::getSegmentWithAvailable] *)
Definition getSegmentWithAvailable (minimumAvailable : Z) : M nat := fun a =>
  match b_segments a with
  | [] =>
    (* We're allocating the first segment. *)
    let ptr := b_message a 0%nat minimumAvailable in
    Some (0%nat, set_segments [newSegmentBuilder ptr] a)
  | segment0 :: more =>
    if available segment0 >=? minimumAvailable then Some (0%nat, a)
    else
      let fresh :=
        let n := length (b_segments a) in
        let ptr := b_message a n minimumAvailable in
        Some (n, set_segments (b_segments a ++ [newSegmentBuilder ptr]) a) in
      match last more with
      | None => fresh
      | Some back =>
        if available back >=? minimumAvailable then Some (length more, a) else fresh
      end
  end.

(** [BuilderArena::getSegmentsForOutput] *)
Definition getSegmentsForOutput (a : BuilderArena) : list (list Z) :=
  map currentlyAllocated (b_segments a).


(** ** Builders of layout.c++ *)

(** Modelled from the spec: [StructSize] and [StructBuilder] are declared in
    [layout.h], which is not part of the sources; the fields are those used in
    layout.c++. *)
Record StructSize : Type := mkStructSize {
  ss_data : Z;                 (* WordCount16 *)
  ss_pointers : Z              (* WirePointerCount16 *)
}.

Definition ss_total (size : StructSize) : Z :=
  ss_data size + ss_pointers size * WORDS_PER_POINTER.

Record StructBuilder : Type := mkStructBuilder {
  stb_segment : nat;
  stb_data : BLoc;
  stb_pointers : BLoc;
  stb_dataSize : Z;            (* bits *)
  stb_pointerCount : Z;
  stb_bit0Offset : Z
}.

(** [p + n] *)
Definition plus (p : BLoc) (n : Z) : BLoc := (fst p, snd p + n).

(** [ref->setKindAndTarget(kind, target)]: the difference of two pointers is
    defined only inside one array. *)
Definition setKindAndTarget (ref : BLoc) (k : WirePointer.Kind) (tgt : BLoc) : M unit :=
  if Nat.eqb (fst ref) (fst tgt) then
    update ref (WirePointer.setKindAndTarget (snd ref) k (snd tgt))
  else fail.

(** [ref->target()] *)
Definition targetOf (ref : BLoc) (w : Z) : BLoc := (fst ref, WirePointer.target (snd ref) w).

(** [WireHelpers::followFars] (builder overload): the target, with the updated
    [ref] and [segment]. *)
Definition followFars (ref : BLoc) (segment : nat) : M (BLoc * BLoc * nat) :=
  let* w := load ref in
  if WirePointer.Kind_eqb (WirePointer.kind w) WirePointer.FAR then
    let* segment1 := getSegment (WirePointer.segmentId w) in
    let pad : BLoc := (segment1, WirePointer.farPositionInSegment w) in
    if negb (WirePointer.isDoubleFar w) then
      let* padw := load pad in
      ret (targetOf pad padw, pad, segment1)
    else
      let* padw := load pad in
      let* segment2 := getSegment (WirePointer.segmentId padw) in
      ret ((segment2, WirePointer.farPositionInSegment padw), plus pad 1, segment2)
  else ret (targetOf ref w, ref, segment).

(** [WireHelpers::zeroObject(segment, tag, ptr)]; [zeroRef] is the overload
    [zeroObject(segment, ref)], called recursively. *)
Definition zeroObject_tag (zeroRef : nat -> BLoc -> M unit)
    (segment : nat) (tag : BLoc) (ptr : BLoc) : M unit :=
  let* t := load tag in
  match WirePointer.kind t with
  | WirePointer.STRUCT =>
    let pointerSection := plus ptr (WirePointer.dataSize t) in
    let count := WirePointer.ptrCount t in
    forLoop (Z.to_nat count) 0 (fun i => zeroRef segment (plus pointerSection i)) ;;
    let* t1 := load tag in
    memset0 ptr (WirePointer.wordSize t1)
  | WirePointer.LIST =>
    match WirePointer.elementSize t with
    | VOID => ret tt
    | BIT | BYTE | TWO_BYTES | FOUR_BYTES | EIGHT_BYTES =>
      memset0 ptr
        (Reader.roundUpToWords_bits
           (WirePointer.elementCount t * dataBitsPerElement (WirePointer.elementSize t)))
    | POINTER =>
      let count := WirePointer.elementCount t in
      forLoop (Z.to_nat count) 0 (fun i => zeroRef segment (plus ptr i))
    | INLINE_COMPOSITE =>
      let elementTag := ptr in
      let* et := load elementTag in
      if negb (WirePointer.Kind_eqb (WirePointer.kind et) WirePointer.STRUCT) then fail
      else
        let dataSize := WirePointer.dataSize et in
        let pointerCount := WirePointer.ptrCount et in
        let pos := plus ptr POINTER_SIZE_IN_WORDS in
        let count := WirePointer.inlineCompositeListElementCount et in
        (* [pos] advances by [dataSize] per element and by one word per
           pointer: pointer [j] of element [i] is at the offset below. *)
        forLoop (Z.to_nat count) 0 (fun i =>
          forLoop (Z.to_nat pointerCount) 0 (fun j =>
            zeroRef segment
              (plus pos (i * (dataSize + pointerCount * POINTER_SIZE_IN_WORDS)
                         + dataSize + j * POINTER_SIZE_IN_WORDS)))) ;;
        let* et1 := load elementTag in
        memset0 ptr (WirePointer.wordSize et1 + POINTER_SIZE_IN_WORDS)
    end
  | WirePointer.FAR => recordError "Unexpected FAR pointer."
  | WirePointer.RESERVED_3 => recordError "Don't know how to handle RESERVED_3."
  end.

(** [WireHelpers::zeroObject(segment, ref)] *)
Fixpoint zeroObject (fuel : nat) (segment : nat) (ref : BLoc) : M unit :=
  match fuel with
  | O => fail
  | S fuel1 =>
    let* w := load ref in
    match WirePointer.kind w with
    | WirePointer.STRUCT | WirePointer.LIST =>
      zeroObject_tag (zeroObject fuel1) segment ref (targetOf ref w)
    | WirePointer.FAR =>
      let* segment1 := getSegment (WirePointer.segmentId w) in
      let pad : BLoc := (segment1, WirePointer.farPositionInSegment w) in
      if WirePointer.isDoubleFar w then
        let* padw := load pad in
        let* segment2 := getSegment (WirePointer.segmentId padw) in
        zeroObject_tag (zeroObject fuel1) segment2 (plus pad 1)
          (segment2, WirePointer.farPositionInSegment padw) ;;
        memset0 pad 2
      else
        zeroObject fuel1 segment1 pad ;;
        memset0 pad 1
    | WirePointer.RESERVED_3 => recordError "Don't know how to handle RESERVED_3."
    end
  end.

(** [WireHelpers::zeroPointerAndFars] *)
Definition zeroPointerAndFars (segment : nat) (ref : BLoc) : M unit :=
  let* w := load ref in
  (if WirePointer.Kind_eqb (WirePointer.kind w) WirePointer.FAR then
     let* padSegment := getSegment (WirePointer.segmentId w) in
     memset0 (padSegment, WirePointer.farPositionInSegment w)
       (1 + (if WirePointer.isDoubleFar w then 1 else 0))
   else ret tt) ;;
  memset0 ref 1.

(** [WireHelpers::allocate]: the allocated words, with the updated [ref] and
    [segment]. *)
Definition allocate (fuel : nat) (ref : BLoc) (segment : nat) (amount : Z)
    (k : WirePointer.Kind) : M (BLoc * BLoc * nat) :=
  let* w := load ref in
  (if negb (WirePointer.isNull w) then zeroObject fuel segment ref else ret tt) ;;
  let* ptr := segAllocate segment amount in
  match ptr with
  | None =>
    (* Need to allocate in a new segment. *)
    let amountPlusRef := amount + POINTER_SIZE_IN_WORDS in
    let* segment1 := getSegmentWithAvailable amountPlusRef in
    let* ptr1 := segAllocate segment1 amountPlusRef in
    match ptr1 with
    | None => fail
    | Some ptr1 =>
      update ref (WirePointer.setFar false ptr1) ;;
      update ref (WirePointer.farRef_set (Z.of_nat segment1)) ;;
      let ref1 : BLoc := (segment1, ptr1) in
      setKindAndTarget ref1 k (segment1, ptr1 + POINTER_SIZE_IN_WORDS) ;;
      ret ((segment1, ptr1 + POINTER_SIZE_IN_WORDS), ref1, segment1)
    end
  | Some ptr =>
    setKindAndTarget ref k (segment, ptr) ;;
    ret ((segment, ptr), ref, segment)
  end.


(** [WireHelpers::transferPointer] *)
Definition transferPointer (dstSegment : nat) (dst : BLoc) (srcSegment : nat) (src : BLoc)
  : M unit :=
  let* s := load src in
  if WirePointer.isNull s then memset0 dst 1
  else if WirePointer.Kind_eqb (WirePointer.kind s) WirePointer.FAR then
    (* Far pointers are position-independent, so we can just copy. *)
    store dst s
  else if Nat.eqb dstSegment srcSegment then
    (* Same segment, so create a direct pointer. *)
    setKindAndTarget dst (WirePointer.kind s) (targetOf src s) ;;
    update dst (WirePointer.set_upper32Bits (WirePointer.upper32Bits s))
  else
    let* landingPad := segAllocate srcSegment 1 in
    match landingPad with
    | None =>
      (* Darn, need a double-far. *)
      let* farSegment := getSegmentWithAvailable 2 in
      let* landingPad := segAllocate farSegment 2 in
      match landingPad with
      | None => fail
      | Some pad =>
        let pad0 : BLoc := (farSegment, pad) in
        let pad1 : BLoc := (farSegment, pad + 1) in
        update pad0 (WirePointer.setFar false (snd (targetOf src s))) ;;
        update pad0 (WirePointer.farRef_set (Z.of_nat srcSegment)) ;;
        update pad1 (WirePointer.setKindWithZeroOffset (WirePointer.kind s)) ;;
        update pad1 (WirePointer.set_upper32Bits (WirePointer.upper32Bits s)) ;;
        update dst (WirePointer.setFar true pad) ;;
        update dst (WirePointer.farRef_set (Z.of_nat farSegment))
      end
    | Some pad =>
      (* Simple landing pad is just a pointer. *)
      let landingPad : BLoc := (srcSegment, pad) in
      setKindAndTarget landingPad (WirePointer.kind s) (targetOf src s) ;;
      update landingPad (WirePointer.set_upper32Bits (WirePointer.upper32Bits s)) ;;
      update dst (WirePointer.setFar false pad) ;;
      update dst (WirePointer.farRef_set (Z.of_nat srcSegment))
    end.

(** [WireHelpers::initStructPointer] *)
Definition initStructPointer (fuel : nat) (ref : BLoc) (segment : nat) (size : StructSize)
  : M StructBuilder :=
  let* (ptr, ref1, segment1) := allocate fuel ref segment (ss_total size) WirePointer.STRUCT in
  update ref1 (WirePointer.structRef_set (ss_data size) (ss_pointers size)) ;;
  ret (mkStructBuilder segment1 ptr (plus ptr (ss_data size))
         (ss_data size * BITS_PER_WORD) (ss_pointers size) 0).

(** The words [src .. src + n) of a default value. *)
Definition blobWords (blob : list Z) (src n : Z) : list Z :=
  map (fun i => wordAt blob (src + Z.of_nat i)) (seq 0 (Z.to_nat n)).

(** [WireHelpers::copyStruct]; [copy] is [copyMessage], called recursively. *)
Definition copyStruct_with (copy : nat -> BLoc -> Z -> M (option BLoc * BLoc * nat))
    (segment : nat) (dst : BLoc) (blob : list Z) (src : Z) (dataSize pointerCount : Z)
  : M unit :=
  storeWords dst (blobWords blob src dataSize) ;;
  let srcRefs := src + dataSize in
  let dstRefs := plus dst dataSize in
  forLoop (Z.to_nat pointerCount) 0 (fun i =>
    let subSegment := segment in
    let dstRef := plus dstRefs i in
    copy subSegment dstRef (srcRefs + i) ;; ret tt).

(** [WireHelpers::copyMessage]: the source is a default value, an unchecked
    array [blob] read at word [src].  Returns the copy ([None] is [nullptr])
    with the updated [dst] and [segment]. *)
Fixpoint copyMessage (fuel : nat) (blob : list Z) (segment : nat) (dst : BLoc) (src : Z)
  : M (option BLoc * BLoc * nat) :=
  match fuel with
  | O => fail
  | S fuel1 =>
    let s := wordAt blob src in
    match WirePointer.kind s with
    | WirePointer.STRUCT =>
      if WirePointer.isNull s then
        memset0 dst 1 ;; ret (None, dst, segment)
      else
        let srcPtr := WirePointer.target src s in
        let* (dstPtr, dst1, segment1) :=
          allocate fuel dst segment (WirePointer.wordSize s) WirePointer.STRUCT in
        copyStruct_with (copyMessage fuel1 blob) segment1 dstPtr blob srcPtr
          (WirePointer.dataSize s) (WirePointer.ptrCount s) ;;
        update dst1 (WirePointer.structRef_set (WirePointer.dataSize s) (WirePointer.ptrCount s)) ;;
        ret (Some dstPtr, dst1, segment1)
    | WirePointer.LIST =>
      match WirePointer.elementSize s with
      | POINTER =>
        let srcRefs := WirePointer.target src s in
        let* (dstRefs, dst1, segment1) :=
          allocate fuel dst segment (WirePointer.elementCount s * WORDS_PER_POINTER)
            WirePointer.LIST in
        let n := WirePointer.elementCount s in
        forLoop (Z.to_nat n) 0 (fun i =>
          let subSegment := segment1 in
          let dstRef := plus dstRefs i in
          copyMessage fuel1 blob subSegment dstRef (srcRefs + i) ;; ret tt) ;;
        update dst1 (WirePointer.listRef_set POINTER (WirePointer.elementCount s)) ;;
        ret (Some dstRefs, dst1, segment1)
      | INLINE_COMPOSITE =>
        let srcPtr := WirePointer.target src s in
        let* (dstPtr, dst1, segment1) :=
          allocate fuel dst segment
            (WirePointer.inlineCompositeWordCount s + POINTER_SIZE_IN_WORDS) WirePointer.LIST in
        update dst1 (WirePointer.listRef_setInlineComposite
                       (WirePointer.inlineCompositeWordCount s)) ;;
        let srcTag := wordAt blob srcPtr in
        store dstPtr srcTag ;;
        let srcElement := srcPtr + POINTER_SIZE_IN_WORDS in
        let dstElement := plus dstPtr POINTER_SIZE_IN_WORDS in
        if negb (WirePointer.Kind_eqb (WirePointer.kind srcTag) WirePointer.STRUCT) then fail
        else
          let n := WirePointer.inlineCompositeListElementCount srcTag in
          forLoop (Z.to_nat n) 0 (fun i =>
            copyStruct_with (copyMessage fuel1 blob) segment1
              (plus dstElement (i * WirePointer.wordSize srcTag)) blob
              (srcElement + i * WirePointer.wordSize srcTag)
              (WirePointer.dataSize srcTag) (WirePointer.ptrCount srcTag)) ;;
          ret (Some dstPtr, dst1, segment1)
      | es =>
        let wordCount :=
          Reader.roundUpToWords_bits (WirePointer.elementCount s * dataBitsPerElement es) in
        let srcPtr := WirePointer.target src s in
        let* (dstPtr, dst1, segment1) := allocate fuel dst segment wordCount WirePointer.LIST in
        storeWords dstPtr (blobWords blob srcPtr wordCount) ;;
        update dst1 (WirePointer.listRef_set es (WirePointer.elementCount s)) ;;
        ret (Some dstPtr, dst1, segment1)
      end
    | _ => fail
    end
  end.

(** The part of [WireHelpers::getWritableStructPointer] from [followFars] on;
    [None] stands for [goto useDefault]. *)
Definition getWritableStructPointer_existing (fuel : nat) (ref : BLoc) (segment : nat)
    (size : StructSize) : M (option StructBuilder) :=
  let* (oldPtr, oldRef, oldSegment) := followFars ref segment in
  let* ow := load oldRef in
  if negb (WirePointer.Kind_eqb (WirePointer.kind ow) WirePointer.STRUCT) then
    recordError "Message contains non-struct pointer where struct pointer was expected." ;;
    ret None
  else
    let oldDataSize := WirePointer.dataSize ow in
    let oldPointerCount := WirePointer.ptrCount ow in
    let oldPointerSection := plus oldPtr oldDataSize in
    if (oldDataSize <? ss_data size) || (oldPointerCount <? ss_pointers size) then
      (* The space allocated for this struct is too small. *)
      let newDataSize := Z.max oldDataSize (ss_data size) in
      let newPointerCount := Z.max oldPointerCount (ss_pointers size) in
      let totalSize := newDataSize + newPointerCount * WORDS_PER_POINTER in
      (* Don't let allocate() zero out the object just yet. *)
      zeroPointerAndFars segment ref ;;
      let* (ptr, ref1, segment1) := allocate fuel ref segment totalSize WirePointer.STRUCT in
      update ref1 (WirePointer.structRef_set newDataSize newPointerCount) ;;
      (* Copy data section. *)
      memcpy ptr oldPtr oldDataSize ;;
      (* Copy pointer section. *)
      let newPointerSection := plus ptr newDataSize in
      forLoop (Z.to_nat oldPointerCount) 0 (fun i =>
        transferPointer segment1 (plus newPointerSection i)
                        oldSegment (plus oldPointerSection i)) ;;
      (* Zero out old location. *)
      memset0 oldPtr (oldDataSize + oldPointerCount * WORDS_PER_POINTER) ;;
      ret (Some (mkStructBuilder segment1 ptr newPointerSection
                   (newDataSize * BITS_PER_WORD) newPointerCount 0))
    else
      ret (Some (mkStructBuilder oldSegment oldPtr oldPointerSection
                   (oldDataSize * BITS_PER_WORD) oldPointerCount 0)).

(** [WireHelpers::getWritableStructPointer].  The default value is used at
    most once: [defaultValue] is reset to [nullptr] when it is copied. *)
Definition getWritableStructPointer (fuel : nat) (ref : BLoc) (segment : nat)
    (size : StructSize) (defaultValue : option (list Z)) : M StructBuilder :=
  let useDefault : M StructBuilder :=
    let init := initStructPointer fuel ref segment size in
    match defaultValue with
    | None => init
    | Some blob =>
      if WirePointer.isNull (wordAt blob 0) then init
      else
        let* (_, ref1, segment1) := copyMessage fuel blob segment ref 0 in
        let* r := getWritableStructPointer_existing fuel ref1 segment1 size in
        match r with
        | Some b => ret b
        | None => initStructPointer fuel ref1 segment1 size
        end
    end in
  let* w := load ref in
  if WirePointer.isNull w then useDefault
  else
    let* r := getWritableStructPointer_existing fuel ref segment size in
    match r with
    | Some b => ret b
    | None => useDefault
    end.

(** [StructBuilder::getStructField] *)
Definition getStructField (fuel : nat) (b : StructBuilder) (ptrIndex : Z) (size : StructSize)
    (defaultValue : option (list Z)) : M StructBuilder :=
  getWritableStructPointer fuel (plus (stb_pointers b) ptrIndex) (stb_segment b) size
    defaultValue.

(** Modelled from the spec: [ListBuilder] is declared in [layout.h], which is
    not part of the sources; the fields are the constructor arguments used in
    layout.c++. *)
Record ListBuilder : Type := mkListBuilder {
  lb_segment : nat;
  lb_ptr : BLoc;
  lb_step : Z;                 (* bits per element *)
  lb_elementCount : Z;
  lb_structDataSize : Z;       (* bits *)
  lb_structPointerCount : Z
}.

(** [WireHelpers::initListPointer].  The debug precondition excludes
    [INLINE_COMPOSITE], for which the call has no defined result. *)
Definition initListPointer (fuel : nat) (ref : BLoc) (segment : nat) (elementCount : Z)
    (elementSize : FieldSize) : M ListBuilder :=
  match elementSize with
  | INLINE_COMPOSITE => fail
  | _ =>
    let dataSize := dataBitsPerElement elementSize in
    let pointerCount := pointersPerElement elementSize in
    let step := dataSize + pointerCount * BITS_PER_POINTER in
    (* Calculate size of the list. *)
    let wordCount := Reader.roundUpToWords_bits (elementCount * step) in
    (* Allocate the list. *)
    let* (ptr, ref1, segment1) := allocate fuel ref segment wordCount WirePointer.LIST in
    (* Initialize the pointer. *)
    update ref1 (WirePointer.listRef_set elementSize elementCount) ;;
    ret (mkListBuilder segment1 ptr step elementCount dataSize pointerCount)
  end.

(** [StructBuilder::initStructField] *)
Definition initStructField (fuel : nat) (b : StructBuilder) (ptrIndex : Z) (size : StructSize)
  : M StructBuilder :=
  initStructPointer fuel (plus (stb_pointers b) ptrIndex) (stb_segment b) size.

(** [StructBuilder::initListField] *)
Definition initListField (fuel : nat) (b : StructBuilder) (ptrIndex : Z)
    (elementSize : FieldSize) (elementCount : Z) : M ListBuilder :=
  initListPointer fuel (plus (stb_pointers b) ptrIndex) (stb_segment b) elementCount
    elementSize.

End Builder.

(** ** Packed codec (serialize-packed.c++) *)

Module Packed.

(** Eight consecutive input bytes, [in[0]] .. [in[7]]. *)
Record word8 : Type := W8 {
  b0 : Z; b1 : Z; b2 : Z; b3 : Z; b4 : Z; b5 : Z; b6 : Z; b7 : Z
}.

Definition bytes (w : word8) : list Z :=
  [b0 w; b1 w; b2 w; b3 w; b4 w; b5 w; b6 w; b7 w].

Definition zeroWord : word8 := W8 0 0 0 0 0 0 0 0.

(** A byte array of whole words, eight bytes at a time. *)
Fixpoint toWords (bs : list Z) : list word8 :=
  match bs with
  | x0 :: x1 :: x2 :: x3 :: x4 :: x5 :: x6 :: x7 :: rest =>
    W8 x0 x1 x2 x3 x4 x5 x6 x7 :: toWords rest
  | _ => []
  end.

(** *** PackedOutputStream *)

(** The write buffer in use: [pending] are the bytes between [buffer.begin()]
    and [out], [room] is [buffer.end() - out]; [written] are the bytes handed
    to the inner stream so far. *)
Record OutState : Type := mkOutState {
  written : list Z;
  pending : list Z;
  room : Z
}.

(** [*out++ = b] for each byte of [bs] *)
Definition emit (bs : list Z) (st : OutState) : OutState :=
  mkOutState (written st) (pending st ++ bs) (room st - Z.of_nat (length bs)).

(** [inner.write(buffer.begin(), out - buffer.begin())] *)
Definition flush (st : OutState) : list Z := written st ++ pending st.

(** [uint8_t bit = *in != 0] *)
Definition bit (b : Z) : Z := if b =? 0 then 0 else 1.

(** [HANDLE_BYTE(n)]: [*out = *in; out += bit; ++in].  The byte stored at
    [out] stays in the output only when [out] advances. *)
Definition HANDLE_BYTE (b : Z) (out : list Z) : list Z :=
  if bit b =? 1 then out ++ [b] else out.

(** The tag of a word and the bytes that follow it in the output. *)
Definition tagOf (w : word8) : Z :=
  u8 (Z.lor (Z.lor (Z.lor (Z.lor (Z.lor (Z.lor (Z.lor
       (Z.shiftl (bit (b0 w)) 0) (Z.shiftl (bit (b1 w)) 1)) (Z.shiftl (bit (b2 w)) 2))
       (Z.shiftl (bit (b3 w)) 3)) (Z.shiftl (bit (b4 w)) 4)) (Z.shiftl (bit (b5 w)) 5))
       (Z.shiftl (bit (b6 w)) 6)) (Z.shiftl (bit (b7 w)) 7)).

Definition handleBytes (w : word8) : list Z :=
  HANDLE_BYTE (b7 w) (HANDLE_BYTE (b6 w) (HANDLE_BYTE (b5 w) (HANDLE_BYTE (b4 w)
    (HANDLE_BYTE (b3 w) (HANDLE_BYTE (b2 w) (HANDLE_BYTE (b1 w) (HANDLE_BYTE (b0 w) []))))))).

(** [while (inWord < limit && *inWord == 0) ++inWord]: the number of words
    skipped, [limit] words being left before the limit. *)
Fixpoint zeroRun (limit : nat) (input : list word8) : nat :=
  match limit, input with
  | S limit1, w :: rest =>
    if forallb (fun b => b =? 0) (bytes w) then S (zeroRun limit1 rest) else 0%nat
  | _, _ => 0%nat
  end.

(** The number [c] of zero bytes among the eight bytes of a word. *)
Definition zeroCount (w : word8) : Z :=
  fold_left (fun c b => c + (if b =? 0 then 1 else 0)) (bytes w) 0.

(** [while (in < limit) { ...; if (c >= 2) { in -= 8; break; } }] *)
Fixpoint literalRun (limit : nat) (input : list word8) : nat :=
  match limit, input with
  | S limit1, w :: rest =>
    if zeroCount w >=? 2 then 0%nat else S (literalRun limit1 rest)
  | _, _ => 0%nat
  end.

Section Write.

(** The size of the buffer handed out by [inner.getWriteBuffer()], which may
    depend on what the inner stream has received so far ([BufferedOutputStream]
    is declared in io.h, not part of the sources). *)
Variable getWriteBuffer : list Z -> Z.

(** The loop [while (in < inEnd)] of [PackedOutputStream::write]; [fuel]
    bounds the number of iterations. *)
Fixpoint writeLoop (fuel : nat) (input : list word8) (st : OutState) : OutState :=
  match fuel, input with
  | S fuel1, w :: rest =>
    let st :=
      if room st <? 10 then
        (* Out of space: write what we have so far and use the slow buffer. *)
        mkOutState (flush st) [] 20
      else st in
    let tag := tagOf w in
    let st := emit (tag :: handleBytes w) st in
    if tag =? 0 then
      let count := zeroRun 255 rest in
      let st := emit [u8 (Z.of_nat count)] st in
      writeLoop fuel1 (drop count rest) st
    else if tag =? 255 then
      let n := literalRun 255 rest in
      let count := 8 * Z.of_nat n in
      let st := emit [u8 (count / 8)] st in
      let run := flat_map bytes (take n rest) in
      if count <=? room st then
        (* There's enough space to memcpy. *)
        writeLoop fuel1 (drop n rest) (emit run st)
      else
        (* Input overruns the output buffer. *)
        let w1 := flush st ++ run in
        writeLoop fuel1 (drop n rest) (mkOutState w1 [] (getWriteBuffer w1))
    else writeLoop fuel1 rest st
  | _, _ => st
  end.

(** [PackedOutputStream::write]: the bytes received by the inner stream, which
    had received [before]. *)
Definition write (before : list Z) (src : list word8) : list Z :=
  let st := mkOutState before [] (getWriteBuffer before) in
  flush (writeLoop (length src) src st).

End Write.

(** *** PackedInputStream *)

(** Modelled from the spec: [BufferedInputStream] is declared in io.h, which is
    not part of the sources.  The inner stream is the list of buffers it will
    hand out, in order: [getReadBuffer] is the first of them (empty at the end
    of the stream), [skip] and [read] consume bytes from the front. *)
Definition Inner : Type := list (list Z).

Definition getReadBuffer (s : Inner) : list Z :=
  match s with [] => [] | c :: _ => c end.

Fixpoint innerSkip (n : nat) (s : Inner) : Inner :=
  match s with
  | [] => []
  | c :: s1 =>
    if (n <? length c)%nat then drop n c :: s1
    else innerSkip (n - length c) s1
  end.

Fixpoint innerTake (n : nat) (s : Inner) : list Z :=
  match s with
  | [] => []
  | c :: s1 =>
    if (n <=? length c)%nat then take n c
    else c ++ innerTake (n - length c) s1
  end.

(** [inner.read(out, n)]: exactly [n] bytes; no result when the stream ends
    before. *)
Definition innerRead (n : nat) (s : Inner) : option (list Z * Inner) :=
  if (n <=? length (concat s))%nat then Some (innerTake n s, innerSkip n s) else None.

(** What [PackedInputStream::read] returns and leaves behind. *)
Record ReadResult : Type := mkReadResult {
  bytesRead : Z;               (* the return value *)
  output : list Z;             (* the bytes stored at [dst] *)
  stream : Inner;              (* the inner stream afterwards *)
  readErrors : ErrorLog
}.

(** The reader's position: [cur] are the bytes from [in] to [BUFFER_END],
    [next] is the inner stream once [buffer] is skipped whole. *)
Record InState : Type := mkInState {
  cur : list Z;
  next : Inner;
  out : list Z;                (* the bytes from [dst] to [out] *)
  buf : list Z                 (* [buffer], as [getReadBuffer] handed it out *)
}.

(** [inner.skip(in - buffer.begin())]: the rest of the buffer stays in the
    inner stream. *)
Definition unconsumed (st : InState) : Inner :=
  match cur st with [] => next st | _ => cur st :: next st end.

(** A return without [inner.skip]: the whole of [buffer] is still in the
    inner stream. *)
Definition unskipped (st : InState) : Inner :=
  match buf st with [] => next st | buffer => buffer :: next st end.

(** [REFRESH_BUFFER()]: [None] when the new buffer is empty. *)
Definition REFRESH_BUFFER (st : InState) : option InState :=
  match getReadBuffer (next st) with
  | [] => None
  | c => Some (mkInState c (tl (next st)) (out st) c)
  end.

Definition prematureEnd (minBytes : Z) (st : InState) (log : ErrorLog) : ReadResult :=
  mkReadResult minBytes (out st) (next st) (record "Premature end of packed input." log).

(** [tag & (1u << i)] *)
Definition tagBit (tag : Z) (i : Z) : bool := negb (Z.land tag (Z.shiftl 1 i) =? 0).

(** One round of the loop [for (uint i = 0; i < 8; i++)] of the slow path:
    the left result is an early return from [read]. *)
Definition slowByte (minBytes : Z) (log : ErrorLog) (tag : Z) (i : Z) (st : InState)
  : ReadResult + InState :=
  if tagBit tag i then
    let st1 :=
      match cur st with
      | [] => REFRESH_BUFFER st
      | _ => Some st
      end in
    match st1 with
    | None => inl (prematureEnd minBytes st log)
    | Some st1 =>
      match cur st1 with
      | b :: cur1 => inr (mkInState cur1 (next st1) (out st1 ++ [b]) (buf st1))
      | [] => inr st1
      end
    end
  else inr (mkInState (cur st) (next st) (out st ++ [0]) (buf st)).

Fixpoint slowBytes (minBytes : Z) (log : ErrorLog) (tag : Z) (n : nat) (i : Z) (st : InState)
  : ReadResult + InState :=
  match n with
  | O => inr st
  | S n1 =>
    match slowByte minBytes log tag i st with
    | inl r => inl r
    | inr st1 => slowBytes minBytes log tag n1 (i + 1) st1
    end
  end.

(** [HANDLE_BYTE(n)] of the fast path:
    [*out++ = *in & (-(int8_t)isNonzero); in += isNonzero]. *)
Definition HANDLE_BYTE_in (tag : Z) (n : Z) (st : InState) : InState :=
  let isNonzero := tagBit tag n in
  let b := Z.land (hd 0 (cur st)) (- (if isNonzero then 1 else 0)) in
  mkInState (if isNonzero then tl (cur st) else cur st) (next st) (out st ++ [b]) (buf st).

(** The part of the loop body after the eight bytes of the tag's word;
    [continue_] is the next round of the loop. *)
Definition afterWord (continue_ : InState -> option ReadResult) (minBytes maxBytes : Z)
    (log : ErrorLog) (tag : Z) (st : InState) : option ReadResult :=
  let outLen (st : InState) := Z.of_nat (length (out st)) in
  (* [if (out == outEnd) { inner.skip(in - buffer.begin()); return maxBytes; }] *)
  let finish (st : InState) : option ReadResult :=
    if outLen st =? maxBytes then
      Some (mkReadResult maxBytes (out st) (unconsumed st) log)
    else continue_ st in
  (* [return std::max<size_t>(minBytes, out - dst)], without [inner.skip] *)
  let overrun (st : InState) : option ReadResult :=
    Some (mkReadResult (Z.max minBytes (outLen st)) (out st) (unskipped st)
            (record "Packed input did not end cleanly on a segment boundary." log)) in
  if tag =? 0 then
    match cur st with
    | [] => None
    | c :: cur1 =>
      let st := mkInState cur1 (next st) (out st) (buf st) in
      let runLength := c * 8 in
      if negb (runLength <=? maxBytes - outLen st) then overrun st
      else
        finish (mkInState (cur st) (next st)
                  (out st ++ replicate (Z.to_nat runLength) 0) (buf st))
    end
  else if tag =? 255 then
    match cur st with
    | [] => None
    | c :: cur1 =>
      let st := mkInState cur1 (next st) (out st) (buf st) in
      let runLength := c * 8 in
      if negb (runLength <=? maxBytes - outLen st) then overrun st
      else
        let inRemaining := Z.of_nat (length (cur st)) in
        if inRemaining >=? runLength then
          (* Fast path. *)
          finish (mkInState (drop (Z.to_nat runLength) (cur st)) (next st)
                    (out st ++ take (Z.to_nat runLength) (cur st)) (buf st))
        else
          (* Copy over the first buffer, then do one big read for the rest. *)
          let out1 := out st ++ cur st in
          let runLength := runLength - inRemaining in
          match innerRead (Z.to_nat runLength) (next st) with
          | None => None
          | Some (bs, inner1) =>
            let out2 := out1 ++ bs in
            if Z.of_nat (length out2) =? maxBytes then
              Some (mkReadResult maxBytes out2 inner1 log)
            else
              continue_ (mkInState (getReadBuffer inner1) (tl inner1) out2
                           (getReadBuffer inner1))
          end
    end
  else finish st.

(** The loop [for (;;)] of [PackedInputStream::read]; no result ([None]) when
    [fuel] iterations are not enough or the inner stream ends inside a
    pass-through run. *)
Fixpoint readLoop (fuel : nat) (minBytes maxBytes : Z) (log : ErrorLog) (st : InState)
  : option ReadResult :=
  match fuel with
  | O => None
  | S fuel1 =>
    let continue_ := readLoop fuel1 minBytes maxBytes log in
    let BUFFER_REMAINING := Z.of_nat (length (cur st)) in
    if BUFFER_REMAINING <? 10 then
      if Z.of_nat (length (out st)) >=? minBytes then
        (* We read at least the minimum amount, so go ahead and return. *)
        Some (mkReadResult (Z.of_nat (length (out st))) (out st) (unconsumed st) log)
      else if BUFFER_REMAINING =? 0 then
        match REFRESH_BUFFER st with
        | None => Some (prematureEnd minBytes st log)
        | Some st1 => continue_ st1
        end
      else
        (* At least 1, but not 10, bytes available: read slowly. *)
        match cur st with
        | [] => None
        | tag :: cur1 =>
          match slowBytes minBytes log tag 8 0
                  (mkInState cur1 (next st) (out st) (buf st)) with
          | inl r => Some r
          | inr st1 =>
            if (length (cur st1) =? 0)%nat && ((tag =? 0) || (tag =? 255)) then
              match REFRESH_BUFFER st1 with
              | None => Some (prematureEnd minBytes st1 log)
              | Some st2 => afterWord continue_ minBytes maxBytes log tag st2
              end
            else afterWord continue_ minBytes maxBytes log tag st1
          end
        end
    else
      match cur st with
      | [] => None
      | tag :: cur1 =>
        let st := mkInState cur1 (next st) (out st) (buf st) in
        afterWord continue_ minBytes maxBytes log tag
          (HANDLE_BYTE_in tag 7 (HANDLE_BYTE_in tag 6 (HANDLE_BYTE_in tag 5 (HANDLE_BYTE_in tag 4
          (HANDLE_BYTE_in tag 3 (HANDLE_BYTE_in tag 2 (HANDLE_BYTE_in tag 1
          (HANDLE_BYTE_in tag 0 st))))))))
      end
  end.

(** [PackedInputStream::read] *)
Definition read (minBytes maxBytes : Z) (inner : Inner) : option ReadResult :=
  if maxBytes =? 0 then Some (mkReadResult 0 [] inner [])
  else
    match getReadBuffer inner with
    | [] =>
      Some (mkReadResult minBytes [] inner (record "Premature end of packed input." []))
    | buffer =>
      readLoop (S (length (concat inner) + length inner)) minBytes maxBytes []
        (mkInState buffer (tl inner) [] buffer)
    end.

(** *** PackedInputStream::skip *)

(** What [PackedInputStream::skip] leaves behind. *)
Record SkipResult : Type := mkSkipResult {
  skipStream : Inner;          (* the inner stream afterwards *)
  skipErrors : ErrorLog
}.

(** The position of [skip]: [s_done] are the bytes of [buffer] before [in],
    [s_cur] the bytes from [in] to [BUFFER_END], [s_next] is the inner stream
    once [buffer] is skipped whole. *)
Record SkipState : Type := mkSkipState {
  s_done : list Z;
  s_cur : list Z;
  s_next : Inner
}.

(** The inner stream when [skip] returns without a call of [inner.skip]:
    [buffer] is still to be read. *)
Definition untouched (st : SkipState) : Inner :=
  match s_done st ++ s_cur st with [] => s_next st | buffer => buffer :: s_next st end.

(** [inner.skip(in - buffer.begin())] *)
Definition skipped (st : SkipState) : Inner :=
  match s_cur st with [] => s_next st | c => c :: s_next st end.

(** [in += n] *)
Definition advance (n : nat) (st : SkipState) : SkipState :=
  mkSkipState (s_done st ++ take n (s_cur st)) (drop n (s_cur st)) (s_next st).

(** [inner.skip(n)]: no result when the stream ends before. *)
Definition innerSkipExact (n : nat) (s : Inner) : option Inner :=
  if (n <=? length (concat s))%nat then Some (innerSkip n s) else None.

(** [REFRESH_BUFFER()] of [skip]: [None] when the new buffer is empty. *)
Definition REFRESH_BUFFER_skip (st : SkipState) : option SkipState :=
  match getReadBuffer (s_next st) with
  | [] => None
  | c => Some (mkSkipState [] c (tl (s_next st)))
  end.

Definition prematureEnd_skip (st : SkipState) (log : ErrorLog) : SkipResult :=
  mkSkipResult (s_next st) (record "Premature end of packed input." log).

(** One round of the loop [for (uint i = 0; i < 8; i++)] of the slow path of
    [skip]: the left result is an early return. *)
Definition skipByte (log : ErrorLog) (tag : Z) (i : Z) (st : SkipState)
  : SkipResult + SkipState :=
  if tagBit tag i then
    let st1 :=
      match s_cur st with
      | [] => REFRESH_BUFFER_skip st
      | _ => Some st
      end in
    match st1 with
    | None => inl (prematureEnd_skip st log)
    | Some st1 => inr (advance 1 st1)
    end
  else inr st.

Fixpoint skipBytes (log : ErrorLog) (tag : Z) (n : nat) (i : Z) (st : SkipState)
  : SkipResult + SkipState :=
  match n with
  | O => inr st
  | S n1 =>
    match skipByte log tag i st with
    | inl r => inl r
    | inr st1 => skipBytes log tag n1 (i + 1) st1
    end
  end.

(** [HANDLE_BYTE(n)] of the fast path of [skip]:
    [in += (tag & (1u << n)) != 0]. *)
Definition HANDLE_BYTE_skip (tag : Z) (n : Z) (st : SkipState) : SkipState :=
  advance (if tagBit tag n then 1 else 0) st.

(** The part of the loop body of [skip] after the eight bytes of the tag's
    word; [continue_] is the next round of the loop. *)
Definition afterSkipWord (continue_ : Z -> SkipState -> option SkipResult) (log : ErrorLog)
    (tag : Z) (bytes : Z) (st : SkipState) : option SkipResult :=
  (* [if (bytes == 0) { inner.skip(in - buffer.begin()); return; }] *)
  let finish (bytes : Z) (st : SkipState) : option SkipResult :=
    if bytes =? 0 then Some (mkSkipResult (skipped st) log) else continue_ bytes st in
  let overrun (st : SkipState) : option SkipResult :=
    Some (mkSkipResult (untouched st)
            (record "Packed input did not end cleanly on a segment boundary." log)) in
  if tag =? 0 then
    match s_cur st with
    | [] => None
    | c :: _ =>
      let st := advance 1 st in
      let runLength := c * 8 in
      if negb (runLength <=? bytes) then overrun st
      else finish (bytes - runLength) st
    end
  else if tag =? 255 then
    match s_cur st with
    | [] => None
    | c :: _ =>
      let st := advance 1 st in
      let runLength := c * 8 in
      if negb (runLength <=? bytes) then overrun st
      else
        let bytes := bytes - runLength in
        let inRemaining := Z.of_nat (length (s_cur st)) in
        if inRemaining >? runLength then
          (* Fast path. *)
          finish bytes (advance (Z.to_nat runLength) st)
        else
          (* Forward skip to the underlying stream. *)
          let runLength := runLength - inRemaining in
          match innerSkipExact (Z.to_nat runLength) (s_next st) with
          | None => None
          | Some inner1 =>
            if bytes =? 0 then Some (mkSkipResult inner1 log)
            else continue_ bytes (mkSkipState [] (getReadBuffer inner1) (tl inner1))
          end
    end
  else finish bytes st.

(** The loop [for (;;)] of [PackedInputStream::skip]; [bytes] is a [size_t].
    No result ([None]) when [fuel] iterations are not enough or the inner
    stream ends inside a pass-through run. *)
Fixpoint skipLoop (fuel : nat) (log : ErrorLog) (bytes : Z) (st : SkipState)
  : option SkipResult :=
  match fuel with
  | O => None
  | S fuel1 =>
    let continue_ := skipLoop fuel1 log in
    let BUFFER_REMAINING := Z.of_nat (length (s_cur st)) in
    if BUFFER_REMAINING <? 10 then
      if BUFFER_REMAINING =? 0 then
        match REFRESH_BUFFER_skip st with
        | None => Some (prematureEnd_skip st log)
        | Some st1 => continue_ bytes st1
        end
      else
        (* At least 1, but not 10, bytes available: read slowly. *)
        match s_cur st with
        | [] => None
        | tag :: _ =>
          match skipBytes log tag 8 0 (advance 1 st) with
          | inl r => Some r
          | inr st1 =>
            let bytes := u64 (bytes - 8) in
            if (length (s_cur st1) =? 0)%nat && ((tag =? 0) || (tag =? 255)) then
              match REFRESH_BUFFER_skip st1 with
              | None => Some (prematureEnd_skip st1 log)
              | Some st2 => afterSkipWord continue_ log tag bytes st2
              end
            else afterSkipWord continue_ log tag bytes st1
          end
        end
    else
      match s_cur st with
      | [] => None
      | tag :: _ =>
        let st := advance 1 st in
        afterSkipWord continue_ log tag (u64 (bytes - 8))
          (HANDLE_BYTE_skip tag 7 (HANDLE_BYTE_skip tag 6 (HANDLE_BYTE_skip tag 5
          (HANDLE_BYTE_skip tag 4 (HANDLE_BYTE_skip tag 3 (HANDLE_BYTE_skip tag 2
          (HANDLE_BYTE_skip tag 1 (HANDLE_BYTE_skip tag 0 st))))))))
      end
  end.

(** [PackedInputStream::skip].  An empty first buffer is found empty again
    by [REFRESH_BUFFER], after [inner.skip(0)]. *)
Definition skip (bytes : Z) (inner : Inner) : option SkipResult :=
  if bytes =? 0 then Some (mkSkipResult inner [])
  else
    match getReadBuffer inner with
    | [] => Some (mkSkipResult inner (record "Premature end of packed input." []))
    | buffer =>
      skipLoop (S (length (concat inner) + length inner)) [] bytes
        (mkSkipState [] buffer (tl inner))
    end.

End Packed.

(** * Properties *)

(** ** SegmentBuilder *)

Section SegmentBuilderProps.
Import Builder.

(** The invariant [start <= pos <= end], [start] being offset 0. *)
Definition sb_wf (s : SegmentBuilder) : Prop := 0 <= sb_pos s <= sb_end s.

Lemma newSegmentBuilder_wf (ptr : list Z) : sb_wf (newSegmentBuilder ptr).
Proof. unfold sb_wf, sb_end; simpl; lia. Qed.

Lemma zeroWords_length (start n : nat) (ws : list Z) :
  length (zeroWords start n ws) = length ws.
Proof. unfold zeroWords. apply length_inserts. Qed.

Lemma zeroWords_lookup_in (start n : nat) (ws : list Z) (i : nat) :
  (start <= i < start + n)%nat -> (start + n <= length ws)%nat ->
  zeroWords start n ws !! i = Some 0.
Proof.
  intros Hi Hn. unfold zeroWords.
  rewrite list_lookup_inserts by (rewrite ?length_replicate; lia).
  apply lookup_replicate_2. lia.
Qed.

Lemma zeroWords_lookup_out (start n : nat) (ws : list Z) (i : nat) :
  (i < start \/ start + n <= i)%nat ->
  zeroWords start n ws !! i = ws !! i.
Proof.
  intros Hi. unfold zeroWords. destruct Hi.
  - apply list_lookup_inserts_lt; lia.
  - apply list_lookup_inserts_ge. rewrite length_replicate. lia.
Qed.

(** C10. Every operation of a [SegmentBuilder] keeps [start <= pos <= end];
    [allocate(amount)] returns [nullptr] exactly when [amount] exceeds
    [available() = end - pos] (leaving the segment as it is) and otherwise
    returns the old [pos] and advances [pos] by exactly [amount];
    [currentlyAllocated()] is the prefix of length [pos]; [reset()] zeroes
    exactly that prefix, keeps the other words, and restores [pos] to start. *)
Theorem C10_segment_builder_invariant (s : SegmentBuilder) (amount : Z) :
  sb_wf s -> 0 <= amount ->
  available s = sb_end s - sb_pos s
  /\ (let '(r, s1) := sb_allocate amount s in
      sb_wf s1
      /\ sb_words s1 = sb_words s
      /\ (r = None <-> amount > available s)
      /\ (r = None -> s1 = s)
      /\ (amount <= available s -> r = Some (sb_pos s) /\ sb_pos s1 = sb_pos s + amount))
  /\ currentlyAllocated s = take (Z.to_nat (sb_pos s)) (sb_words s)
  /\ Z.of_nat (length (currentlyAllocated s)) = sb_pos s
  /\ sb_wf (reset s)
  /\ sb_pos (reset s) = 0
  /\ sb_end (reset s) = sb_end s
  /\ (forall i : nat, Z.of_nat i < sb_pos s -> sb_words (reset s) !! i = Some 0)
  /\ (forall i : nat, sb_pos s <= Z.of_nat i -> sb_words (reset s) !! i = sb_words s !! i)
  /\ currentlyAllocated (reset s) = [].
Proof.
  intros [Hlo Hhi] Hamount. unfold sb_end in Hhi.
  assert (Hav : available s = sb_end s - sb_pos s) by reflexivity.
  split; [exact Hav|].
  split.
  { unfold sb_allocate. fold (available s).
    destruct (amount >? available s) eqn:E.
    - apply Z.gtb_lt in E.
      repeat split; auto; try (unfold sb_end; lia); try lia; intros; lia.
    - assert (amount <= available s) by (destruct (Z.gtb_spec amount (available s)); [discriminate | lia]).
      unfold sb_wf, sb_end in *; simpl.
      repeat split; try lia; try discriminate; intros; try lia; congruence. }
  split; [reflexivity|].
  split.
  { unfold currentlyAllocated. rewrite length_take. lia. }
  unfold reset, sb_wf, sb_end; simpl.
  rewrite zeroWords_length, Z.sub_0_r.
  repeat split; try lia.
  - intros i Hi. apply zeroWords_lookup_in; lia.
  - intros i Hi. apply zeroWords_lookup_out; lia.
Qed.

Lemma C10_segment_builder_invariant_witness :
  let s := mkSegmentBuilder [7; 8; 9; 0] 3 in
  sb_wf s /\ 0 <= 1 /\ sb_wf (reset s) /\ sb_pos (reset s) = 0.
Proof.
  assert (Hwf : sb_wf (mkSegmentBuilder [7; 8; 9; 0] 3))
    by (unfold sb_wf, sb_end; simpl; lia).
  destruct (C10_segment_builder_invariant (mkSegmentBuilder [7; 8; 9; 0] 3) 1 Hwf
              ltac:(lia)) as (_ & _ & _ & _ & Hr & Hp & _).
  simpl. split; [exact Hwf|]. split; [lia|]. split; [exact Hr | exact Hp].
Defined.

End SegmentBuilderProps.

(** ** ReadLimiter and SegmentReader *)

Section ReaderProps.
Import Reader.

Definition limitMessage : string :=
  "Exceeded message traversal limit.  See capnproto::ReaderOptions.".

(** A debug precondition touches neither the message, the limiter nor the
    error log. *)
Lemma DPRECOND_state (cond : bool) (msg : string) (a : ReaderArena) :
  message (DPRECOND cond msg a) = message a
  /\ limit (DPRECOND cond msg a) = limit a
  /\ errors (DPRECOND cond msg a) = errors a.
Proof. unfold DPRECOND. destruct cond; repeat split. Qed.

Lemma DPRECOND_message (cond : bool) (msg : string) (a : ReaderArena) :
  message (DPRECOND cond msg a) = message a.
Proof. apply DPRECOND_state. Qed.

Lemma DPRECOND_limit (cond : bool) (msg : string) (a : ReaderArena) :
  limit (DPRECOND cond msg a) = limit a.
Proof. apply DPRECOND_state. Qed.

Lemma DPRECOND_errors (cond : bool) (msg : string) (a : ReaderArena) :
  errors (DPRECOND cond msg a) = errors a.
Proof. apply DPRECOND_state. Qed.

Lemma canRead_true (amount : Z) (a : ReaderArena) :
  amount <= limit a ->
  canRead amount a = (true, set_limit (limit a - amount) a).
Proof.
  intros H. unfold canRead.
  destruct (Z.gtb_spec amount (limit a)); [lia | reflexivity].
Qed.

Lemma canRead_false (amount : Z) (a : ReaderArena) :
  limit a < amount ->
  canRead amount a = (false, reportReadLimitReached a).
Proof.
  intros H. unfold canRead.
  destruct (Z.gtb_spec amount (limit a)); [reflexivity | lia].
Qed.

Lemma interval_words (from to : Z) :
  intervalLength (8 * from) (8 * to) / BYTES_PER_WORD = to - from.
Proof.
  unfold intervalLength, BYTES_PER_WORD.
  replace (8 * to - 8 * from) with ((to - from) * 8) by lia.
  apply Z.div_mul. lia.
Qed.

(** C7. For an interval [from <= to] (word offsets from the start of the
    segment), [containsInterval(from, to)] returns true iff both endpoints lie
    within the segment's word array and the limiter permits [to - from]
    further words; when it returns true the limiter has been decremented by
    exactly that count and nothing is recorded; when the interval is in the
    segment but the limiter does not permit it, the traversal-limit error is
    recorded through the arena, the limiter is unchanged and the call returns
    false; an interval outside the segment leaves the arena untouched. *)
Theorem C7_containsInterval (id : nat) (from to : Z) (a : ReaderArena) :
  from <= to ->
  let size := Z.of_nat (length (getArray id a)) in
  let inSegment := 0 <= from <= size /\ 0 <= to <= size in
  let '(r, a1) := containsInterval id from to a in
  message a1 = message a
  /\ (r = true <-> inSegment /\ to - from <= limit a)
  /\ (r = true -> limit a1 = limit a - (to - from) /\ errors a1 = errors a)
  /\ (inSegment -> limit a < to - from ->
      r = false /\ limit a1 = limit a /\ errors a1 = errors a ++ [limitMessage])
  /\ (~ inSegment -> r = false /\ a1 = a).
Proof.
  intros Hle size inSegment. unfold containsInterval. fold size.
  rewrite interval_words.
  destruct (Z.geb_spec from 0) as [Hf|Hf]; destruct (Z.leb_spec to size) as [Ht|Ht];
    simpl; subst inSegment.
  - destruct (Z_le_gt_dec (to - from) (limit a)) as [Hl|Hl].
    + rewrite canRead_true by lia. simpl.
      split; [reflexivity|]. split; [split; [intros _; lia | reflexivity]|].
      split; [intros _; split; reflexivity|].
      split; [intros _ Hx; lia | intros Hx; exfalso; apply Hx; lia].
    + rewrite canRead_false by lia. simpl. unfold record.
      split; [reflexivity|]. split; [split; [discriminate | intros [_ Hx]; lia]|].
      split; [discriminate|].
      split; [intros _ _; repeat split | intros Hx; exfalso; apply Hx; lia].
  - split; [reflexivity|]. split; [split; [discriminate | intros [Hx _]; lia]|].
    split; [discriminate|]. split; [intros Hx; lia | intros _; split; reflexivity].
  - split; [reflexivity|]. split; [split; [discriminate | intros [Hx _]; lia]|].
    split; [discriminate|]. split; [intros Hx; lia | intros _; split; reflexivity].
  - split; [reflexivity|]. split; [split; [discriminate | intros [Hx _]; lia]|].
    split; [discriminate|]. split; [intros Hx; lia | intros _; split; reflexivity].
Qed.

Lemma C7_containsInterval_witness :
  1 <= 3 /\ fst (containsInterval 0 1 3 (newReaderArena [[1; 2; 3; 4]] 10)) = true.
Proof.
  split; [lia|].
  pose proof (C7_containsInterval 0 1 3 (newReaderArena [[1; 2; 3; 4]] 10) ltac:(lia)) as H.
  destruct (containsInterval 0 1 3 (newReaderArena [[1; 2; 3; 4]] 10)) as [r a1].
  destruct H as (_ & [_ H2] & _). simpl. apply H2. simpl. lia.
Defined.

Lemma followFars_direct (a : ReaderArena) (ref : Loc) (segment : SegmentRef) :
  WirePointer.kind (wordOf ref a) <> WirePointer.FAR ->
  followFars ref segment a =
  (Some (WirePointer.target (snd ref) (wordOf ref a)), ref, segment, a).
Proof.
  intros H. unfold followFars.
  destruct segment; [|reflexivity].
  destruct (WirePointer.kind (wordOf ref a)); try reflexivity. congruence.
Qed.

(** A struct pointer that is not a far pointer, read on a checked segment
    without default: the outcome is decided by the bounds check of the
    struct's words. *)
Lemma readStructPointer_direct (a : ReaderArena) (id : nat) (ref nestingLimit : Z) :
  let w := wordOf (Checked id, ref) a in
  let ptr := WirePointer.target ref w in
  WirePointer.isNull w = false ->
  WirePointer.kind w = WirePointer.STRUCT ->
  0 < nestingLimit ->
  readStructPointer (Checked id) (Some (Checked id, ref)) None nestingLimit a =
  (let '(ok, a2) := containsInterval id ptr (ptr + WirePointer.wordSize w) a in
   if ok then
     (mkStructReader (Checked id) (Some ptr) (Some (ptr + WirePointer.dataSize w))
        (WirePointer.dataSize w * BITS_PER_WORD) (WirePointer.ptrCount w)
        0 (nestingLimit - 1), a2)
   else
     (StructReader_default,
      recordError "Message contained out-of-bounds struct pointer." a2)).
Proof.
  intros w ptr Hnull Hkind Hnest.
  unfold readStructPointer. fold w. rewrite Hnull.
  unfold readStructPointer_checks.
  destruct (Z.gtb_spec nestingLimit 0) as [_|Hx]; [|lia].
  cbv [negb].
  rewrite followFars_direct by (fold w; congruence).
  fold w. rewrite Hkind.
  cbv [WirePointer.Kind_eqb WirePointer.Kind_to_Z Z.eqb negb boundsCheck snd].
  fold ptr. destruct (containsInterval id ptr (ptr + WirePointer.wordSize w) a) as [[|] a2];
    reflexivity.
Qed.

(** ** StructReader: pointer fields past the end of the pointer section *)

Lemma pointerField_past_end (r : StructReader) (ptrIndex : Z) :
  sr_pointerCount r <= ptrIndex -> pointerField r ptrIndex = None.
Proof.
  intros H. unfold pointerField.
  destruct (Z.geb_spec ptrIndex (sr_pointerCount r)); [reflexivity | lia].
Qed.

Lemma pointerField_inside (r : StructReader) (j : Z) :
  j < sr_pointerCount r ->
  pointerField r j = Some (sr_segment r, default 0 (sr_pointers r) + j).
Proof.
  intros H. unfold pointerField.
  destruct (Z.geb_spec j (sr_pointerCount r)); [lia | reflexivity].
Qed.

Definition nestingMessage : string :=
  "Message is too deeply-nested or contains cycles.  See capnproto::ReadOptions.".

(** A struct default read at its own root pointer. *)
Lemma readStructPointer_default (segment : SegmentRef) (blob : list Z) (nestingLimit : Z)
    (a : ReaderArena) :
  let w := wordAt blob 0 in
  let tgt := WirePointer.target 0 w in
  WirePointer.isNull w = false ->
  (0 < nestingLimit -> WirePointer.kind w = WirePointer.STRUCT ->
   readStructPointer segment None (Some blob) nestingLimit a
   = (mkStructReader (Unchecked blob) (Some tgt) (Some (tgt + WirePointer.dataSize w))
        (WirePointer.dataSize w * 64) (WirePointer.ptrCount w) 0 (nestingLimit - 1), a))
  /\ (nestingLimit <= 0 ->
      readStructPointer segment None (Some blob) nestingLimit a
      = (mkStructReader (Unchecked []) None None 0 0 0 0,
         mkReaderArena (message a) (limit a) (errors a ++ [nestingMessage]) (violated a))).
Proof.
  intros w tgt Hnull. unfold readStructPointer. fold w. rewrite Hnull.
  unfold readStructPointer_checks. split.
  - intros Hnl Hk. destruct (Z.gtb_spec nestingLimit 0) as [_|Hx]; [|lia].
    cbn [negb followFars]. change (wordOf (Unchecked blob, 0) a) with w.
    rewrite Hk. cbn [WirePointer.Kind_eqb WirePointer.Kind_to_Z Z.eqb negb boundsCheck snd].
    reflexivity.
  - intros Hnl. destruct (Z.gtb_spec nestingLimit 0) as [Hx|_]; [lia|].
    reflexivity.
Qed.

(** A list default read at its own root pointer. *)
Lemma readListPointer_default (segment : SegmentRef) (blob : list Z)
    (expected : FieldSize) (nestingLimit : Z) (a : ReaderArena) :
  let w := wordAt blob 0 in
  let tgt := WirePointer.target 0 w in
  let es := WirePointer.elementSize w in
  let tag := wordAt blob tgt in
  WirePointer.isNull w = false ->
  (0 < nestingLimit -> WirePointer.kind w = WirePointer.LIST ->
   es <> INLINE_COMPOSITE ->
   dataBitsPerElement expected <= dataBitsPerElement es ->
   pointersPerElement expected <= pointersPerElement es ->
   readListPointer segment None (Some blob) expected nestingLimit a
   = (mkListReader (Unchecked blob) (Some tgt) (WirePointer.elementCount w)
        (dataBitsPerElement es + pointersPerElement es * 64)
        (dataBitsPerElement es) (pointersPerElement es) (nestingLimit - 1), a))
  /\ (0 < nestingLimit -> WirePointer.kind w = WirePointer.LIST ->
      es = INLINE_COMPOSITE -> expected = INLINE_COMPOSITE ->
      WirePointer.kind tag = WirePointer.STRUCT ->
      u32 (WirePointer.inlineCompositeListElementCount tag * WirePointer.wordSize tag)
        <= WirePointer.inlineCompositeWordCount w ->
      readListPointer segment None (Some blob) expected nestingLimit a
      = (mkListReader (Unchecked blob) (Some (tgt + 1))
           (WirePointer.inlineCompositeListElementCount tag)
           (WirePointer.wordSize tag * 64) (WirePointer.dataSize tag * 64)
           (WirePointer.ptrCount tag) (nestingLimit - 1), a))
  /\ (nestingLimit <= 0 ->
      readListPointer segment None (Some blob) expected nestingLimit a
      = (mkListReader (Unchecked []) None 0 0 0 0 0,
         mkReaderArena (message a) (limit a) (errors a ++ [nestingMessage]) (violated a))).
Proof.
  intros w tgt es tag Hnull. unfold readListPointer. fold w. rewrite Hnull.
  unfold readListPointer_checks. split; [|split].
  - intros Hnl Hk Hes Hd Hp. destruct (Z.gtb_spec nestingLimit 0) as [_|Hx]; [|lia].
    cbn [negb followFars]. change (wordOf (Unchecked blob, 0) a) with w.
    rewrite Hk. cbn [WirePointer.Kind_eqb WirePointer.Kind_to_Z Z.eqb negb snd].
    fold tgt. subst es.
    destruct (WirePointer.elementSize w) eqn:Ees; try congruence; cbn [boundsCheck negb];
      repeat match goal with
             | |- context [?x <=? ?y] =>
               destruct (Z.leb_spec x y); [|lia]
             end; reflexivity.
  - intros Hnl Hk Hes Hex Htag Hfit.
    destruct (Z.gtb_spec nestingLimit 0) as [_|Hx]; [|lia].
    cbn [negb followFars]. change (wordOf (Unchecked blob, 0) a) with w.
    rewrite Hk. cbn [WirePointer.Kind_eqb WirePointer.Kind_to_Z Z.eqb negb snd].
    subst es. rewrite Hes. fold tgt. cbn [boundsCheck negb].
    change (wordOf (Unchecked blob, tgt) a) with tag. rewrite Htag.
    cbn [WirePointer.Kind_eqb WirePointer.Kind_to_Z Z.eqb negb].
    destruct (Z.leb_spec
                (u32 (WirePointer.inlineCompositeListElementCount tag * WirePointer.wordSize tag))
                (WirePointer.inlineCompositeWordCount w)) as [_|Hx]; [|lia].
    cbn [negb]. rewrite Hex. reflexivity.
  - intros Hnl. destruct (Z.gtb_spec nestingLimit 0) as [Hx|_]; [lia|].
    reflexivity.
Qed.

(** C9 (as amended). For a pointer-field index at or past [pointerCount],
    [isPointerFieldNull] is true and every getter returns exactly what it
    returns for a field inside the pointer section whose pointer is null.
    The text and data getters return the bytes of the default value (the
    empty string literal for a text without default) with the default size
    and leave the arena as it is.  [getStructField] and [getListField] return
    the empty reader, arena unchanged, when there is no default or the
    default is a null pointer; for a default that is a struct pointer (a list
    pointer of a compatible element size, or of structs when structs are
    expected) they return the reader of the default's own object, arena
    unchanged, when the reader's nesting limit is above zero; at a nesting
    limit of zero or less they record the nesting error and return the empty
    reader, not the default. *)
Theorem C9_past_end_reads_as_null (r : StructReader) (ptrIndex : Z) (a : ReaderArena) :
  sr_pointerCount r <= ptrIndex ->
  let nl := sr_nestingLimit r in
  let tooDeep :=
    mkReaderArena (message a) (limit a) (errors a ++ [nestingMessage]) (violated a) in
  let emptyStruct := mkStructReader (Unchecked []) None None 0 0 0 0 in
  let emptyList := mkListReader (Unchecked []) None 0 0 0 0 0 in
  isPointerFieldNull r ptrIndex a = true
  /\ (forall d ds,
        getBlobField_Text r ptrIndex d ds a
        = (mkTextReader (StaticChars (match d with None => [0] | Some chars => chars end)) ds,
           a))
  /\ (forall d ds,
        getBlobField_Data r ptrIndex d ds a
        = (mkTextReader (StaticChars (match d with None => [] | Some chars => chars end)) ds,
           a))
  /\ getStructField r ptrIndex None a = (emptyStruct, a)
  /\ (forall expected, getListField r ptrIndex expected None a = (emptyList, a))
  /\ (forall blob,
        let w := wordAt blob 0 in
        let tgt := WirePointer.target 0 w in
        (WirePointer.isNull w = true ->
         getStructField r ptrIndex (Some blob) a = (emptyStruct, a))
        /\ (WirePointer.isNull w = false -> 0 < nl ->
            WirePointer.kind w = WirePointer.STRUCT ->
            getStructField r ptrIndex (Some blob) a
            = (mkStructReader (Unchecked blob) (Some tgt)
                 (Some (tgt + WirePointer.dataSize w))
                 (WirePointer.dataSize w * 64) (WirePointer.ptrCount w) 0 (nl - 1), a))
        /\ (WirePointer.isNull w = false -> nl <= 0 ->
            getStructField r ptrIndex (Some blob) a = (emptyStruct, tooDeep)))
  /\ (forall blob expected,
        let w := wordAt blob 0 in
        let tgt := WirePointer.target 0 w in
        let es := WirePointer.elementSize w in
        let tag := wordAt blob tgt in
        (WirePointer.isNull w = true ->
         getListField r ptrIndex expected (Some blob) a = (emptyList, a))
        /\ (WirePointer.isNull w = false -> 0 < nl ->
            WirePointer.kind w = WirePointer.LIST ->
            es <> INLINE_COMPOSITE ->
            dataBitsPerElement expected <= dataBitsPerElement es ->
            pointersPerElement expected <= pointersPerElement es ->
            getListField r ptrIndex expected (Some blob) a
            = (mkListReader (Unchecked blob) (Some tgt) (WirePointer.elementCount w)
                 (dataBitsPerElement es + pointersPerElement es * 64)
                 (dataBitsPerElement es) (pointersPerElement es) (nl - 1), a))
        /\ (WirePointer.isNull w = false -> 0 < nl ->
            WirePointer.kind w = WirePointer.LIST ->
            es = INLINE_COMPOSITE -> expected = INLINE_COMPOSITE ->
            WirePointer.kind tag = WirePointer.STRUCT ->
            u32 (WirePointer.inlineCompositeListElementCount tag * WirePointer.wordSize tag)
              <= WirePointer.inlineCompositeWordCount w ->
            getListField r ptrIndex expected (Some blob) a
            = (mkListReader (Unchecked blob) (Some (tgt + 1))
                 (WirePointer.inlineCompositeListElementCount tag)
                 (WirePointer.wordSize tag * 64) (WirePointer.dataSize tag * 64)
                 (WirePointer.ptrCount tag) (nl - 1), a))
        /\ (WirePointer.isNull w = false -> nl <= 0 ->
            getListField r ptrIndex expected (Some blob) a = (emptyList, tooDeep)))
  /\ (forall (r2 : StructReader) (j : Z),
        sr_segment r2 = sr_segment r ->
        sr_nestingLimit r2 = sr_nestingLimit r ->
        j < sr_pointerCount r2 ->
        WirePointer.isNull (wordOf (sr_segment r2, default 0 (sr_pointers r2) + j) a) = true ->
        isPointerFieldNull r2 j a = isPointerFieldNull r ptrIndex a
        /\ (forall d, getStructField r2 j d a = getStructField r ptrIndex d a)
        /\ (forall es d, getListField r2 j es d a = getListField r ptrIndex es d a)
        /\ (forall d ds, getBlobField_Text r2 j d ds a = getBlobField_Text r ptrIndex d ds a)
        /\ (forall d ds, getBlobField_Data r2 j d ds a = getBlobField_Data r ptrIndex d ds a)).
Proof.
  intros Hge nl tooDeep emptyStruct emptyList.
  assert (Hnull : isPointerFieldNull r ptrIndex a = true).
  { unfold isPointerFieldNull.
    destruct (Z.geb_spec ptrIndex (sr_pointerCount r)); [reflexivity | lia]. }
  unfold getBlobField_Text, getBlobField_Data, getStructField, getListField.
  rewrite (pointerField_past_end r ptrIndex Hge).
  split; [exact Hnull|].
  split; [reflexivity|]. split; [reflexivity|]. split; [reflexivity|].
  split; [reflexivity|].
  split.
  { intros blob. cbv zeta. split; [|split].
    - intros Hz. unfold readStructPointer. rewrite Hz. reflexivity.
    - intros Hz Hnl Hk.
      apply (proj1 (readStructPointer_default (sr_segment r) blob nl a Hz) Hnl Hk).
    - intros Hz Hnl.
      apply (proj2 (readStructPointer_default (sr_segment r) blob nl a Hz) Hnl). }
  split.
  { intros blob expected. cbv zeta. split; [|split; [|split]].
    - intros Hz. unfold readListPointer. rewrite Hz. reflexivity.
    - intros Hz.
      apply (proj1 (readListPointer_default (sr_segment r) blob expected nl a Hz)).
    - intros Hz.
      apply (proj1 (proj2 (readListPointer_default (sr_segment r) blob expected nl a Hz))).
    - intros Hz.
      apply (proj2 (proj2 (readListPointer_default (sr_segment r) blob expected nl a Hz))). }
  intros r2 j Hseg Hnest Hj Hz.
  rewrite (pointerField_inside r2 j Hj), Hseg, Hnest.
  rewrite Hseg in Hz.
  split.
  { rewrite Hnull. unfold isPointerFieldNull. rewrite Hseg, Hz. apply orb_true_r. }
  split.
  { intros d. unfold readStructPointer. rewrite Hz. reflexivity. }
  split.
  { intros es d. unfold readListPointer. rewrite Hz. reflexivity. }
  split.
  { intros d ds. unfold readTextPointer. rewrite Hz. reflexivity. }
  { intros d ds. unfold readDataPointer. rewrite Hz. reflexivity. }
Qed.

Lemma C9_past_end_reads_as_null_witness :
  sr_pointerCount (mkStructReader (Checked 0) (Some 1) (Some 2) 64 1 0 63) <= 1
  /\ getStructField (mkStructReader (Checked 0) (Some 1) (Some 2) 64 1 0 63) 1
       (Some [2 ^ 32; 42]) (newReaderArena [[2 ^ 32 + 2 ^ 48; 5; 0; 77]] 100)
     = (mkStructReader (Unchecked [2 ^ 32; 42]) (Some 1) (Some 2) 64 0 0 62,
        newReaderArena [[2 ^ 32 + 2 ^ 48; 5; 0; 77]] 100).
Proof.
  assert (H : sr_pointerCount (mkStructReader (Checked 0) (Some 1) (Some 2) 64 1 0 63) <= 1)
    by (cbn; lia).
  split; [exact H|].
  destruct (C9_past_end_reads_as_null _ 1
              (newReaderArena [[2 ^ 32 + 2 ^ 48; 5; 0; 77]] 100) H)
    as (_ & _ & _ & _ & _ & Hs & _).
  destruct (Hs [2 ^ 32; 42]) as (_ & Hd & _).
  exact (Hd eq_refl ltac:(vm_compute; reflexivity) eq_refl).
Defined.

(** C9 (as stated) fails at the nesting limit: the root reader obtained with
    a nesting limit of 1 has none left, and [getStructField] past the end of
    its pointer section, with a default that is a struct of one data word,
    records the nesting error and returns the empty reader instead of the
    default. *)
Lemma C9_counterexample :
  ~ (forall (r : StructReader) (ptrIndex : Z) (blob : list Z) (a : ReaderArena),
       sr_pointerCount r <= ptrIndex ->
       WirePointer.isNull (wordAt blob 0) = false ->
       WirePointer.kind (wordAt blob 0) = WirePointer.STRUCT ->
       sr_segment (fst (getStructField r ptrIndex (Some blob) a)) = Unchecked blob
       /\ errors (snd (getStructField r ptrIndex (Some blob) a)) = errors a).
Proof.
  intros H.
  pose (a := newReaderArena [[2 ^ 32; 5]] 100).
  specialize (H (fst (readRoot 0 0 1 a)) 0 [2 ^ 32; 42] (snd (readRoot 0 0 1 a))
                ltac:(vm_compute; discriminate) eq_refl eq_refl).
  vm_compute in H. destruct H as [H _]. discriminate H.
Qed.
(** ** Text pointers *)

Lemma canRead_state (amount : Z) (a : ReaderArena) :
  message (snd (canRead amount a)) = message a
  /\ (fst (canRead amount a) = true -> errors (snd (canRead amount a)) = errors a)
  /\ (fst (canRead amount a) = false ->
      length (errors (snd (canRead amount a))) = S (length (errors a))).
Proof.
  unfold canRead. destruct (amount >? limit a); cbn [fst snd].
  - split; [reflexivity|]. split; [discriminate|]. intros _.
    unfold reportReadLimitReached, recordError, record. cbn [errors].
    rewrite length_app. cbn [length]. lia.
  - split; [reflexivity|]. split; [reflexivity | discriminate].
Qed.

Lemma boundsCheck_state (segment : SegmentRef) (from to : Z) (a : ReaderArena) :
  message (snd (boundsCheck segment from to a)) = message a
  /\ (fst (boundsCheck segment from to a) = true ->
      errors (snd (boundsCheck segment from to a)) = errors a)
  /\ (length (errors a) <= length (errors (snd (boundsCheck segment from to a))))%nat.
Proof.
  unfold boundsCheck. destruct segment as [id|blob]; [|cbn [fst snd]; auto].
  unfold containsInterval.
  destruct ((from >=? 0) && (to <=? Z.of_nat (length (getArray id a)))); [|cbn [fst snd]; auto].
  destruct (canRead_state (intervalLength (8 * from) (8 * to) / BYTES_PER_WORD) a)
    as (Hm & Ht & Hf).
  split; [exact Hm|]. split; [exact Ht|].
  destruct (fst (canRead (intervalLength (8 * from) (8 * to) / BYTES_PER_WORD) a)) eqn:E.
  - rewrite Ht by reflexivity. lia.
  - rewrite Hf by reflexivity. lia.
Qed.

Lemma recordError_length (msg : string) (a : ReaderArena) :
  length (errors (recordError msg a)) = S (length (errors a)).
Proof. unfold recordError, record. cbn [errors]. rewrite length_app. cbn [length]. lia. Qed.

Lemma followFars_state (r : Loc) (segment : SegmentRef) (a : ReaderArena) :
  let '(ptr, _, _, a1) := followFars r segment a in
  message a1 = message a
  /\ (ptr <> None -> errors a1 = errors a)
  /\ (ptr = None -> (length (errors a) < length (errors a1))%nat).
Proof.
  unfold followFars.
  destruct segment as [id|blob]; [|repeat split; congruence].
  destruct (WirePointer.Kind_eqb _ _); [|repeat split; congruence].
  destruct (tryGetSegment _ a) as [id1|].
  2:{ split; [reflexivity|]. split; [congruence|]. intros _. rewrite recordError_length. lia. }
  match goal with |- context [boundsCheck ?s ?f ?t a] =>
    destruct (boundsCheck_state s f t a) as (Hm & Ht & Hl);
    destruct (boundsCheck s f t a) as [ok a1] end.
  cbn [fst snd] in *.
  destruct ok; cbn [negb].
  2:{ split; [exact Hm|]. split; [congruence|]. intros _. rewrite recordError_length. lia. }
  specialize (Ht eq_refl).
  destruct (WirePointer.isDoubleFar _); cbn [negb].
  - destruct (tryGetSegment _ a1).
    + cbv zeta. rewrite DPRECOND_message, DPRECOND_errors.
      split; [exact Hm|]. split; [intros _; exact Ht | congruence].
    + split; [exact Hm|]. split; [congruence|]. intros _. rewrite recordError_length. lia.
  - split; [exact Hm|]. split; [intros _; exact Ht | congruence].
Qed.

Lemma Kind_eqb_eq (k1 k2 : WirePointer.Kind) :
  WirePointer.Kind_eqb k1 k2 = true <-> k1 = k2.
Proof. destruct k1, k2; cbv; split; congruence. Qed.

Lemma charAt_message (p : CharPtr) (i : Z) (a b : ReaderArena) :
  message a = message b -> charAt p i a = charAt p i b.
Proof.
  intros H. destruct p as [s off|bs]; [|reflexivity].
  unfold charAt, arrayOf, getArray. rewrite H. reflexivity.
Qed.

(** The conditions under which a resolved pointer [w] (target [ptr] in
    [seg1]) is accepted as text. *)
Definition textValid (seg1 : SegmentRef) (ptr : option Z) (w : Z) (a1 : ReaderArena) : Prop :=
  exists p : Z,
    ptr = Some p
    /\ WirePointer.kind w = WirePointer.LIST
    /\ WirePointer.elementSize w = BYTE
    /\ fst (boundsCheck seg1 p (p + roundUpToWords_bytes (WirePointer.elementCount w)) a1) = true
    /\ 0 < WirePointer.elementCount w
    /\ charAt (SegmentChars seg1 (8 * p)) (WirePointer.elementCount w - 1) a1 = 0.

Definition farMessage : string :=
  "positionInSegment() should only be called on FAR pointers.".

(** The pointer at [r] is a double-far pointer whose two landing-pad words lie
    in an existing segment and are within the traversal limit, and whose
    first landing-pad word names an existing segment but is not itself a far
    pointer. *)
Definition padNotFar (r : Loc) (segment : SegmentRef) (a : ReaderArena) : Prop :=
  let w := wordOf r a in
  let pos := WirePointer.farPositionInSegment w in
  exists (id : nat) (seg1 seg2 : list Z),
    segment = Checked id
    /\ WirePointer.kind w = WirePointer.FAR
    /\ WirePointer.isDoubleFar w = true
    /\ message a !! Z.to_nat (WirePointer.segmentId w) = Some seg1 /\ seg1 <> []
    /\ pos + 2 <= Z.of_nat (length seg1) /\ 2 <= limit a
    /\ message a !! Z.to_nat (WirePointer.segmentId (wordAt seg1 pos)) = Some seg2
    /\ seg2 <> []
    /\ WirePointer.kind (wordAt seg1 pos) <> WirePointer.FAR.

Lemma upper32Bits_nonneg (w : Z) : 0 <= WirePointer.upper32Bits w.
Proof. unfold WirePointer.upper32Bits. apply Z.land_nonneg. right. lia. Qed.

Lemma farPositionInSegment_nonneg (w : Z) : 0 <= WirePointer.farPositionInSegment w.
Proof.
  unfold WirePointer.farPositionInSegment, WirePointer.offsetAndKind.
  apply Z.shiftr_nonneg, Z.land_nonneg. right. lia.
Qed.

Lemma tryGetSegment_Some (id : Z) (a : ReaderArena) (n : nat) :
  0 <= id ->
  (tryGetSegment id a = Some n <->
   n = Z.to_nat id /\ exists seg, message a !! Z.to_nat id = Some seg /\ seg <> []).
Proof.
  intros Hid. unfold tryGetSegment.
  destruct (Z.ltb_spec id 0) as [Hx|_]; [lia|].
  destruct (message a !! Z.to_nat id) as [[|x seg]|]; split.
  - discriminate.
  - intros (_ & seg & [= <-] & Hne). contradiction.
  - intros [= <-]. split; [reflexivity|]. eexists. split; [reflexivity | discriminate].
  - intros (-> & _). reflexivity.
  - discriminate.
  - intros (_ & seg & Hx & _). discriminate.
Qed.

Lemma tryGetSegment_message (id : Z) (a b : ReaderArena) :
  message a = message b -> tryGetSegment id a = tryGetSegment id b.
Proof. intros H. unfold tryGetSegment. rewrite H. reflexivity. Qed.

Lemma wordOf_message (r : Loc) (a b : ReaderArena) :
  message a = message b -> wordOf r a = wordOf r b.
Proof.
  intros H. unfold wordOf, arrayOf, getArray. rewrite H. reflexivity.
Qed.

Lemma canRead_violated (amount : Z) (a : ReaderArena) :
  violated (snd (canRead amount a)) = violated a.
Proof. unfold canRead. destruct (amount >? limit a); reflexivity. Qed.

Lemma boundsCheck_violated (segment : SegmentRef) (from to : Z) (a : ReaderArena) :
  violated (snd (boundsCheck segment from to a)) = violated a.
Proof.
  destruct segment as [id|blob]; [|reflexivity].
  unfold boundsCheck, containsInterval.
  destruct ((from >=? 0) && (to <=? Z.of_nat (length (getArray id a)))); [|reflexivity].
  apply canRead_violated.
Qed.

Lemma containsInterval_true (id : nat) (from to : Z) (a : ReaderArena) :
  fst (containsInterval id from to a) = true <->
  0 <= from /\ to <= Z.of_nat (length (getArray id a)) /\ to - from <= limit a.
Proof.
  unfold containsInterval. rewrite interval_words.
  destruct (Z.geb_spec from 0); destruct (Z.leb_spec to (Z.of_nat (length (getArray id a))));
    cbn [andb fst]; try (split; [discriminate | lia]).
  unfold canRead. destruct (Z.gtb_spec (to - from) (limit a)); cbn [fst];
    split; try discriminate; try lia; reflexivity.
Qed.

(** When the debug precondition of [followFars] fails. *)
Lemma followFars_violated (r : Loc) (segment : SegmentRef) (a : ReaderArena) :
  let '(ptr, ref1, seg1, a1) := followFars r segment a in
  (padNotFar r segment a -> violated a1 = violated a ++ [farMessage])
  /\ (~ padNotFar r segment a -> violated a1 = violated a).
Proof.
  unfold followFars, padNotFar. set (w := wordOf r a).
  set (pos := WirePointer.farPositionInSegment w).
  pose proof (upper32Bits_nonneg w) as Hid.
  pose proof (farPositionInSegment_nonneg w) as Hpos. fold pos in Hpos.
  destruct segment as [id|blob].
  2: { split; [intros (? & ? & ? & Hx & _); discriminate | reflexivity]. }
  destruct (WirePointer.Kind_eqb (WirePointer.kind w) WirePointer.FAR) eqn:Ek.
  2: { split; [|reflexivity]. intros (? & ? & ? & _ & Hx & _).
       apply Kind_eqb_eq in Hx. congruence. }
  apply Kind_eqb_eq in Ek.
  destruct (tryGetSegment (WirePointer.segmentId w) a) as [id1|] eqn:Es.
  2: { split; [|reflexivity]. intros (? & seg1 & ? & _ & _ & _ & Hs & Hne & _).
       assert (Hx : tryGetSegment (WirePointer.segmentId w) a
                    = Some (Z.to_nat (WirePointer.segmentId w))).
       { apply tryGetSegment_Some; [exact Hid|]. split; [reflexivity|].
         exists seg1. auto. }
       congruence. }
  apply tryGetSegment_Some in Es; [|exact Hid].
  destruct Es as (-> & seg1 & Hs1 & Hne1).
  assert (Harr : getArray (Z.to_nat (WirePointer.segmentId w)) a = seg1).
  { unfold getArray. unfold WirePointer.segmentId in Hs1 |- *. rewrite Hs1. reflexivity. }
  set (id1 := Z.to_nat (WirePointer.segmentId w)) in *.
  destruct (WirePointer.isDoubleFar w) eqn:Ed.
  2: { cbn [negb].
       pose proof (boundsCheck_violated (Checked id1) pos
                     (pos + (1 + 0) * POINTER_SIZE_IN_WORDS) a) as Hv.
       destruct (boundsCheck (Checked id1) pos (pos + (1 + 0) * POINTER_SIZE_IN_WORDS) a)
         as [ok a1].
       cbn [snd] in Hv.
       destruct ok; cbn [negb]; (split; [|intros _; exact Hv]);
         intros (? & ? & ? & _ & _ & Hx & _); discriminate. }
  cbn [negb].
  pose proof (boundsCheck_violated (Checked id1) pos
                (pos + (1 + 1) * POINTER_SIZE_IN_WORDS) a) as Hv.
  pose proof (boundsCheck_state (Checked id1) pos
                (pos + (1 + 1) * POINTER_SIZE_IN_WORDS) a) as (Hm & _ & _).
  pose proof (containsInterval_true id1 pos (pos + (1 + 1) * POINTER_SIZE_IN_WORDS) a) as Hci.
  change (containsInterval id1 pos (pos + (1 + 1) * POINTER_SIZE_IN_WORDS) a)
    with (boundsCheck (Checked id1) pos (pos + (1 + 1) * POINTER_SIZE_IN_WORDS) a) in Hci.
  rewrite Harr in Hci. unfold POINTER_SIZE_IN_WORDS in *.
  destruct (boundsCheck (Checked id1) pos (pos + (1 + 1) * 1) a) as [ok a1].
  cbn [fst snd] in Hv, Hm, Hci.
  destruct ok; cbn [negb].
  2: { split; [|intros _; exact Hv].
       intros (? & s1 & ? & _ & _ & _ & Hs & _ & Hb1 & Hb2 & _).
       assert (s1 = seg1) as -> by congruence.
       assert (Hx : false = true) by (apply Hci; lia). discriminate. }
  assert (Hpad : wordOf (Checked id1, pos) a1 = wordAt seg1 pos).
  { unfold wordOf, arrayOf. cbn [fst snd]. unfold getArray. rewrite Hm.
    fold (getArray id1 a). rewrite Harr. reflexivity. }
  rewrite Hpad. rewrite (tryGetSegment_message _ a1 a Hm).
  pose proof (upper32Bits_nonneg (wordAt seg1 pos)) as Hid2.
  destruct (tryGetSegment (WirePointer.segmentId (wordAt seg1 pos)) a) as [id2|] eqn:Es2.
  2: { split; [|intros _; exact Hv].
       intros (? & s1 & s2 & _ & _ & _ & Hs & _ & _ & _ & Hs2 & Hne2 & _).
       assert (s1 = seg1) as -> by congruence.
       assert (Hx : tryGetSegment (WirePointer.segmentId (wordAt seg1 pos)) a
                    = Some (Z.to_nat (WirePointer.segmentId (wordAt seg1 pos)))).
       { apply tryGetSegment_Some; [exact Hid2|]. split; [reflexivity|].
         exists s2. auto. }
       congruence. }
  apply tryGetSegment_Some in Es2; [|exact Hid2].
  destruct Es2 as (-> & seg2 & Hs2 & Hne2).
  cbv zeta. unfold DPRECOND.
  destruct (WirePointer.Kind_eqb (WirePointer.kind (wordAt seg1 pos)) WirePointer.FAR) eqn:Ek2.
  - apply Kind_eqb_eq in Ek2. split; [|intros _; exact Hv].
    intros (? & s1 & ? & _ & _ & _ & Hs & _ & _ & _ & _ & _ & Hnf).
    assert (s1 = seg1) as -> by congruence. contradiction.
  - split.
    + intros _. cbn [violated]. rewrite Hv. reflexivity.
    + intros Hn. exfalso. apply Hn. exists id, seg1, seg2.
      split; [reflexivity|]. split; [exact Ek|]. split; [reflexivity|].
      split; [exact Hs1|]. split; [exact Hne1|].
      assert (Hc : 0 <= pos /\ pos + (1 + 1) * 1 <= Z.of_nat (length seg1)
                   /\ pos + (1 + 1) * 1 - pos <= limit a) by (apply Hci; reflexivity).
      split; [lia|]. split; [lia|]. split; [exact Hs2|]. split; [exact Hne2|].
      intros Hx. apply Kind_eqb_eq in Hx. congruence.
Qed.

(** C8 (as amended). A null pointer (or no pointer at all) yields the default
    text (the bytes of the default value, or of the empty string literal when
    there is none, with the default size) and records nothing.  For a pointer
    that is not null, [readTextPointer] returns the text view of length
    [elementCount - 1] at the target exactly when the pointer resolves, the
    resolved pointer is a LIST of BYTE, the bounds check of its bytes passes,
    [elementCount > 0] and the last byte is 0; in every other case it returns
    the default text and at least one more error is recorded.  No debug
    precondition fails, except on a double-far pointer whose landing pad is
    not itself a far pointer ([padNotFar]): there the precondition of
    [farPositionInSegment] fails, which is fatal in a build that checks
    it. *)
Theorem C8_readTextPointer (segment : SegmentRef) (ref : option Loc)
    (d : option (list Z)) (ds : Z) (a : ReaderArena) :
  let theDefault :=
    mkTextReader (StaticChars (match d with None => [0] | Some chars => chars end)) ds in
  match ref with
  | None => readTextPointer segment ref d ds a = (theDefault, a)
  | Some r =>
    if WirePointer.isNull (wordOf r a) then
      readTextPointer segment ref d ds a = (theDefault, a)
    else
      let '(ptr, ref1, seg1, a1) := followFars r segment a in
      let w := wordOf ref1 a1 in
      let '(t, a2) := readTextPointer segment ref d ds a in
      (textValid seg1 ptr w a1 ->
       exists p : Z,
         ptr = Some p
         /\ t = mkTextReader (SegmentChars seg1 (8 * p)) (WirePointer.elementCount w - 1)
         /\ errors a2 = errors a)
      /\ (~ textValid seg1 ptr w a1 ->
          t = theDefault /\ (length (errors a) < length (errors a2))%nat)
      /\ (padNotFar r segment a -> violated a2 = violated a ++ [farMessage])
      /\ (~ padNotFar r segment a -> violated a2 = violated a)
  end.
Proof.
  intros theDefault.
  change theDefault with (defaultText d ds). clear theDefault.
  destruct ref as [r|]; [|reflexivity].
  unfold readTextPointer.
  destruct (WirePointer.isNull (wordOf r a)); [reflexivity|].
  pose proof (followFars_state r segment a) as HF.
  pose proof (followFars_violated r segment a) as HV.
  destruct (followFars r segment a) as [[[ptr ref1] seg1] a1].
  destruct HF as (Hm & Hsome & Hnone).
  cbv zeta.
  assert (Hwrap : forall (t : TextReader) (a2 : ReaderArena) (P Q : Prop),
            violated a2 = violated a1 -> P -> Q ->
            P /\ Q
            /\ (padNotFar r segment a -> violated a2 = violated a ++ [farMessage])
            /\ (~ padNotFar r segment a -> violated a2 = violated a)).
  { intros t a2 P Q Hv HP HQ. rewrite Hv. tauto. }
  destruct ptr as [p|].
  2:{ apply (Hwrap (defaultText d ds)); [reflexivity| |].
      - intros (p & Hp & _). discriminate.
      - intros _. split; [reflexivity | apply Hnone; reflexivity]. }
  specialize (Hsome ltac:(discriminate)).
  set (w := wordOf ref1 a1).
  destruct (WirePointer.Kind_eqb (WirePointer.kind w) WirePointer.LIST) eqn:Ek; cbn [negb].
  2:{ apply (Hwrap (defaultText d ds)); [reflexivity| |].
      - intros (p' & _ & Hk & _). apply Kind_eqb_eq in Hk. congruence.
      - intros _. split; [reflexivity|]. rewrite recordError_length. rewrite Hsome. lia. }
  apply Kind_eqb_eq in Ek.
  assert (Hbad : WirePointer.elementSize w <> BYTE ->
    (textValid seg1 (Some p) w a1 ->
     exists p0 : Z, Some p = Some p0 /\
       defaultText d ds = mkTextReader (SegmentChars seg1 (8 * p0)) (WirePointer.elementCount w - 1) /\
       errors (recordError
         "Message contains list pointer of non-bytes where text was expected." a1) = errors a)
    /\ (~ textValid seg1 (Some p) w a1 ->
        defaultText d ds = defaultText d ds /\
        (length (errors a) < length (errors (recordError
           "Message contains list pointer of non-bytes where text was expected." a1)))%nat)
    /\ (padNotFar r segment a ->
        violated (recordError
           "Message contains list pointer of non-bytes where text was expected." a1)
        = violated a ++ [farMessage])
    /\ (~ padNotFar r segment a ->
        violated (recordError
           "Message contains list pointer of non-bytes where text was expected." a1)
        = violated a)).
  { intros Hne. apply (Hwrap (defaultText d ds)); [reflexivity| |].
    - intros (p' & _ & _ & He & _). congruence.
    - intros _. split; [reflexivity|]. rewrite recordError_length, Hsome. lia. }
  destruct (WirePointer.elementSize w) eqn:Es; try (apply Hbad; discriminate).
  clear Hbad.
  pose proof (boundsCheck_state seg1 p (p + roundUpToWords_bytes (WirePointer.elementCount w)) a1)
    as (Hm2 & Ht2 & Hl2).
  pose proof (boundsCheck_violated seg1 p
                (p + roundUpToWords_bytes (WirePointer.elementCount w)) a1) as Hv2.
  destruct (boundsCheck seg1 p (p + roundUpToWords_bytes (WirePointer.elementCount w)) a1)
    as [ok a2] eqn:Eb.
  cbn [fst snd] in *.
  destruct ok; cbn [negb].
  2:{ apply (Hwrap (defaultText d ds)); [exact Hv2| |].
      - intros (p' & Hp & _ & _ & Hb & _). injection Hp as <-. rewrite Eb in Hb. discriminate.
      - intros _. split; [reflexivity|]. rewrite recordError_length, <- Hsome. lia. }
  specialize (Ht2 eq_refl).
  destruct (Z.gtb_spec (WirePointer.elementCount w) 0) as [Hgt|Hle]; cbn [negb].
  2:{ apply (Hwrap (defaultText d ds)); [exact Hv2| |].
      - intros (p' & _ & _ & _ & _ & Hc & _). lia.
      - intros _. split; [reflexivity|]. rewrite recordError_length, Ht2, Hsome. lia. }
  rewrite (charAt_message _ _ a2 a1 Hm2).
  destruct (Z.eqb_spec (charAt (SegmentChars seg1 (8 * p)) (WirePointer.elementCount w - 1) a1) 0)
    as [Hz|Hnz]; cbn [negb].
  - apply (Hwrap (defaultText d ds)); [exact Hv2| |].
    + intros _. exists p. split; [reflexivity|]. split; [reflexivity|]. congruence.
    + intros Hnv. exfalso. apply Hnv. exists p.
      rewrite Eb. repeat split; auto.
  - apply (Hwrap (defaultText d ds)); [exact Hv2| |].
    + intros (p' & Hp & _ & _ & _ & _ & Hc). injection Hp as <-. contradiction.
    + intros _. split; [reflexivity|]. rewrite recordError_length, Ht2, Hsome. lia.
Qed.
(** The exception is met by a message a peer can send: word 0 is a
    double-far pointer to word 1 of segment 0, and word 1 is a null word, not
    a far pointer. *)
Lemma padNotFar_met :
  padNotFar (Checked 0%nat, 0) (Checked 0) (newReaderArena [[14; 0; 5; 7]] 100)
  /\ violated (snd (readTextPointer (Checked 0) (Some (Checked 0%nat, 0)) None 0
                      (newReaderArena [[14; 0; 5; 7]] 100)))
     = [farMessage].
Proof.
  split; [|reflexivity].
  exists 0%nat, [14; 0; 5; 7], [14; 0; 5; 7].
  vm_compute. repeat split; try discriminate; intros H; discriminate H.
Qed.

(** C8 (as stated) fails on a null pointer: its kind is not LIST, the default
    text is returned, and no error is recorded. *)
Lemma C8_counterexample :
  ~ (forall (segment : SegmentRef) (r : Loc) (d : option (list Z)) (ds : Z) (a : ReaderArena),
       WirePointer.kind (wordOf r a) <> WirePointer.LIST ->
       errors (snd (readTextPointer segment (Some r) d ds a)) <> errors a).
Proof.
  intros H.
  apply (H (Checked 0) (Checked 0%nat, 0) None 0 (newReaderArena [[0; 0]] 100)).
  - vm_compute. discriminate.
  - vm_compute. reflexivity.
Qed.

(** ** Inline-composite lists *)

(** A list pointer declaring an inline-composite list of 0 words, whose tag
    announces 65536 elements of 65536 words each. *)
Definition overflowingList : ReaderArena :=
  newReaderArena [[1 + 7 * 2 ^ 32; 65536 * 4 + (32768 + 32768 * 2 ^ 16) * 2 ^ 32]] 100.

(** C6 (code bug). On [overflowingList] the elements overrun the declared
    word count ([65536 * 65536 > 0]), but the product is computed in 32 bits
    and wraps to 0: [readListPointer] records no error and returns a reader
    of 65536 elements instead of the default. *)
Theorem C6_element_count_overflow :
  let ref := wordOf (Checked 0, 0) overflowingList in
  let tag := wordOf (Checked 0, 1) overflowingList in
  WirePointer.kind ref = WirePointer.LIST
  /\ WirePointer.elementSize ref = INLINE_COMPOSITE
  /\ WirePointer.kind tag = WirePointer.STRUCT
  /\ WirePointer.inlineCompositeWordCount ref
     < WirePointer.inlineCompositeListElementCount tag * WirePointer.wordSize tag
  /\ readListPointer (Checked 0) (Some (Checked 0%nat, 0)) None INLINE_COMPOSITE 64
       overflowingList
     = (mkListReader (Checked 0) (Some 2) 65536 (65536 * 64) (32768 * 64) 32768 63,
        set_limit 99 overflowingList).
Proof. vm_compute. repeat split; reflexivity. Qed.

End ReaderProps.

(** ** Packed codec *)

Section PackedProps.
Import Packed.

(** The bytes produced by the loop of [write], without the buffering. *)
Fixpoint packLoop (fuel : nat) (input : list word8) : list Z :=
  match fuel, input with
  | S fuel1, w :: rest =>
    tagOf w :: handleBytes w ++
    (if tagOf w =? 0 then
       u8 (Z.of_nat (zeroRun 255 rest)) :: packLoop fuel1 (drop (zeroRun 255 rest) rest)
     else if tagOf w =? 255 then
       u8 (8 * Z.of_nat (literalRun 255 rest) / 8)
         :: flat_map bytes (take (literalRun 255 rest) rest)
         ++ packLoop fuel1 (drop (literalRun 255 rest) rest)
     else packLoop fuel1 rest)
  | _, _ => []
  end.

Definition pack (src : list word8) : list Z := packLoop (length src) src.

Lemma flush_emit (bs : list Z) (st : OutState) : flush (emit bs st) = flush st ++ bs.
Proof. unfold flush, emit. cbn [written pending]. rewrite app_assoc. reflexivity. Qed.

Lemma writeLoop_flush (gw : list Z -> Z) (fuel : nat) :
  forall (input : list word8) (st : OutState),
    flush (writeLoop gw fuel input st) = flush st ++ packLoop fuel input.
Proof.
  induction fuel as [|fuel IH]; intros input st.
  - cbn [writeLoop packLoop]. rewrite app_nil_r. reflexivity.
  - destruct input as [|w rest].
    + cbn [writeLoop packLoop]. rewrite app_nil_r. reflexivity.
    + cbn [writeLoop packLoop].
      set (st1 := if room st <? 10 then mkOutState (flush st) [] 20 else st).
      assert (H1 : flush st1 = flush st).
      { subst st1. destruct (room st <? 10); [|reflexivity].
        unfold flush. cbn [written pending]. apply app_nil_r. }
      destruct (tagOf w =? 0).
      { rewrite IH, !flush_emit, H1. rewrite <- !app_assoc. reflexivity. }
      destruct (tagOf w =? 255).
      { match goal with |- context [if ?c then _ else _] => destruct c end.
        - rewrite IH, !flush_emit, H1. rewrite <- !app_assoc. reflexivity.
        - rewrite IH. unfold flush at 1. cbn [written pending].
          rewrite app_nil_r, !flush_emit, H1. rewrite <- !app_assoc. reflexivity. }
      rewrite IH, !flush_emit, H1. rewrite <- !app_assoc. reflexivity.
Qed.

Lemma write_pack (gw : list Z -> Z) (before : list Z) (src : list word8) :
  write gw before src = before ++ pack src.
Proof.
  unfold write, pack. rewrite writeLoop_flush. unfold flush. cbn [written pending].
  rewrite app_nil_r. reflexivity.
Qed.

Lemma zeroRun_le (limit : nat) (input : list word8) :
  (zeroRun limit input <= limit)%nat /\ (zeroRun limit input <= length input)%nat.
Proof.
  revert input. induction limit as [|limit IH]; intros [|w rest]; cbn [zeroRun length]; try lia.
  destruct (forallb _ _); [|lia]. specialize (IH rest). lia.
Qed.

Lemma literalRun_le (limit : nat) (input : list word8) :
  (literalRun limit input <= limit)%nat /\ (literalRun limit input <= length input)%nat.
Proof.
  revert input. induction limit as [|limit IH]; intros [|w rest]; cbn [literalRun length]; try lia.
  destruct (zeroCount w >=? 2); [lia|]. specialize (IH rest). lia.
Qed.

Lemma packLoop_fuel (fuel1 fuel2 : nat) :
  forall input : list word8,
    (length input <= fuel1)%nat -> (length input <= fuel2)%nat ->
    packLoop fuel1 input = packLoop fuel2 input.
Proof.
  revert fuel2. induction fuel1 as [|fuel1 IH]; intros fuel2 input H1 H2.
  - destruct input; [|cbn [length] in H1; lia]. destruct fuel2; reflexivity.
  - destruct input as [|w rest]; [destruct fuel2; reflexivity|].
    destruct fuel2 as [|fuel2]; [cbn [length] in H2; lia|].
    cbn [length] in H1, H2. cbn [packLoop].
    pose proof (zeroRun_le 255 rest). pose proof (literalRun_le 255 rest).
    rewrite (IH fuel2 rest) by lia.
    rewrite (IH fuel2 (drop (zeroRun 255 rest) rest)) by (rewrite length_drop; lia).
    rewrite (IH fuel2 (drop (literalRun 255 rest) rest)) by (rewrite length_drop; lia).
    reflexivity.
Qed.

Lemma pack_nil : pack [] = [].
Proof. reflexivity. Qed.

Lemma pack_cons (w : word8) (rest : list word8) :
  pack (w :: rest) =
  tagOf w :: handleBytes w ++
    (if tagOf w =? 0 then
       u8 (Z.of_nat (zeroRun 255 rest)) :: pack (drop (zeroRun 255 rest) rest)
     else if tagOf w =? 255 then
       u8 (8 * Z.of_nat (literalRun 255 rest) / 8)
         :: flat_map bytes (take (literalRun 255 rest) rest)
         ++ pack (drop (literalRun 255 rest) rest)
     else pack rest).
Proof.
  unfold pack. cbn [length packLoop].
  pose proof (zeroRun_le 255 rest). pose proof (literalRun_le 255 rest).
  rewrite (packLoop_fuel (length rest) (length (drop (zeroRun 255 rest) rest))
             (drop (zeroRun 255 rest) rest)) by (rewrite ?length_drop; lia).
  rewrite (packLoop_fuel (length rest) (length (drop (literalRun 255 rest) rest))
             (drop (literalRun 255 rest) rest)) by (rewrite ?length_drop; lia).
  reflexivity.
Qed.

(** [b != 0] *)
Definition nonzero (b : Z) : bool := negb (b =? 0).

Lemma tagOf_cases (w : word8) :
  0 <= tagOf w < 256
  /\ (Z.testbit (tagOf w) 0 = nonzero (b0 w) /\ Z.testbit (tagOf w) 1 = nonzero (b1 w)
      /\ Z.testbit (tagOf w) 2 = nonzero (b2 w) /\ Z.testbit (tagOf w) 3 = nonzero (b3 w)
      /\ Z.testbit (tagOf w) 4 = nonzero (b4 w) /\ Z.testbit (tagOf w) 5 = nonzero (b5 w)
      /\ Z.testbit (tagOf w) 6 = nonzero (b6 w) /\ Z.testbit (tagOf w) 7 = nonzero (b7 w))
  /\ (tagBit (tagOf w) 0 = nonzero (b0 w) /\ tagBit (tagOf w) 1 = nonzero (b1 w)
      /\ tagBit (tagOf w) 2 = nonzero (b2 w) /\ tagBit (tagOf w) 3 = nonzero (b3 w)
      /\ tagBit (tagOf w) 4 = nonzero (b4 w) /\ tagBit (tagOf w) 5 = nonzero (b5 w)
      /\ tagBit (tagOf w) 6 = nonzero (b6 w) /\ tagBit (tagOf w) 7 = nonzero (b7 w))
  /\ (tagOf w = 0 <-> forallb (fun b => b =? 0) (bytes w) = true)
  /\ (tagOf w = 255 <-> forallb nonzero (bytes w) = true).
Proof.
  destruct w as [x0 x1 x2 x3 x4 x5 x6 x7].
  unfold tagOf, bit, nonzero, bytes. cbn [b0 b1 b2 b3 b4 b5 b6 b7 forallb].
  destruct (x0 =? 0), (x1 =? 0), (x2 =? 0), (x3 =? 0),
           (x4 =? 0), (x5 =? 0), (x6 =? 0), (x7 =? 0);
    vm_compute; repeat split; congruence.
Qed.

Lemma handleBytes_filter (w : word8) : handleBytes w = List.filter nonzero (bytes w).
Proof.
  destruct w as [x0 x1 x2 x3 x4 x5 x6 x7].
  unfold handleBytes, HANDLE_BYTE, bit, bytes, nonzero.
  cbn [b0 b1 b2 b3 b4 b5 b6 b7 List.filter].
  destruct (x0 =? 0), (x1 =? 0), (x2 =? 0), (x3 =? 0),
           (x4 =? 0), (x5 =? 0), (x6 =? 0), (x7 =? 0); reflexivity.
Qed.

Lemma word8_zero (w : word8) :
  forallb (fun b => b =? 0) (bytes w) = true -> w = zeroWord.
Proof.
  destruct w as [x0 x1 x2 x3 x4 x5 x6 x7]. unfold bytes.
  cbn [b0 b1 b2 b3 b4 b5 b6 b7 forallb]. rewrite !andb_true_iff, !Z.eqb_eq.
  intros (-> & -> & -> & -> & -> & -> & -> & -> & _). reflexivity.
Qed.

Lemma zeroRun_spec (limit : nat) :
  forall input : list word8,
    Forall (fun w => w = zeroWord) (take (zeroRun limit input) input)
    /\ (forall w, input !! zeroRun limit input = Some w ->
        (zeroRun limit input < limit)%nat -> tagOf w <> 0).
Proof.
  induction limit as [|limit IH]; intros [|w rest]; cbn [zeroRun take].
  - split; [constructor|]. intros w H. discriminate.
  - split; [constructor|]. intros w' _ H. lia.
  - split; [constructor|]. intros w H. discriminate.
  - destruct (forallb (fun b => b =? 0) (bytes w)) eqn:E.
    + destruct (IH rest) as [H1 H2]. cbn [take]. split.
      * constructor; [apply word8_zero; exact E | exact H1].
      * intros w' Hw' Hlt. cbn in Hw'. apply (H2 w' Hw'). lia.
    + split; [constructor|]. intros w' Hw' _. cbn in Hw'. injection Hw' as <-.
      intros Ht. apply (proj1 (proj2 (proj2 (proj2 (tagOf_cases w))))) in Ht. congruence.
Qed.

Lemma literalRun_spec (limit : nat) :
  forall input : list word8,
    Forall (fun w => zeroCount w < 2) (take (literalRun limit input) input)
    /\ (forall w, input !! literalRun limit input = Some w ->
        (literalRun limit input < limit)%nat -> 2 <= zeroCount w).
Proof.
  induction limit as [|limit IH]; intros [|w rest]; cbn [literalRun take].
  - split; [constructor|]. intros w H. discriminate.
  - split; [constructor|]. intros w' _ H. lia.
  - split; [constructor|]. intros w H. discriminate.
  - destruct (Z.geb_spec (zeroCount w) 2) as [E|E].
    + split; [constructor|]. intros w' Hw' _. cbn in Hw'. injection Hw' as <-. exact E.
    + destruct (IH rest) as [H1 H2]. cbn [take]. split.
      * constructor; [exact E | exact H1].
      * intros w' Hw' Hlt. cbn in Hw'. apply (H2 w' Hw'). lia.
Qed.

Lemma u8_small (n : Z) : 0 <= n < 256 -> u8 n = n.
Proof. intros H. unfold u8. apply Z.mod_small. lia. Qed.

Lemma fold_zero_count (l : list Z) :
  forall acc : Z,
    fold_left (fun c b => c + (if b =? 0 then 1 else 0)) l acc
    = acc + Z.of_nat (count_occ Z.eq_dec l 0).
Proof.
  induction l as [|x l IH]; intros acc; cbn [fold_left count_occ]; [lia|].
  rewrite IH. destruct (Z.eq_dec x 0) as [->|Hx].
  - cbn [Z.eqb]. lia.
  - rewrite (proj2 (Z.eqb_neq x 0) Hx). lia.
Qed.

Lemma zeroCount_count_occ (w : word8) :
  zeroCount w = Z.of_nat (count_occ Z.eq_dec (bytes w) 0).
Proof. unfold zeroCount. rewrite fold_zero_count. lia. Qed.

(** C5. For every input word [w] with bytes [b0..b7], whatever the buffers of
    the inner stream, the encoder emits a tag byte whose bit [i] is set iff
    [bi <> 0], followed by exactly the non-zero bytes of [w] in order.  When
    the tag is 0 it then skips the longest run of at most 255 further all-zero
    words and emits their count as one byte; when the tag is 0xFF it then
    takes the longest run of at most 255 further words that each have fewer
    than two zero bytes (counted with [count_occ] over the eight bytes),
    emits their count as one byte and then those words verbatim; otherwise
    the next tag follows.  In each case the rest of the output is the
    encoding of the remaining words. *)
Theorem C5_packed_encoder (getWriteBuffer : list Z -> Z) (before : list Z)
    (w : word8) (rest : list word8) :
  let tag := tagOf w in
  let out := write getWriteBuffer before (w :: rest) in
  let emitted := tag :: List.filter (fun b => negb (b =? 0)) (bytes w) in
  let zeroBytes (w1 : word8) : nat := count_occ Z.eq_dec (bytes w1) 0 in
  0 <= tag < 256
  /\ (forall i : nat, (i < 8)%nat ->
        Z.testbit tag (Z.of_nat i) = negb (nth i (bytes w) 0 =? 0))
  /\ (tag = 0 ->
      let n := zeroRun 255 rest in
      (n <= 255)%nat /\ (n <= length rest)%nat
      /\ Forall (fun w1 => w1 = W8 0 0 0 0 0 0 0 0) (take n rest)
      /\ (forall w1, rest !! n = Some w1 -> (n < 255)%nat -> w1 <> W8 0 0 0 0 0 0 0 0)
      /\ out = before ++ emitted ++ [Z.of_nat n]
                ++ write getWriteBuffer [] (drop n rest))
  /\ (tag = 255 ->
      let n := literalRun 255 rest in
      (n <= 255)%nat /\ (n <= length rest)%nat
      /\ Forall (fun w1 => (zeroBytes w1 < 2)%nat) (take n rest)
      /\ (forall w1, rest !! n = Some w1 -> (n < 255)%nat -> (2 <= zeroBytes w1)%nat)
      /\ out = before ++ emitted ++ [Z.of_nat n] ++ flat_map bytes (take n rest)
                ++ write getWriteBuffer [] (drop n rest))
  /\ (tag <> 0 -> tag <> 255 ->
      out = before ++ emitted ++ write getWriteBuffer [] rest).
Proof.
  intros tag out emitted zeroBytes. subst out emitted zeroBytes.
  change (fun b : Z => negb (b =? 0)) with nonzero.
  change (W8 0 0 0 0 0 0 0 0) with zeroWord.
  rewrite !write_pack, pack_cons, <- handleBytes_filter. fold tag.
  destruct (tagOf_cases w) as (Hr & Hb & _ & Hz & Hf). fold tag in Hr, Hb, Hz, Hf.
  split; [exact Hr|]. split.
  { intros i Hi. destruct Hb as (H0 & H1 & H2 & H3 & H4 & H5 & H6 & H7).
    do 8 (destruct i as [|i]; [assumption|]). lia. }
  pose proof (zeroRun_le 255 rest) as [Hz1 Hz2].
  pose proof (literalRun_le 255 rest) as [Hl1 Hl2].
  split; [|split].
  - intros Ht. rewrite Ht. cbn [Z.eqb]. 
    destruct (zeroRun_spec 255 rest) as [Hs1 Hs2].
    repeat split; try assumption.
    + intros w1 Hw1 Hlt Heq. subst w1. apply (Hs2 _ Hw1 Hlt). reflexivity.
    + rewrite u8_small by lia. rewrite ?write_pack. cbn [app].
      rewrite <- ?app_assoc. reflexivity.
  - intros Ht. rewrite Ht. cbn [Z.eqb].
    destruct (literalRun_spec 255 rest) as [Hs1 Hs2].
    split; [assumption|]. split; [assumption|]. split; [|split].
    + eapply Forall_impl; [exact Hs1|]. intros w1 Hw1. cbv beta in Hw1.
      rewrite zeroCount_count_occ in Hw1. lia.
    + intros w1 Hw1 Hlt. specialize (Hs2 w1 Hw1 Hlt).
      rewrite zeroCount_count_occ in Hs2. lia.
    + rewrite Z.mul_comm, Z.div_mul by lia. rewrite u8_small by lia.
      rewrite ?write_pack. cbn [app]. rewrite <- ?app_assoc. reflexivity.
  - intros H0 H255.
    destruct (Z.eqb_spec tag 0); [contradiction|].
    destruct (Z.eqb_spec tag 255); [contradiction|].
    rewrite ?write_pack. cbn [app]. reflexivity.
Qed.
Lemma toWords_bytes (ws : list word8) : toWords (flat_map bytes ws) = ws.
Proof.
  induction ws as [|w ws IH]; [reflexivity|].
  destruct w. cbn [flat_map bytes b0 b1 b2 b3 b4 b5 b6 b7 app toWords].
  rewrite IH. reflexivity.
Qed.

(** The bytes still to come: the rest of the buffer, then the later buffers. *)
Definition flat (st : InState) : list Z := cur st ++ concat (next st).
(** Every buffer handed out by the inner stream holds at least one byte. *)
Definition chunked (s : Inner) : Prop := Forall (fun c : list Z => c <> []) s.

Lemma nonzero_false (b : Z) : nonzero b = false -> b = 0.
Proof. unfold nonzero. destruct (Z.eqb_spec b 0); [auto | discriminate]. Qed.

Lemma slowByte_set (mb : Z) (log : ErrorLog) (tag i b : Z) (st : InState) (s : list Z) :
  tagBit tag i = true -> flat st = b :: s -> chunked (next st) ->
  exists st1 : InState,
    slowByte mb log tag i st = inr st1
    /\ out st1 = out st ++ [b] /\ flat st1 = s
    /\ chunked (next st1) /\ (length (next st1) <= length (next st))%nat.
Proof.
  intros Hbit Hflat Hch. unfold slowByte. rewrite Hbit.
  destruct st as [c nx o]. unfold flat in Hflat. cbn [cur next out buf] in *.
  destruct c as [|b1 c1].
  - cbn [app] in Hflat. unfold REFRESH_BUFFER, getReadBuffer. cbn [next out buf].
    destruct nx as [|c2 nx2]; [discriminate|].
    inversion Hch as [|? ? Hc2 Hnx2]; subst.
    destruct c2 as [|b2 c3]; [contradiction|].
    cbn [concat app] in Hflat. injection Hflat as -> Hs.
    cbn [tl cur next out]. eexists. split; [reflexivity|].
    cbn [cur next out buf]. unfold flat. cbn [cur next].
    repeat split; auto. cbn [length]. lia.
  - cbn [app] in Hflat. injection Hflat as -> Hs.
    cbn [cur next out buf]. eexists. split; [reflexivity|].
    unfold flat. cbn [cur next out buf]. repeat split; auto.
Qed.

Lemma slowBytes_spec (mb : Z) (log : ErrorLog) (tag : Z) (bs : list Z) :
  forall (i : Z) (st : InState) (s : list Z),
    (forall j : nat, (j < length bs)%nat ->
       tagBit tag (i + Z.of_nat j) = nonzero (nth j bs 0)) ->
    flat st = List.filter nonzero bs ++ s -> chunked (next st) ->
    exists st1 : InState,
      slowBytes mb log tag (length bs) i st = inr st1
      /\ out st1 = out st ++ bs /\ flat st1 = s
      /\ chunked (next st1) /\ (length (next st1) <= length (next st))%nat.
Proof.
  induction bs as [|b bs IH]; intros i st s Hbits Hflat Hch.
  - exists st. cbn [slowBytes length]. rewrite app_nil_r. repeat split; auto.
  - cbn [length slowBytes].
    pose proof (Hbits 0%nat ltac:(cbn [length]; lia)) as Hb0.
    rewrite Z.add_0_r in Hb0. cbn [nth] in Hb0.
    assert (Hrest : forall j : nat, (j < length bs)%nat ->
              tagBit tag (i + 1 + Z.of_nat j) = nonzero (nth j bs 0)).
    { intros j Hj. specialize (Hbits (S j) ltac:(cbn [length]; lia)).
      cbn [nth] in Hbits. rewrite <- Hbits. f_equal. lia. }
    cbn [List.filter] in Hflat.
    destruct (nonzero b) eqn:Enz.
    + cbn [app] in Hflat.
      destruct (slowByte_set mb log tag i b st _ Hb0 Hflat Hch)
        as (st1 & E1 & Ho1 & Hf1 & Hc1 & Hl1).
      rewrite E1.
      destruct (IH (i + 1) st1 s Hrest Hf1 Hc1) as (st2 & E2 & Ho2 & Hf2 & Hc2 & Hl2).
      exists st2. split; [exact E2|]. rewrite Ho2, Ho1, <- app_assoc.
      repeat split; auto. lia.
    + unfold slowByte. rewrite Hb0.
      apply nonzero_false in Enz. subst b.
      destruct (IH (i + 1) (mkInState (cur st) (next st) (out st ++ [0]) (buf st)) s Hrest Hflat Hch)
        as (st2 & E2 & Ho2 & Hf2 & Hc2 & Hl2).
      exists st2. split; [exact E2|]. rewrite Ho2. cbn [out]. rewrite <- app_assoc.
      repeat split; auto.
Qed.

(** The eight [HANDLE_BYTE]s of the fast path, as a loop. *)
Fixpoint fastBytes (tag : Z) (n : nat) (i : Z) (st : InState) : InState :=
  match n with
  | O => st
  | S n1 => fastBytes tag n1 (i + 1) (HANDLE_BYTE_in tag i st)
  end.

Lemma fastBytes_spec (tag : Z) (bs : list Z) :
  forall (i : Z) (st : InState) (c1 : list Z),
    (forall j : nat, (j < length bs)%nat ->
       tagBit tag (i + Z.of_nat j) = nonzero (nth j bs 0)) ->
    cur st = List.filter nonzero bs ++ c1 ->
    fastBytes tag (length bs) i st = mkInState c1 (next st) (out st ++ bs) (buf st).
Proof.
  induction bs as [|b bs IH]; intros i st c1 Hbits Hcur.
  - cbn [fastBytes length]. rewrite app_nil_r. destruct st. cbn in *. congruence.
  - cbn [length fastBytes].
    pose proof (Hbits 0%nat ltac:(cbn [length]; lia)) as Hb0.
    rewrite Z.add_0_r in Hb0. cbn [nth] in Hb0.
    assert (Hrest : forall j : nat, (j < length bs)%nat ->
              tagBit tag (i + 1 + Z.of_nat j) = nonzero (nth j bs 0)).
    { intros j Hj. specialize (Hbits (S j) ltac:(cbn [length]; lia)).
      cbn [nth] in Hbits. rewrite <- Hbits. f_equal. lia. }
    cbn [List.filter] in Hcur.
    unfold HANDLE_BYTE_in. rewrite Hb0.
    destruct (nonzero b) eqn:Enz.
    + cbn [app] in Hcur. rewrite Hcur. cbn [hd tl].
      rewrite (IH (i + 1) _ c1 Hrest) by reflexivity.
      cbn [next out buf]. rewrite Z.land_m1_r, <- app_assoc. reflexivity.
    + apply nonzero_false in Enz. subst b.
      rewrite (IH (i + 1) _ c1 Hrest) by (cbn [cur]; exact Hcur).
      cbn [next out buf]. rewrite Z.land_0_r, <- app_assoc. reflexivity.
Qed.

Lemma innerRead_spec (s : Inner) :
  forall n : nat,
    chunked s -> (n <= length (concat s))%nat ->
    innerTake n s = take n (concat s)
    /\ concat (innerSkip n s) = drop n (concat s)
    /\ chunked (innerSkip n s)
    /\ (length (innerSkip n s) <= length s)%nat.
Proof.
  induction s as [|c s IH]; intros n Hch Hn.
  - cbn in *. rewrite take_nil, drop_nil. repeat split; auto.
  - inversion Hch as [|? ? Hc Hs]; subst.
    cbn [concat] in *. rewrite length_app in Hn.
    cbn [innerTake innerSkip].
    destruct (Nat.ltb_spec n (length c)) as [Hlt|Hge].
    + destruct (Nat.leb_spec n (length c)) as [_|?]; [|lia].
      cbn [concat length].
      rewrite take_app_le, drop_app_le by lia.
      repeat split; auto.
      constructor; [|exact Hs].
      intros Hd. apply (f_equal (@length Z)) in Hd. rewrite length_drop in Hd. cbn in Hd. lia.
    + destruct (IH (n - length c)%nat Hs ltac:(lia)) as (H1 & H2 & H3 & H4).
      rewrite H2, drop_app_ge by lia.
      split.
      { destruct (Nat.leb_spec n (length c)) as [Hle|Hgt].
        - assert (n = length c) by lia. subst n.
          rewrite take_app_le, firstn_all by lia. reflexivity.
        - rewrite H1, take_app_ge by lia. reflexivity. }
      repeat split; auto. cbn [length]. lia.
Qed.

(** What follows a word's tag and non-zero bytes in the packed stream. *)
Definition tailOf (w : word8) (rest : list word8) : list Z :=
  if tagOf w =? 0 then
    u8 (Z.of_nat (zeroRun 255 rest)) :: pack (drop (zeroRun 255 rest) rest)
  else if tagOf w =? 255 then
    u8 (8 * Z.of_nat (literalRun 255 rest) / 8)
      :: flat_map bytes (take (literalRun 255 rest) rest)
      ++ pack (drop (literalRun 255 rest) rest)
  else pack rest.

Lemma pack_cons_tail (w : word8) (rest : list word8) :
  pack (w :: rest) = tagOf w :: List.filter nonzero (bytes w) ++ tailOf w rest.
Proof. rewrite pack_cons, handleBytes_filter. reflexivity. Qed.

Lemma chunked_nil (s : Inner) : chunked s -> concat s = [] -> s = [].
Proof.
  intros Hch Hc. destruct s as [|c s]; [reflexivity|].
  inversion Hch; subst. cbn [concat] in Hc. destruct c; [contradiction | discriminate].
Qed.

Lemma prefix_split (l1 x l2 y : list Z) :
  l1 ++ x = l2 ++ y -> (length l2 <= length l1)%nat ->
  l1 = l2 ++ drop (length l2) l1 /\ drop (length l2) l1 ++ x = y.
Proof.
  intros H Hl.
  assert (H1 : take (length l2) (l1 ++ x) = take (length l2) (l2 ++ y)) by (rewrite H; reflexivity).
  assert (H2 : drop (length l2) (l1 ++ x) = drop (length l2) (l2 ++ y)) by (rewrite H; reflexivity).
  rewrite take_app_le in H1 by lia. rewrite take_app_length in H1.
  rewrite drop_app_le in H2 by lia. rewrite drop_app_length in H2.
  split; [|exact H2]. rewrite <- H1 at 1. rewrite take_drop. reflexivity.
Qed.

Lemma flat_map_bytes_length (ws : list word8) :
  length (flat_map bytes ws) = (8 * length ws)%nat.
Proof.
  induction ws as [|w ws IH]; [reflexivity|].
  cbn [flat_map]. rewrite length_app, IH. cbn [bytes length]. lia.
Qed.

Lemma flat_map_take_drop (n : nat) (ws : list word8) :
  flat_map bytes ws = flat_map bytes (take n ws) ++ flat_map bytes (drop n ws).
Proof. rewrite <- flat_map_app, take_drop. reflexivity. Qed.

Lemma zero_words_bytes (ws : list word8) :
  Forall (fun w => w = zeroWord) ws ->
  flat_map bytes ws = replicate (8 * length ws) 0.
Proof.
  induction 1 as [|w ws Hw _ IH]; [reflexivity|].
  subst w. cbn [flat_map length]. rewrite IH.
  replace (8 * S (length ws))%nat with (8 + 8 * length ws)%nat by lia.
  rewrite replicate_add. reflexivity.
Qed.

(** A continuation that decodes every stream holding fewer bytes and buffers
    than [bound]. *)
Definition goodCont (k : InState -> option ReadResult) (maxBytes : Z) (log : ErrorLog)
    (bound : nat) : Prop :=
  forall (ws : list word8) (st : InState),
    ws <> [] -> (length (flat st) + length (next st) < bound)%nat ->
    chunked (next st) -> flat st = pack ws ->
    maxBytes = Z.of_nat (length (out st)) + 8 * Z.of_nat (length ws) ->
    k st = Some (mkReadResult maxBytes (out st ++ flat_map bytes ws) [] log).

Lemma finish_ok (k : InState -> option ReadResult) (maxBytes : Z) (log : ErrorLog)
    (bound : nat) (ws : list word8) (c : list Z) (nx : Inner) (ot bf : list Z) :
  goodCont k maxBytes log bound ->
  (length (c ++ concat nx) + length nx < bound)%nat ->
  chunked nx -> c ++ concat nx = pack ws ->
  maxBytes = Z.of_nat (length ot) + 8 * Z.of_nat (length ws) ->
  (if Z.of_nat (length ot) =? maxBytes then
     Some (mkReadResult maxBytes ot (unconsumed (mkInState c nx ot bf)) log)
   else k (mkInState c nx ot bf))
  = Some (mkReadResult maxBytes (ot ++ flat_map bytes ws) [] log).
Proof.
  intros Hk Hb Hch Hflat Hmax.
  destruct ws as [|w ws].
  - cbn [length] in Hmax. rewrite (proj2 (Z.eqb_eq _ _)) by lia.
    rewrite pack_nil in Hflat.
    apply app_eq_nil in Hflat as [Hc Hn].
    unfold unconsumed. cbn [cur next]. rewrite Hc, (chunked_nil _ Hch Hn).
    cbn [flat_map]. rewrite app_nil_r. reflexivity.
  - cbn [length] in Hmax. rewrite (proj2 (Z.eqb_neq _ _)) by lia.
    apply (Hk (w :: ws) (mkInState c nx ot bf)); auto; discriminate.
Qed.

Lemma afterWord_ok (k : InState -> option ReadResult) (maxBytes : Z) (log : ErrorLog)
    (bound : nat) (w : word8) (rest : list word8) (st : InState) (o : list Z) :
  goodCont k maxBytes log bound ->
  (length (flat st) + length (next st) < bound)%nat ->
  chunked (next st) -> flat st = tailOf w rest -> out st = o ++ bytes w ->
  maxBytes = Z.of_nat (length o) + 8 * Z.of_nat (length (w :: rest)) ->
  (tagOf w = 0 \/ tagOf w = 255 -> cur st <> []) ->
  afterWord k maxBytes maxBytes log (tagOf w) st =
  Some (mkReadResult maxBytes (o ++ flat_map bytes (w :: rest)) [] log).
Proof.
  intros Hk Hb Hch Hflat Hout Hmax Hcur.
  destruct st as [c nx ot bf]. cbn [cur next out buf] in *. subst ot.
  unfold afterWord, tailOf in *. unfold flat in Hflat, Hb. cbn [cur next out buf] in *.
  cbn [length] in Hmax.
  assert (Hlen : Z.of_nat (length (o ++ bytes w)) = Z.of_nat (length o) + 8).
  { rewrite length_app. cbn [bytes length]. lia. }
  cbn [flat_map]. 
  destruct (Z.eqb_spec (tagOf w) 0) as [Ht0|Ht0].
  - (* a run of zero words *)
    pose proof (zeroRun_le 255 rest) as [Hz1 Hz2].
    destruct (zeroRun_spec 255 rest) as [Hs1 _].
    set (n := zeroRun 255 rest) in *.
    destruct c as [|c0 c1]; [exfalso; apply Hcur; auto|].
    rewrite u8_small in Hflat by lia. cbn [app length] in Hflat, Hb.
    injection Hflat as -> Hflat.
    destruct (Z.leb_spec (Z.of_nat n * 8) (maxBytes - Z.of_nat (length (o ++ bytes w))))
      as [_|Hx]; [|lia].
    cbn [negb].
    replace (Z.to_nat (Z.of_nat n * 8)) with (8 * n)%nat by lia.
    rewrite (finish_ok k maxBytes log bound (drop n rest)); auto.
    + rewrite (flat_map_take_drop n rest).
      rewrite (zero_words_bytes _ Hs1), length_take, Nat.min_l by lia.
      rewrite <- !app_assoc. reflexivity.
    + lia.
    + rewrite length_app, length_replicate, length_drop. lia.
  - destruct (Z.eqb_spec (tagOf w) 255) as [Ht1|Ht1].
    + (* a run of words passed through *)
      pose proof (literalRun_le 255 rest) as [Hl1 Hl2].
      set (n := literalRun 255 rest) in *.
      destruct c as [|c0 c1]; [exfalso; apply Hcur; auto|].
      rewrite Z.mul_comm, Z.div_mul in Hflat by lia.
      rewrite u8_small in Hflat by lia. cbn [app length] in Hflat, Hb.
      injection Hflat as -> Hflat.
      destruct (Z.leb_spec (Z.of_nat n * 8) (maxBytes - Z.of_nat (length (o ++ bytes w))))
        as [_|Hx]; [|lia].
      cbn [negb].
      replace (Z.to_nat (Z.of_nat n * 8)) with (8 * n)%nat by lia.
      assert (Hrun : length (flat_map bytes (take n rest)) = (8 * n)%nat).
      { rewrite flat_map_bytes_length, length_take. lia. }
      destruct (Z.geb_spec (Z.of_nat (length c1)) (Z.of_nat n * 8)) as [Hge|Hlt].
      * destruct (prefix_split c1 (concat nx) _ _ Hflat ltac:(lia)) as [Hc1 Hrest].
        rewrite Hrun in Hc1, Hrest.
        rewrite (finish_ok k maxBytes log bound (drop n rest)); auto.
        -- rewrite (flat_map_take_drop n rest).
           rewrite Hc1 at 1. rewrite take_app_le by lia.
           rewrite <- Hrun, firstn_all. rewrite <- !app_assoc. reflexivity.
        -- rewrite length_app, length_drop. rewrite length_app in Hb. lia.
        -- rewrite length_app, length_take, length_drop. lia.
      * assert (Htot : (length c1 + length (concat nx) >= 8 * n)%nat).
        { apply (f_equal (@length Z)) in Hflat. rewrite !length_app, Hrun in Hflat. lia. }
        replace (Z.to_nat (Z.of_nat n * 8 - Z.of_nat (length c1)))
          with (8 * n - length c1)%nat by lia.
        unfold innerRead.
        destruct (Nat.leb_spec (8 * n - length c1) (length (concat nx))) as [_|Hx]; [|lia].
        destruct (innerRead_spec nx (8 * n - length c1)%nat Hch ltac:(lia))
          as (Htk & Hsk & Hch1 & Hle1).
        rewrite Htk.
        assert (Hpre : c1 ++ take (8 * n - length c1) (concat nx)
                       = flat_map bytes (take n rest)).
        { rewrite <- take_app_ge by lia.
          replace (length c1 + (8 * n - length c1))%nat with (8 * n)%nat by lia.
          rewrite Hflat, <- Hrun, take_app_length. reflexivity. }
        assert (Hpost : concat (innerSkip (8 * n - length c1) nx) = pack (drop n rest)).
        { rewrite Hsk.
          assert (Hd : drop (8 * n) (c1 ++ concat nx) = pack (drop n rest)).
          { rewrite Hflat, <- Hrun, drop_app_length. reflexivity. }
          rewrite drop_app_ge in Hd by lia. exact Hd. }
        set (inner1 := innerSkip (8 * n - length c1) nx) in *.
        rewrite <- (app_assoc (o ++ bytes w)), Hpre.
        assert (Hlen2 : Z.of_nat (length ((o ++ bytes w) ++ flat_map bytes (take n rest)))
                        = Z.of_nat (length o) + 8 + 8 * Z.of_nat n).
        { rewrite length_app, Hrun. lia. }
        destruct (drop n rest) as [|w1 rest1] eqn:Edrop.
        -- assert (Hn : n = length rest).
           { apply (f_equal (@length word8)) in Edrop. rewrite length_drop in Edrop.
             cbn [length] in Edrop. lia. }
           rewrite (proj2 (Z.eqb_eq _ _)) by lia.
           rewrite pack_nil in Hpost. rewrite (chunked_nil _ Hch1 Hpost).
           rewrite (flat_map_take_drop n rest), Edrop. cbn [flat_map].
           rewrite app_nil_r, <- !app_assoc. reflexivity.
        -- assert (Hn : (length rest = n + S (length rest1))%nat).
           { apply (f_equal (@length word8)) in Edrop. rewrite length_drop in Edrop.
             cbn [length] in Edrop. lia. }
           rewrite (proj2 (Z.eqb_neq _ _)) by lia.
           rewrite (Hk (w1 :: rest1)).
           ++ cbn [out]. rewrite (flat_map_take_drop n rest), Edrop.
              rewrite <- !app_assoc. reflexivity.
           ++ discriminate.
           ++ unfold flat. cbn [cur next].
              assert (Hcat : (length (concat inner1) <= length (concat nx))%nat).
              { rewrite Hsk, length_drop. lia. }
              rewrite length_app in Hb.
              destruct inner1 as [|i1 inner2]; cbn [getReadBuffer tl length concat] in *;
                rewrite ?length_app in *; cbn [length] in *; lia.
           ++ cbn [next]. destruct inner1; cbn [tl]; [constructor|].
              inversion Hch1; assumption.
           ++ unfold flat. cbn [cur next]. rewrite <- Hpost.
              destruct inner1; reflexivity.
           ++ cbn [out length]. lia.
    + (* the next tag follows *)
      rewrite (finish_ok k maxBytes log bound rest); auto; try lia.
      rewrite <- !app_assoc. reflexivity.
Qed.

Lemma tagBit_tagOf (w : word8) (j : nat) :
  (j < length (bytes w))%nat ->
  tagBit (tagOf w) (0 + Z.of_nat j) = nonzero (nth j (bytes w) 0).
Proof.
  intros Hj. destruct (tagOf_cases w) as (_ & _ & Hb & _).
  destruct Hb as (H0 & H1 & H2 & H3 & H4 & H5 & H6 & H7).
  cbn [bytes length] in Hj.
  do 8 (destruct j as [|j]; [assumption|]). lia.
Qed.

Lemma filter_length_le (bs : list Z) :
  (length (List.filter nonzero bs) <= length bs)%nat.
Proof.
  induction bs as [|b bs IH]; [reflexivity|].
  cbn [List.filter]. destruct (nonzero b); cbn [length]; lia.
Qed.

Lemma tailOf_run_nonempty (w : word8) (rest : list word8) :
  tagOf w = 0 \/ tagOf w = 255 -> tailOf w rest <> [].
Proof.
  intros [H|H]; unfold tailOf; rewrite H; cbn [Z.eqb]; discriminate.
Qed.

Ltac stream_measure :=
  unfold flat in *; cbn [cur next out buf concat length] in *;
  repeat match goal with
         | H : @eq (list Z) _ _ |- _ => apply (f_equal (@length Z)) in H
         end;
  rewrite ?length_app in *; cbn [length] in *; lia.

Lemma readLoop_ok (fuel : nat) :
  forall (maxBytes : Z) (log : ErrorLog), goodCont (readLoop fuel maxBytes maxBytes log) maxBytes log fuel.
Proof.
  induction fuel as [|fuel IH]; intros maxBytes log ws st Hne Hfuel Hch Hflat Hmax; [lia|].
  specialize (IH maxBytes log).
  destruct ws as [|w rest]; [contradiction|]. clear Hne.
  rewrite pack_cons_tail in Hflat.
  remember (List.filter nonzero (bytes w)) as hb eqn:Ehb.
  destruct st as [c nx ot bf]. unfold flat in Hflat, Hfuel. cbn [cur next out buf length] in *.
  assert (Hmeasure : (length (c ++ concat nx) = length (tagOf w :: hb ++ tailOf w rest))%nat)
    by (rewrite Hflat; reflexivity).
  cbn [length] in Hmeasure. rewrite !length_app in Hmeasure. rewrite length_app in Hfuel.
  cbn [readLoop]. cbn [cur next out buf].
  assert (Hbytes : length (bytes w) = 8%nat) by reflexivity.
  pose proof (filter_length_le (bytes w)) as Hfl. rewrite Hbytes, <- Ehb in Hfl.
  destruct (Z.ltb_spec (Z.of_nat (length c)) 10) as [Hshort|Hlong].
  - destruct (Z.geb_spec (Z.of_nat (length ot)) maxBytes) as [Hx|_]; [lia|].
    destruct c as [|t c1].
    + (* the buffer is used up: refresh and go round again *)
      cbn [length Z.of_nat Z.eqb app] in *.
      destruct nx as [|c2 nx2]; [discriminate|].
      pose proof (Forall_inv Hch) as Hc2. pose proof (Forall_inv_tail Hch) as Hnx2.
      unfold REFRESH_BUFFER, getReadBuffer. cbn [next out buf tl].
      destruct c2 as [|b2 c3]; [contradiction|].
      apply (IH (w :: rest)); auto;
        try solve [discriminate | cbn [cur next out buf length] in *; lia].
      * unfold flat. cbn [cur next concat length] in *. lia.
      * unfold flat. cbn [cur next]. rewrite pack_cons_tail, <- Ehb. exact Hflat.
    + (* the slow path *)
      rewrite (proj2 (Z.eqb_neq _ _)) by (cbn [length]; lia).
      cbn [app] in Hflat. injection Hflat as -> Hflat. rewrite Ehb in Hflat.
      destruct (slowBytes_spec maxBytes log (tagOf w) (bytes w) 0
                  (mkInState c1 nx ot bf) (tailOf w rest) (tagBit_tagOf w) Hflat Hch)
        as (st1 & E1 & Ho1 & Hf1 & Hc1 & Hl1).
      rewrite Hbytes in E1. rewrite E1. cbn [next out buf] in *.
      destruct ((length (cur st1) =? 0)%nat && ((tagOf w =? 0) || (tagOf w =? 255))) eqn:Eref.
      * apply andb_true_iff in Eref as [Ecur Etag].
        apply Nat.eqb_eq in Ecur. apply orb_true_iff in Etag.
        rewrite !Z.eqb_eq in Etag.
        pose proof (tailOf_run_nonempty w rest Etag) as Hne.
        destruct st1 as [c2 nx2 ot2 bf2]. cbn [cur next out buf] in *.
        destruct c2; [|discriminate]. unfold flat in Hf1. cbn [cur next app] in Hf1.
        unfold REFRESH_BUFFER, getReadBuffer. cbn [next out buf].
        destruct nx2 as [|c3 nx3]; [cbn in Hf1; congruence|].
        pose proof (Forall_inv Hc1) as Hc3. pose proof (Forall_inv_tail Hc1) as Hnx3.
        destruct c3 as [|b3 c4]; [contradiction|].
        cbn [tl].
        apply (afterWord_ok _ maxBytes log fuel w rest _ ot); auto;
          try solve [cbn [cur next out buf length] in *; lia | intros _; discriminate
                    | stream_measure].
      * apply (afterWord_ok _ maxBytes log fuel w rest st1 ot); auto;
          try solve [cbn [cur next out buf length] in *; lia | stream_measure].
        -- intros Htag Hcur. rewrite Hcur in Eref. cbn [length Nat.eqb andb] in Eref.
           destruct Htag as [Ht|Ht]; rewrite Ht in Eref; discriminate.
  - (* the fast path *)
    destruct c as [|t c1]; [cbn [length] in Hlong; lia|].
    cbn [app] in Hflat. injection Hflat as -> Hflat.
    cbn [length] in Hlong.
    destruct (prefix_split c1 (concat nx) _ _ Hflat ltac:(lia)) as [Hc1 Hrest].
    rewrite Ehb in Hc1 at 1.
    change (HANDLE_BYTE_in (tagOf w) 7 (HANDLE_BYTE_in (tagOf w) 6 (HANDLE_BYTE_in (tagOf w) 5
             (HANDLE_BYTE_in (tagOf w) 4 (HANDLE_BYTE_in (tagOf w) 3 (HANDLE_BYTE_in (tagOf w) 2
             (HANDLE_BYTE_in (tagOf w) 1 (HANDLE_BYTE_in (tagOf w) 0
                (mkInState c1 nx ot bf)))))))))
      with (fastBytes (tagOf w) (length (bytes w)) 0 (mkInState c1 nx ot bf)).
    rewrite (fastBytes_spec (tagOf w) (bytes w) 0 (mkInState c1 nx ot bf)
               (drop (length hb) c1) (tagBit_tagOf w) Hc1).
    cbn [next out buf].
    apply (afterWord_ok _ maxBytes log fuel w rest _ ot); auto;
      try solve [cbn [cur next out buf length] in *; lia | stream_measure].
    intros _. cbn [cur]. intros Hd. apply (f_equal (@length Z)) in Hd.
      rewrite length_drop in Hd. cbn [length] in Hd. lia.
Qed.

(** C1 (as amended). For every message [m] of whole words, and however the
    inner streams cut the bytes into (non-empty) buffers: decoding the output
    of the encoder with [read] for the size of [m] yields [m] byte for byte
    (no error, nothing left in the stream); and for every stream that is the
    output of the encoder, encoding the result of decoding it yields the
    stream byte for byte. *)
Theorem C1_packed_round_trip (getWriteBuffer : list Z -> Z) (m : list word8) (inner : Inner) :
  chunked inner ->
  concat inner = write getWriteBuffer [] m ->
  let size := 8 * Z.of_nat (length m) in
  read size size inner = Some (mkReadResult size (flat_map bytes m) [] [])
  /\ toWords (flat_map bytes m) = m
  /\ (forall gw2 : list Z -> Z,
        write gw2 [] (toWords (flat_map bytes m)) = concat inner).
Proof.
  intros Hch Hs size. rewrite write_pack in Hs. cbn [app] in Hs.
  split; [|split; [apply toWords_bytes|]].
  2:{ intros gw2. rewrite toWords_bytes, write_pack, Hs. reflexivity. }
  unfold read. destruct m as [|w rest].
  - rewrite pack_nil in Hs. rewrite (chunked_nil _ Hch Hs). reflexivity.
  - subst size. cbn [length]. rewrite (proj2 (Z.eqb_neq _ _)) by lia.
    destruct inner as [|c nx]; [rewrite pack_cons in Hs; discriminate|].
    pose proof (Forall_inv Hch) as Hc. pose proof (Forall_inv_tail Hch) as Hnx.
    destruct c as [|b c]; [contradiction|].
    cbn [getReadBuffer tl].
    apply (readLoop_ok (S (length (concat ((b :: c) :: nx)) + length ((b :: c) :: nx)))
             (8 * Z.of_nat (S (length rest))) [] (w :: rest)
             (mkInState (b :: c) nx [] (b :: c))); auto;
      try discriminate; try solve [unfold flat; cbn [cur next out buf concat length]; lia].
Qed.

Lemma C1_packed_round_trip_witness :
  chunked [[16; 2]; [0; 1]]
  /\ concat [[16; 2]; [0; 1]]
     = write (fun _ => 64) [] [W8 0 0 0 0 2 0 0 0; zeroWord; zeroWord]
  /\ read 24 24 [[16; 2]; [0; 1]]
     = Some (mkReadResult 24
               (flat_map bytes [W8 0 0 0 0 2 0 0 0; zeroWord; zeroWord]) [] []).
Proof.
  assert (H1 : chunked [[16; 2]; [0; 1]]) by (repeat constructor; discriminate).
  assert (H2 : concat [[16; 2]; [0; 1]]
               = write (fun _ => 64) [] [W8 0 0 0 0 2 0 0 0; zeroWord; zeroWord])
    by reflexivity.
  split; [exact H1|]. split; [exact H2|].
  exact (proj1 (C1_packed_round_trip (fun _ => 64)
                  [W8 0 0 0 0 2 0 0 0; zeroWord; zeroWord] [[16; 2]; [0; 1]] H1 H2)).
Defined.

(** C1 (as stated) fails in the second direction: the packed stream
    [10 02 00 00 00 00] decodes without error to the framed message of one
    segment of two zero words, which encodes to [10 02 00 01]. *)
Lemma C1_counterexample :
  ~ (forall (getWriteBuffer : list Z -> Z) (s : list Z) (size : Z) (r : ReadResult),
       read size size [s] = Some r ->
       bytesRead r = size -> readErrors r = [] -> stream r = [] ->
       write getWriteBuffer [] (toWords (output r)) = s).
Proof.
  intros H.
  specialize (H (fun _ => 64) [16; 2; 0; 0; 0; 0] 24
                (mkReadResult 24 (flat_map bytes [W8 0 0 0 0 2 0 0 0; zeroWord; zeroWord])
                   [] [])
                eq_refl eq_refl eq_refl eq_refl).
  vm_compute in H. discriminate H.
Qed.

End PackedProps.

(** ** Upgrading a struct (getWritableStructPointer) *)

Section UpgradeProps.
Import Builder.

(** *** The memory of a builder arena, as seen by [load] *)

Definition peek (a : BuilderArena) (p : BLoc) : option Z :=
  match b_segments a !! fst p with
  | Some s => if inRange (snd p) 1 (sb_words s) then Some (wordAt (sb_words s) (snd p)) else None
  | None => None
  end.

Definition segEnd (a : BuilderArena) (id : nat) : option Z := sb_end <$> b_segments a !! id.
Definition segPos (a : BuilderArena) (id : nat) : option Z := sb_pos <$> b_segments a !! id.

(** The words [p .. p + n) lie inside the array of their segment. *)
Definition inSeg (a : BuilderArena) (p : BLoc) (n : Z) : Prop :=
  exists e : Z, segEnd a (fst p) = Some e /\ 0 <= snd p /\ 0 <= n /\ snd p + n <= e.

(** [q] is one of the words [p .. p + n). *)
Definition within (p : BLoc) (n : Z) (q : BLoc) : Prop :=
  fst q = fst p /\ snd p <= snd q < snd p + n.

#[local] Instance within_dec (p : BLoc) (n : Z) (q : BLoc) : Decision (within p n q).
Proof. unfold within. apply _. Defined.

Lemma inRange_true (i n : Z) (ws : list Z) :
  inRange i n ws = true <-> 0 <= i /\ 0 <= n /\ i + n <= Z.of_nat (length ws).
Proof. unfold inRange. rewrite !andb_true_iff, !Z.leb_le. tauto. Qed.

Lemma inRange_false (i n : Z) (ws : list Z) :
  inRange i n ws = false <-> ~ (0 <= i /\ 0 <= n /\ i + n <= Z.of_nat (length ws)).
Proof. rewrite <- inRange_true. destruct (inRange i n ws); split; congruence. Qed.

Lemma wordAt_lookup (ws : list Z) (i : Z) :
  0 <= i < Z.of_nat (length ws) -> ws !! Z.to_nat i = Some (wordAt ws i).
Proof.
  intros H. unfold wordAt. destruct (Z.ltb_spec i 0); [lia|].
  destruct (ws !! Z.to_nat i) eqn:E; [reflexivity|].
  apply lookup_ge_None in E. lia.
Qed.

Lemma peek_Some (a : BuilderArena) (p : BLoc) (w : Z) :
  peek a p = Some w <->
  exists s, b_segments a !! fst p = Some s
            /\ 0 <= snd p < sb_end s /\ sb_words s !! Z.to_nat (snd p) = Some w.
Proof.
  unfold peek, sb_end. split.
  - destruct (b_segments a !! fst p) as [s|]; [|discriminate].
    destruct (inRange (snd p) 1 (sb_words s)) eqn:E; [|discriminate].
    apply inRange_true in E. intros [= <-]. exists s.
    split; [reflexivity|]. split; [lia|]. apply wordAt_lookup. lia.
  - intros (s & -> & Hr & Hw).
    rewrite (proj2 (inRange_true _ _ _)) by lia.
    rewrite (wordAt_lookup _ _ Hr) in Hw. congruence.
Qed.

Lemma peek_is_Some (a : BuilderArena) (p : BLoc) :
  is_Some (peek a p) <-> inSeg a p 1.
Proof.
  unfold inSeg, segEnd, peek, sb_end. split.
  - intros [w Hw]. destruct (b_segments a !! fst p) as [s|]; [|discriminate].
    destruct (inRange (snd p) 1 (sb_words s)) eqn:E; [|discriminate].
    apply inRange_true in E. exists (Z.of_nat (length (sb_words s))). cbn. split; [reflexivity | lia].
  - intros (e & He & Hr). destruct (b_segments a !! fst p) as [s|]; [|discriminate].
    cbn in He. injection He as <-.
    rewrite (proj2 (inRange_true _ _ _)) by lia. eauto.
Qed.

Lemma inSeg_sub (a : BuilderArena) (p : BLoc) (n : Z) (q : BLoc) (m : Z) :
  inSeg a p n -> fst q = fst p -> snd p <= snd q -> 0 <= m -> snd q + m <= snd p + n ->
  inSeg a q m.
Proof.
  intros (e & He & H1 & H2 & H3) Hf Hq Hm Hle. exists e. rewrite Hf. split; [exact He | lia].
Qed.

Lemma load_peek (a : BuilderArena) (p : BLoc) :
  load p a = match peek a p with Some w => Some (w, a) | None => None end.
Proof.
  unfold load, peek. destruct (b_segments a !! fst p) as [s|]; [|reflexivity].
  destruct (inRange (snd p) 1 (sb_words s)); reflexivity.
Qed.

(** Two arenas with the same segments' sizes and bump pointers. *)
Definition sameShape (a a1 : BuilderArena) : Prop :=
  b_message a1 = b_message a
  /\ b_errors a1 = b_errors a
  /\ length (b_segments a1) = length (b_segments a)
  /\ (forall id, segEnd a1 id = segEnd a id)
  /\ (forall id, segPos a1 id = segPos a id).

(** What a write into one segment does. *)
Lemma write_segment (a : BuilderArena) (p : BLoc) (s : SegmentBuilder) (ws : list Z) :
  b_segments a !! fst p = Some s ->
  length ws = length (sb_words s) ->
  let a1 := set_segments (<[fst p := mkSegmentBuilder ws (sb_pos s)]> (b_segments a)) a in
  sameShape a a1
  /\ (forall q, peek a1 q =
        if decide (fst q = fst p) then
          (if inRange (snd q) 1 ws then Some (wordAt ws (snd q)) else None)
        else peek a q).
Proof.
  intros Hs Hlen a1. subst a1.
  assert (Hlt : (fst p < length (b_segments a))%nat) by (eapply lookup_lt_Some; eauto).
  split.
  - unfold sameShape, set_segments, segEnd, segPos. cbn [b_message b_errors b_segments].
    split; [reflexivity|]. split; [reflexivity|]. split; [apply length_insert|].
    split; intros id; rewrite list_lookup_insert;
      (destruct (decide (fst p = id /\ (fst p < length (b_segments a))%nat)) as [[<- _]|Hn];
       [rewrite Hs; cbn; unfold sb_end; cbn; rewrite ?Hlen; reflexivity
       |destruct (decide (fst p = id)) as [<-|Hne];
        [exfalso; apply Hn; split; auto
        |reflexivity]]).
  - intros q. unfold peek, set_segments. cbn [b_segments].
    rewrite list_lookup_insert.
    destruct (decide (fst q = fst p)) as [E|E].
    + rewrite E. destruct (decide (fst p = fst p /\ (fst p < length (b_segments a))%nat)) as [_|Hn];
        [|exfalso; apply Hn; split; auto].
      cbn [sb_words]. reflexivity.
    + destruct (decide (fst p = fst q /\ (fst p < length (b_segments a))%nat)) as [[Hx _]|_];
        [congruence | reflexivity].
Qed.

Lemma store_spec (p : BLoc) (v : Z) (a : BuilderArena) :
  is_Some (peek a p) ->
  exists a1, store p v a = Some (tt, a1)
    /\ sameShape a a1
    /\ (forall q, peek a1 q = if decide (q = p) then Some v else peek a q).
Proof.
  intros [w Hw]. apply peek_Some in Hw as (s & Hs & Hr & Hw).
  unfold store. rewrite Hs. unfold sb_end in Hr.
  rewrite (proj2 (inRange_true _ _ _)) by lia.
  eexists. split; [reflexivity|].
  destruct (write_segment a p s (<[Z.to_nat (snd p) := v]> (sb_words s)) Hs
              (length_insert _ _ _)) as [Hsh Hpk].
  split; [exact Hsh|].
  intros q. rewrite Hpk. unfold peek.
  destruct (decide (fst q = fst p)) as [E|E].
  - rewrite E, Hs. unfold inRange. rewrite length_insert.
    destruct (decide (q = p)) as [->|Hne].
    + fold (inRange (snd p) 1 (sb_words s)).
      rewrite (proj2 (inRange_true _ _ _)) by lia.
      f_equal. unfold wordAt. destruct (Z.ltb_spec (snd p) 0); [lia|].
      rewrite list_lookup_insert_eq by lia. reflexivity.
    + fold (inRange (snd q) 1 (sb_words s)).
      destruct (inRange (snd q) 1 (sb_words s)) eqn:Er; [|reflexivity].
      apply inRange_true in Er.
      f_equal. unfold wordAt. destruct (Z.ltb_spec (snd q) 0); [lia|].
      rewrite list_lookup_insert_ne; [reflexivity|].
      intros Hx. apply Hne. destruct q, p; cbn in *. f_equal; [assumption | lia].
  - destruct (decide (q = p)) as [->|_]; [contradiction | reflexivity].
Qed.

Lemma memset0_spec (p : BLoc) (n : Z) (a : BuilderArena) :
  inSeg a p n ->
  exists a1, memset0 p n a = Some (tt, a1)
    /\ sameShape a a1
    /\ (forall q, peek a1 q = if decide (within p n q) then Some 0 else peek a q).
Proof.
  intros (e & He & H0 & Hn & Hle). unfold segEnd in He.
  destruct (b_segments a !! fst p) as [s|] eqn:Hs; [|discriminate].
  cbn in He. injection He as <-. unfold sb_end in Hle.
  unfold memset0. rewrite Hs.
  rewrite (proj2 (inRange_true _ _ _)) by lia.
  eexists. split; [reflexivity|].
  destruct (write_segment a p s (zeroWords (Z.to_nat (snd p)) (Z.to_nat n) (sb_words s)) Hs
              (zeroWords_length _ _ _)) as [Hsh Hpk].
  split; [exact Hsh|].
  intros q. rewrite Hpk.
  destruct (decide (within p n q)) as [[Hf Hin]|Hout].
  - destruct (decide (fst q = fst p)) as [_|E]; [|contradiction].
    unfold inRange. rewrite zeroWords_length.
    fold (inRange (snd q) 1 (sb_words s)).
    rewrite (proj2 (inRange_true _ _ _)) by lia. f_equal.
    unfold wordAt. destruct (Z.ltb_spec (snd q) 0); [lia|].
    rewrite zeroWords_lookup_in by lia. reflexivity.
  - destruct (decide (fst q = fst p)) as [E|E]; [|reflexivity].
    unfold peek. rewrite E, Hs.
    unfold inRange. rewrite zeroWords_length.
    fold (inRange (snd q) 1 (sb_words s)).
    destruct (inRange (snd q) 1 (sb_words s)) eqn:Er; [|reflexivity].
    apply inRange_true in Er. f_equal.
    unfold wordAt. destruct (Z.ltb_spec (snd q) 0); [lia|].
    rewrite zeroWords_lookup_out; [reflexivity|].
    destruct (Z_lt_le_dec (snd q) (snd p)); [lia|].
    destruct (Z_lt_le_dec (snd q) (snd p + n)); [|lia].
    exfalso. apply Hout. split; [assumption | lia].
Qed.

Lemma peek_inSeg (a : BuilderArena) (p : BLoc) (n : Z) (i : Z) :
  inSeg a p n -> 0 <= i < n -> is_Some (peek a (fst p, snd p + i)).
Proof.
  intros H Hi. apply peek_is_Some. eapply inSeg_sub; eauto; cbn; lia.
Qed.

Lemma loadWords_spec (p : BLoc) (n : Z) (a : BuilderArena) :
  inSeg a p n ->
  exists vs, loadWords p n a = Some (vs, a)
    /\ Z.of_nat (length vs) = n
    /\ (forall i : nat, Z.of_nat i < n -> vs !! i = peek a (fst p, snd p + Z.of_nat i)).
Proof.
  intros (e & He & H0 & Hn & Hle). unfold segEnd in He.
  destruct (b_segments a !! fst p) as [s|] eqn:Hs; [|discriminate].
  cbn in He. injection He as <-. unfold sb_end in Hle.
  unfold loadWords. rewrite Hs, (proj2 (inRange_true _ _ _)) by lia.
  eexists. split; [reflexivity|]. split.
  - rewrite length_take, length_drop. lia.
  - intros i Hi. rewrite lookup_take_lt by lia. rewrite lookup_drop.
    unfold peek. cbn [fst snd]. rewrite Hs, (proj2 (inRange_true _ _ _)) by lia.
    rewrite <- wordAt_lookup by lia. f_equal. lia.
Qed.

Lemma storeWords_spec (p : BLoc) (vs : list Z) (a : BuilderArena) :
  inSeg a p (Z.of_nat (length vs)) ->
  exists a1, storeWords p vs a = Some (tt, a1)
    /\ sameShape a a1
    /\ (forall q, peek a1 q =
          if decide (within p (Z.of_nat (length vs)) q)
          then vs !! Z.to_nat (snd q - snd p) else peek a q).
Proof.
  intros (e & He & H0 & Hn & Hle). unfold segEnd in He.
  destruct (b_segments a !! fst p) as [s|] eqn:Hs; [|discriminate].
  cbn in He. injection He as <-. unfold sb_end in Hle.
  unfold storeWords. rewrite Hs, (proj2 (inRange_true _ _ _)) by lia.
  eexists. split; [reflexivity|].
  destruct (write_segment a p s (list_inserts (Z.to_nat (snd p)) vs (sb_words s)) Hs
              (length_inserts _ _ _)) as [Hsh Hpk].
  split; [exact Hsh|].
  intros q. rewrite Hpk.
  destruct (decide (within p (Z.of_nat (length vs)) q)) as [[Hf Hin]|Hout].
  - destruct (decide (fst q = fst p)) as [_|E]; [|contradiction].
    unfold inRange. rewrite length_inserts.
    fold (inRange (snd q) 1 (sb_words s)).
    rewrite (proj2 (inRange_true _ _ _)) by lia.
    assert (Hlk : list_inserts (Z.to_nat (snd p)) vs (sb_words s) !! Z.to_nat (snd q)
                  = vs !! Z.to_nat (snd q - snd p)).
    { rewrite list_lookup_inserts by lia. f_equal. lia. }
    rewrite <- Hlk. symmetry. apply wordAt_lookup. rewrite length_inserts. lia.
  - destruct (decide (fst q = fst p)) as [E|E]; [|reflexivity].
    unfold peek. rewrite E, Hs.
    unfold inRange. rewrite length_inserts.
    fold (inRange (snd q) 1 (sb_words s)).
    destruct (inRange (snd q) 1 (sb_words s)) eqn:Er; [|reflexivity].
    apply inRange_true in Er. f_equal.
    unfold wordAt. destruct (Z.ltb_spec (snd q) 0); [lia|].
    destruct (Z_lt_le_dec (snd q) (snd p)).
    + rewrite list_lookup_inserts_lt by lia. reflexivity.
    + destruct (Z_lt_le_dec (snd q) (snd p + Z.of_nat (length vs))).
      * exfalso. apply Hout. split; [assumption | lia].
      * rewrite list_lookup_inserts_ge by lia. reflexivity.
Qed.

Lemma memcpy_spec (dst src : BLoc) (n : Z) (a : BuilderArena) :
  inSeg a src n -> inSeg a dst n ->
  exists a1, memcpy dst src n a = Some (tt, a1)
    /\ sameShape a a1
    /\ (forall q, peek a1 q =
          if decide (within dst n q)
          then peek a (fst src, snd src + (snd q - snd dst)) else peek a q).
Proof.
  intros Hsrc Hdst.
  destruct (loadWords_spec src n a Hsrc) as (vs & Hl & Hlen & Hvs).
  unfold memcpy, bind. rewrite Hl.
  rewrite <- Hlen in Hdst.
  destruct (storeWords_spec dst vs a Hdst) as (a1 & Hst & Hsh & Hpk).
  exists a1. split; [exact Hst|]. split; [exact Hsh|].
  intros q. rewrite Hpk, Hlen.
  destruct (decide (within dst n q)) as [[Hf Hin]|Hout]; [|reflexivity].
  rewrite Hvs by lia. f_equal. f_equal. lia.
Qed.

Lemma update_spec (p : BLoc) (f : Z -> Z) (w : Z) (a : BuilderArena) :
  peek a p = Some w ->
  exists a1, update p f a = Some (tt, a1)
    /\ sameShape a a1
    /\ (forall q, peek a1 q = if decide (q = p) then Some (f w) else peek a q).
Proof.
  intros Hw. unfold update, bind. rewrite load_peek, Hw.
  apply store_spec. rewrite Hw. eauto.
Qed.

(** *** How an arena evolves *)

(** [a1] comes from [a] by allocating and by writing only words of [W]. *)
Record evolves (W : BLoc -> Prop) (a a1 : BuilderArena) : Prop := mkEvolves {
  ev_message : b_message a1 = b_message a;
  ev_errors : b_errors a1 = b_errors a;
  ev_count : (length (b_segments a) <= length (b_segments a1))%nat;
  ev_end : forall id e, segEnd a id = Some e -> segEnd a1 id = Some e;
  ev_pos : forall id x, segPos a id = Some x -> exists x1, segPos a1 id = Some x1 /\ x <= x1;
  ev_peek : forall q, is_Some (peek a q) -> ~ W q -> peek a1 q = peek a q
}.

Definition wfArena (a : BuilderArena) : Prop :=
  (forall id e x, segEnd a id = Some e -> segPos a id = Some x -> 0 <= x <= e /\ e < 2 ^ 29)
  /\ (forall k n, 0 <= n < 2 ^ 28 -> n <= Z.of_nat (length (b_message a k n)) < 2 ^ 29).

(** A word below the bump pointer of its segment. *)
Definition allocated (a : BuilderArena) (q : BLoc) : Prop :=
  exists x, segPos a (fst q) = Some x /\ 0 <= snd q < x.

(** A word that has not been allocated (yet). *)
Definition unallocated (a : BuilderArena) (q : BLoc) : Prop :=
  forall x, segPos a (fst q) = Some x -> x <= snd q.

Lemma segEnd_segPos (a : BuilderArena) (id : nat) :
  is_Some (segEnd a id) <-> is_Some (segPos a id).
Proof.
  unfold segEnd, segPos. destruct (b_segments a !! id); cbn; split; intros [? ?]; eauto; discriminate.
Qed.

Lemma segPos_lt (a : BuilderArena) (id : nat) (x : Z) :
  segPos a id = Some x -> (id < length (b_segments a))%nat.
Proof.
  unfold segPos. destruct (b_segments a !! id) eqn:E; [|discriminate].
  intros _. eapply lookup_lt_Some; eauto.
Qed.

Lemma segPos_ge (a : BuilderArena) (id : nat) :
  (length (b_segments a) <= id)%nat -> segPos a id = None.
Proof. intros H. unfold segPos. rewrite lookup_ge_None_2 by lia. reflexivity. Qed.

Lemma allocated_peek (a : BuilderArena) (q : BLoc) :
  wfArena a -> allocated a q -> is_Some (peek a q).
Proof.
  intros [Hwf _] (x & Hx & Hq). apply peek_is_Some.
  destruct (proj2 (segEnd_segPos a (fst q)) ltac:(eauto)) as [e He].
  destruct (Hwf _ _ _ He Hx). exists e. split; [exact He | lia].
Qed.

Lemma allocated_not_unallocated (a : BuilderArena) (q : BLoc) :
  allocated a q -> unallocated a q -> False.
Proof. intros (x & Hx & Hq) Hu. specialize (Hu x Hx). lia. Qed.

Lemma evolves_refl (W : BLoc -> Prop) (a : BuilderArena) : evolves W a a.
Proof. constructor; eauto. intros id x Hx. exists x. split; [exact Hx | lia]. Qed.

Lemma evolves_trans (W1 W2 W : BLoc -> Prop) (a a1 a2 : BuilderArena) :
  evolves W1 a a1 -> evolves W2 a1 a2 ->
  (forall q, W1 q -> W q) -> (forall q, W2 q -> W q) ->
  evolves W a a2.
Proof.
  intros [Hm1 Hr1 Hc1 He1 Hp1 Hk1] [Hm2 Hr2 Hc2 He2 Hp2 Hk2] H1 H2. constructor.
  - congruence.
  - congruence.
  - lia.
  - eauto.
  - intros id x Hx. destruct (Hp1 id x Hx) as (x1 & Hx1 & Hle1).
    destruct (Hp2 id x1 Hx1) as (x2 & Hx2 & Hle2). exists x2. split; [exact Hx2 | lia].
  - intros q Hq HW. rewrite Hk2.
    + apply Hk1; auto.
    + rewrite Hk1; auto.
    + auto.
Qed.

Lemma evolves_mono (W W1 : BLoc -> Prop) (a a1 : BuilderArena) :
  evolves W a a1 -> (forall q, W q -> W1 q) -> evolves W1 a a1.
Proof.
  intros H Hsub. apply (evolves_trans W W W1 a a1 a1); auto. apply evolves_refl.
Qed.

Lemma evolves_inSeg (W : BLoc -> Prop) (a a1 : BuilderArena) (p : BLoc) (n : Z) :
  evolves W a a1 -> inSeg a p n -> inSeg a1 p n.
Proof. intros H (e & He & Hr). exists e. split; [eapply ev_end; eauto | exact Hr]. Qed.

Lemma evolves_allocated (W : BLoc -> Prop) (a a1 : BuilderArena) (q : BLoc) :
  evolves W a a1 -> allocated a q -> allocated a1 q.
Proof.
  intros H (x & Hx & Hq). destruct (ev_pos _ _ _ H _ _ Hx) as (x1 & Hx1 & Hle).
  exists x1. split; [exact Hx1 | lia].
Qed.

Lemma evolves_unallocated (W : BLoc -> Prop) (a a1 : BuilderArena) (q : BLoc) :
  evolves W a a1 -> unallocated a1 q -> unallocated a q.
Proof.
  intros H Hu x Hx. destruct (ev_pos _ _ _ H _ _ Hx) as (x1 & Hx1 & Hle).
  specialize (Hu x1 Hx1). lia.
Qed.

Lemma sameShape_evolves (W : BLoc -> Prop) (a a1 : BuilderArena) :
  sameShape a a1 ->
  (forall q, ~ W q -> peek a1 q = peek a q) ->
  evolves W a a1.
Proof.
  intros (Hm & Hr & Hl & He & Hp) Hk. constructor.
  - exact Hm.
  - exact Hr.
  - lia.
  - intros id e H. rewrite He. exact H.
  - intros id x H. exists x. rewrite Hp. split; [exact H | lia].
  - intros q _ HW. apply Hk, HW.
Qed.

Lemma sameShape_wf (a a1 : BuilderArena) : sameShape a a1 -> wfArena a -> wfArena a1.
Proof.
  intros (Hm & _ & _ & He & Hp) [H1 H2]. split.
  - intros id e x. rewrite He, Hp. apply H1.
  - intros k n. rewrite Hm. apply H2.
Qed.

Lemma sameShape_count (a a1 : BuilderArena) :
  sameShape a a1 -> length (b_segments a1) = length (b_segments a).
Proof. intros (_ & _ & Hl & _). exact Hl. Qed.

Lemma sameShape_segPos (a a1 : BuilderArena) (id : nat) :
  sameShape a a1 -> segPos a1 id = segPos a id.
Proof. intros (_ & _ & _ & _ & Hp). apply Hp. Qed.

Lemma sameShape_errors (a a1 : BuilderArena) :
  sameShape a a1 -> b_errors a1 = b_errors a.
Proof. intros (_ & He & _). exact He. Qed.

(** [SegmentBuilder::allocate] in the arena. *)
Lemma segAllocate_spec (id : nat) (amount : Z) (a : BuilderArena) (e x : Z) :
  wfArena a -> segEnd a id = Some e -> segPos a id = Some x -> 0 <= amount ->
  (e - x < amount -> segAllocate id amount a = Some (None, a))
  /\ (amount <= e - x ->
      exists a1, segAllocate id amount a = Some (Some x, a1)
        /\ b_message a1 = b_message a /\ b_errors a1 = b_errors a
        /\ length (b_segments a1) = length (b_segments a)
        /\ (forall id1, segEnd a1 id1 = segEnd a id1)
        /\ (forall id1, segPos a1 id1 = if decide (id1 = id) then Some (x + amount)
                                        else segPos a id1)
        /\ (forall q, peek a1 q = peek a q)
        /\ wfArena a1).
Proof.
  intros Hwf He Hx Hamount. unfold segEnd, segPos in He, Hx.
  destruct (b_segments a !! id) as [s|] eqn:Hs; [|discriminate].
  cbn in He, Hx. injection He as <-. injection Hx as <-.
  unfold segAllocate, sb_allocate, Reader.intervalLength. rewrite Hs.
  split.
  - intros Hlt. destruct (Z.gtb_spec amount (sb_end s - sb_pos s)) as [_|?]; [|lia].
    rewrite list_insert_id by exact Hs. destruct a; reflexivity.
  - intros Hle. destruct (Z.gtb_spec amount (sb_end s - sb_pos s)) as [?|_]; [lia|].
    eexists. split; [reflexivity|].
    assert (Hlt : (id < length (b_segments a))%nat) by (eapply lookup_lt_Some; eauto).
    assert (HE : forall id1,
               segEnd (set_segments (<[id:={| sb_words := sb_words s; sb_pos := sb_pos s + amount |}]>
                                       (b_segments a)) a) id1 = segEnd a id1).
    { intros id1. unfold segEnd, set_segments. cbn [b_segments].
      rewrite list_lookup_insert.
      destruct (decide (id = id1 /\ (id < length (b_segments a))%nat)) as [[<- _]|_];
        [rewrite Hs; reflexivity | reflexivity]. }
    assert (HP : forall id1,
               segPos (set_segments (<[id:={| sb_words := sb_words s; sb_pos := sb_pos s + amount |}]>
                                       (b_segments a)) a) id1
               = if decide (id1 = id) then Some (sb_pos s + amount) else segPos a id1).
    { intros id1. unfold segPos, set_segments. cbn [b_segments].
      rewrite list_lookup_insert.
      destruct (decide (id1 = id)) as [->|Hne].
      - destruct (decide (id = id /\ (id < length (b_segments a))%nat)) as [_|Hn];
          [reflexivity | exfalso; apply Hn; split; auto].
      - destruct (decide (id = id1 /\ (id < length (b_segments a))%nat)) as [[Hx _]|_];
          [congruence | reflexivity]. }
    split; [reflexivity|]. split; [reflexivity|].
    split; [unfold set_segments; cbn [b_segments]; apply length_insert|].
    split; [exact HE|]. split; [exact HP|]. split.
    + intros q. unfold peek, set_segments. cbn [b_segments].
      rewrite list_lookup_insert.
      destruct (decide (id = fst q /\ (id < length (b_segments a))%nat)) as [[<- _]|_];
        [rewrite Hs; reflexivity | reflexivity].
    + destruct Hwf as [H1 H2]. split; [|exact H2].
      intros id1 e1 x1. rewrite HE, HP.
      destruct (decide (id1 = id)) as [->|Hne].
      * intros He1 [= <-]. unfold segEnd in He1. rewrite Hs in He1. cbn in He1.
        injection He1 as <-.
        destruct (H1 id (sb_end s) (sb_pos s)) as [? ?];
          [unfold segEnd; rewrite Hs; reflexivity | unfold segPos; rewrite Hs; reflexivity |].
        lia.
      * apply H1.
Qed.

Definition nowhere (q : BLoc) : Prop := False.

Lemma append_segment (a : BuilderArena) (s1 : SegmentBuilder) :
  wfArena a -> 0 <= sb_pos s1 <= sb_end s1 -> sb_end s1 < 2 ^ 29 ->
  let a1 := set_segments (b_segments a ++ [s1]) a in
  evolves nowhere a a1
  /\ wfArena a1
  /\ length (b_segments a1) = S (length (b_segments a))
  /\ b_errors a1 = b_errors a
  /\ segEnd a1 (length (b_segments a)) = Some (sb_end s1)
  /\ segPos a1 (length (b_segments a)) = Some (sb_pos s1)
  /\ (forall id, (id < length (b_segments a))%nat -> segPos a1 id = segPos a id).
Proof.
  intros [Hwf1 Hwf2] Hpos Hend a1. subst a1.
  unfold set_segments.
  assert (HE : forall id, (id < length (b_segments a))%nat ->
             (b_segments a ++ [s1]) !! id = b_segments a !! id).
  { intros id Hid. apply lookup_app_l. exact Hid. }
  assert (HN : (b_segments a ++ [s1]) !! length (b_segments a) = Some s1).
  { rewrite lookup_app_r by lia. rewrite Nat.sub_diag. reflexivity. }
  split; [|split; [|split; [|split; [|split; [|split]]]]].
  - constructor; cbn [b_message b_segments b_errors].
    + reflexivity.
    + reflexivity.
    + rewrite length_app. lia.
    + intros id e He. unfold segEnd in *. cbn [b_segments].
      destruct (b_segments a !! id) eqn:E; [|discriminate].
      rewrite HE by (eapply lookup_lt_Some; eauto). rewrite E. exact He.
    + intros id x Hx. exists x. split; [|lia]. unfold segPos in *. cbn [b_segments].
      destruct (b_segments a !! id) eqn:E; [|discriminate].
      rewrite HE by (eapply lookup_lt_Some; eauto). rewrite E. exact Hx.
    + intros q [w Hw] _. unfold peek in *. cbn [b_segments].
      destruct (b_segments a !! fst q) eqn:E; [|discriminate].
      rewrite HE by (eapply lookup_lt_Some; eauto). rewrite E. reflexivity.
  - split; [|exact Hwf2].
    intros id e x. unfold segEnd, segPos. cbn [b_segments].
    destruct (Nat.lt_ge_cases id (length (b_segments a))) as [Hlt|Hge].
    + rewrite HE by exact Hlt. apply Hwf1.
    + destruct (Nat.eq_dec id (length (b_segments a))) as [->|Hne].
      * rewrite HN. cbn. intros [= <-] [= <-]. lia.
      * rewrite lookup_ge_None_2 by (rewrite length_app; cbn; lia). discriminate.
  - cbn [b_segments]. rewrite length_app. cbn. lia.
  - reflexivity.
  - unfold segEnd. cbn [b_segments]. rewrite HN. reflexivity.
  - unfold segPos. cbn [b_segments]. rewrite HN. reflexivity.
  - intros id Hid. unfold segPos. cbn [b_segments]. rewrite HE by exact Hid. reflexivity.
Qed.

(** [BuilderArena::getSegmentWithAvailable] *)
Lemma getSegmentWithAvailable_spec (minimumAvailable : Z) (a : BuilderArena) :
  wfArena a -> 0 <= minimumAvailable < 2 ^ 28 ->
  exists id a1,
    getSegmentWithAvailable minimumAvailable a = Some (id, a1)
    /\ evolves nowhere a a1
    /\ wfArena a1
    /\ (length (b_segments a1) <= S (length (b_segments a)))%nat
    /\ b_errors a1 = b_errors a
    /\ (forall id1, (id1 < length (b_segments a))%nat -> segPos a1 id1 = segPos a id1)
    /\ (exists e x, segEnd a1 id = Some e /\ segPos a1 id = Some x
                    /\ minimumAvailable <= e - x).
Proof.
  intros Hwf Hmin.
  assert (Hnew : forall k,
    let s1 := newSegmentBuilder (b_message a k minimumAvailable) in
    0 <= sb_pos s1 <= sb_end s1 /\ sb_end s1 < 2 ^ 29 /\ minimumAvailable <= sb_end s1 - sb_pos s1).
  { intros k s1. subst s1. unfold newSegmentBuilder, sb_end. cbn [sb_pos sb_words].
    destruct Hwf as [_ H2]. specialize (H2 k minimumAvailable Hmin). lia. }
  assert (Hfresh :
    let n := length (b_segments a) in
    let a1 := set_segments (b_segments a ++ [newSegmentBuilder (b_message a n minimumAvailable)]) a in
    evolves nowhere a a1 /\ wfArena a1
    /\ (length (b_segments a1) <= S (length (b_segments a)))%nat
    /\ b_errors a1 = b_errors a
    /\ (forall id1, (id1 < length (b_segments a))%nat -> segPos a1 id1 = segPos a id1)
    /\ (exists e x, segEnd a1 n = Some e /\ segPos a1 n = Some x /\ minimumAvailable <= e - x)).
  { intros n a1. destruct (Hnew n) as (Hp & He & Hav).
    destruct (append_segment a _ Hwf Hp He) as (H1 & H2 & H3 & H4 & H5 & H6 & H7).
    fold n in H5, H6. fold a1 in H1, H2, H3, H4, H5, H6, H7.
    split; [exact H1|]. split; [exact H2|]. split; [lia|]. split; [exact H4|].
    split; [exact H7|]. eexists _, _. split; [exact H5|]. split; [exact H6 | exact Hav]. }
  assert (Hstay : forall id e x,
    segEnd a id = Some e -> segPos a id = Some x -> minimumAvailable <= e - x ->
    evolves nowhere a a /\ wfArena a
    /\ (length (b_segments a) <= S (length (b_segments a)))%nat
    /\ b_errors a = b_errors a
    /\ (forall id1, (id1 < length (b_segments a))%nat -> segPos a id1 = segPos a id1)
    /\ (exists e x, segEnd a id = Some e /\ segPos a id = Some x /\ minimumAvailable <= e - x)).
  { intros id e x He Hx Hav. split; [apply evolves_refl|]. split; [exact Hwf|].
    split; [lia|]. split; [reflexivity|]. split; [reflexivity|]. eauto. }
  unfold getSegmentWithAvailable.
  destruct (b_segments a) as [|segment0 more] eqn:Hsegs.
  - eexists _, _. split; [reflexivity|].
    cbn [length app] in Hfresh. rewrite ?Hsegs. cbn [length]. exact Hfresh.
  - rewrite <- ?Hsegs in Hfresh, Hstay |- *.
    unfold available, Reader.intervalLength.
    destruct (Z.geb_spec (sb_end segment0 - sb_pos segment0) minimumAvailable) as [Hge|Hlt].
    + eexists _, _. split; [reflexivity|].
      apply (Hstay 0%nat (sb_end segment0) (sb_pos segment0)).
      * unfold segEnd. rewrite Hsegs. reflexivity.
      * unfold segPos. rewrite Hsegs. reflexivity.
      * lia.
    + destruct (last more) as [back|] eqn:Hlast.
      * destruct (Z.geb_spec (sb_end back - sb_pos back) minimumAvailable) as [Hge2|Hlt2].
        -- eexists _, _. split; [reflexivity|].
           assert (Hb : (segment0 :: more) !! length more = Some back).
           { rewrite last_lookup in Hlast. destruct more as [|m more1]; [discriminate|].
             cbn [length pred] in Hlast. cbn [length]. exact Hlast. }
           apply (Hstay (length more) (sb_end back) (sb_pos back)).
           ++ unfold segEnd. rewrite Hsegs, Hb. reflexivity.
           ++ unfold segPos. rewrite Hsegs, Hb. reflexivity.
           ++ lia.
        -- eexists _, _. split; [reflexivity|]. exact Hfresh.
      * eexists _, _. split; [reflexivity|]. exact Hfresh.
Qed.

(** *** The algebra of pointer words *)

Lemma lor_shiftl_low (hi lo n : Z) :
  0 <= n -> 0 <= lo < 2 ^ n -> Z.lor (Z.shiftl hi n) lo = hi * 2 ^ n + lo.
Proof.
  intros Hn Hlo.
  assert (Hland : Z.land (Z.shiftl hi n) lo = 0).
  { apply Z.bits_inj'. intros i Hi. rewrite Z.land_spec, Z.bits_0.
    destruct (Z_lt_le_dec i n).
    - rewrite Z.shiftl_spec_low by lia. reflexivity.
    - rewrite andb_comm.
      replace lo with (lo mod 2 ^ n) by (apply Z.mod_small; lia).
      rewrite Z.mod_pow2_bits_high by lia. reflexivity. }
  rewrite <- Z.lxor_lor by exact Hland.
  rewrite <- Z.add_nocarry_lxor by exact Hland.
  rewrite Z.shiftl_mul_pow2 by lia. reflexivity.
Qed.

Lemma land_mask (x n : Z) : 0 <= n -> Z.land x (2 ^ n - 1) = x mod 2 ^ n.
Proof.
  intros Hn. rewrite <- Z.land_ones by lia. f_equal.
  rewrite Z.ones_equiv. lia.
Qed.

Lemma offsetAndKind_mod (w : Z) : WirePointer.offsetAndKind w = w mod 2 ^ 32.
Proof. unfold WirePointer.offsetAndKind. apply land_mask. lia. Qed.

Lemma upper32Bits_div (w : Z) : WirePointer.upper32Bits w = (w / 2 ^ 32) mod 2 ^ 32.
Proof.
  unfold WirePointer.upper32Bits. rewrite land_mask by lia.
  rewrite Z.shiftr_div_pow2 by lia. reflexivity.
Qed.

Lemma halves_add (lo hi : Z) : WirePointer.halves lo hi = u32 lo + u32 hi * 2 ^ 32.
Proof.
  unfold WirePointer.halves. rewrite Z.lor_comm, lor_shiftl_low.
  - lia.
  - lia.
  - unfold u32. apply Z.mod_pos_bound. lia.
Qed.

Lemma offsetAndKind_halves (lo hi : Z) :
  WirePointer.offsetAndKind (WirePointer.halves lo hi) = u32 lo.
Proof.
  rewrite offsetAndKind_mod, halves_add. unfold u32.
  rewrite Z.mod_add by lia. apply Z.mod_mod. lia.
Qed.

Lemma upper32Bits_halves (lo hi : Z) :
  WirePointer.upper32Bits (WirePointer.halves lo hi) = u32 hi.
Proof.
  rewrite upper32Bits_div, halves_add. unfold u32.
  rewrite Z.div_add by lia.
  rewrite (Z.div_small (lo mod 2 ^ 32)) by (apply Z.mod_pos_bound; lia).
  cbn [Z.add]. apply Z.mod_mod. lia.
Qed.

Lemma u32_idem (x : Z) : u32 (u32 x) = u32 x.
Proof. unfold u32. apply Z.mod_mod. lia. Qed.

Lemma u32_small (x : Z) : 0 <= x < 2 ^ 32 -> u32 x = x.
Proof. intros H. unfold u32. apply Z.mod_small. exact H. Qed.

Lemma offsetAndKind_range (w : Z) : 0 <= WirePointer.offsetAndKind w < 2 ^ 32.
Proof. rewrite offsetAndKind_mod. apply Z.mod_pos_bound. lia. Qed.

Lemma upper32Bits_range (w : Z) : 0 <= WirePointer.upper32Bits w < 2 ^ 32.
Proof. rewrite upper32Bits_div. apply Z.mod_pos_bound. lia. Qed.

(** Every accessor of the low half depends on [offsetAndKind] only, every
    accessor of the high half on [upper32Bits] only. *)
Lemma set_offsetAndKind_low (v w : Z) :
  WirePointer.offsetAndKind (WirePointer.set_offsetAndKind v w) = u32 v.
Proof. apply offsetAndKind_halves. Qed.

Lemma set_offsetAndKind_high (v w : Z) :
  WirePointer.upper32Bits (WirePointer.set_offsetAndKind v w) = WirePointer.upper32Bits w.
Proof.
  unfold WirePointer.set_offsetAndKind. rewrite upper32Bits_halves.
  apply u32_small, upper32Bits_range.
Qed.

Lemma set_upper32Bits_low (v w : Z) :
  WirePointer.offsetAndKind (WirePointer.set_upper32Bits v w) = WirePointer.offsetAndKind w.
Proof.
  unfold WirePointer.set_upper32Bits. rewrite offsetAndKind_halves.
  apply u32_small, offsetAndKind_range.
Qed.

Lemma set_upper32Bits_high (v w : Z) :
  WirePointer.upper32Bits (WirePointer.set_upper32Bits v w) = u32 v.
Proof. apply upper32Bits_halves. Qed.

Lemma kind_low (w1 w2 : Z) :
  WirePointer.offsetAndKind w1 = WirePointer.offsetAndKind w2 ->
  WirePointer.kind w1 = WirePointer.kind w2
  /\ (forall this, WirePointer.target this w1 = WirePointer.target this w2)
  /\ WirePointer.farPositionInSegment w1 = WirePointer.farPositionInSegment w2
  /\ WirePointer.isDoubleFar w1 = WirePointer.isDoubleFar w2.
Proof.
  intros H. unfold WirePointer.kind, WirePointer.target, WirePointer.farPositionInSegment,
    WirePointer.isDoubleFar. rewrite H. auto.
Qed.

Lemma Kind_of_to_Z (k : WirePointer.Kind) :
  WirePointer.Kind_of_Z (WirePointer.Kind_to_Z k) = k.
Proof. destruct k; reflexivity. Qed.

Lemma Kind_to_Z_range (k : WirePointer.Kind) : 0 <= WirePointer.Kind_to_Z k < 4.
Proof. destruct k; cbn; lia. Qed.

Lemma kind_of_low (off k : Z) :
  0 <= k < 4 ->
  Z.land (u32 (off * 4 + k)) 3 = k.
Proof.
  intros Hk. change 3 with (2 ^ 2 - 1). rewrite land_mask by lia. unfold u32.
  change (2 ^ 32) with 4294967296. change (2 ^ 2) with 4.
  Z.div_mod_to_equations. lia.
Qed.

Lemma i32_u32 (x : Z) : - 2 ^ 31 <= x < 2 ^ 31 -> i32 (u32 x) = x.
Proof.
  intros H. unfold i32. rewrite u32_idem. unfold u32.
  destruct (Z_lt_le_dec x 0).
  - assert (Hm : x mod 2 ^ 32 = x + 2 ^ 32).
    { symmetry. apply (Z.mod_unique x (2 ^ 32) (-1)); lia. }
    rewrite Hm. destruct (Z.ltb_spec (x + 2 ^ 32) (2 ^ 31)); lia.
  - rewrite Z.mod_small by lia. destruct (Z.ltb_spec x (2 ^ 31)); lia.
Qed.

Lemma setKindAndTarget_spec (this : Z) (k : WirePointer.Kind) (tgt w : Z) :
  let v := WirePointer.setKindAndTarget this k tgt w in
  WirePointer.kind v = k
  /\ WirePointer.upper32Bits v = WirePointer.upper32Bits w
  /\ (- 2 ^ 29 <= tgt - this - 1 < 2 ^ 29 -> WirePointer.target this v = tgt).
Proof.
  intros v. subst v. unfold WirePointer.setKindAndTarget.
  pose proof (Kind_to_Z_range k) as Hk.
  assert (Hlow : WirePointer.offsetAndKind
                   (WirePointer.set_offsetAndKind
                      (Z.lor (Z.shiftl (tgt - this - 1) 2) (WirePointer.Kind_to_Z k)) w)
                 = u32 ((tgt - this - 1) * 4 + WirePointer.Kind_to_Z k)).
  { rewrite set_offsetAndKind_low, lor_shiftl_low by (change (2 ^ 2) with 4; lia). reflexivity. }
  split; [|split].
  - unfold WirePointer.kind. rewrite Hlow, kind_of_low by lia. apply Kind_of_to_Z.
  - apply set_offsetAndKind_high.
  - intros Hoff. unfold WirePointer.target. rewrite Hlow, i32_u32 by lia.
    rewrite Z.shiftr_div_pow2 by lia. change (2 ^ 2) with 4.
    replace (((tgt - this - 1) * 4 + WirePointer.Kind_to_Z k) / 4) with (tgt - this - 1); [lia|].
    apply (Z.div_unique _ 4 _ (WirePointer.Kind_to_Z k)); lia.
Qed.

Lemma setFar_spec (d : bool) (pos w : Z) :
  let v := WirePointer.setFar d pos w in
  WirePointer.kind v = WirePointer.FAR
  /\ WirePointer.upper32Bits v = WirePointer.upper32Bits w
  /\ (0 <= pos < 2 ^ 29 ->
      WirePointer.farPositionInSegment v = pos /\ WirePointer.isDoubleFar v = d).
Proof.
  intros v. subst v. unfold WirePointer.setFar.
  set (db := if d then 1 else 0).
  assert (Hdb : 0 <= db < 2) by (subst db; destruct d; lia).
  assert (Hlow : WirePointer.offsetAndKind
                   (WirePointer.set_offsetAndKind
                      (Z.lor (Z.lor (Z.shiftl pos 3) (Z.shiftl db 2))
                         (WirePointer.Kind_to_Z WirePointer.FAR)) w)
                 = u32 ((pos * 2 + db) * 4 + 2)).
  { rewrite set_offsetAndKind_low. f_equal.
    rewrite (Z.shiftl_mul_pow2 db) by lia.
    rewrite lor_shiftl_low by lia.
    change (WirePointer.Kind_to_Z WirePointer.FAR) with 2.
    replace (pos * 2 ^ 3 + db * 2 ^ 2) with (Z.shiftl (pos * 2 + db) 2)
      by (rewrite Z.shiftl_mul_pow2 by lia; lia).
    rewrite lor_shiftl_low by lia. lia. }
  split; [|split].
  - unfold WirePointer.kind. rewrite Hlow, kind_of_low by lia. reflexivity.
  - apply set_offsetAndKind_high.
  - intros Hpos. unfold WirePointer.farPositionInSegment, WirePointer.isDoubleFar.
    rewrite Hlow, u32_small by lia.
    rewrite !Z.shiftr_div_pow2 by lia. split.
    + change (2 ^ 3) with 8. symmetry.
      apply (Z.div_unique _ 8 _ (db * 4 + 2)); lia.
    + change (2 ^ 2) with 4.
      replace (((pos * 2 + db) * 4 + 2) / 4) with (pos * 2 + db)
        by (apply (Z.div_unique _ 4 _ 2); lia).
      change 1 with (2 ^ 1 - 1) at 1. rewrite land_mask by lia. change (2 ^ 1) with 2.
      rewrite Z.add_comm, Z_mod_plus_full. subst db. destruct d; reflexivity.
Qed.

Lemma structRef_set_spec (ds rc w : Z) :
  0 <= ds < 2 ^ 16 -> 0 <= rc < 2 ^ 16 ->
  let v := WirePointer.structRef_set ds rc w in
  WirePointer.offsetAndKind v = WirePointer.offsetAndKind w
  /\ WirePointer.dataSize v = ds /\ WirePointer.ptrCount v = rc.
Proof.
  intros Hds Hrc v. subst v. unfold WirePointer.structRef_set.
  assert (Hup : WirePointer.upper32Bits
                  (WirePointer.set_upper32Bits (Z.lor (u16 ds) (Z.shiftl (u16 rc) 16)) w)
                = rc * 2 ^ 16 + ds).
  { rewrite set_upper32Bits_high. unfold u16.
    rewrite !Z.mod_small by lia. rewrite Z.lor_comm, lor_shiftl_low by lia.
    apply u32_small. lia. }
  split; [apply set_upper32Bits_low|]. split.
  - unfold WirePointer.dataSize. rewrite Hup, land_mask by lia.
    rewrite Z.add_comm, Z_mod_plus_full. apply Z.mod_small. lia.
  - unfold WirePointer.ptrCount. rewrite Hup, land_mask by lia.
    rewrite Z.shiftr_div_pow2 by lia.
    replace ((rc * 2 ^ 16 + ds) / 2 ^ 16) with rc
      by (apply (Z.div_unique _ (2 ^ 16) _ ds); lia).
    apply Z.mod_small. lia.
Qed.

Lemma isNull_zero : WirePointer.isNull 0 = true.
Proof. reflexivity. Qed.

Lemma isNull_spec (w : Z) :
  WirePointer.isNull w = true <->
  WirePointer.offsetAndKind w = 0 /\ WirePointer.upper32Bits w = 0.
Proof. unfold WirePointer.isNull. rewrite andb_true_iff, !Z.eqb_eq. tauto. Qed.

Lemma word_halves (w : Z) :
  0 <= w < 2 ^ 64 ->
  w = WirePointer.offsetAndKind w + WirePointer.upper32Bits w * 2 ^ 32.
Proof.
  intros H. rewrite offsetAndKind_mod, upper32Bits_div.
  rewrite (Z.mod_small (w / 2 ^ 32)).
  - pose proof (Z.div_mod w (2 ^ 32)). lia.
  - split; [apply Z.div_pos; lia|]. apply Z.div_lt_upper_bound; lia.
Qed.

(** *** Running builder code *)

Lemma bind_run {A B : Type} (m : M A) (k : A -> M B) (a a1 : BuilderArena) (x : A) :
  m a = Some (x, a1) -> bind m k a = k x a1.
Proof. intros H. unfold bind. rewrite H. reflexivity. Qed.

Lemma seq_run {B : Type} (m1 m2 : M unit) (k : M B) (a a1 : BuilderArena) :
  (m1 ;; m2) a = Some (tt, a1) -> (m1 ;; m2 ;; k) a = k a1.
Proof.
  unfold bind. destruct (m1 a) as [[[] a']|]; [|discriminate]. intros ->. reflexivity.
Qed.

Lemma getSegment_spec (id : Z) (a : BuilderArena) :
  getSegment id a =
  if decide (0 <= id < Z.of_nat (length (b_segments a))) then Some (Z.to_nat id, a) else None.
Proof.
  unfold getSegment.
  destruct (Z.leb_spec 0 id), (Z.ltb_spec id (Z.of_nat (length (b_segments a))));
    cbn [andb]; destruct (decide _); try reflexivity; lia.
Qed.

Lemma getSegment_nat (id : nat) (a : BuilderArena) :
  (id < length (b_segments a))%nat -> getSegment (Z.of_nat id) a = Some (id, a).
Proof.
  intros H. rewrite getSegment_spec, decide_True by lia. rewrite Nat2Z.id. reflexivity.
Qed.

(** *** What a pointer denotes *)

(** The object a pointer leads to through far pointers, with the kind and the
    upper half of the word that describes it: what the accessors of
    layout.c++ read after [followFars]. *)
Definition resolve (ref : BLoc) (segment : nat) (a : BuilderArena)
  : option (BLoc * WirePointer.Kind * Z) :=
  match followFars ref segment a with
  | Some ((ptr, ref1, _), _) =>
    match peek a ref1 with
    | Some w => Some (ptr, WirePointer.kind w, WirePointer.upper32Bits w)
    | None => None
    end
  | None => None
  end.

(** The landing-pad words that [followFars] reads for the pointer at [ref]. *)
Definition pads (a : BuilderArena) (ref : BLoc) : list BLoc :=
  match peek a ref with
  | Some w =>
    if WirePointer.Kind_eqb (WirePointer.kind w) WirePointer.FAR then
      let pad : BLoc := (Z.to_nat (WirePointer.segmentId w), WirePointer.farPositionInSegment w) in
      if WirePointer.isDoubleFar w then [pad; plus pad 1] else [pad]
    else []
  | None => []
  end.

Lemma Kind_eqb_spec (k1 k2 : WirePointer.Kind) :
  WirePointer.Kind_eqb k1 k2 = true <-> k1 = k2.
Proof. destruct k1, k2; cbn; split; intros H; congruence. Qed.

Lemma Kind_eqb_false (k1 k2 : WirePointer.Kind) :
  WirePointer.Kind_eqb k1 k2 = false <-> k1 <> k2.
Proof. destruct k1, k2; cbn; split; intros H; congruence. Qed.

Lemma followFars_unfold (ref : BLoc) (segment : nat) (a : BuilderArena) :
  followFars ref segment a =
  match peek a ref with
  | None => None
  | Some w =>
    if WirePointer.Kind_eqb (WirePointer.kind w) WirePointer.FAR then
      if decide (0 <= WirePointer.segmentId w < Z.of_nat (length (b_segments a))) then
        let pad : BLoc :=
          (Z.to_nat (WirePointer.segmentId w), WirePointer.farPositionInSegment w) in
        match peek a pad with
        | None => None
        | Some padw =>
          if WirePointer.isDoubleFar w then
            if decide (0 <= WirePointer.segmentId padw < Z.of_nat (length (b_segments a))) then
              Some (((Z.to_nat (WirePointer.segmentId padw),
                      WirePointer.farPositionInSegment padw), plus pad 1,
                     Z.to_nat (WirePointer.segmentId padw)), a)
            else None
          else Some ((targetOf pad padw, pad, Z.to_nat (WirePointer.segmentId w)), a)
        end
      else None
    else Some ((targetOf ref w, ref, segment), a)
  end.
Proof.
  unfold followFars, bind. rewrite load_peek.
  destruct (peek a ref) as [w|]; [|reflexivity].
  destruct (WirePointer.Kind_eqb (WirePointer.kind w) WirePointer.FAR); [|reflexivity].
  rewrite getSegment_spec.
  destruct (decide (0 <= WirePointer.segmentId w < _)); [|reflexivity].
  cbv zeta.
  destruct (WirePointer.isDoubleFar w); cbn [negb]; rewrite load_peek;
    destruct (peek a _) as [padw|]; try reflexivity.
  rewrite getSegment_spec. destruct (decide _); reflexivity.
Qed.

Lemma followFars_pure (ref : BLoc) (segment : nat) (a a1 : BuilderArena)
    (r : BLoc * BLoc * nat) :
  followFars ref segment a = Some (r, a1) -> a1 = a.
Proof.
  rewrite followFars_unfold. intros H.
  repeat match type of H with
         | match ?x with _ => _ end = _ => destruct x; try discriminate
         | (if ?x then _ else _) = _ => destruct x; try discriminate
         | (let _ := _ in _) = _ => cbv zeta in H
         end; congruence.
Qed.

Lemma resolve_direct (ref : BLoc) (segment : nat) (a : BuilderArena) (w : Z) :
  peek a ref = Some w -> WirePointer.kind w <> WirePointer.FAR ->
  resolve ref segment a
  = Some (targetOf ref w, WirePointer.kind w, WirePointer.upper32Bits w).
Proof.
  intros Hw Hk. unfold resolve. rewrite followFars_unfold, Hw.
  apply Kind_eqb_false in Hk. rewrite Hk, Hw. reflexivity.
Qed.

Lemma resolve_far (ref : BLoc) (segment : nat) (a : BuilderArena) (w padw : Z) (pad : BLoc) :
  peek a ref = Some w -> WirePointer.kind w = WirePointer.FAR ->
  WirePointer.isDoubleFar w = false ->
  WirePointer.segmentId w = Z.of_nat (fst pad) ->
  WirePointer.farPositionInSegment w = snd pad ->
  peek a pad = Some padw ->
  resolve ref segment a
  = Some (targetOf pad padw, WirePointer.kind padw, WirePointer.upper32Bits padw).
Proof.
  intros Hw Hk Hd Hid Hpos Hpad. unfold resolve. rewrite followFars_unfold, Hw.
  apply Kind_eqb_spec in Hk. rewrite Hk, Hid, Hpos, Nat2Z.id. cbv zeta.
  assert (Hlt : (fst pad < length (b_segments a))%nat).
  { apply peek_Some in Hpad. destruct Hpad as (s & Hs & _). eapply lookup_lt_Some; eauto. }
  rewrite decide_True by lia.
  replace (fst pad, snd pad) with pad by (destruct pad; reflexivity).
  rewrite Hpad, Hd, Hpad. reflexivity.
Qed.

Lemma resolve_double_far (ref : BLoc) (segment : nat) (a : BuilderArena)
    (w padw tag : Z) (pad : BLoc) (id : nat) :
  peek a ref = Some w -> WirePointer.kind w = WirePointer.FAR ->
  WirePointer.isDoubleFar w = true ->
  WirePointer.segmentId w = Z.of_nat (fst pad) ->
  WirePointer.farPositionInSegment w = snd pad ->
  peek a pad = Some padw ->
  WirePointer.segmentId padw = Z.of_nat id -> (id < length (b_segments a))%nat ->
  peek a (plus pad 1) = Some tag ->
  resolve ref segment a
  = Some ((id, WirePointer.farPositionInSegment padw), WirePointer.kind tag,
          WirePointer.upper32Bits tag).
Proof.
  intros Hw Hk Hd Hid Hpos Hpad Hid2 Hlt2 Htag. unfold resolve.
  rewrite followFars_unfold, Hw.
  apply Kind_eqb_spec in Hk. rewrite Hk, Hid, Hpos, Nat2Z.id. cbv zeta.
  assert (Hlt : (fst pad < length (b_segments a))%nat).
  { apply peek_Some in Hpad. destruct Hpad as (s & Hs & _). eapply lookup_lt_Some; eauto. }
  rewrite decide_True by lia.
  replace (fst pad, snd pad) with pad by (destruct pad; reflexivity).
  rewrite Hpad, Hd, Hid2, decide_True by lia. rewrite Nat2Z.id, Htag. reflexivity.
Qed.

(** A pointer denotes the same thing in every arena that agrees on the words
    it goes through and has at least as many segments. *)
Lemma resolve_agree (ref : BLoc) (segment : nat) (a a1 : BuilderArena)
    (r : BLoc * WirePointer.Kind * Z) :
  resolve ref segment a = Some r ->
  peek a1 ref = peek a ref ->
  (forall q, In q (pads a ref) -> peek a1 q = peek a q) ->
  (length (b_segments a) <= length (b_segments a1))%nat ->
  resolve ref segment a1 = Some r /\ pads a1 ref = pads a ref.
Proof.
  unfold resolve, pads. rewrite !followFars_unfold. intros Hr Href Hpads Hlen.
  rewrite Href. destruct (peek a ref) as [w|] eqn:Hw; [|discriminate].
  destruct (WirePointer.Kind_eqb (WirePointer.kind w) WirePointer.FAR).
  - split; [|reflexivity].
    destruct (decide (0 <= WirePointer.segmentId w < Z.of_nat (length (b_segments a))));
      [|discriminate].
    rewrite decide_True by lia. cbv zeta in *.
    set (pad := (Z.to_nat (WirePointer.segmentId w), WirePointer.farPositionInSegment w)) in *.
    destruct (WirePointer.isDoubleFar w).
    + rewrite (Hpads pad) by (left; reflexivity).
      destruct (peek a pad) as [padw|]; [|discriminate].
      destruct (decide (0 <= WirePointer.segmentId padw < Z.of_nat (length (b_segments a))));
        [|discriminate].
      rewrite decide_True by lia.
      rewrite (Hpads (plus pad 1)) by (right; left; reflexivity). exact Hr.
    + rewrite (Hpads pad) by (left; reflexivity).
      destruct (peek a pad) as [padw|]; [|discriminate]. 
      rewrite (Hpads pad) by (left; reflexivity). exact Hr.
  - split; [|reflexivity]. rewrite Href. rewrite Hw in Hr. exact Hr.
Qed.

(** [ref] denotes [r] and goes only through allocated words outside [W]. *)
Definition resolvesTo (W : BLoc -> Prop) (a : BuilderArena) (ref : BLoc) (segment : nat)
    (r : BLoc * WirePointer.Kind * Z) : Prop :=
  resolve ref segment a = Some r
  /\ (forall q, In q (pads a ref) -> allocated a q /\ ~ W q).

Lemma resolvesTo_mono (W W1 : BLoc -> Prop) (a : BuilderArena) (ref : BLoc) (segment : nat)
    (r : BLoc * WirePointer.Kind * Z) :
  resolvesTo W a ref segment r -> (forall q, W1 q -> W q) -> resolvesTo W1 a ref segment r.
Proof. intros [H1 H2] Hsub. split; [exact H1|]. intros q Hq. split; [|intros HW]; apply (H2 q Hq); auto. Qed.

Lemma resolvesTo_evolves (W W1 W2 : BLoc -> Prop) (a a1 : BuilderArena) (ref : BLoc)
    (segment : nat) (r : BLoc * WirePointer.Kind * Z) :
  wfArena a ->
  resolvesTo W a ref segment r -> evolves W1 a a1 ->
  (forall q, W1 q -> W q \/ unallocated a q) ->
  (forall q, W2 q -> W q \/ unallocated a q) ->
  peek a1 ref = peek a ref ->
  resolvesTo W2 a1 ref segment r.
Proof.
  intros Hwf [Hr Hp] Hev Hsub Hsub2 Href.
  assert (Hsame : forall q, In q (pads a ref) -> peek a1 q = peek a q).
  { intros q Hq. destruct (Hp q Hq) as [Hal HW]. apply (ev_peek _ _ _ Hev).
    - apply allocated_peek; assumption.
    - intros H1. destruct (Hsub q H1) as [H|H]; [exact (HW H)|].
      exact (allocated_not_unallocated a q Hal H). }
  destruct (resolve_agree ref segment a a1 r Hr Href Hsame (ev_count _ _ _ Hev)) as [H1 H2].
  split; [exact H1|]. rewrite H2. intros q Hq. destruct (Hp q Hq) as [Hal HW].
  split; [eapply evolves_allocated; eauto|].
  intros H2q. destruct (Hsub2 q H2q) as [H|H]; [exact (HW H)|].
  exact (allocated_not_unallocated a q Hal H).
Qed.

(** *** Writing pointer words *)

Lemma sameShape_refl (a : BuilderArena) : sameShape a a.
Proof. repeat split; reflexivity. Qed.

Lemma sameShape_trans (a a1 a2 : BuilderArena) :
  sameShape a a1 -> sameShape a1 a2 -> sameShape a a2.
Proof.
  intros (H1 & H2 & H3 & H4 & H5) (K1 & K2 & K3 & K4 & K5).
  split; [congruence|]. split; [congruence|]. split; [congruence|]. split.
  - intros id. rewrite K4. apply H4.
  - intros id. rewrite K5. apply H5.
Qed.

Lemma load_run (p : BLoc) (w : Z) (a : BuilderArena) :
  peek a p = Some w -> load p a = Some (w, a).
Proof. intros H. rewrite load_peek, H. reflexivity. Qed.

Ltac run H := rewrite (bind_run _ _ _ _ _ H); cbv beta iota.

(** Two setters applied in a row to the pointer at [p]. *)
Lemma update_twice (p : BLoc) (f g : Z -> Z) (w : Z) (a : BuilderArena) :
  peek a p = Some w ->
  exists a1, (update p f ;; update p g) a = Some (tt, a1)
    /\ sameShape a a1
    /\ (forall q, peek a1 q = if decide (q = p) then Some (g (f w)) else peek a q).
Proof.
  intros Hw.
  destruct (update_spec p f w a Hw) as (a1 & Hrun1 & Hsh1 & Hpk1).
  assert (Hw1 : peek a1 p = Some (f w)) by (rewrite Hpk1, decide_True; reflexivity).
  destruct (update_spec p g (f w) a1 Hw1) as (a2 & Hrun2 & Hsh2 & Hpk2).
  exists a2. split; [|split].
  - run Hrun1. exact Hrun2.
  - eapply sameShape_trans; eauto.
  - intros q. rewrite Hpk2, Hpk1. destruct (decide (q = p)); reflexivity.
Qed.

Lemma isNull_kind (v : Z) : WirePointer.isNull v = true -> WirePointer.kind v = WirePointer.STRUCT.
Proof.
  intros H. apply isNull_spec in H. destruct H as [H _].
  unfold WirePointer.kind. rewrite H. reflexivity.
Qed.

Lemma isNull_target (v this : Z) :
  WirePointer.isNull v = true -> WirePointer.target this v = this + 1.
Proof.
  intros H. apply isNull_spec in H. destruct H as [H _].
  unfold WirePointer.target. rewrite H.
  replace (Z.shiftr (i32 0) 2) with 0 by reflexivity. lia.
Qed.

Lemma not_null (v : Z) : WirePointer.isNull v <> true -> WirePointer.isNull v = false.
Proof. destruct (WirePointer.isNull v); congruence. Qed.

(** [ref->setFar(d, pos); ref->farRef.set(id)] *)
Lemma writeFar_spec (ref : BLoc) (d : bool) (pos id : Z) (w : Z) (a : BuilderArena) :
  peek a ref = Some w -> 0 <= id < 2 ^ 32 ->
  exists v a1,
    (update ref (WirePointer.setFar d pos) ;; update ref (WirePointer.farRef_set id)) a
    = Some (tt, a1)
    /\ sameShape a a1
    /\ (forall q, peek a1 q = if decide (q = ref) then Some v else peek a q)
    /\ WirePointer.kind v = WirePointer.FAR
    /\ WirePointer.segmentId v = id
    /\ WirePointer.isNull v = false
    /\ (0 <= pos < 2 ^ 29 ->
        WirePointer.isDoubleFar v = d /\ WirePointer.farPositionInSegment v = pos).
Proof.
  intros Hw Hid.
  destruct (update_twice ref (WirePointer.setFar d pos) (WirePointer.farRef_set id) w a Hw)
    as (a1 & Hrun & Hsh & Hpk).
  eexists _, a1. split; [exact Hrun|]. split; [exact Hsh|]. split; [exact Hpk|].
  destruct (setFar_spec d pos w) as (Hk & _ & Hf).
  unfold WirePointer.farRef_set.
  destruct (kind_low (WirePointer.set_upper32Bits id (WirePointer.setFar d pos w))
              (WirePointer.setFar d pos w) (set_upper32Bits_low _ _)) as (K1 & K2 & K3 & K4).
  assert (HK : WirePointer.kind
                 (WirePointer.set_upper32Bits id (WirePointer.setFar d pos w)) = WirePointer.FAR)
    by congruence.
  split; [exact HK|]. split; [|split].
  - unfold WirePointer.segmentId. rewrite set_upper32Bits_high. apply u32_small, Hid.
  - apply not_null. intros Hn. apply isNull_kind in Hn. congruence.
  - intros Hpos. destruct (Hf Hpos) as [Hp Hd]. split; congruence.
Qed.

(** [p->setKindAndTarget(k, tgt); p->upper32Bits = u] *)
Lemma writePointer_spec (p tgt : BLoc) (k : WirePointer.Kind) (u w : Z) (a : BuilderArena) :
  peek a p = Some w -> fst tgt = fst p -> 0 <= u < 2 ^ 32 ->
  exists v a1,
    (setKindAndTarget p k tgt ;; update p (WirePointer.set_upper32Bits u)) a = Some (tt, a1)
    /\ sameShape a a1
    /\ (forall q, peek a1 q = if decide (q = p) then Some v else peek a q)
    /\ WirePointer.kind v = k
    /\ WirePointer.upper32Bits v = u
    /\ (- 2 ^ 29 <= snd tgt - snd p - 1 < 2 ^ 29 ->
        WirePointer.target (snd p) v = snd tgt
        /\ (snd tgt <= snd p -> WirePointer.isNull v = false)).
Proof.
  intros Hw Hseg Hu. unfold setKindAndTarget.
  rewrite Hseg, Nat.eqb_refl.
  destruct (update_twice p (WirePointer.setKindAndTarget (snd p) k (snd tgt))
              (WirePointer.set_upper32Bits u) w a Hw) as (a1 & Hrun & Hsh & Hpk).
  eexists _, a1. split; [exact Hrun|]. split; [exact Hsh|]. split; [exact Hpk|].
  destruct (setKindAndTarget_spec (snd p) k (snd tgt) w) as (Hk & _ & Ht).
  destruct (kind_low (WirePointer.set_upper32Bits u
                        (WirePointer.setKindAndTarget (snd p) k (snd tgt) w))
              (WirePointer.setKindAndTarget (snd p) k (snd tgt) w)
              (set_upper32Bits_low _ _)) as (K1 & K2 & _).
  split; [congruence|]. split.
  - rewrite set_upper32Bits_high. apply u32_small, Hu.
  - intros Hoff. specialize (Ht Hoff).
    assert (HT : WirePointer.target (snd p)
                   (WirePointer.set_upper32Bits u
                      (WirePointer.setKindAndTarget (snd p) k (snd tgt) w)) = snd tgt)
      by (rewrite K2; exact Ht).
    split; [exact HT|].
    intros Hle. apply not_null. intros Hn.
    apply (isNull_target _ (snd p)) in Hn. lia.
Qed.

(** [p->setKindWithZeroOffset(k); p->upper32Bits = u] *)
Lemma writeTag_spec (p : BLoc) (k : WirePointer.Kind) (u w : Z) (a : BuilderArena) :
  peek a p = Some w -> 0 <= u < 2 ^ 32 ->
  exists v a1,
    (update p (WirePointer.setKindWithZeroOffset k) ;;
     update p (WirePointer.set_upper32Bits u)) a = Some (tt, a1)
    /\ sameShape a a1
    /\ (forall q, peek a1 q = if decide (q = p) then Some v else peek a q)
    /\ WirePointer.kind v = k
    /\ WirePointer.upper32Bits v = u.
Proof.
  intros Hw Hu.
  destruct (update_twice p (WirePointer.setKindWithZeroOffset k)
              (WirePointer.set_upper32Bits u) w a Hw) as (a1 & Hrun & Hsh & Hpk).
  eexists _, a1. split; [exact Hrun|]. split; [exact Hsh|]. split; [exact Hpk|].
  split.
  - unfold WirePointer.kind. rewrite set_upper32Bits_low.
    unfold WirePointer.setKindWithZeroOffset. rewrite set_offsetAndKind_low.
    pose proof (Kind_to_Z_range k) as Hk.
    replace (WirePointer.Kind_to_Z k) with (0 * 4 + WirePointer.Kind_to_Z k) by lia.
    rewrite kind_of_low by lia. apply Kind_of_to_Z.
  - rewrite set_upper32Bits_high. apply u32_small, Hu.
Qed.

(** *** Allocation *)

Lemma segAllocate_ok (id : nat) (amount : Z) (a : BuilderArena) (e x : Z) :
  wfArena a -> segEnd a id = Some e -> segPos a id = Some x -> 0 <= amount <= e - x ->
  exists a1, segAllocate id amount a = Some (Some x, a1)
    /\ evolves nowhere a a1
    /\ wfArena a1
    /\ length (b_segments a1) = length (b_segments a)
    /\ segPos a1 id = Some (x + amount)
    /\ (forall id1, id1 <> id -> segPos a1 id1 = segPos a id1)
    /\ (forall id1, segEnd a1 id1 = segEnd a id1)
    /\ (forall q, peek a1 q = peek a q).
Proof.
  intros Hwf He Hx Ham.
  destruct (segAllocate_spec id amount a e x Hwf He Hx ltac:(lia)) as [_ H].
  destruct (H ltac:(lia)) as (a1 & Hrun & Hm & Hr & Hl & Hend & Hpos & Hpk & Hwf1).
  exists a1. split; [exact Hrun|]. split.
  - constructor.
    + exact Hm.
    + exact Hr.
    + lia.
    + intros id1 e1 H1. rewrite Hend. exact H1.
    + intros id1 x1 H1. rewrite Hpos. destruct (decide (id1 = id)) as [->|Hne].
      * exists (x + amount). split; [reflexivity|]. rewrite Hx in H1. injection H1 as <-. lia.
      * exists x1. split; [exact H1 | lia].
    + intros q _ _. apply Hpk.
  - split; [exact Hwf1|]. split; [exact Hl|]. split.
    + rewrite Hpos, decide_True; reflexivity.
    + split; [|split; [exact Hend | exact Hpk]].
      intros id1 Hne. rewrite Hpos, decide_False; auto.
Qed.

Lemma within_one (p q : BLoc) : within p 1 q <-> q = p.
Proof.
  unfold within. destruct p as [ps pp], q as [qs qp]. cbn [fst snd]. split.
  - intros [-> H]. f_equal. lia.
  - intros [= -> ->]. split; [reflexivity | lia].
Qed.

Lemma sameShape_inSeg (a a1 : BuilderArena) (p : BLoc) (n : Z) :
  sameShape a a1 -> inSeg a p n -> inSeg a1 p n.
Proof.
  intros (_ & _ & _ & He & _) (e & H1 & H2). exists e. rewrite He. split; assumption.
Qed.

Lemma pads_far (a : BuilderArena) (ref : BLoc) (w : Z) :
  peek a ref = Some w -> WirePointer.kind w = WirePointer.FAR ->
  forall q, In q (pads a ref) <->
    within (Z.to_nat (WirePointer.segmentId w), WirePointer.farPositionInSegment w)
           (1 + (if WirePointer.isDoubleFar w then 1 else 0)) q.
Proof.
  intros Hw Hk q. unfold pads. rewrite Hw. apply Kind_eqb_spec in Hk. rewrite Hk. cbv zeta.
  unfold within, plus. destruct q as [qs qp]. cbn [fst snd].
  destruct (WirePointer.isDoubleFar w); cbn [In]; split.
  - intros [[= <- <-]|[[= <- <-]|[]]]; (split; [reflexivity | lia]).
  - intros [-> H].
    destruct (Z.eq_dec qp (WirePointer.farPositionInSegment w)) as [->|Hne];
      [left; reflexivity|]. right; left. f_equal. lia.
  - intros [[= <- <-]|[]]. split; [reflexivity | lia].
  - intros [-> H]. left. f_equal. lia.
Qed.

Lemma pads_direct (a : BuilderArena) (ref : BLoc) (w : Z) :
  peek a ref = Some w -> WirePointer.kind w <> WirePointer.FAR -> pads a ref = [].
Proof.
  intros Hw Hk. unfold pads. rewrite Hw. apply Kind_eqb_false in Hk. rewrite Hk. reflexivity.
Qed.

(** [WireHelpers::zeroPointerAndFars]: the pointer and its landing pad are
    zeroed, nothing else is touched. *)
Lemma zeroPointerAndFars_spec (segment : nat) (ref : BLoc) (w : Z) (a : BuilderArena) :
  peek a ref = Some w ->
  (forall q, In q (pads a ref) -> is_Some (peek a q)) ->
  exists a1, zeroPointerAndFars segment ref a = Some (tt, a1)
    /\ sameShape a a1
    /\ peek a1 ref = Some 0
    /\ (forall q, q <> ref -> ~ In q (pads a ref) -> peek a1 q = peek a q).
Proof.
  intros Hw Hpads. unfold zeroPointerAndFars. run (load_run ref w a Hw).
  assert (Href : inSeg a ref 1) by (apply peek_is_Some; eauto).
  destruct (WirePointer.Kind_eqb (WirePointer.kind w) WirePointer.FAR) eqn:Hk.
  - apply Kind_eqb_spec in Hk.
    pose proof (pads_far a ref w Hw Hk) as Hin.
    set (pad := (Z.to_nat (WirePointer.segmentId w), WirePointer.farPositionInSegment w)) in *.
    set (n := 1 + (if WirePointer.isDoubleFar w then 1 else 0)) in *.
    assert (Hn : 1 <= n <= 2) by (subst n; destruct (WirePointer.isDoubleFar w); lia).
    assert (Hpad : inSeg a pad n).
    { assert (H0 : inSeg a pad 1).
      { apply peek_is_Some, Hpads, Hin. split; [reflexivity | lia]. }
      destruct (Z.eq_dec n 1) as [->|Hne]; [exact H0|].
      assert (H1 : inSeg a (plus pad 1) 1).
      { apply peek_is_Some, Hpads, Hin. unfold within, plus. cbn [fst snd].
        split; [reflexivity | lia]. }
      destruct H0 as (e & He & Hr0). destruct H1 as (e1 & He1 & Hr1).
      unfold plus in He1, Hr1. cbn [fst snd] in He1, Hr1.
      exists e. split; [exact He|]. rewrite He in He1. injection He1 as <-. lia. }
    assert (Hid : 0 <= WirePointer.segmentId w < Z.of_nat (length (b_segments a))).
    { destruct Hpad as (e & He & _). unfold segEnd in He. subst pad. cbn [fst] in He.
      destruct (b_segments a !! Z.to_nat (WirePointer.segmentId w)) eqn:E; [|discriminate].
      apply lookup_lt_Some in E. pose proof (upper32Bits_range w).
      unfold WirePointer.segmentId in *. lia. }
    destruct (memset0_spec pad n a Hpad) as (a1 & Hrun1 & Hsh1 & Hpk1).
    destruct (memset0_spec ref 1 a1 (sameShape_inSeg _ _ _ _ Hsh1 Href))
      as (a2 & Hrun2 & Hsh2 & Hpk2).
    exists a2. split; [|split; [|split]].
    + unfold bind at 1. unfold bind at 1. rewrite getSegment_spec, decide_True by exact Hid.
      fold pad. fold n. rewrite Hrun1. exact Hrun2.
    + eapply sameShape_trans; eauto.
    + rewrite Hpk2, decide_True by (apply within_one; reflexivity). reflexivity.
    + intros q Hne Hnin. rewrite Hpk2, decide_False by (rewrite within_one; exact Hne).
      rewrite Hpk1, decide_False by (rewrite <- Hin; exact Hnin). reflexivity.
  - destruct (memset0_spec ref 1 a Href) as (a2 & Hrun2 & Hsh2 & Hpk2).
    exists a2. split; [|split; [|split]].
    + unfold bind at 1. unfold ret. exact Hrun2.
    + exact Hsh2.
    + rewrite Hpk2, decide_True by (apply within_one; reflexivity). reflexivity.
    + intros q Hne _. rewrite Hpk2, decide_False by (rewrite within_one; exact Hne).
      reflexivity.
Qed.

Lemma ret_run {A : Type} (x : A) (a : BuilderArena) : ret x a = Some (x, a).
Proof. reflexivity. Qed.

(** [WireHelpers::allocate] on a null pointer: the words come from the
    segment of [ref] when it has room, and otherwise from a segment with room
    for the words and a landing pad, which [ref] then reaches through a far
    pointer. *)
Lemma allocate_null_spec (fuel : nat) (ref : BLoc) (amount : Z) (k : WirePointer.Kind)
    (w e x : Z) (a : BuilderArena) :
  wfArena a ->
  Z.of_nat (length (b_segments a)) < 2 ^ 32 ->
  peek a ref = Some w -> WirePointer.isNull w = true ->
  allocated a ref ->
  segEnd a (fst ref) = Some e -> segPos a (fst ref) = Some x ->
  0 <= amount < 2 ^ 28 - 1 ->
  exists ptr ref1 v a1,
    allocate fuel ref (fst ref) amount k a = Some ((ptr, ref1, fst ptr), a1)
    /\ evolves (fun q => q = ref \/ unallocated a q) a a1
    /\ wfArena a1
    /\ (length (b_segments a1) <= S (length (b_segments a)))%nat
    /\ fst ref1 = fst ptr
    /\ unallocated a ptr
    /\ 0 <= snd ptr
    /\ (exists x1, segPos a1 (fst ptr) = Some x1 /\ snd ptr + amount <= x1)
    /\ peek a1 ref1 = Some v
    /\ WirePointer.kind v = k
    /\ WirePointer.target (snd ref1) v = snd ptr
    /\ (if decide (amount <= e - x) then ref1 = ref /\ ptr = (fst ref, x)
        else
          unallocated a ref1 /\ allocated a1 ref1 /\ ptr = plus ref1 1
          /\ exists f, peek a1 ref = Some f
               /\ WirePointer.kind f = WirePointer.FAR
               /\ WirePointer.isDoubleFar f = false
               /\ WirePointer.segmentId f = Z.of_nat (fst ref1)
               /\ WirePointer.farPositionInSegment f = snd ref1).
Proof.
  intros Hwf Hcount Hw Hnull Hal He Hx Ham.
  unfold allocate. run (load_run ref w a Hw). rewrite Hnull. cbn [negb].
  run (ret_run tt a).
  destruct (proj1 Hwf _ _ _ He Hx) as [Hx0 He0].
  destruct Hal as (x' & Hx' & Href). rewrite Hx in Hx'. injection Hx' as <-.
  destruct (decide (amount <= e - x)) as [Hfit|Hspill].
  - (* the segment of [ref] has room *)
    destruct (segAllocate_ok (fst ref) amount a e x Hwf He Hx ltac:(lia))
      as (a1 & Hrun1 & Hev1 & Hwf1 & Hlen1 & Hpos1 & Hposne1 & Hend1 & Hpk1).
    run Hrun1.
    assert (Hw1 : peek a1 ref = Some w) by (rewrite Hpk1; exact Hw).
    unfold setKindAndTarget. cbn [fst snd]. rewrite Nat.eqb_refl.
    destruct (update_spec ref (WirePointer.setKindAndTarget (snd ref) k x) w a1 Hw1)
      as (a2 & Hrun2 & Hsh2 & Hpk2).
    run Hrun2. unfold ret.
    destruct (setKindAndTarget_spec (snd ref) k x w) as (Hk & _ & Ht).
    eexists (fst ref, x), ref, _, a2. cbn [fst snd].
    split; [reflexivity|]. split.
    { eapply (evolves_trans nowhere (fun q => q = ref)); [exact Hev1| | |].
      - apply sameShape_evolves; [exact Hsh2|].
        intros q Hq. rewrite Hpk2, decide_False by exact Hq. reflexivity.
      - intros q [].
      - intros q Hq. left. exact Hq. }
    split; [eapply sameShape_wf; eauto|].
    split; [rewrite (sameShape_count _ _ Hsh2); lia|].
    split; [reflexivity|].
    split; [intros y Hy; cbn [fst snd] in Hy |- *; rewrite Hx in Hy; injection Hy as <-; lia|].
    split; [lia|].
    split; [exists (x + amount); rewrite (sameShape_segPos _ _ _ Hsh2); split; [exact Hpos1 | lia]|].
    split; [rewrite Hpk2, decide_True by reflexivity; reflexivity|].
    split; [exact Hk|].
    split; [apply Ht; lia|].
    split; reflexivity.
  - (* need to allocate in a new segment *)
    destruct (segAllocate_spec (fst ref) amount a e x Hwf He Hx ltac:(lia)) as [Hnone _].
    run (Hnone ltac:(lia)).
    destruct (getSegmentWithAvailable_spec (amount + POINTER_SIZE_IN_WORDS) a Hwf
                ltac:(unfold POINTER_SIZE_IN_WORDS; lia))
      as (id & a1 & Hrun1 & Hev1 & Hwf1 & Hlen1 & _ & Hold1 & e1 & x1 & He1 & Hx1 & Hav1).
    run Hrun1.
    unfold POINTER_SIZE_IN_WORDS in *.
    destruct (proj1 Hwf1 _ _ _ He1 Hx1) as [Hx10 He10].
    destruct (segAllocate_ok id (amount + 1) a1 e1 x1 Hwf1 He1 Hx1 ltac:(lia))
      as (a2 & Hrun2 & Hev2 & Hwf2 & Hlen2 & Hpos2 & Hposne2 & Hend2 & Hpk2).
    run Hrun2.
    assert (Hid : (id < length (b_segments a1))%nat) by (eapply segPos_lt; eauto).
    assert (Hw2 : peek a2 ref = Some w).
    { rewrite Hpk2, (ev_peek _ _ _ Hev1); [exact Hw | eauto | intros []]. }
    destruct (writeFar_spec ref false x1 (Z.of_nat id) w a2 Hw2 ltac:(lia))
      as (f & a3 & Hrun3 & Hsh3 & Hpk3 & Hfk & Hfi & _ & Hfdp).
    destruct (Hfdp ltac:(lia)) as [Hfd Hfp].
    rewrite (seq_run _ _ _ _ _ Hrun3).
    assert (Hne : (id, x1) <> ref).
    { intros <-. cbn [fst snd] in *. rewrite <- Hold1 in Hx by (eapply segPos_lt; eauto).
      rewrite Hx1 in Hx. injection Hx as ->. lia. }
    assert (Hpad : is_Some (peek a3 (id, x1))).
    { rewrite Hpk3, decide_False by exact Hne. rewrite Hpk2. apply peek_is_Some.
      exists e1. cbn [fst snd]. split; [exact He1 | lia]. }
    destruct Hpad as [w1 Hw1].
    unfold setKindAndTarget. cbn [fst snd]. rewrite Nat.eqb_refl.
    destruct (update_spec (id, x1) (WirePointer.setKindAndTarget x1 k (x1 + 1)) w1 a3 Hw1)
      as (a4 & Hrun4 & Hsh4 & Hpk4).
    run Hrun4. unfold ret.
    destruct (setKindAndTarget_spec x1 k (x1 + 1) w1) as (Hk & _ & Ht).
    assert (Hun : unallocated a (id, x1)).
    { intros y Hy. cbn [fst snd] in *. rewrite <- Hold1 in Hy by (eapply segPos_lt; eauto).
      rewrite Hx1 in Hy. injection Hy as <-. lia. }
    assert (Hsh : sameShape a2 a4) by (eapply sameShape_trans; eauto).
    eexists (id, x1 + 1), (id, x1), _, a4. cbn [fst snd].
    split; [reflexivity|]. split.
    { eapply (evolves_trans nowhere (fun q => q = ref \/ unallocated a q) _ a a1);
        [exact Hev1| | |].
      - eapply (evolves_trans nowhere (fun q => q = ref \/ unallocated a q) _ a1 a2);
          [exact Hev2| | |].
        + apply sameShape_evolves; [exact Hsh|].
          intros q Hq. rewrite Hpk4, Hpk3.
          destruct (decide (q = (id, x1))) as [->|Hq1]; [tauto|].
          destruct (decide (q = ref)) as [->|Hq2]; [tauto | reflexivity].
        + intros q [].
        + intros q Hq. exact Hq.
      - intros q [].
      - intros q Hq. exact Hq. }
    split; [eapply sameShape_wf; eauto|].
    split; [rewrite (sameShape_count _ _ Hsh); lia|].
    split; [reflexivity|].
    split; [intros y Hy; specialize (Hun y Hy); cbn [snd] in Hun |- *; lia|].
    split; [lia|].
    split; [exists (x1 + (amount + 1)); rewrite (sameShape_segPos _ _ _ Hsh);
            split; [exact Hpos2 | lia]|].
    split; [rewrite Hpk4, decide_True by reflexivity; reflexivity|].
    split; [exact Hk|].
    split; [apply Ht; lia|].
    split; [exact Hun|].
    split; [exists (x1 + (amount + 1)); cbn [fst snd];
            rewrite (sameShape_segPos _ _ _ Hsh); split; [exact Hpos2 | lia]|].
    split; [reflexivity|].
    exists f. split.
    { rewrite Hpk4, decide_False by (intros Heq; apply Hne; symmetry; exact Heq).
      rewrite Hpk3, decide_True by reflexivity. reflexivity. }
    repeat split; assumption.
Qed.

(** *** Transferring a pointer *)

Lemma evolves_write (W : BLoc -> Prop) (a a1 a2 : BuilderArena) :
  evolves W a a1 -> sameShape a1 a2 ->
  (forall q, ~ W q -> peek a2 q = peek a1 q) ->
  evolves W a a2.
Proof.
  intros Hev Hsh Hpk. apply (evolves_trans W W W a a1 a2); auto.
  apply sameShape_evolves; assumption.
Qed.

Lemma allocated_range (a : BuilderArena) (q : BLoc) :
  wfArena a -> allocated a q -> 0 <= snd q < 2 ^ 29.
Proof.
  intros Hwf (x & Hx & Hq).
  assert (He : is_Some (segEnd a (fst q))) by (apply segEnd_segPos; eauto).
  destruct He as [e He]. destruct (proj1 Hwf _ _ _ He Hx). lia.
Qed.

(** A far pointer denotes the same thing wherever it is stored. *)
Lemma resolve_far_copy (src dst : BLoc) (seg seg1 : nat) (a a1 : BuilderArena) (s : Z)
    (r : BLoc * WirePointer.Kind * Z) :
  peek a src = Some s -> WirePointer.kind s = WirePointer.FAR ->
  peek a1 dst = Some s ->
  (forall q, In q (pads a src) -> peek a1 q = peek a q) ->
  (length (b_segments a) <= length (b_segments a1))%nat ->
  resolve src seg a = Some r ->
  resolve dst seg1 a1 = Some r /\ pads a1 dst = pads a src.
Proof.
  unfold resolve, pads. rewrite !followFars_unfold. intros Hs Hk Hd Hpads Hlen Hr.
  rewrite Hs in *. rewrite Hd. apply Kind_eqb_spec in Hk. rewrite Hk in *.
  split; [|reflexivity].
  destruct (decide (0 <= WirePointer.segmentId s < Z.of_nat (length (b_segments a))));
    [|discriminate].
  rewrite decide_True by lia. cbv zeta in *.
  set (pad := (Z.to_nat (WirePointer.segmentId s), WirePointer.farPositionInSegment s)) in *.
  destruct (WirePointer.isDoubleFar s).
  - rewrite (Hpads pad) by (left; reflexivity).
    destruct (peek a pad) as [padw|]; [|discriminate].
    destruct (decide (0 <= WirePointer.segmentId padw < Z.of_nat (length (b_segments a))));
      [|discriminate].
    rewrite decide_True by lia.
    rewrite (Hpads (plus pad 1)) by (right; left; reflexivity). exact Hr.
  - rewrite (Hpads pad) by (left; reflexivity).
    destruct (peek a pad) as [padw|]; [|discriminate].
    rewrite (Hpads pad) by (left; reflexivity). exact Hr.
Qed.

Lemma pads_far_single (a : BuilderArena) (ref pad : BLoc) (f : Z) :
  peek a ref = Some f -> WirePointer.kind f = WirePointer.FAR ->
  WirePointer.isDoubleFar f = false ->
  WirePointer.segmentId f = Z.of_nat (fst pad) ->
  WirePointer.farPositionInSegment f = snd pad ->
  pads a ref = [pad].
Proof.
  intros Hf Hk Hd Hi Hp. unfold pads. rewrite Hf. apply Kind_eqb_spec in Hk.
  rewrite Hk, Hd, Hi, Hp, Nat2Z.id. destruct pad; reflexivity.
Qed.

Lemma pads_far_double (a : BuilderArena) (ref pad : BLoc) (f : Z) :
  peek a ref = Some f -> WirePointer.kind f = WirePointer.FAR ->
  WirePointer.isDoubleFar f = true ->
  WirePointer.segmentId f = Z.of_nat (fst pad) ->
  WirePointer.farPositionInSegment f = snd pad ->
  pads a ref = [pad; plus pad 1].
Proof.
  intros Hf Hk Hd Hi Hp. unfold pads. rewrite Hf. apply Kind_eqb_spec in Hk.
  rewrite Hk, Hd, Hi, Hp, Nat2Z.id. destruct pad; reflexivity.
Qed.

(** [WireHelpers::transferPointer]: [dst] ends up null when [src] is null, and
    otherwise denotes what [src] denotes; only [dst] and freshly allocated
    landing pads are written. *)
Lemma transferPointer_spec (W : BLoc -> Prop) (dst src : BLoc) (s : Z) (a : BuilderArena) :
  wfArena a ->
  Z.of_nat (length (b_segments a)) < 2 ^ 32 ->
  peek a src = Some s ->
  allocated a dst ->
  (forall q, W q -> allocated a q) ->
  exists a1,
    transferPointer (fst dst) dst (fst src) src a = Some (tt, a1)
    /\ evolves (fun q => q = dst \/ unallocated a q) a a1
    /\ wfArena a1
    /\ (length (b_segments a1) <= S (length (b_segments a)))%nat
    /\ (WirePointer.isNull s = true -> peek a1 dst = Some 0)
    /\ (WirePointer.isNull s = false ->
        forall r,
          (WirePointer.kind s <> WirePointer.FAR ->
           0 <= WirePointer.target (snd src) s < 2 ^ 29
           /\ (fst dst = fst src -> WirePointer.target (snd src) s <= snd dst)) ->
          resolvesTo (fun q => W q \/ q = dst) a src (fst src) r ->
          (exists d, peek a1 dst = Some d /\ WirePointer.isNull d = false)
          /\ resolvesTo W a1 dst (fst dst) r).
Proof.
  intros Hwf Hcount Hs Hdst HW.
  pose proof (allocated_range a dst Hwf Hdst) as Hdr.
  pose proof (allocated_peek a dst Hwf Hdst) as [wd Hwd].
  pose proof (upper32Bits_range s) as Hup.
  unfold transferPointer. run (load_run src s a Hs).
  destruct (WirePointer.isNull s) eqn:Hnull.
  { (* null *)
    destruct (memset0_spec dst 1 a ltac:(apply peek_is_Some; eauto)) as (a1 & Hrun & Hsh & Hpk).
    exists a1. split; [exact Hrun|]. split.
    { apply (evolves_write _ a a a1); [apply evolves_refl | exact Hsh|].
      intros q Hq. rewrite Hpk, decide_False; [reflexivity|].
      rewrite within_one. tauto. }
    split; [eapply sameShape_wf; eauto|].
    split; [rewrite (sameShape_count _ _ Hsh); lia|].
    split; [|discriminate].
    intros _. rewrite Hpk, decide_True by (apply within_one; reflexivity). reflexivity. }
  destruct (WirePointer.Kind_eqb (WirePointer.kind s) WirePointer.FAR) eqn:Hk.
  { (* far pointers are position-independent *)
    apply Kind_eqb_spec in Hk.
    destruct (store_spec dst s a ltac:(eauto)) as (a1 & Hrun & Hsh & Hpk).
    exists a1. split; [exact Hrun|]. split.
    { apply (evolves_write _ a a a1); [apply evolves_refl | exact Hsh|].
      intros q Hq. rewrite Hpk, decide_False; [reflexivity | tauto]. }
    split; [eapply sameShape_wf; eauto|].
    split; [rewrite (sameShape_count _ _ Hsh); lia|].
    split; [discriminate|]. intros _.
    assert (Hd1 : peek a1 dst = Some s) by (rewrite Hpk, decide_True; reflexivity).
    intros r _ [Hr Hp].
    split; [exists s; split; [exact Hd1 | exact Hnull]|].
    assert (Hsame : forall q, In q (pads a src) -> peek a1 q = peek a q).
    { intros q Hq. rewrite Hpk, decide_False; [reflexivity|].
      destruct (Hp q Hq) as [_ Hn]. tauto. }
    destruct (resolve_far_copy src dst (fst src) (fst dst) a a1 s r Hs Hk Hd1 Hsame
                ltac:(rewrite (sameShape_count _ _ Hsh); lia) Hr) as [H1 H2].
    split; [exact H1|]. rewrite H2. intros q Hq. destruct (Hp q Hq) as [Hal HnW].
    split; [|tauto].
    eapply evolves_allocated; [|exact Hal].
    apply (sameShape_evolves (fun _ => True)); [exact Hsh | tauto]. }
  apply Kind_eqb_false in Hk.
  set (t := WirePointer.target (snd src) s) in *.
  assert (Hdirect : forall r, resolve src (fst src) a = Some r ->
            r = ((fst src, t), WirePointer.kind s, WirePointer.upper32Bits s)).
  { intros r Hr. rewrite (resolve_direct src (fst src) a s Hs Hk) in Hr.
    injection Hr as <-. reflexivity. }
  assert (Hsrc : is_Some (segPos a (fst src))).
  { apply segEnd_segPos. destruct (proj1 (peek_is_Some a src) ltac:(eauto)) as (e & He & _).
    eauto. }
  destruct Hsrc as [xs Hxs].
  assert (Hes : is_Some (segEnd a (fst src))) by (apply segEnd_segPos; eauto).
  destruct Hes as [es Hes].
  destruct (proj1 Hwf _ _ _ Hes Hxs) as [Hxs0 Hes0].
  destruct (Nat.eqb_spec (fst dst) (fst src)) as [Hseg|Hseg].
  { (* same segment, so create a direct pointer *)
    destruct (writePointer_spec dst (targetOf src s) (WirePointer.kind s)
                (WirePointer.upper32Bits s) wd a Hwd ltac:(symmetry; exact Hseg) Hup)
      as (v & a1 & Hrun & Hsh & Hpk & Hvk & Hvu & Hvt).
    exists a1. split; [exact Hrun|]. split.
    { apply (evolves_write _ a a a1); [apply evolves_refl | exact Hsh|].
      intros q Hq. rewrite Hpk, decide_False; [reflexivity | tauto]. }
    split; [eapply sameShape_wf; eauto|].
    split; [rewrite (sameShape_count _ _ Hsh); lia|].
    split; [discriminate|]. intros _.
    assert (Hd1 : peek a1 dst = Some v) by (rewrite Hpk, decide_True; reflexivity).
    intros r Htgt [Hr _]. destruct (Htgt Hk) as [Ht Hbelow].
    destruct (Hvt ltac:(unfold targetOf; cbn [snd]; fold t; lia)) as [Hvt1 Hvn].
    clear Hvt. rename Hvt1 into Hvt. unfold targetOf in Hvt, Hvn. cbn [snd] in Hvt, Hvn.
    split.
    { exists v. split; [exact Hd1|]. apply Hvn. auto. }
    rewrite (Hdirect r Hr). split.
    - rewrite (resolve_direct dst (fst dst) a1 v Hd1) by congruence.
      unfold targetOf. rewrite Hvt, Hvk, Hvu, Hseg. reflexivity.
    - rewrite (pads_direct a1 dst v Hd1) by congruence. intros q []. }
  destruct (Z_lt_le_dec (es - xs) 1) as [Hfull|Hroom].
  2: { (* simple landing pad is just a pointer *)
    destruct (segAllocate_ok (fst src) 1 a es xs Hwf Hes Hxs ltac:(lia))
      as (a1 & Hrun1 & Hev1 & Hwf1 & Hlen1 & Hpos1 & Hposne1 & Hend1 & Hpk1).
    run Hrun1.
    remember ((fst src, xs) : BLoc) as pad eqn:Epad.
    assert (Hpad1 : fst pad = fst src) by (subst pad; reflexivity).
    assert (Hpad2 : snd pad = xs) by (subst pad; reflexivity).
    assert (Hpw : is_Some (peek a1 pad)).
    { apply peek_is_Some. exists es. rewrite Hend1, Hpad1, Hpad2.
      split; [exact Hes | lia]. }
    destruct Hpw as [wp Hwp].
    destruct (writePointer_spec pad (targetOf src s) (WirePointer.kind s)
                (WirePointer.upper32Bits s) wp a1 Hwp ltac:(symmetry; exact Hpad1) Hup)
      as (v & a2 & Hrun2 & Hsh2 & Hpk2 & Hvk & Hvu & Hvt).
    rewrite (seq_run _ _ _ _ _ Hrun2).
    assert (Hne : pad <> dst) by (intros <-; apply Hseg; exact Hpad1).
    assert (Hwd2 : peek a2 dst = Some wd).
    { rewrite Hpk2, decide_False by (intros Heq; apply Hne; symmetry; exact Heq).
      rewrite Hpk1. exact Hwd. }
    assert (Hsid : 0 <= Z.of_nat (fst src) < 2 ^ 32).
    { apply segPos_lt in Hxs. lia. }
    destruct (writeFar_spec dst false xs (Z.of_nat (fst src)) wd a2 Hwd2 Hsid)
      as (f & a3 & Hrun3 & Hsh3 & Hpk3 & Hfk & Hfi & Hfn & Hfdp).
    destruct (Hfdp ltac:(lia)) as [Hfd Hfp].
    rewrite <- Hpad1 in Hfi. rewrite <- Hpad2 in Hfp.
    assert (Hsh : sameShape a1 a3) by (eapply sameShape_trans; eauto).
    assert (Hunpad : unallocated a pad).
    { intros y Hy. rewrite Hpad1, Hxs in Hy. injection Hy as <-. lia. }
    exists a3. split; [exact Hrun3|]. split.
    { apply (evolves_write _ a a1 a3); [|exact Hsh|].
      - eapply evolves_mono; [exact Hev1 | intros q []].
      - intros q Hq. rewrite Hpk3, Hpk2.
        destruct (decide (q = dst)) as [->|Hq1]; [tauto|].
        destruct (decide (q = pad)) as [->|Hq2]; [tauto | reflexivity]. }
    split; [eapply sameShape_wf; eauto|].
    split; [rewrite (sameShape_count _ _ Hsh); lia|].
    split; [discriminate|]. intros _.
    assert (Hd3 : peek a3 dst = Some f) by (rewrite Hpk3, decide_True; reflexivity).
    assert (Hp3 : peek a3 pad = Some v).
    { rewrite Hpk3, decide_False by exact Hne. rewrite Hpk2, decide_True; reflexivity. }
    intros r Htgt [Hr _]. destruct (Htgt Hk) as [Ht Hbelow].
    destruct (Hvt ltac:(unfold targetOf; cbn [snd]; fold t; lia)) as [Hvt1 _].
    clear Hvt. rename Hvt1 into Hvt. unfold targetOf in Hvt. cbn [snd] in Hvt.
    split; [exists f; split; assumption|].
    rewrite (Hdirect r Hr). split.
    - rewrite (resolve_far dst (fst dst) a3 f v pad Hd3 Hfk Hfd Hfi Hfp Hp3).
      unfold targetOf. rewrite Hvt, Hvk, Hvu, Hpad1. reflexivity.
    - rewrite (pads_far_single a3 dst pad f Hd3 Hfk Hfd Hfi Hfp).
      intros q [<-|[]]. split.
      + exists (xs + 1). rewrite (sameShape_segPos _ _ _ Hsh), Hpad1, Hpad2.
        split; [exact Hpos1 | lia].
      + intros HWp. exact (allocated_not_unallocated a pad (HW pad HWp) Hunpad). }
  (* darn, need a double-far *)
  destruct (segAllocate_spec (fst src) 1 a es xs Hwf Hes Hxs ltac:(lia)) as [Hnone _].
  run (Hnone ltac:(lia)).
  destruct (getSegmentWithAvailable_spec 2 a Hwf ltac:(lia))
    as (id & a1 & Hrun1 & Hev1 & Hwf1 & Hlen1 & _ & Hold1 & e1 & x1 & He1 & Hx1 & Hav1).
  run Hrun1.
  destruct (proj1 Hwf1 _ _ _ He1 Hx1) as [Hx10 He10].
  destruct (segAllocate_ok id 2 a1 e1 x1 Hwf1 He1 Hx1 ltac:(lia))
    as (a2 & Hrun2 & Hev2 & Hwf2 & Hlen2 & Hpos2 & Hposne2 & Hend2 & Hpk2).
  run Hrun2.
  remember ((id, x1) : BLoc) as pad0 eqn:Epad0.
  remember ((id, x1 + 1) : BLoc) as pad1 eqn:Epad1.
  assert (Hpad01 : fst pad0 = id) by (subst pad0; reflexivity).
  assert (Hpad02 : snd pad0 = x1) by (subst pad0; reflexivity).
  assert (Hpad11 : fst pad1 = id) by (subst pad1; reflexivity).
  assert (Hpad12 : snd pad1 = x1 + 1) by (subst pad1; reflexivity).
  assert (Hpad10 : pad1 = plus pad0 1) by (subst pad0 pad1; reflexivity).
  assert (Hun0 : forall j, 0 <= j -> unallocated a (id, x1 + j)).
  { intros j Hj y Hy. cbn [fst snd] in *. rewrite <- Hold1 in Hy by (eapply segPos_lt; eauto).
    rewrite Hx1 in Hy. injection Hy as <-. lia. }
  assert (Hun00 : unallocated a pad0).
  { replace pad0 with ((id, x1 + 0) : BLoc) by (subst pad0; f_equal; lia). apply Hun0. lia. }
  assert (Hun01 : unallocated a pad1) by (subst pad1; apply Hun0; lia).
  assert (Hne0 : pad0 <> dst).
  { intros <-. exact (allocated_not_unallocated a pad0 Hdst Hun00). }
  assert (Hne1 : pad1 <> dst).
  { intros <-. exact (allocated_not_unallocated a pad1 Hdst Hun01). }
  assert (Hne01 : pad1 <> pad0) by (subst pad0 pad1; intros [= H]; lia).
  assert (Hid : (id < length (b_segments a1))%nat) by (eapply segPos_lt; eauto).
  assert (Hw0 : is_Some (peek a2 pad0)).
  { rewrite Hpk2. apply peek_is_Some. exists e1. rewrite Hpad01, Hpad02.
    split; [exact He1 | lia]. }
  destruct Hw0 as [w0 Hw0].
  assert (Hsid : 0 <= Z.of_nat (fst src) < 2 ^ 32).
  { apply segPos_lt in Hxs. lia. }
  destruct (writeFar_spec pad0 false (snd (targetOf src s)) (Z.of_nat (fst src)) w0 a2 Hw0
              Hsid)
    as (p0 & a3 & Hrun3 & Hsh3 & Hpk3 & Hp0k & Hp0i & _ & Hp0dp).
  rewrite (seq_run _ _ _ _ _ Hrun3).
  assert (Hw1 : is_Some (peek a3 pad1)).
  { rewrite Hpk3, decide_False by exact Hne01. rewrite Hpk2. apply peek_is_Some.
    exists e1. rewrite Hpad11, Hpad12. split; [exact He1 | lia]. }
  destruct Hw1 as [w1 Hw1].
  destruct (writeTag_spec pad1 (WirePointer.kind s) (WirePointer.upper32Bits s) w1 a3 Hw1 Hup)
    as (tag & a4 & Hrun4 & Hsh4 & Hpk4 & Htk & Htu).
  rewrite (seq_run _ _ _ _ _ Hrun4).
  assert (Hwd4 : peek a4 dst = Some wd).
  { rewrite Hpk4, decide_False by (intros Heq; apply Hne1; symmetry; exact Heq).
    rewrite Hpk3, decide_False by (intros Heq; apply Hne0; symmetry; exact Heq).
    rewrite Hpk2. rewrite (ev_peek _ _ _ Hev1); [exact Hwd | eauto | intros []]. }
  destruct (writeFar_spec dst true x1 (Z.of_nat id) wd a4 Hwd4 ltac:(lia))
    as (f & a5 & Hrun5 & Hsh5 & Hpk5 & Hfk & Hfi & Hfn & Hfdp).
  destruct (Hfdp ltac:(lia)) as [Hfd Hfp].
  rewrite <- Hpad01 in Hfi. rewrite <- Hpad02 in Hfp.
  assert (Hsh : sameShape a2 a5).
  { eapply sameShape_trans; [exact Hsh3|]. eapply sameShape_trans; eauto. }
  exists a5. split; [exact Hrun5|]. split.
  { apply (evolves_write _ a a2 a5); [|exact Hsh|].
    - apply (evolves_trans nowhere nowhere _ a a1 a2); auto; intros q [].
    - intros q Hq. rewrite Hpk5, Hpk4, Hpk3.
      destruct (decide (q = dst)) as [->|Hq1]; [tauto|].
      destruct (decide (q = pad1)) as [->|Hq2]; [tauto|].
      destruct (decide (q = pad0)) as [->|Hq3]; [tauto | reflexivity]. }
  split; [eapply sameShape_wf; eauto|].
  split; [rewrite (sameShape_count _ _ Hsh); lia|].
  split; [discriminate|]. intros _.
  assert (Hd5 : peek a5 dst = Some f) by (rewrite Hpk5, decide_True; reflexivity).
  assert (Hp50 : peek a5 pad0 = Some p0).
  { rewrite Hpk5, decide_False by exact Hne0.
    rewrite Hpk4, decide_False by (intros Heq; apply Hne01; symmetry; exact Heq).
    rewrite Hpk3, decide_True; reflexivity. }
  assert (Hp51 : peek a5 pad1 = Some tag).
  { rewrite Hpk5, decide_False by exact Hne1. rewrite Hpk4, decide_True; reflexivity. }
  rewrite Hpad10 in Hp51.
  intros r Htgt [Hr _]. destruct (Htgt Hk) as [Ht Hbelow].
  destruct (Hp0dp ltac:(unfold targetOf; cbn [snd]; fold t; lia)) as [Hp0d Hp0p].
  unfold targetOf in Hp0p. cbn [snd] in Hp0p.
  split; [exists f; split; assumption|].
  rewrite (Hdirect r Hr).
  assert (Hsrclt : (fst src < length (b_segments a5))%nat).
  { rewrite (sameShape_count _ _ Hsh), Hlen2. apply segPos_lt in Hxs.
    pose proof (ev_count _ _ _ Hev1). lia. }
  split.
  - rewrite (resolve_double_far dst (fst dst) a5 f p0 tag pad0 (fst src)
               Hd5 Hfk Hfd Hfi Hfp Hp50 Hp0i Hsrclt Hp51).
    rewrite Hp0p, Htk, Htu. reflexivity.
  - rewrite (pads_far_double a5 dst pad0 f Hd5 Hfk Hfd Hfi Hfp), <- Hpad10.
    intros q [<-|[<-|[]]]; split.
    + exists (x1 + 2). rewrite (sameShape_segPos _ _ _ Hsh), Hpad01, Hpad02.
      split; [exact Hpos2 | lia].
    + intros HWp. exact (allocated_not_unallocated a pad0 (HW pad0 HWp) Hun00).
    + exists (x1 + 2). rewrite (sameShape_segPos _ _ _ Hsh), Hpad11, Hpad12.
      split; [exact Hpos2 | lia].
    + intros HWp. exact (allocated_not_unallocated a pad1 (HW pad1 HWp) Hun01).
Qed.


(** *** The pointer section of an upgraded struct *)

Lemma within_plus (p : BLoc) (n j : Z) : 0 <= j < n -> within p n (plus p j).
Proof. intros H. unfold within, plus. cbn [fst snd]. split; [reflexivity | lia]. Qed.

Lemma plus_inj (p : BLoc) (i j : Z) : plus p i = plus p j -> i = j.
Proof. unfold plus. intros [= H]. lia. Qed.

Section TransferLoop.

Variables (newPS oldPS : BLoc) (R : Z) (Wold : BLoc -> Prop).

(** The arena when the loop starts. *)
Variable a3 : BuilderArena.

Hypothesis Hwf3 : wfArena a3.
Hypothesis Hcount3 : Z.of_nat (length (b_segments a3)) + R < 2 ^ 32.
Hypothesis Hnew : forall j, 0 <= j < R -> allocated a3 (plus newPS j).
Hypothesis Hold : forall j, 0 <= j < R -> allocated a3 (plus oldPS j).
Hypothesis Hsep : forall j, 0 <= j < R -> ~ within newPS R (plus oldPS j).
Hypothesis HWold : forall q, Wold q -> allocated a3 q.

(** Words that a transferred pointer must not go through, and words that the
    loop may write. *)
Definition Wloop (q : BLoc) : Prop := within newPS R q \/ Wold q.
Definition Wwrite (q : BLoc) : Prop := within newPS R q \/ unallocated a3 q.

(** Pointer [j] of the old object has been transferred in [a]. *)
Definition transferred (a : BuilderArena) (j : Z) : Prop :=
  forall s, peek a3 (plus oldPS j) = Some s ->
    (WirePointer.isNull s = true -> peek a (plus newPS j) = Some 0)
    /\ (WirePointer.isNull s = false ->
        forall r,
          (WirePointer.kind s <> WirePointer.FAR ->
           0 <= WirePointer.target (snd oldPS + j) s < 2 ^ 29
           /\ (fst newPS = fst oldPS -> WirePointer.target (snd oldPS + j) s <= snd newPS)) ->
          resolvesTo Wloop a3 (plus oldPS j) (fst oldPS) r ->
          (exists d, peek a (plus newPS j) = Some d /\ WirePointer.isNull d = false)
          /\ resolvesTo Wloop a (plus newPS j) (fst newPS) r).

Definition loopInv (i : Z) (a : BuilderArena) : Prop :=
  wfArena a
  /\ evolves Wwrite a3 a
  /\ Z.of_nat (length (b_segments a)) <= Z.of_nat (length (b_segments a3)) + i
  /\ (forall j, 0 <= j < i -> transferred a j).

Lemma loopInv_start : loopInv 0 a3.
Proof.
  split; [exact Hwf3|]. split; [apply evolves_refl|]. split; [lia|]. intros j Hj. lia.
Qed.

Lemma transfer_step (i : Z) (a : BuilderArena) :
  0 <= i < R -> loopInv i a ->
  exists a1,
    transferPointer (fst newPS) (plus newPS i) (fst oldPS) (plus oldPS i) a = Some (tt, a1)
    /\ loopInv (i + 1) a1.
Proof.
  intros Hi (Hwf & Hev & Hcnt & Hpost).
  pose proof (Hold i Hi) as Hsrc3. pose proof (Hnew i Hi) as Hdst3.
  destruct (allocated_peek a3 _ Hwf3 Hsrc3) as [s Hs3].
  assert (Hkeep : forall j, 0 <= j < R -> peek a (plus oldPS j) = peek a3 (plus oldPS j)).
  { intros j Hj. apply (ev_peek _ _ _ Hev).
    - apply allocated_peek; [exact Hwf3 | apply Hold, Hj].
    - intros [H|H]; [exact (Hsep j Hj H)|].
      exact (allocated_not_unallocated a3 _ (Hold j Hj) H). }
  assert (Hs : peek a (plus oldPS i) = Some s) by (rewrite Hkeep by exact Hi; exact Hs3).
  assert (HWa : forall q, Wloop q -> allocated a q).
  { intros q [H|H]; (eapply evolves_allocated; [exact Hev|]).
    - destruct H as [Hq1 Hq2].
      replace q with (plus newPS (snd q - snd newPS)).
      + apply Hnew. lia.
      + unfold plus. destruct q as [qs qp]. cbn [fst snd] in *. f_equal; [auto | lia].
    - apply HWold, H. }
  destruct (transferPointer_spec Wloop (plus newPS i) (plus oldPS i) s a Hwf ltac:(lia) Hs
              ltac:(eapply evolves_allocated; eauto) HWa)
    as (a1 & Hrun & Hev1 & Hwf1 & Hlen1 & Hnull & Hnon).
  change (fst (plus newPS i)) with (fst newPS) in *.
  change (fst (plus oldPS i)) with (fst oldPS) in *.
  exists a1. split; [exact Hrun|].
  assert (Hev31 : evolves Wwrite a3 a1).
  { apply (evolves_trans Wwrite (fun q => q = plus newPS i \/ unallocated a q) Wwrite a3 a a1);
      [exact Hev | exact Hev1 | auto |].
    intros q [->|H]; [left; apply within_plus, Hi | right].
    eapply evolves_unallocated; eauto. }
  split; [exact Hwf1|]. split; [exact Hev31|]. split; [lia|].
  intros j Hj s1 Hs1.
  destruct (Z.eq_dec j i) as [->|Hne].
  - (* the pointer transferred by this iteration *)
    rewrite Hs3 in Hs1. injection Hs1 as <-.
    split; [exact Hnull|]. intros Hn r Htgt Hres.
    apply (Hnon Hn r).
    + intros Hk. destruct (Htgt Hk) as [H1 H2]. unfold plus. cbn [fst snd].
      split; [exact H1|]. intros Hseg. specialize (H2 Hseg). lia.
    + apply (resolvesTo_evolves Wloop Wwrite _ a3 a _ _ r Hwf3 Hres Hev).
      * intros q [H|H]; [left; left; exact H | right; exact H].
      * intros q [H| ->]; [left; exact H | left; left; apply within_plus, Hi].
      * apply Hkeep, Hi.
  - (* the pointers transferred before *)
    assert (Hj' : 0 <= j < i) by lia.
    destruct (Hpost j Hj' s1 Hs1) as [P1 P2].
    assert (Hsame : peek a1 (plus newPS j) = peek a (plus newPS j)).
    { apply (ev_peek _ _ _ Hev1).
      - apply allocated_peek; [exact Hwf|]. eapply evolves_allocated; [exact Hev|].
        apply Hnew. lia.
      - intros [H|H]; [apply plus_inj in H; lia|].
        apply (allocated_not_unallocated a (plus newPS j)); [|exact H].
        eapply evolves_allocated; [exact Hev|]. apply Hnew. lia. }
    split.
    + intros Hn. rewrite Hsame. apply P1, Hn.
    + intros Hn r Htgt Hres. destruct (P2 Hn r Htgt Hres) as [Q1 Q2]. split.
      * rewrite Hsame. exact Q1.
      * apply (resolvesTo_evolves Wloop (fun q => q = plus newPS i \/ unallocated a q)
                 _ a a1 _ _ r Hwf Q2 Hev1).
        -- intros q [->|H]; [left; left; apply within_plus, Hi | right; exact H].
        -- intros q H. left. exact H.
        -- exact Hsame.
Qed.

Lemma transfer_loop (n : nat) :
  forall (i : Z) (a : BuilderArena),
    0 <= i -> i + Z.of_nat n = R -> loopInv i a ->
    exists a1,
      forLoop n i (fun j =>
        transferPointer (fst newPS) (plus newPS j) (fst oldPS) (plus oldPS j)) a
      = Some (tt, a1)
      /\ loopInv R a1.
Proof.
  induction n as [|n IH]; intros i a Hi Hn Hinv.
  - exists a. split; [reflexivity|]. replace R with i by lia. exact Hinv.
  - destruct (transfer_step i a ltac:(lia) Hinv) as (a1 & Hrun & Hinv1).
    destruct (IH (i + 1) a1 ltac:(lia) ltac:(lia) Hinv1) as (a2 & Hrun2 & Hinv2).
    exists a2. split; [|exact Hinv2].
    cbn [forLoop]. run Hrun. exact Hrun2.
Qed.

End TransferLoop.

(** *** Upgrading a struct in place or by moving it *)

Lemma dataSize_range (w : Z) : 0 <= WirePointer.dataSize w < 2 ^ 16.
Proof. unfold WirePointer.dataSize. rewrite land_mask by lia. apply Z.mod_pos_bound. lia. Qed.

Lemma ptrCount_range (w : Z) : 0 <= WirePointer.ptrCount w < 2 ^ 16.
Proof. unfold WirePointer.ptrCount. rewrite land_mask by lia. apply Z.mod_pos_bound. lia. Qed.

Lemma plus_plus (p : BLoc) (i j : Z) : plus (plus p i) j = plus p (i + j).
Proof. unfold plus. cbn [fst snd]. f_equal. lia. Qed.

Lemma within_unallocated (a : BuilderArena) (p q : BLoc) (n : Z) :
  unallocated a p -> within p n q -> unallocated a q.
Proof.
  intros Hu [Hs Hr] y Hy. rewrite Hs in Hy. specialize (Hu y Hy). lia.
Qed.

Lemma within_allocated (a : BuilderArena) (p q : BLoc) (n x : Z) :
  segPos a (fst p) = Some x -> 0 <= snd p -> snd p + n <= x -> within p n q ->
  allocated a q.
Proof.
  intros Hx H0 Hn [Hs Hr]. exists x. rewrite Hs. split; [exact Hx | lia].
Qed.

Lemma within_sub (p q : BLoc) (i n m : Z) :
  0 <= i -> i + n <= m -> within (plus p i) n q -> within p m q.
Proof.
  unfold within, plus. cbn [fst snd]. intros Hi Hn [Hs Hr]. split; [exact Hs | lia].
Qed.

(** What [followFars] tells about the landing pad of the slot. *)
Lemma followFars_facts (ref oldPtr oldRef : BLoc) (oldSegment : nat) (a a' : BuilderArena) :
  followFars ref (fst ref) a = Some ((oldPtr, oldRef, oldSegment), a') ->
  is_Some (peek a oldRef) ->
  fst oldPtr = oldSegment
  /\ (forall q, In q (pads a ref) -> is_Some (peek a q)).
Proof.
  rewrite followFars_unfold. unfold pads. intros H Hold.
  destruct (peek a ref) as [w|]; [|discriminate].
  destruct (WirePointer.Kind_eqb (WirePointer.kind w) WirePointer.FAR).
  - destruct (decide (0 <= WirePointer.segmentId w < Z.of_nat (length (b_segments a))));
      [|discriminate].
    cbv zeta in *.
    destruct (peek a (Z.to_nat (WirePointer.segmentId w), WirePointer.farPositionInSegment w))
      as [padw|] eqn:Hpad; [|discriminate].
    destruct (WirePointer.isDoubleFar w).
    + destruct (decide (0 <= WirePointer.segmentId padw < Z.of_nat (length (b_segments a))));
        [|discriminate].
      injection H as <- <- <- <-. split; [reflexivity|].
      intros q [<-|[<-|[]]]; [rewrite Hpad; eauto | exact Hold].
    + injection H as <- <- <- <-. split; [reflexivity|].
      intros q [<-|[]]. exact Hold.
  - injection H as <- <- <- <-. split; [reflexivity|]. intros q [].
Qed.

Lemma getWritableStructPointer_existing_ok (fuel : nat) (ref : BLoc) (segment : nat)
    (size : StructSize) (defaultValue : option (list Z)) (w : Z) (b : StructBuilder)
    (a a1 : BuilderArena) :
  peek a ref = Some w -> WirePointer.isNull w = false ->
  getWritableStructPointer_existing fuel ref segment size a = Some (Some b, a1) ->
  getWritableStructPointer fuel ref segment size defaultValue a = Some (b, a1).
Proof.
  intros Hw Hn H. unfold getWritableStructPointer. cbv zeta.
  run (load_run ref w a Hw). rewrite Hn. run H. reflexivity.
Qed.

(** The struct is large enough: it is returned in place and the arena is not
    touched. *)
Lemma getWritableStructPointer_in_place (fuel : nat) (ref oldPtr oldRef : BLoc)
    (oldSegment : nat) (size : StructSize) (defaultValue : option (list Z)) (w ow : Z)
    (a : BuilderArena) :
  peek a ref = Some w -> WirePointer.isNull w = false ->
  followFars ref (fst ref) a = Some ((oldPtr, oldRef, oldSegment), a) ->
  peek a oldRef = Some ow -> WirePointer.kind ow = WirePointer.STRUCT ->
  ss_data size <= WirePointer.dataSize ow ->
  ss_pointers size <= WirePointer.ptrCount ow ->
  getWritableStructPointer fuel ref (fst ref) size defaultValue a
  = Some (mkStructBuilder oldSegment oldPtr (plus oldPtr (WirePointer.dataSize ow))
            (WirePointer.dataSize ow * BITS_PER_WORD) (WirePointer.ptrCount ow) 0, a).
Proof.
  intros Hw Hn Hff How Hk HD HR.
  apply (getWritableStructPointer_existing_ok _ _ _ _ _ w _ _ _ Hw Hn).
  unfold getWritableStructPointer_existing.
  run Hff. run (load_run oldRef ow a How).
  apply Kind_eqb_spec in Hk. rewrite Hk. cbn [negb]. cbv zeta.
  destruct (Z.ltb_spec (WirePointer.dataSize ow) (ss_data size)); [lia|].
  destruct (Z.ltb_spec (WirePointer.ptrCount ow) (ss_pointers size)); [lia|].
  reflexivity.
Qed.

(** The outcome of moving the struct at [oldPtr], of [D] data words and [R]
    pointers, to a new object large enough for [(D', R')]: [b] is the builder
    returned and [a1] the arena afterwards; [xo] is the bump pointer of the
    old segment before the call. *)
Definition Upgraded (a : BuilderArena) (ref oldPtr : BLoc) (D R D' R' xo : Z)
    (b : StructBuilder) (a1 : BuilderArena) : Prop :=
  let newD := Z.max D D' in
  let newR := Z.max R R' in
  wfArena a1
  /\ b_errors a1 = b_errors a
  (* the builder describes a new object of the larger size *)
  /\ stb_segment b = fst (stb_data b)
  /\ stb_pointers b = plus (stb_data b) newD
  /\ stb_dataSize b = newD * BITS_PER_WORD
  /\ stb_pointerCount b = newR
  /\ stb_bit0Offset b = 0
  /\ unallocated a (stb_data b)
  /\ (forall j, 0 <= j < newD + newR -> allocated a1 (plus (stb_data b) j))
  (* the old data section is copied *)
  /\ (forall j, 0 <= j < D -> peek a1 (plus (stb_data b) j) = peek a (plus oldPtr j))
  (* the old object is zeroed *)
  /\ (forall j, 0 <= j < D + R -> peek a1 (plus oldPtr j) = Some 0)
  (* the slot leads to the new object *)
  /\ (exists v, resolve ref (fst ref) a1
                = Some (stb_data b, WirePointer.STRUCT, WirePointer.upper32Bits v)
                /\ WirePointer.dataSize v = newD /\ WirePointer.ptrCount v = newR)
  (* every old pointer is transferred *)
  /\ (forall i s, 0 <= i < R -> peek a (plus oldPtr (D + i)) = Some s ->
        (WirePointer.isNull s = true -> peek a1 (plus (stb_pointers b) i) = Some 0)
        /\ (WirePointer.isNull s = false ->
            forall r,
              (WirePointer.kind s <> WirePointer.FAR ->
               0 <= WirePointer.target (snd oldPtr + D + i) s <= xo) ->
              resolvesTo (fun q => within oldPtr (D + R) q \/ q = ref \/ In q (pads a ref))
                a (plus oldPtr (D + i)) (fst oldPtr) r ->
              (exists d, peek a1 (plus (stb_pointers b) i) = Some d
                         /\ WirePointer.isNull d = false)
              /\ resolve (plus (stb_pointers b) i) (stb_segment b) a1 = Some r))
  (* nothing else that was allocated changes *)
  /\ (forall q, allocated a q -> q <> ref -> ~ In q (pads a ref) ->
        ~ within oldPtr (D + R) q -> peek a1 q = peek a q).

Lemma getWritableStructPointer_moves (fuel : nat) (ref oldPtr oldRef : BLoc)
    (oldSegment : nat) (size : StructSize) (defaultValue : option (list Z)) (w ow : Z)
    (a : BuilderArena) (D R xo : Z) :
  peek a ref = Some w -> WirePointer.isNull w = false ->
  followFars ref (fst ref) a = Some ((oldPtr, oldRef, oldSegment), a) ->
  peek a oldRef = Some ow -> WirePointer.kind ow = WirePointer.STRUCT ->
  WirePointer.dataSize ow = D -> WirePointer.ptrCount ow = R ->
  D < ss_data size \/ R < ss_pointers size ->
  0 <= ss_data size < 2 ^ 16 -> 0 <= ss_pointers size < 2 ^ 16 ->
  wfArena a ->
  Z.of_nat (length (b_segments a)) + R + 1 < 2 ^ 32 ->
  allocated a ref ->
  segPos a (fst oldPtr) = Some xo -> 0 <= snd oldPtr -> snd oldPtr + D + R <= xo ->
  ~ within oldPtr (D + R) ref ->
  (forall q, In q (pads a ref) -> ~ within oldPtr (D + R) q) ->
  exists b a1,
    getWritableStructPointer fuel ref (fst ref) size defaultValue a = Some (b, a1)
    /\ Upgraded a ref oldPtr D R (ss_data size) (ss_pointers size) xo b a1.
Proof.
  intros Hw Hnn Hff How Hkind HD HR Hsmall HD' HR' Hwf Hcount Href Hxo Ho0 Hoend
    Hrefout Hpadsout.
  enough (Hex : exists b a1,
            getWritableStructPointer_existing fuel ref (fst ref) size a = Some (Some b, a1)
            /\ Upgraded a ref oldPtr D R (ss_data size) (ss_pointers size) xo b a1).
  { destruct Hex as (b & a1 & H1 & H2). exists b, a1. split; [|exact H2].
    eapply getWritableStructPointer_existing_ok; eauto. }
  unfold getWritableStructPointer_existing.
  run Hff. run (load_run oldRef ow a How).
  rewrite (proj2 (Kind_eqb_spec _ _) Hkind). cbn [negb]. cbv zeta. rewrite HD, HR.
  replace ((D <? ss_data size) || (R <? ss_pointers size)) with true
    by (symmetry; apply orb_true_iff; rewrite !Z.ltb_lt; exact Hsmall).
  unfold WORDS_PER_POINTER. rewrite !Z.mul_1_r.
  pose proof (dataSize_range ow) as HDr. pose proof (ptrCount_range ow) as HRr.
  rewrite HD in HDr. rewrite HR in HRr.
  destruct (followFars_facts ref oldPtr oldRef oldSegment a a Hff ltac:(eauto))
    as [Hoseg Hpadsread].
  set (D' := ss_data size) in *. set (R' := ss_pointers size) in *.
  remember (Z.max D D') as newD eqn:EnewD. remember (Z.max R R') as newR eqn:EnewR.
  assert (HnewD : D <= newD /\ D' <= newD /\ newD < 2 ^ 16) by lia.
  assert (HnewR : R <= newR /\ R' <= newR /\ newR < 2 ^ 16) by lia.
  (* zeroPointerAndFars *)
  destruct (zeroPointerAndFars_spec (fst ref) ref w a Hw Hpadsread)
    as (a1 & Hrun1 & Hsh1 & Hz1 & Hfr1).
  run Hrun1.
  pose proof (sameShape_wf _ _ Hsh1 Hwf) as Hwf1.
  assert (Href_al : allocated a ref) by exact Href.
  destruct Href as (x & Hx & Hrefx).
  assert (He : is_Some (segEnd a (fst ref))) by (apply segEnd_segPos; eauto).
  destruct He as [e He].
  assert (Hx1 : segPos a1 (fst ref) = Some x)
    by (rewrite (sameShape_segPos _ _ _ Hsh1); exact Hx).
  assert (He1 : segEnd a1 (fst ref) = Some e).
  { destruct Hsh1 as (_ & _ & _ & Hend & _). rewrite Hend. exact He. }
  (* allocate *)
  destruct (allocate_null_spec fuel ref (newD + newR) WirePointer.STRUCT
              0 e x a1 Hwf1 ltac:(rewrite (sameShape_count _ _ Hsh1); lia) Hz1 isNull_zero
              ltac:(exists x; split; [exact Hx1 | exact Hrefx]) He1 Hx1 ltac:(lia))
    as (ptr & ref1 & v & a2 & Hrun2 & Hev2 & Hwf2 & Hlen2 & Hr1seg & Hunptr & Hptr0
        & (x2 & Hx2 & Hptrend) & Hv & Hvk & Hvt & Hcase).
  run Hrun2.
  (* ref->structRef.set *)
  destruct (update_spec ref1 (WirePointer.structRef_set newD newR) v a2 Hv)
    as (a3 & Hrun3 & Hsh3 & Hpk3).
  run Hrun3.
  pose proof (sameShape_wf _ _ Hsh3 Hwf2) as Hwf3.
  remember (WirePointer.structRef_set newD newR v) as v' eqn:Ev'.
  destruct (structRef_set_spec newD newR v ltac:(lia) ltac:(lia)) as (Hv'low & Hv'D & Hv'R).
  rewrite <- Ev' in Hv'low, Hv'D, Hv'R.
  destruct (kind_low v' v Hv'low) as (Hv'k & Hv't & _).
  (* where things are *)
  assert (Hun_a : forall q, unallocated a1 q -> unallocated a q).
  { intros q H y Hy. apply H. rewrite (sameShape_segPos _ _ _ Hsh1). exact Hy. }
  assert (Hnew_un : forall q, within ptr (newD + newR) q -> unallocated a q).
  { intros q Hq. eapply within_unallocated; [apply Hun_a, Hunptr | exact Hq]. }
  assert (Hx3 : segPos a3 (fst ptr) = Some x2)
    by (rewrite (sameShape_segPos _ _ _ Hsh3); exact Hx2).
  assert (Hold_al : forall q, within oldPtr (D + R) q -> allocated a q).
  { intros q Hq. apply (within_allocated a oldPtr q (D + R) xo); auto. lia. }
  assert (Hdisj : forall q, within ptr (newD + newR) q -> within oldPtr (D + R) q -> False).
  { intros q H1 H2. exact (allocated_not_unallocated a q (Hold_al q H2) (Hnew_un q H1)). }
  assert (Href1 : ref1 = ref \/ unallocated a ref1).
  { destruct (decide (newD + newR <= e - x)); [left; tauto | right; apply Hun_a; tauto]. }
  assert (Href1new : ~ within ptr (newD + newR) ref1).
  { destruct (decide (newD + newR <= e - x)) as [Hfit|Hsp].
    - destruct Hcase as [-> _]. intros H.
      exact (allocated_not_unallocated a ref Href_al (Hnew_un _ H)).
    - destruct Hcase as (_ & _ & -> & _). unfold within, plus. cbn [fst snd]. lia. }
  (* what has been written so far *)
  set (Wpre := fun q : BLoc => q = ref \/ In q (pads a ref) \/ unallocated a q).
  assert (E01 : evolves Wpre a a1).
  { apply sameShape_evolves; [exact Hsh1|]. intros q Hq.
    apply Hfr1; intros H; apply Hq; unfold Wpre; tauto. }
  assert (E12 : evolves Wpre a1 a2).
  { eapply evolves_mono; [exact Hev2|].
    intros q [H|H]; unfold Wpre; [tauto | right; right; apply Hun_a, H]. }
  assert (E23 : evolves Wpre a2 a3).
  { apply sameShape_evolves; [exact Hsh3|]. intros q Hq.
    rewrite Hpk3, decide_False; [reflexivity|].
    intros ->. apply Hq. unfold Wpre. destruct Href1 as [->|H]; tauto. }
  assert (E03 : evolves Wpre a a3).
  { apply (evolves_trans Wpre Wpre Wpre a a2 a3); auto.
    apply (evolves_trans Wpre Wpre Wpre a a1 a2); auto. }
  assert (Heo : is_Some (segEnd a (fst oldPtr))) by (apply segEnd_segPos; eauto).
  destruct Heo as [eo Heo]. destruct (proj1 Hwf _ _ _ Heo Hxo) as [Hxo0 Heo0].
  assert (Hold_in : inSeg a oldPtr (D + R)) by (exists eo; split; [exact Heo | lia]).
  assert (He3 : is_Some (segEnd a3 (fst ptr))) by (apply segEnd_segPos; eauto).
  destruct He3 as [e3 He3]. destruct (proj1 Hwf3 _ _ _ He3 Hx3) as [Hx30 He30].
  assert (Hnew_in : inSeg a3 ptr (newD + newR)) by (exists e3; split; [exact He3 | lia]).
  (* memcpy *)
  destruct (memcpy_spec ptr oldPtr D a3
              ltac:(apply (inSeg_sub a3 oldPtr (D + R)); [eapply evolves_inSeg; eauto | | | |];
                    (reflexivity || lia))
              ltac:(apply (inSeg_sub a3 ptr (newD + newR)); [exact Hnew_in | | | |];
                    (reflexivity || lia)))
    as (a4 & Hrun4 & Hsh4 & Hpk4).
  run Hrun4.
  pose proof (sameShape_wf _ _ Hsh4 Hwf3) as Hwf4.
  assert (E34 : evolves (within ptr D) a3 a4).
  { apply sameShape_evolves; [exact Hsh4|]. intros q Hq.
    rewrite Hpk4, decide_False by exact Hq. reflexivity. }
  assert (Hx4 : segPos a4 (fst ptr) = Some x2)
    by (rewrite (sameShape_segPos _ _ _ Hsh4); exact Hx3).
  assert (E04 : evolves Wpre a a4).
  { apply (evolves_trans Wpre (within ptr D) Wpre a a3 a4); auto.
    intros q Hq. right; right. apply Hnew_un.
    apply (within_sub ptr q 0 D); [lia | lia|]. 
    replace (plus ptr 0) with ptr by (unfold plus; destruct ptr; cbn; f_equal; lia).
    exact Hq. }
  (* the pointer section *)
  assert (HoldPS_al : forall j, 0 <= j < R -> allocated a4 (plus (plus oldPtr D) j)).
  { intros j Hj. eapply evolves_allocated; [exact E04|]. apply Hold_al.
    rewrite plus_plus. apply within_plus. lia. }
  assert (HnewPS : forall q, within (plus ptr newD) R q -> within ptr (newD + newR) q).
  { intros q Hq. apply (within_sub ptr q newD R); [lia | lia | exact Hq]. }
  destruct (transfer_loop (plus ptr newD) (plus oldPtr D) R (within oldPtr (D + R)) a4 Hwf4)
    with (n := Z.to_nat R) (i := 0) (a := a4) as (a5 & Hrun5 & Hinv5).
  { rewrite (sameShape_count _ _ Hsh4), (sameShape_count _ _ Hsh3).
    rewrite (sameShape_count _ _ Hsh1) in Hlen2. lia. }
  { intros j Hj. apply (within_allocated a4 ptr _ (newD + newR) x2); auto.
    apply HnewPS, within_plus, Hj. }
  { exact HoldPS_al. }
  { intros j Hj Hin. apply (Hdisj (plus (plus oldPtr D) j)); [apply HnewPS, Hin|].
    rewrite plus_plus. apply within_plus. lia. }
  { intros q Hq. eapply evolves_allocated; [exact E04 | apply Hold_al, Hq]. }
  { lia. }
  { lia. }
  { apply loopInv_start, Hwf4. }
  change (fst (plus ptr newD)) with (fst ptr) in Hrun5.
  change (fst (plus oldPtr D)) with (fst oldPtr) in Hrun5.
  rewrite Hoseg in Hrun5. run Hrun5.
  destruct Hinv5 as (Hwf5 & E45 & Hlen5 & Hposts).
  (* zero out old location *)
  destruct (memset0_spec oldPtr (D + R) a5
              ltac:(eapply evolves_inSeg; [exact E45|]; eapply evolves_inSeg; eauto))
    as (a6 & Hrun6 & Hsh6 & Hpk6).
  run Hrun6. unfold ret.
  eexists _, a6. split; [reflexivity|].
  pose proof (sameShape_wf _ _ Hsh6 Hwf5) as Hwf6.
  assert (E56 : evolves (within oldPtr (D + R)) a5 a6).
  { apply sameShape_evolves; [exact Hsh6|]. intros q Hq.
    rewrite Hpk6, decide_False by exact Hq. reflexivity. }
  assert (Hun4 : forall q, unallocated a4 q -> unallocated a q).
  { intros q. apply (evolves_unallocated _ _ _ _ E04). }
  assert (E05 : evolves Wpre a a5).
  { apply (evolves_trans Wpre (Wwrite (plus ptr newD) R a4) Wpre a a4 a5); auto.
    intros q [H|H]; right; right; [apply Hnew_un, HnewPS, H | apply Hun4, H]. }
  assert (Hnew_al6 : forall q, within ptr (newD + newR) q -> allocated a6 q).
  { intros q Hq. eapply evolves_allocated; [exact E56|].
    eapply evolves_allocated; [exact E45|].
    apply (within_allocated a4 ptr q (newD + newR) x2); auto. }
  assert (Hold_keep : forall a', evolves Wpre a a' ->
            forall q, within oldPtr (D + R) q -> peek a' q = peek a q).
  { intros a' Hev q Hq. apply (ev_peek _ _ _ Hev).
    - apply allocated_peek; [exact Hwf | apply Hold_al, Hq].
    - intros [->|[H|H]]; [exact (Hrefout Hq) | exact (Hpadsout q H Hq)|].
      exact (allocated_not_unallocated a q (Hold_al q Hq) H). }
  assert (Hnew_keep : forall q, within ptr (newD + newR) q -> peek a6 q = peek a5 q).
  { intros q Hq. rewrite Hpk6, decide_False; [reflexivity|]. intros H. exact (Hdisj q Hq H). }
  (* the slot in [a3] *)
  set (Wslot := fun q : BLoc => within ptr (newD + newR) q \/ within oldPtr (D + R) q).
  assert (Hslot3 : resolvesTo Wslot a3 ref (fst ref)
                     (ptr, WirePointer.STRUCT, WirePointer.upper32Bits v')).
  { assert (Hv'3 : peek a3 ref1 = Some v') by (rewrite Hpk3, decide_True; reflexivity).
    assert (Hk' : WirePointer.kind v' = WirePointer.STRUCT) by congruence.
    assert (Ht' : WirePointer.target (snd ref1) v' = snd ptr) by (rewrite Hv't; exact Hvt).
    destruct (decide (newD + newR <= e - x)) as [Hfit|Hsp].
    - destruct Hcase as [-> Hptr]. split.
      + rewrite (resolve_direct ref (fst ref) a3 v' Hv'3) by congruence.
        unfold targetOf. rewrite Ht', Hk'. rewrite Hptr. reflexivity.
      + rewrite (pads_direct a3 ref v' Hv'3) by congruence. intros q [].
    - destruct Hcase as (Hun1 & Hal1 & Hptr & f & Hf & Hfk & Hfd & Hfi & Hfp).
      assert (Hne : ref <> ref1).
      { intros <-. exact (allocated_not_unallocated a ref Href_al (Hun_a _ Hun1)). }
      assert (Hf3 : peek a3 ref = Some f).
      { rewrite Hpk3, decide_False by exact Hne. exact Hf. }
      split.
      + rewrite (resolve_far ref (fst ref) a3 f v' ref1 Hf3 Hfk Hfd Hfi Hfp Hv'3).
        unfold targetOf. rewrite Ht', Hk', Hr1seg. destruct ptr; reflexivity.
      + rewrite (pads_far_single a3 ref ref1 f Hf3 Hfk Hfd Hfi Hfp).
        intros q [<-|[]]. split.
        * eapply evolves_allocated; [|exact Hal1].
          apply (sameShape_evolves (fun _ => True)); [exact Hsh3 | tauto].
        * intros [H|H]; [exact (Href1new H)|].
          exact (allocated_not_unallocated a ref1 (Hold_al _ H) (Hun_a _ Hun1)). }
  set (W36 := fun q : BLoc => Wslot q \/ unallocated a3 q).
  assert (E36 : evolves W36 a3 a6).
  { apply (evolves_trans W36 (within oldPtr (D + R)) W36 a3 a5 a6); auto.
    - apply (evolves_trans (within ptr D) (Wwrite (plus ptr newD) R a4) W36 a3 a4 a5); auto.
      + intros q Hq. left; left. apply (within_sub ptr q 0 D); [lia | lia|].
        replace (plus ptr 0) with ptr by (unfold plus; destruct ptr; cbn; f_equal; lia).
        exact Hq.
      + intros q [H|H]; [left; left; apply HnewPS, H | right].
        intros y Hy. apply H. rewrite (sameShape_segPos _ _ _ Hsh4). exact Hy.
    - intros q Hq. left; right. exact Hq. }
  assert (Href3 : allocated a3 ref) by (eapply evolves_allocated; [exact E03 | exact Href_al]).
  assert (Hslot6 : resolvesTo Wslot a6 ref (fst ref)
                     (ptr, WirePointer.STRUCT, WirePointer.upper32Bits v')).
  { apply (resolvesTo_evolves Wslot W36 Wslot a3 a6 _ _ _ Hwf3 Hslot3 E36); auto.
    apply (ev_peek _ _ _ E36).
    - apply allocated_peek; assumption.
    - intros [[H|H]|H].
      + exact (allocated_not_unallocated a ref Href_al (Hnew_un _ H)).
      + exact (Hrefout H).
      + exact (allocated_not_unallocated a3 ref Href3 H). }
  unfold Upgraded. cbv zeta. rewrite <- EnewD, <- EnewR.
  cbn [stb_segment stb_data stb_pointers stb_dataSize stb_pointerCount stb_bit0Offset].
  split; [exact Hwf6|].
  split; [rewrite (sameShape_errors _ _ Hsh6); exact (ev_errors _ _ _ E05)|].
  split; [reflexivity|]. split; [reflexivity|]. split; [reflexivity|].
  split; [reflexivity|]. split; [reflexivity|].
  split; [apply Hun_a, Hunptr|].
  split; [intros j Hj; apply Hnew_al6, within_plus, Hj|].
  split.
  { (* data *)
    intros j Hj.
    rewrite Hnew_keep by (apply within_plus; lia).
    rewrite (ev_peek _ _ _ E45).
    - rewrite Hpk4, decide_True by (apply within_plus; lia).
      replace (fst oldPtr, snd oldPtr + (snd (plus ptr j) - snd ptr)) with (plus oldPtr j)
        by (unfold plus; cbn [fst snd]; f_equal; lia).
      apply (Hold_keep a3 E03). apply within_plus. lia.
    - apply allocated_peek; [exact Hwf4|].
      apply (within_allocated a4 ptr _ (newD + newR) x2); auto. apply within_plus. lia.
    - intros [H|H].
      + unfold within, plus in H. cbn [fst snd] in H. lia.
      + apply (allocated_not_unallocated a4 (plus ptr j)); [|exact H].
        apply (within_allocated a4 ptr _ (newD + newR) x2); auto. apply within_plus. lia. }
  split.
  { intros j Hj. rewrite Hpk6, decide_True by (apply within_plus; exact Hj). reflexivity. }
  split.
  { exists v'. split; [exact (proj1 Hslot6)|]. split; assumption. }
  split.
  { (* pointers *)
    intros i s Hi Hs.
    assert (Hs4 : peek a4 (plus (plus oldPtr D) i) = Some s).
    { rewrite plus_plus, (Hold_keep a4 E04); [exact Hs|]. apply within_plus. lia. }
    assert (Hdst : within ptr (newD + newR) (plus (plus ptr newD) i))
      by (apply HnewPS, within_plus, Hi).
    destruct (Hposts i Hi s Hs4) as [P1 P2]. split.
    - intros Hn. rewrite Hnew_keep by exact Hdst. apply P1, Hn.
    - intros Hn r Htgt Hres.
      destruct (P2 Hn r) as [Q1 Q2].
      + intros Hk. specialize (Htgt Hk). cbn [plus fst snd]. split; [lia|].
        intros Hseg. pose proof (Hun_a _ Hunptr xo) as Hge. rewrite Hseg in Hge.
        specialize (Hge Hxo). lia.
      + rewrite plus_plus. change (fst (plus oldPtr D)) with (fst oldPtr).
        apply (resolvesTo_evolves _ Wpre _ a a4 _ _ r Hwf Hres E04).
        * intros q [H|[H|H]]; tauto.
        * intros q [H|H]; [right; apply Hnew_un, HnewPS, H | left; left; exact H].
        * apply (Hold_keep a4 E04). apply within_plus. lia.
      + split; [rewrite Hnew_keep by exact Hdst; exact Q1|].
        refine (proj1 (resolvesTo_evolves _ (within oldPtr (D + R)) _ a5 a6 _ _ r Hwf5 Q2 E56
                         _ (fun q H => or_introl H) _)).
        * intros q H. left; right. exact H.
        * apply Hnew_keep, Hdst. }
  (* frame *)
  intros q Hq Hnref Hnpads Hnold.
  rewrite Hpk6, decide_False by exact Hnold.
  apply (ev_peek _ _ _ E05).
  - apply allocated_peek; assumption.
  - intros [->|[H|H]]; [tauto | tauto|].
    exact (allocated_not_unallocated a q Hq H).
Qed.


(** C2. A [getWritableStructPointer] call on a non-null slot [ref] that
    resolves ([followFars]) to a struct of [D] data words and [R] pointers,
    for the expected size [(D', R')].  If [D >= D'] and [R >= R'] the existing
    object is returned in place and the arena (slot and object words
    included) is unchanged.  Otherwise, in a well-formed arena where the old
    object lies below the bump pointer of its segment and apart from the slot
    and its landing pad, the call returns a builder for a freshly allocated
    object of size [(max D D', max R R')] and ([Upgraded]): the old data
    section is copied, the old object is zeroed, the slot leads to the new
    object with the new sizes, every null old pointer is null in the new
    object and every other old pointer denotes, through the returned builder,
    what it denoted before, and no other allocated word changes. *)
Theorem C2_getWritableStructPointer_upgrade (fuel : nat) (ref oldPtr oldRef : BLoc)
    (oldSegment : nat) (size : StructSize) (defaultValue : option (list Z)) (w ow : Z)
    (a : BuilderArena) :
  peek a ref = Some w -> WirePointer.isNull w = false ->
  followFars ref (fst ref) a = Some ((oldPtr, oldRef, oldSegment), a) ->
  peek a oldRef = Some ow -> WirePointer.kind ow = WirePointer.STRUCT ->
  let D := WirePointer.dataSize ow in
  let R := WirePointer.ptrCount ow in
  (ss_data size <= D /\ ss_pointers size <= R ->
   getWritableStructPointer fuel ref (fst ref) size defaultValue a
   = Some (mkStructBuilder oldSegment oldPtr (plus oldPtr D) (D * BITS_PER_WORD) R 0, a))
  /\ (D < ss_data size \/ R < ss_pointers size ->
      forall xo : Z,
        0 <= ss_data size < 2 ^ 16 -> 0 <= ss_pointers size < 2 ^ 16 ->
        wfArena a ->
        Z.of_nat (length (b_segments a)) + R + 1 < 2 ^ 32 ->
        allocated a ref ->
        segPos a (fst oldPtr) = Some xo -> 0 <= snd oldPtr -> snd oldPtr + D + R <= xo ->
        ~ within oldPtr (D + R) ref ->
        (forall q, In q (pads a ref) -> ~ within oldPtr (D + R) q) ->
        exists b a1,
          getWritableStructPointer fuel ref (fst ref) size defaultValue a = Some (b, a1)
          /\ Upgraded a ref oldPtr D R (ss_data size) (ss_pointers size) xo b a1).
Proof.
  intros Hw Hn Hff How Hk D R. split.
  - intros [HD HR]. eapply getWritableStructPointer_in_place; eauto.
  - intros Hsmall xo HD' HR' Hwf Hcount Href Hxo Ho0 Hoend Hrefout Hpads.
    eapply getWritableStructPointer_moves; eauto.
Qed.

(** A builder arena of one 8-word segment, 3 words allocated: word 0 is a
    slot that points to the struct in words 1 and 2, of one data word
    (0x1234) and one pointer (to an empty struct, offset -1). *)
Definition smallStruct : BuilderArena :=
  mkBuilderArena (fun _ n => replicate (Z.to_nat n) 0)
    [mkSegmentBuilder [65537 * 2 ^ 32; 4660; 2 ^ 32 - 4; 0; 0; 0; 0; 0] 3] [].

Lemma smallStruct_wf : wfArena smallStruct.
Proof.
  split.
  - intros id e x He Hx. destruct id as [|id]; [|discriminate He].
    cbv in He, Hx. injection He as <-. injection Hx as <-. lia.
  - intros k n Hn. cbn [smallStruct b_message]. rewrite length_replicate. lia.
Defined.

Lemma C2_getWritableStructPointer_upgrade_witness :
  exists b a1,
    getWritableStructPointer 0 (0%nat, 0) 0 (mkStructSize 2 2) None smallStruct = Some (b, a1)
    /\ Upgraded smallStruct (0%nat, 0) (0%nat, 1) 1 1 2 2 3 b a1.
Proof.
  refine (proj2 (C2_getWritableStructPointer_upgrade 0 (0%nat, 0) (0%nat, 1) (0%nat, 0)
                   0%nat (mkStructSize 2 2) None (65537 * 2 ^ 32) (65537 * 2 ^ 32)
                   smallStruct eq_refl eq_refl eq_refl eq_refl eq_refl)
            _ 3 _ _ smallStruct_wf _ _ eq_refl _ _ _ _).
  - left. vm_compute. reflexivity.
  - vm_compute. split; [discriminate | reflexivity].
  - vm_compute. split; [discriminate | reflexivity].
  - vm_compute. reflexivity.
  - exists 3. split; [reflexivity|]. cbn [snd]. lia.
  - cbn [snd]. lia.
  - vm_compute. discriminate.
  - unfold within. cbn [fst snd]. lia.
  - intros q Hq. vm_compute in Hq. destruct Hq.
Defined.

(** The same struct in a segment with no room left: the new object goes to a
    new segment behind a landing pad, and its pointer reaches the old target
    through a double-far pointer with its pad in a third segment. *)
Definition fullStruct : BuilderArena :=
  mkBuilderArena (fun _ n => replicate (Z.to_nat n) 0)
    [mkSegmentBuilder [65537 * 2 ^ 32; 4660; 2 ^ 32 - 4] 3] [].

(** The builder returned, the words and bump pointers of the segments and the
    error log. *)
Definition outcome (r : option (StructBuilder * BuilderArena)) :
    option (StructBuilder * list (list Z) * list Z * ErrorLog) :=
  option_map (fun r => (fst r, map sb_words (b_segments (snd r)),
                        map sb_pos (b_segments (snd r)), b_errors (snd r))) r.

Example smallStruct_upgraded :
  outcome (getWritableStructPointer 0 (0%nat, 0) 0 (mkStructSize 2 2) None smallStruct)
  = Some (mkStructBuilder 0 (0%nat, 3) (0%nat, 5) 128 2 0,
          [[131074 * 2 ^ 32 + 8; 0; 0; 4660; 0; 2 ^ 32 - 16; 0; 0]], [7], []).
Proof. vm_compute. reflexivity. Qed.

Example fullStruct_upgraded :
  outcome (getWritableStructPointer 0 (0%nat, 0) 0 (mkStructSize 2 2) None fullStruct)
  = Some (mkStructBuilder 1 (1%nat, 1) (1%nat, 3) 128 2 0,
          [[2 ^ 32 + 2; 0; 0]; [131074 * 2 ^ 32; 4660; 0; 2 * 2 ^ 32 + 6; 0]; [18; 0]],
          [3; 5; 2], [])
  /\ match getWritableStructPointer 0 (0%nat, 0) 0 (mkStructSize 2 2) None fullStruct with
     | Some (b, a1) =>
       resolve (0%nat, 0) 0 a1 = Some (stb_data b, WirePointer.STRUCT, 131074)
       /\ resolve (stb_pointers b) (stb_segment b) a1 = resolve (0%nat, 2) 0 fullStruct
     | None => False
     end.
Proof. vm_compute. repeat split; reflexivity. Qed.

End UpgradeProps.

(** ** Allocation over an old object *)

Section AllocateProps.
Import Builder.

(** A builder arena of one 8-word segment, 4 words allocated: word 0 points to
    an inline-composite list of two one-word structs (tag in word 1), whose
    data are in words 2 and 3. *)
Definition staleList : BuilderArena :=
  mkBuilderArena (fun _ n => replicate (Z.to_nat n) 0)
    [mkSegmentBuilder [1 + 23 * 2 ^ 32; 8 + 2 ^ 32; 4369; 8738; 0; 0; 0; 0] 4] [].

(** C4 (code bug). [allocate] on the slot of [staleList] zeroes the tag and
    the first element of the old list only: the second element (word 3, value
    0x2222) is reachable from the old object and is still there when the slot
    is reused. *)
Theorem C4_inline_composite_not_zeroed :
  let ref := wordAt [1 + 23 * 2 ^ 32; 8 + 2 ^ 32; 4369; 8738; 0; 0; 0; 0] 0 in
  let tag := wordAt [1 + 23 * 2 ^ 32; 8 + 2 ^ 32; 4369; 8738; 0; 0; 0; 0] 1 in
  WirePointer.kind ref = WirePointer.LIST
  /\ WirePointer.elementSize ref = INLINE_COMPOSITE
  /\ WirePointer.inlineCompositeWordCount ref = 2
  /\ WirePointer.target 0 ref = 1
  /\ WirePointer.kind tag = WirePointer.STRUCT
  /\ WirePointer.inlineCompositeListElementCount tag = 2
  /\ WirePointer.dataSize tag = 1 /\ WirePointer.ptrCount tag = 0
  /\ option_map (fun r => (fst r, map sb_words (b_segments (snd r)),
                           map sb_pos (b_segments (snd r)), b_errors (snd r)))
       (allocate 10 (0%nat, 0) 0 1 WirePointer.STRUCT staleList)
     = Some (((0%nat, 4), (0%nat, 0), 0%nat),
             [[12 + 23 * 2 ^ 32; 0; 0; 8738; 0; 0; 0; 0]], [5], []).
Proof. vm_compute. repeat split; reflexivity. Qed.

End AllocateProps.

(** * Further properties *)

(** ** Pointer words *)

Section WirePointerProps.

Lemma low_high_eq (w1 w2 : Z) :
  WirePointer.upper32Bits w1 = WirePointer.upper32Bits w2 ->
  WirePointer.dataSize w1 = WirePointer.dataSize w2
  /\ WirePointer.ptrCount w1 = WirePointer.ptrCount w2
  /\ WirePointer.elementSize w1 = WirePointer.elementSize w2
  /\ WirePointer.elementCount w1 = WirePointer.elementCount w2
  /\ WirePointer.segmentId w1 = WirePointer.segmentId w2.
Proof.
  intros H. unfold WirePointer.dataSize, WirePointer.ptrCount, WirePointer.elementSize,
    WirePointer.elementCount, WirePointer.segmentId. rewrite H. auto.
Qed.

(** X1. [setKindAndTarget] and [kind]/[target] are inverse for every target
    whose offset from the word after the pointer fits the signed 30-bit
    field; the kind-dependent half of the word (struct sizes, list element
    size and count) is not touched, and the pointer written is relative: read
    at another position it leads to a target displaced by the same amount. *)
Theorem X1_setKindAndTarget_round_trip (this tgt w : Z) (k : WirePointer.Kind) :
  - 2 ^ 29 <= tgt - this - 1 < 2 ^ 29 ->
  let v := WirePointer.setKindAndTarget this k tgt w in
  WirePointer.kind v = k
  /\ WirePointer.target this v = tgt
  /\ (forall that, WirePointer.target that v = tgt + (that - this))
  /\ WirePointer.upper32Bits v = WirePointer.upper32Bits w
  /\ WirePointer.dataSize v = WirePointer.dataSize w
  /\ WirePointer.ptrCount v = WirePointer.ptrCount w
  /\ WirePointer.elementSize v = WirePointer.elementSize w
  /\ WirePointer.elementCount v = WirePointer.elementCount w
  /\ (tgt <> this + 1 -> WirePointer.isNull v = false).
Proof.
  intros Hoff v. destruct (setKindAndTarget_spec this k tgt w) as (Hk & Hu & Ht).
  fold v in Hk, Hu, Ht. specialize (Ht Hoff).
  destruct (low_high_eq v w Hu) as (H1 & H2 & H3 & H4 & _).
  split; [exact Hk|]. split; [exact Ht|]. split.
  { intros that. unfold WirePointer.target in *. lia. }
  split; [exact Hu|]. split; [exact H1|]. split; [exact H2|]. split; [exact H3|].
  split; [exact H4|].
  intros Hne. apply not_null. intros Hn. apply (isNull_target v this) in Hn. lia.
Qed.

Lemma X1_setKindAndTarget_round_trip_witness :
  WirePointer.kind (WirePointer.setKindAndTarget 7 WirePointer.LIST 3 (5 * 2 ^ 32))
  = WirePointer.LIST
  /\ WirePointer.target 7 (WirePointer.setKindAndTarget 7 WirePointer.LIST 3 (5 * 2 ^ 32)) = 3.
Proof.
  destruct (X1_setKindAndTarget_round_trip 7 3 (5 * 2 ^ 32) WirePointer.LIST ltac:(lia))
    as (H1 & H2 & _).
  split; [exact H1 | exact H2].
Defined.

(** X2. A far pointer written with [setFar] and [farRef.set] reads back as
    kind FAR with the same double-far flag, position (below 2^29 words) and
    segment id (32 bits); it is never null, and writing the segment id does
    not disturb the low half. *)
Theorem X2_far_pointer_round_trip (d : bool) (pos id w : Z) :
  0 <= pos < 2 ^ 29 -> 0 <= id < 2 ^ 32 ->
  let v := WirePointer.farRef_set id (WirePointer.setFar d pos w) in
  WirePointer.kind v = WirePointer.FAR
  /\ WirePointer.isDoubleFar v = d
  /\ WirePointer.farPositionInSegment v = pos
  /\ WirePointer.segmentId v = id
  /\ WirePointer.isNull v = false
  /\ WirePointer.segmentId (WirePointer.setFar d pos w) = WirePointer.segmentId w.
Proof.
  intros Hpos Hid v. destruct (setFar_spec d pos w) as (Hk & Hu & Hf).
  destruct (Hf Hpos) as [Hp Hd].
  unfold v, WirePointer.farRef_set.
  destruct (kind_low (WirePointer.set_upper32Bits id (WirePointer.setFar d pos w))
              (WirePointer.setFar d pos w) (set_upper32Bits_low _ _)) as (K1 & K2 & K3 & K4).
  assert (HK : WirePointer.kind
                 (WirePointer.set_upper32Bits id (WirePointer.setFar d pos w)) = WirePointer.FAR)
    by congruence.
  split; [exact HK|]. split; [congruence|]. split; [congruence|]. split.
  { unfold WirePointer.segmentId. rewrite set_upper32Bits_high. apply u32_small, Hid. }
  split.
  { apply not_null. intros Hn. apply isNull_kind in Hn. congruence. }
  unfold WirePointer.segmentId. exact Hu.
Qed.

Lemma X2_far_pointer_round_trip_witness :
  WirePointer.farPositionInSegment (WirePointer.farRef_set 3 (WirePointer.setFar true 10 0)) = 10
  /\ WirePointer.segmentId (WirePointer.farRef_set 3 (WirePointer.setFar true 10 0)) = 3.
Proof.
  destruct (X2_far_pointer_round_trip true 10 3 0 ltac:(lia) ltac:(lia))
    as (_ & _ & H1 & H2 & _).
  split; [exact H1 | exact H2].
Defined.

Lemma FieldSize_of_to_Z (es : FieldSize) : FieldSize_of_Z (FieldSize_to_Z es) = es.
Proof. destruct es; reflexivity. Qed.

Lemma FieldSize_to_Z_range (es : FieldSize) : 0 <= FieldSize_to_Z es < 8.
Proof. destruct es; cbn; lia. Qed.

Lemma listRef_set_spec (es : FieldSize) (ec w : Z) :
  0 <= ec < 2 ^ 29 ->
  let v := WirePointer.listRef_set es ec w in
  WirePointer.offsetAndKind v = WirePointer.offsetAndKind w
  /\ WirePointer.elementSize v = es /\ WirePointer.elementCount v = ec.
Proof.
  intros Hec v. subst v. unfold WirePointer.listRef_set.
  pose proof (FieldSize_to_Z_range es) as Hes.
  assert (Hup : WirePointer.upper32Bits
                  (WirePointer.set_upper32Bits (Z.lor (Z.shiftl ec 3) (FieldSize_to_Z es)) w)
                = ec * 8 + FieldSize_to_Z es).
  { rewrite set_upper32Bits_high, lor_shiftl_low by (change (2 ^ 3) with 8; lia).
    change (2 ^ 3) with 8. apply u32_small. lia. }
  split; [apply set_upper32Bits_low|]. split.
  - unfold WirePointer.elementSize. rewrite Hup.
    change 7 with (2 ^ 3 - 1). rewrite land_mask by lia. change (2 ^ 3) with 8.
    rewrite Z.add_comm, Z_mod_plus_full, Z.mod_small by lia. apply FieldSize_of_to_Z.
  - unfold WirePointer.elementCount. rewrite Hup, Z.shiftr_div_pow2 by lia.
    change (2 ^ 3) with 8. symmetry. apply (Z.div_unique _ 8 _ (FieldSize_to_Z es)); lia.
Qed.

(** X3. The setters of the kind-dependent half are inverse to its getters
    and leave kind and target alone: [structRef.set] for sizes below 2^16,
    [listRef.set] and [listRef.setInlineComposite] for counts below 2^29 (the
    limits the source asserts); the tag written by
    [setKindAndInlineCompositeListElementCount] reads back its kind and an
    element count below 2^30. *)
Theorem X3_kind_dependent_half_round_trip (w : Z) :
  (forall ds rc, 0 <= ds < 2 ^ 16 -> 0 <= rc < 2 ^ 16 ->
     let v := WirePointer.structRef_set ds rc w in
     WirePointer.dataSize v = ds /\ WirePointer.ptrCount v = rc
     /\ WirePointer.wordSize v = ds + rc
     /\ WirePointer.kind v = WirePointer.kind w
     /\ (forall this, WirePointer.target this v = WirePointer.target this w))
  /\ (forall es ec, 0 <= ec < 2 ^ 29 ->
        let v := WirePointer.listRef_set es ec w in
        WirePointer.elementSize v = es /\ WirePointer.elementCount v = ec
        /\ WirePointer.kind v = WirePointer.kind w
        /\ (forall this, WirePointer.target this v = WirePointer.target this w))
  /\ (forall wc, 0 <= wc < 2 ^ 29 ->
        let v := WirePointer.listRef_setInlineComposite wc w in
        WirePointer.elementSize v = INLINE_COMPOSITE
        /\ WirePointer.inlineCompositeWordCount v = wc
        /\ WirePointer.kind v = WirePointer.kind w
        /\ (forall this, WirePointer.target this v = WirePointer.target this w))
  /\ (forall k n, 0 <= n < 2 ^ 30 ->
        let v := WirePointer.setKindAndInlineCompositeListElementCount k n w in
        WirePointer.kind v = k
        /\ WirePointer.inlineCompositeListElementCount v = n
        /\ WirePointer.upper32Bits v = WirePointer.upper32Bits w).
Proof.
  split; [|split; [|split]].
  - intros ds rc Hds Hrc v. destruct (structRef_set_spec ds rc w Hds Hrc) as (Hl & HD & HR).
    fold v in Hl, HD, HR. destruct (kind_low v w Hl) as (Hk & Ht & _).
    unfold WirePointer.wordSize, WORDS_PER_POINTER. rewrite HD, HR.
    repeat split; auto; lia.
  - intros es ec Hec v. destruct (listRef_set_spec es ec w Hec) as (Hl & HE & HC).
    fold v in Hl, HE, HC. destruct (kind_low v w Hl) as (Hk & Ht & _). auto.
  - intros wc Hwc v.
    destruct (listRef_set_spec INLINE_COMPOSITE wc w Hwc) as (Hl & HE & HC).
    change (WirePointer.listRef_set INLINE_COMPOSITE wc w) with v in Hl, HE, HC.
    destruct (kind_low v w Hl) as (Hk & Ht & _). unfold WirePointer.inlineCompositeWordCount.
    auto.
  - intros k n Hn v. subst v. unfold WirePointer.setKindAndInlineCompositeListElementCount.
    pose proof (Kind_to_Z_range k) as Hk.
    assert (Hlow : WirePointer.offsetAndKind
                     (WirePointer.set_offsetAndKind
                        (Z.lor (Z.shiftl n 2) (WirePointer.Kind_to_Z k)) w)
                   = n * 4 + WirePointer.Kind_to_Z k).
    { rewrite set_offsetAndKind_low, lor_shiftl_low by (change (2 ^ 2) with 4; lia).
      change (2 ^ 2) with 4. apply u32_small. lia. }
    split; [|split].
    + unfold WirePointer.kind. rewrite Hlow. change 3 with (2 ^ 2 - 1).
      rewrite land_mask by lia. change (2 ^ 2) with 4.
      rewrite Z.add_comm, Z_mod_plus_full, Z.mod_small by lia. apply Kind_of_to_Z.
    + unfold WirePointer.inlineCompositeListElementCount. rewrite Hlow.
      rewrite Z.shiftr_div_pow2 by lia. change (2 ^ 2) with 4. symmetry.
      apply (Z.div_unique _ 4 _ (WirePointer.Kind_to_Z k)); lia.
    + apply set_offsetAndKind_high.
Qed.

End WirePointerProps.

(** ** Readers: what a read may do to the arena and where a reader may point *)

Section ReaderSafetyProps.
Import Reader.

(** [a1] comes from [a] by reading: the message is the same, the limiter has
    not grown and has not passed below zero, and the error log has only been
    extended. *)
Definition advances (a a1 : ReaderArena) : Prop :=
  message a1 = message a
  /\ limit a1 <= limit a
  /\ (0 <= limit a -> 0 <= limit a1)
  /\ exists more : ErrorLog, errors a1 = errors a ++ more.

Lemma advances_refl (a : ReaderArena) : advances a a.
Proof.
  split; [reflexivity|]. split; [lia|]. split; [auto|]. exists [].
  rewrite app_nil_r. reflexivity.
Qed.

Lemma advances_trans (a a1 a2 : ReaderArena) :
  advances a a1 -> advances a1 a2 -> advances a a2.
Proof.
  intros (M1 & L1 & N1 & m1 & E1) (M2 & L2 & N2 & m2 & E2).
  split; [congruence|]. split; [lia|]. split; [auto|].
  exists (m1 ++ m2). rewrite E2, E1, app_assoc. reflexivity.
Qed.

Lemma advances_recordError (msg : string) (a : ReaderArena) : advances a (recordError msg a).
Proof.
  split; [reflexivity|]. split; [cbn; lia|]. split; [auto|]. exists [msg]. reflexivity.
Qed.

Lemma advances_DPRECOND (cond : bool) (msg : string) (a a1 : ReaderArena) :
  advances a a1 -> advances a (DPRECOND cond msg a1).
Proof.
  intros H. eapply advances_trans; [exact H|].
  unfold advances. rewrite DPRECOND_message, DPRECOND_limit, DPRECOND_errors.
  apply advances_refl.
Qed.

Lemma advances_then_error (msg : string) (a a1 : ReaderArena) :
  advances a a1 -> advances a (recordError msg a1).
Proof. intros H. eapply advances_trans; [exact H | apply advances_recordError]. Qed.

Lemma canRead_advances (amount : Z) (a : ReaderArena) :
  0 <= amount ->
  advances a (snd (canRead amount a))
  /\ (fst (canRead amount a) = true ->
      limit (snd (canRead amount a)) = limit a - amount
      /\ errors (snd (canRead amount a)) = errors a).
Proof.
  intros H. unfold canRead. destruct (Z.gtb_spec amount (limit a)); cbn [fst snd].
  - split; [apply advances_recordError | discriminate].
  - split; [|intros _; split; reflexivity].
    split; [reflexivity|]. split; [cbn; lia|]. split; [cbn; lia|].
    exists []. cbn. rewrite app_nil_r. reflexivity.
Qed.

Lemma containsInterval_advances (id : nat) (from to : Z) (a : ReaderArena) :
  from <= to ->
  advances a (snd (containsInterval id from to a))
  /\ (fst (containsInterval id from to a) = true ->
      0 <= from /\ to <= Z.of_nat (length (getArray id a))
      /\ limit (snd (containsInterval id from to a)) = limit a - (to - from)
      /\ errors (snd (containsInterval id from to a)) = errors a).
Proof.
  intros H. unfold containsInterval.
  destruct (Z.geb_spec from 0); cbn [andb];
    [destruct (Z.leb_spec to (Z.of_nat (length (getArray id a))))|]; cbn [fst snd].
  - rewrite interval_words.
    destruct (canRead_advances (to - from) a ltac:(lia)) as [Ka Kb].
    split; [exact Ka|]. intros Hok. destruct (Kb Hok). auto with zarith.
  - split; [apply advances_refl | discriminate].
  - split; [apply advances_refl | discriminate].
Qed.

Lemma boundsCheck_advances (segment : SegmentRef) (from to : Z) (a : ReaderArena) :
  from <= to ->
  advances a (snd (boundsCheck segment from to a))
  /\ (fst (boundsCheck segment from to a) = true ->
      errors (snd (boundsCheck segment from to a)) = errors a
      /\ forall id, segment = Checked id ->
           0 <= from /\ to <= Z.of_nat (length (getArray id a))
           /\ limit (snd (boundsCheck segment from to a)) = limit a - (to - from))
  /\ (forall blob, segment = Unchecked blob -> boundsCheck segment from to a = (true, a)).
Proof.
  intros H. destruct segment as [id|blob]; cbn [boundsCheck].
  - destruct (containsInterval_advances id from to a H) as [Ka Kb].
    split; [exact Ka|]. split; [|discriminate].
    intros Hok. destruct (Kb Hok) as (K1 & K2 & K3 & K4). split; [exact K4|].
    intros id1 [= <-]. auto.
  - cbn [fst snd]. split; [apply advances_refl|]. split; [|reflexivity].
    intros _. split; [reflexivity | discriminate].
Qed.

Definition isChecked (s : SegmentRef) : Prop := exists id, s = Checked id.

(** [followFars]: a far pointer is followed only to a landing pad that lies
    inside an existing segment and has been charged to the limiter. *)
Lemma followFars_advances (ref : Loc) (segment : SegmentRef) (a : ReaderArena) :
  let '(ptr, ref1, segment1, a1) := followFars ref segment a in
  advances a a1
  /\ (isChecked segment -> isChecked segment1)
  /\ (forall blob, segment = Unchecked blob -> segment1 = segment /\ a1 = a)
  /\ (ptr <> None -> errors a1 = errors a)
  /\ (ptr = None -> (length (errors a) < length (errors a1))%nat).
Proof.
  unfold followFars. set (w := wordOf ref a).
  destruct segment as [id|blob].
  2: { split; [apply advances_refl|]. split; [auto|]. split; [auto|].
       split; [reflexivity | discriminate]. }
  destruct (WirePointer.Kind_eqb (WirePointer.kind w) WirePointer.FAR).
  2: { split; [apply advances_refl|]. split; [auto|]. split; [discriminate|].
       split; [reflexivity | discriminate]. }
  destruct (tryGetSegment (WirePointer.segmentId w) a) as [id1|].
  2: { split; [apply advances_recordError|]. split; [auto|]. split; [discriminate|].
       split; [congruence|]. intros _. rewrite recordError_length. lia. }
  set (ptr := WirePointer.farPositionInSegment w).
  set (padWords := (1 + (if WirePointer.isDoubleFar w then 1 else 0)) * POINTER_SIZE_IN_WORDS).
  assert (Hpw : 0 <= padWords)
    by (subst padWords; unfold POINTER_SIZE_IN_WORDS; destruct (WirePointer.isDoubleFar w); lia).
  destruct (boundsCheck_advances (Checked id1) ptr (ptr + padWords) a ltac:(lia))
    as (HA & HB & _).
  destruct (boundsCheck (Checked id1) ptr (ptr + padWords) a) as [ok a1].
  cbn [fst snd] in HA, HB.
  destruct ok; cbn [negb].
  2: { split; [apply advances_then_error, HA|]. split; [intros _; eexists; reflexivity|].
       split; [discriminate|]. split; [congruence|]. intros _.
       rewrite recordError_length. destruct HA as (_ & _ & _ & more & ->).
       rewrite length_app. lia. }
  destruct (HB eq_refl) as [HE _].
  destruct (WirePointer.isDoubleFar w); cbn [negb].
  - destruct (tryGetSegment (WirePointer.segmentId (wordOf (Checked id1, ptr) a1)) a1)
      as [id2|].
    + cbv zeta. rewrite DPRECOND_errors.
      split; [apply advances_DPRECOND, HA|]. split; [intros _; eexists; reflexivity|].
      split; [discriminate|]. split; [intros _; exact HE | discriminate].
    + split; [apply advances_then_error, HA|]. split; [intros _; eexists; reflexivity|].
      split; [discriminate|]. split; [congruence|]. intros _.
      rewrite recordError_length, HE. lia.
  - split; [exact HA|]. split; [intros _; eexists; reflexivity|].
    split; [discriminate|]. split; [intros _; exact HE | discriminate].
Qed.

(** A struct reader on a segment of the message views words of that segment
    only. *)
Definition structInBounds (r : StructReader) (a : ReaderArena) : Prop :=
  forall id, sr_segment r = Checked id ->
    exists ptr D : Z,
      sr_data r = Some ptr /\ sr_pointers r = Some (ptr + D)
      /\ sr_dataSize r = D * BITS_PER_WORD
      /\ 0 <= D /\ 0 <= sr_pointerCount r /\ 0 <= ptr
      /\ ptr + D + sr_pointerCount r <= Z.of_nat (length (getArray id a)).

Lemma readStructPointer_checks_safe (segment : SegmentRef) (ref : Loc) (nestingLimit : Z)
    (a : ReaderArena) :
  let '(r, a1) := readStructPointer_checks segment ref nestingLimit a in
  advances a a1
  /\ match r with
     | Some x =>
       errors a1 = errors a /\ 0 < nestingLimit /\ sr_nestingLimit x = nestingLimit - 1
       /\ structInBounds x a
       /\ (isChecked segment ->
           isChecked (sr_segment x)
           /\ sr_dataSize x / BITS_PER_WORD + sr_pointerCount x <= limit a - limit a1)
       /\ (forall blob, segment = Unchecked blob -> sr_segment x = segment /\ a1 = a)
     | None => (length (errors a) < length (errors a1))%nat
     end.
Proof.
  unfold readStructPointer_checks.
  destruct (Z.gtb_spec nestingLimit 0) as [Hnl|Hnl]; cbn [negb].
  2: { split; [apply advances_recordError|]. rewrite recordError_length. lia. }
  pose proof (followFars_advances ref segment a) as HF.
  destruct (followFars ref segment a) as [[[ptr ref1] segment1] a1].
  destruct HF as (HA & HC & HU & HS & HN).
  destruct ptr as [ptr|].
  2: { split; [exact HA | apply HN; reflexivity]. }
  specialize (HS ltac:(discriminate)).
  set (w := wordOf ref1 a1).
  destruct (WirePointer.Kind_eqb (WirePointer.kind w) WirePointer.STRUCT); cbn [negb].
  2: { split; [apply advances_then_error, HA|]. rewrite recordError_length, HS. lia. }
  pose proof (dataSize_range w) as HD. pose proof (ptrCount_range w) as HR.
  assert (Hws : 0 <= WirePointer.wordSize w)
    by (unfold WirePointer.wordSize, WORDS_PER_POINTER; lia).
  destruct (boundsCheck_advances segment1 ptr (ptr + WirePointer.wordSize w) a1 ltac:(lia))
    as (HB1 & HB2 & HB3).
  destruct (boundsCheck segment1 ptr (ptr + WirePointer.wordSize w) a1) as [ok a2].
  cbn [fst snd] in HB1, HB2.
  destruct ok; cbn [negb].
  2: { split; [apply advances_then_error; eapply advances_trans; eauto|].
       rewrite recordError_length. destruct HB1 as (_ & _ & _ & more & ->).
       rewrite length_app, HS. lia. }
  destruct (HB2 eq_refl) as [HE HIn].
  split; [eapply advances_trans; eauto|].
  split; [congruence|]. split; [lia|]. split; [reflexivity|].
  cbn [sr_segment sr_dataSize sr_pointerCount].
  unfold WirePointer.wordSize, WORDS_PER_POINTER in *.
  split; [|split].
  - intros id Hid. cbn [sr_segment] in Hid. destruct (HIn id Hid) as (K1 & K2 & K3).
    exists ptr, (WirePointer.dataSize w). cbn [sr_data sr_pointers sr_dataSize sr_pointerCount].
    assert (Hm : getArray id a = getArray id a1).
    { unfold getArray. rewrite (proj1 HA). reflexivity. }
    rewrite Hm. repeat split; try lia; reflexivity.
  - intros Hc. specialize (HC Hc). split; [exact HC|].
    destruct HC as [id1 Hid1]. destruct (HIn id1 Hid1) as (K1 & K2 & K3).
    unfold BITS_PER_WORD. rewrite Z.div_mul by lia. destruct HA as (_ & HL & _). lia.
  - intros blob Hb. destruct (HU blob Hb) as [-> ->]. split; [reflexivity|].
    subst segment. specialize (HB3 blob eq_refl). congruence.
Qed.

Lemma structInBounds_default (a : ReaderArena) : structInBounds StructReader_default a.
Proof. intros id H. discriminate H. Qed.

Lemma structInBounds_message (r : StructReader) (a a1 : ReaderArena) :
  message a1 = message a -> structInBounds r a -> structInBounds r a1.
Proof.
  intros Hm H id Hid. destruct (H id Hid) as (ptr & D & K).
  exists ptr, D. unfold getArray in *. rewrite Hm. exact K.
Qed.

(** The code after the label [useDefault] of [readStructPointer]. *)
Definition structDefault (defaultValue : option (list Z)) (nestingLimit : Z) (a : ReaderArena)
  : StructReader * ReaderArena :=
  match defaultValue with
  | None => (StructReader_default, a)
  | Some blob =>
    if WirePointer.isNull (wordAt blob 0) then (StructReader_default, a)
    else
      match readStructPointer_checks (Unchecked blob) (Unchecked blob, 0) nestingLimit a with
      | (Some r, a1) => (r, a1)
      | (None, a1) => (StructReader_default, a1)
      end
  end.

Lemma readStructPointer_unfold (segment : SegmentRef) (ref : option Loc)
    (defaultValue : option (list Z)) (nestingLimit : Z) (a : ReaderArena) :
  readStructPointer segment ref defaultValue nestingLimit a
  = match ref with
    | None => structDefault defaultValue nestingLimit a
    | Some r =>
      if WirePointer.isNull (wordOf r a) then structDefault defaultValue nestingLimit a
      else
        match readStructPointer_checks segment r nestingLimit a with
        | (Some x, a1) => (x, a1)
        | (None, a1) => structDefault defaultValue nestingLimit a1
        end
    end.
Proof. reflexivity. Qed.

Lemma readStructPointer_checks_nested (segment : SegmentRef) (ref : Loc) (nestingLimit : Z)
    (a : ReaderArena) :
  nestingLimit <= 0 ->
  readStructPointer_checks segment ref nestingLimit a
  = (None, recordError
       "Message is too deeply-nested or contains cycles.  See capnproto::ReadOptions." a).
Proof.
  intros Hn. unfold readStructPointer_checks.
  destruct (Z.gtb_spec nestingLimit 0); [lia | reflexivity].
Qed.

Lemma structDefault_safe (defaultValue : option (list Z)) (nestingLimit : Z)
    (a : ReaderArena) :
  let r := fst (structDefault defaultValue nestingLimit a) in
  let a1 := snd (structDefault defaultValue nestingLimit a) in
  advances a a1 /\ structInBounds r a1 /\ ~ isChecked (sr_segment r)
  /\ (r = StructReader_default
      \/ (0 < nestingLimit /\ sr_nestingLimit r = nestingLimit - 1))
  /\ (nestingLimit <= 0 -> r = StructReader_default /\ limit a1 = limit a).
Proof.
  assert (Hnc : ~ isChecked (sr_segment StructReader_default))
    by (intros [id H]; discriminate H).
  unfold structDefault. destruct defaultValue as [blob|]; cbv zeta.
  2: { cbn [fst snd]. split; [apply advances_refl|].
       split; [apply structInBounds_default|]. auto. }
  destruct (WirePointer.isNull (wordAt blob 0)).
  { cbn [fst snd]. split; [apply advances_refl|].
    split; [apply structInBounds_default|]. auto. }
  pose proof (readStructPointer_checks_safe (Unchecked blob) (Unchecked blob, 0)
                nestingLimit a) as H.
  pose proof (readStructPointer_checks_nested (Unchecked blob) (Unchecked blob, 0)
                nestingLimit a) as Hz.
  destruct (readStructPointer_checks (Unchecked blob) (Unchecked blob, 0) nestingLimit a)
    as [[x|] a1]; cbn [fst snd]; destruct H as [HA H].
  - destruct H as (_ & Hnl & Hn1 & Hin & _ & Hu). destruct (Hu blob eq_refl) as [Hs ->].
    split; [apply advances_refl|]. split; [exact Hin|].
    split; [rewrite Hs; intros [id K]; discriminate K|]. split; [auto | lia].
  - split; [exact HA|]. split; [apply structInBounds_default|]. split; [exact Hnc|].
    split; [auto|].
    intros Hn. specialize (Hz Hn). injection Hz as ->. split; reflexivity.
Qed.

(** What [readStructPointer] guarantees of its result [r] and of the arena
    [a1] it leaves, when started in [a] with [nestingLimit]. *)
Definition structRead (nestingLimit : Z) (a : ReaderArena) (r : StructReader)
    (a1 : ReaderArena) : Prop :=
  advances a a1
  /\ structInBounds r a1
  /\ (isChecked (sr_segment r) ->
      sr_dataSize r / BITS_PER_WORD + sr_pointerCount r <= limit a - limit a1
      /\ errors a1 = errors a)
  /\ (r = StructReader_default
      \/ (0 < nestingLimit /\ sr_nestingLimit r = nestingLimit - 1))
  /\ (nestingLimit <= 0 -> r = StructReader_default /\ limit a1 = limit a).

Lemma readStructPointer_safe (segment : SegmentRef) (ref : option Loc)
    (defaultValue : option (list Z)) (nestingLimit : Z) (a : ReaderArena) :
  structRead nestingLimit a
    (fst (readStructPointer segment ref defaultValue nestingLimit a))
    (snd (readStructPointer segment ref defaultValue nestingLimit a)).
Proof.
  assert (Hwrap : forall a0 : ReaderArena, advances a a0 -> limit a0 = limit a ->
    structRead nestingLimit a (fst (structDefault defaultValue nestingLimit a0))
      (snd (structDefault defaultValue nestingLimit a0))).
  { intros a0 HA0 HL.
    destruct (structDefault_safe defaultValue nestingLimit a0) as (K1 & K2 & K3 & K4 & K5).
    split; [eapply advances_trans; eauto|]. split; [exact K2|].
    split; [intros Hc; destruct (K3 Hc)|]. split; [exact K4|].
    intros Hn. destruct (K5 Hn). split; [assumption | congruence]. }
  rewrite readStructPointer_unfold.
  destruct ref as [r|]; [|apply (Hwrap a (advances_refl a) eq_refl)].
  destruct (WirePointer.isNull (wordOf r a));
    [apply (Hwrap a (advances_refl a) eq_refl)|].
  pose proof (readStructPointer_checks_safe segment r nestingLimit a) as H.
  pose proof (readStructPointer_checks_nested segment r nestingLimit a) as Hz.
  destruct (readStructPointer_checks segment r nestingLimit a) as [[x|] a1];
    destruct H as [HA H].
  - cbn [fst snd]. destruct H as (HE & Hnl & Hn1 & Hin & Hc & Hu).
    split; [exact HA|]. split; [eapply structInBounds_message; [|exact Hin]; apply HA|].
    split; [|split; [auto | lia]]. intros Hx.
    destruct segment as [id|blob].
    + destruct (Hc ltac:(eexists; reflexivity)) as [_ Hl]. auto.
    + destruct (Hu blob eq_refl) as [Hs _]. rewrite Hs in Hx. destruct Hx as [id K].
      discriminate K.
  - destruct (Z_le_gt_dec nestingLimit 0) as [Hn|Hn].
    + specialize (Hz Hn). injection Hz as ->.
      eapply Hwrap; [apply advances_recordError | reflexivity].
    + destruct (structDefault_safe defaultValue nestingLimit a1)
        as (K1 & K2 & K3 & K4 & K5).
      split; [eapply advances_trans; eauto|]. split; [exact K2|].
      split; [intros Hc; destruct (K3 Hc)|]. split; [exact K4 | lia].
Qed.

(** X4.  [readStructPointer], for every segment, pointer, default value,
    nesting limit and arena: the message is left as it was, the limiter does
    not grow nor pass below zero and the error log is only extended; a reader
    returned on a segment of the message has its data and pointer sections
    inside that segment, was charged to the limiter word for word and was
    read without an error; the result is the empty default reader or carries
    the nesting limit less one; and with no nesting left the result is the
    empty default reader and nothing is charged. *)
Theorem X4_readStructPointer_safe (segment : SegmentRef) (ref : option Loc)
    (defaultValue : option (list Z)) (nestingLimit : Z) (a : ReaderArena) :
  let r := fst (readStructPointer segment ref defaultValue nestingLimit a) in
  let a1 := snd (readStructPointer segment ref defaultValue nestingLimit a) in
  advances a a1
  /\ structInBounds r a1
  /\ (isChecked (sr_segment r) ->
      sr_dataSize r / BITS_PER_WORD + sr_pointerCount r <= limit a - limit a1
      /\ errors a1 = errors a)
  /\ (r = StructReader_default
      \/ (0 < nestingLimit /\ sr_nestingLimit r = nestingLimit - 1))
  /\ (nestingLimit <= 0 -> r = StructReader_default /\ limit a1 = limit a).
Proof. exact (readStructPointer_safe segment ref defaultValue nestingLimit a). Qed.

Lemma elementCount_range (w : Z) : 0 <= WirePointer.elementCount w < 2 ^ 29.
Proof.
  unfold WirePointer.elementCount. pose proof (upper32Bits_range w) as H.
  rewrite Z.shiftr_div_pow2 by lia.
  change (2 ^ 32) with 4294967296 in H. change (2 ^ 29) with 536870912.
  change (2 ^ 3) with 8. Z.div_mod_to_equations. lia.
Qed.

Lemma inlineCompositeListElementCount_range (w : Z) :
  0 <= WirePointer.inlineCompositeListElementCount w < 2 ^ 30.
Proof.
  unfold WirePointer.inlineCompositeListElementCount. pose proof (offsetAndKind_range w) as H.
  rewrite Z.shiftr_div_pow2 by lia.
  change (2 ^ 32) with 4294967296 in H. change (2 ^ 30) with 1073741824.
  change (2 ^ 2) with 4. Z.div_mod_to_equations. lia.
Qed.

Lemma roundUpToWords_bits_covers (bits : Z) :
  0 <= bits < 2 ^ 37 ->
  0 <= roundUpToWords_bits bits /\ bits <= BITS_PER_WORD * roundUpToWords_bits bits.
Proof.
  intros H. unfold roundUpToWords_bits, u64, u32, BITS_PER_WORD.
  change (2 ^ 37) with 137438953472 in H.
  rewrite (Z.mod_small (bits + 63))
    by (change (2 ^ 64) with 18446744073709551616; lia).
  assert (Hq : 0 <= (bits + 63) / 64 < 2 ^ 32)
    by (change (2 ^ 32) with 4294967296; Z.div_mod_to_equations; lia).
  rewrite (Z.mod_small _ _ Hq). Z.div_mod_to_equations. lia.
Qed.

Lemma roundUpToWords_bytes_covers (bytes : Z) :
  0 <= bytes < 2 ^ 29 ->
  0 <= roundUpToWords_bytes bytes /\ bytes <= BYTES_PER_WORD * roundUpToWords_bytes bytes.
Proof.
  intros H. unfold roundUpToWords_bytes, u32, BYTES_PER_WORD.
  change (2 ^ 29) with 536870912 in H.
  rewrite (Z.mod_small (bytes + 7)) by (change (2 ^ 32) with 4294967296; lia).
  Z.div_mod_to_equations. lia.
Qed.

(** The elements of a list of primitives or pointers (at most one word per
    element), read through a reader on a segment of the message, all lie
    inside that segment. *)
Definition listInBounds (r : ListReader) (a : ReaderArena) : Prop :=
  forall id, lr_segment r = Checked id -> lr_step r <= BITS_PER_WORD ->
    exists ptr : Z,
      lr_ptr r = Some ptr /\ 0 <= ptr /\ 0 <= lr_elementCount r /\ 0 <= lr_step r
      /\ BITS_PER_WORD * ptr + lr_elementCount r * lr_step r
         <= BITS_PER_WORD * Z.of_nat (length (getArray id a)).

(** The elements are at least as large as the caller expects. *)
Definition listCompatible (expected : FieldSize) (r : ListReader) : Prop :=
  dataBitsPerElement expected <= lr_structDataSize r
  /\ pointersPerElement expected <= lr_structPointerCount r.

Definition listChecked (segment : SegmentRef) (expected : FieldSize) (nestingLimit : Z)
    (a a1 : ReaderArena) (x : ListReader) : Prop :=
  errors a1 = errors a /\ 0 < nestingLimit /\ lr_nestingLimit x = nestingLimit - 1
  /\ lr_ptr x <> None
  /\ listInBounds x a
  /\ listCompatible expected x
  /\ (isChecked segment ->
      isChecked (lr_segment x)
      /\ (lr_step x <= BITS_PER_WORD ->
          lr_elementCount x * lr_step x <= BITS_PER_WORD * (limit a - limit a1)))
  /\ (forall blob, segment = Unchecked blob -> lr_segment x = segment /\ a1 = a).

Lemma readListPointer_checks_safe (segment : SegmentRef) (ref : Loc) (expected : FieldSize)
    (nestingLimit : Z) (a : ReaderArena) :
  let '(r, a1) := readListPointer_checks segment ref expected nestingLimit a in
  advances a a1
  /\ match r with
     | Some x => listChecked segment expected nestingLimit a a1 x
     | None => (length (errors a) < length (errors a1))%nat
     end.
Proof.
  unfold readListPointer_checks.
  destruct (Z.gtb_spec nestingLimit 0) as [Hnl|Hnl]; cbn [negb].
  2: { split; [apply advances_recordError|]. rewrite recordError_length. lia. }
  pose proof (followFars_advances ref segment a) as HF.
  destruct (followFars ref segment a) as [[[ptr ref1] segment1] a1].
  destruct HF as (HA & HC & HU & HS & HN).
  destruct ptr as [ptr0|].
  2: { split; [exact HA | apply HN; reflexivity]. }
  specialize (HS ltac:(discriminate)).
  set (w := wordOf ref1 a1).
  destruct (WirePointer.Kind_eqb (WirePointer.kind w) WirePointer.LIST); cbn [negb].
  2: { split; [apply advances_then_error, HA|]. rewrite recordError_length, HS. lia. }
  assert (Hm : forall id, getArray id a = getArray id a1).
  { intros id. unfold getArray. rewrite (proj1 HA). reflexivity. }
  assert (Hfail : forall (msg : string) (a2 : ReaderArena),
    advances a1 a2 ->
    advances a (recordError msg a2)
    /\ (length (errors a) < length (errors (recordError msg a2)))%nat).
  { intros msg a2 H2. split; [apply advances_then_error; eapply advances_trans; eauto|].
    rewrite recordError_length. destruct H2 as (_ & _ & _ & more & ->).
    rewrite length_app, HS. lia. }
  pose proof (elementCount_range w) as Hec.
  destruct (WirePointer.elementSize w) eqn:Ees.
  8: {
    unfold WirePointer.inlineCompositeWordCount, POINTER_SIZE_IN_WORDS.
    destruct (boundsCheck_advances segment1 (ptr0 + 1 - 1)
                (ptr0 + 1 + WirePointer.elementCount w) a1 ltac:(lia)) as (HB1 & HB2 & HB3).
    destruct (boundsCheck segment1 (ptr0 + 1 - 1) (ptr0 + 1 + WirePointer.elementCount w) a1)
      as [ok a2].
    cbn [fst snd] in HB1, HB2.
    destruct ok; cbn [negb]; [|apply Hfail, HB1].
    destruct (HB2 eq_refl) as [HE HIn].
    set (tag := wordOf (segment1, ptr0) a2).
    destruct (WirePointer.Kind_eqb (WirePointer.kind tag) WirePointer.STRUCT); cbn [negb];
      [|apply Hfail, HB1].
    pose proof (inlineCompositeListElementCount_range tag) as Hsz.
    pose proof (dataSize_range tag) as HD. pose proof (ptrCount_range tag) as HR.
    destruct (Z.leb_spec (u32 (WirePointer.inlineCompositeListElementCount tag
                               * WirePointer.wordSize tag)) (WirePointer.elementCount w))
      as [Hfit|Hfit]; cbn [negb]; [|apply Hfail, HB1].
    assert (Hres : forall shift : Z,
      (shift = 0 \/ (shift = WirePointer.dataSize tag /\ 0 < WirePointer.ptrCount tag)) ->
      listCompatible expected
        (mkListReader segment1 (Some (ptr0 + 1 + shift))
           (WirePointer.inlineCompositeListElementCount tag)
           (WirePointer.wordSize tag * BITS_PER_WORD)
           (WirePointer.dataSize tag * BITS_PER_WORD)
           (WirePointer.ptrCount tag) (nestingLimit - 1)) ->
      advances a a2
      /\ listChecked segment expected nestingLimit a a2
           (mkListReader segment1 (Some (ptr0 + 1 + shift))
              (WirePointer.inlineCompositeListElementCount tag)
              (WirePointer.wordSize tag * BITS_PER_WORD)
              (WirePointer.dataSize tag * BITS_PER_WORD)
              (WirePointer.ptrCount tag) (nestingLimit - 1))).
    { intros shift Hshift Hcompat.
      split; [eapply advances_trans; eauto|].
      unfold listChecked. cbn [lr_segment lr_ptr lr_elementCount lr_step lr_nestingLimit].
      split; [congruence|]. split; [lia|]. split; [reflexivity|]. split; [discriminate|].
      assert (Hsmall : WirePointer.wordSize tag * BITS_PER_WORD <= BITS_PER_WORD ->
        shift = 0
        /\ WirePointer.inlineCompositeListElementCount tag * WirePointer.wordSize tag
           <= WirePointer.elementCount w
        /\ 0 <= WirePointer.wordSize tag <= 1).
      { unfold WirePointer.wordSize, WORDS_PER_POINTER, BITS_PER_WORD. intros Hle.
        assert (Hw1 : WirePointer.dataSize tag + WirePointer.ptrCount tag * 1 = 0
                      \/ WirePointer.dataSize tag + WirePointer.ptrCount tag * 1 = 1) by lia.
        unfold WirePointer.wordSize, WORDS_PER_POINTER in Hfit.
        split; [lia|]. split; [|lia].
        destruct Hw1 as [Hw1|Hw1]; rewrite Hw1 in *.
        - lia.
        - rewrite u32_small in Hfit by (change (2 ^ 32) with 4294967296;
            change (2 ^ 30) with 1073741824 in Hsz; lia). exact Hfit. }
      split; [|split; [exact Hcompat|split]].
      - intros id Hid Hstep. cbn [lr_segment lr_ptr lr_elementCount lr_step] in *.
        destruct (Hsmall Hstep) as (-> & Hprod & Hws).
        destruct (HIn id Hid) as (K1 & K2 & K3).
        exists (ptr0 + 1 + 0). rewrite Hm. unfold BITS_PER_WORD in *.
        split; [reflexivity|]. split; [lia|]. split; [lia|]. split; [lia|]. lia.
      - intros Hc. specialize (HC Hc). split; [exact HC|]. intros Hstep.
        destruct (Hsmall Hstep) as (_ & Hprod & Hws).
        destruct HC as [id1 Hid1]. destruct (HIn id1 Hid1) as (K1 & K2 & K3).
        destruct HA as (_ & HL & _). unfold BITS_PER_WORD in *. lia.
      - intros blob Hb. destruct (HU blob Hb) as [-> ->]. split; [reflexivity|].
        subst segment. specialize (HB3 blob eq_refl). congruence. }
    assert (Hcv : forall shift, listCompatible VOID
        (mkListReader segment1 (Some (ptr0 + 1 + shift))
           (WirePointer.inlineCompositeListElementCount tag)
           (WirePointer.wordSize tag * BITS_PER_WORD)
           (WirePointer.dataSize tag * BITS_PER_WORD)
           (WirePointer.ptrCount tag) (nestingLimit - 1))).
    { intros shift. unfold listCompatible, BITS_PER_WORD. cbn. lia. }
    destruct expected; cbv zeta.
    - replace (ptr0 + 1) with (ptr0 + 1 + 0) by lia. apply Hres; [auto | apply Hcv].
    - apply Hfail, HB1.
    - destruct (Z.gtb_spec (WirePointer.dataSize tag) 0); cbn [negb]; [|apply Hfail, HB1].
      replace (ptr0 + 1) with (ptr0 + 1 + 0) by lia. apply Hres; [auto|].
      unfold listCompatible, BITS_PER_WORD. cbn. lia.
    - destruct (Z.gtb_spec (WirePointer.dataSize tag) 0); cbn [negb]; [|apply Hfail, HB1].
      replace (ptr0 + 1) with (ptr0 + 1 + 0) by lia. apply Hres; [auto|].
      unfold listCompatible, BITS_PER_WORD. cbn. lia.
    - destruct (Z.gtb_spec (WirePointer.dataSize tag) 0); cbn [negb]; [|apply Hfail, HB1].
      replace (ptr0 + 1) with (ptr0 + 1 + 0) by lia. apply Hres; [auto|].
      unfold listCompatible, BITS_PER_WORD. cbn. lia.
    - destruct (Z.gtb_spec (WirePointer.dataSize tag) 0); cbn [negb]; [|apply Hfail, HB1].
      replace (ptr0 + 1) with (ptr0 + 1 + 0) by lia. apply Hres; [auto|].
      unfold listCompatible, BITS_PER_WORD. cbn. lia.
    - destruct (Z.gtb_spec (WirePointer.ptrCount tag) 0); cbn [negb]; [|apply Hfail, HB1].
      apply Hres; [right; split; [reflexivity | lia]|].
      unfold listCompatible, BITS_PER_WORD. cbn. lia.
    - replace (ptr0 + 1) with (ptr0 + 1 + 0) by lia. apply Hres; [auto | apply Hcv]. }
  all: cbv zeta.
  all: match goal with
       | |- context [dataBitsPerElement ?es + pointersPerElement ?es * BITS_PER_POINTER] =>
         set (dsz := dataBitsPerElement es); set (pc := pointersPerElement es);
         assert (Hstep : 0 <= dsz + pc * BITS_PER_POINTER <= 64 /\ 0 <= dsz /\ 0 <= pc)
           by (subst dsz pc; cbv; repeat split; discriminate)
       end.
  all: set (step := dsz + pc * BITS_PER_POINTER) in *.
  all: assert (Hbits : 0 <= WirePointer.elementCount w * step < 2 ^ 37)
         by (change (2 ^ 29) with 536870912 in Hec; change (2 ^ 37) with 137438953472; nia).
  all: destruct (roundUpToWords_bits_covers _ Hbits) as [Hr0 Hr1].
  all: destruct (boundsCheck_advances segment1 ptr0
                   (ptr0 + roundUpToWords_bits (WirePointer.elementCount w * step)) a1
                   ltac:(lia)) as (HB1 & HB2 & HB3).
  all: destruct (boundsCheck segment1 ptr0
                   (ptr0 + roundUpToWords_bits (WirePointer.elementCount w * step)) a1)
         as [ok a2]; cbn [fst snd] in HB1, HB2.
  all: destruct ok; cbn [negb]; [|apply Hfail, HB1].
  all: destruct (HB2 eq_refl) as [HE HIn].
  all: destruct (Z.leb_spec (dataBitsPerElement expected) dsz); cbn [negb];
         [|apply Hfail, HB1].
  all: destruct (Z.leb_spec (pointersPerElement expected) pc); cbn [negb];
         [|apply Hfail, HB1].
  all: split; [eapply advances_trans; eauto|].
  all: unfold listChecked, listInBounds, listCompatible;
       cbn [lr_segment lr_ptr lr_elementCount lr_step lr_nestingLimit lr_structDataSize
            lr_structPointerCount].
  all: split; [congruence|]; split; [lia|]; split; [reflexivity|]; split; [discriminate|].
  all: split; [|split; [split; assumption|split]].
  all: try (intros id Hid _; destruct (HIn id Hid) as (K1 & K2 & K3);
            exists ptr0; rewrite Hm; unfold BITS_PER_WORD in *;
            split; [reflexivity|]; split; [lia|]; split; [lia|]; split; [lia|]; lia).
  all: try (intros Hc; specialize (HC Hc); split; [exact HC|]; intros _;
            destruct HC as [id1 Hid1]; destruct (HIn id1 Hid1) as (K1 & K2 & K3);
            destruct HA as (_ & HL & _); unfold BITS_PER_WORD in *; lia).
  all: intros blob Hb; destruct (HU blob Hb) as [-> ->]; split; [reflexivity|];
       subst segment; specialize (HB3 blob eq_refl); congruence.
Qed.


(** The code after the label [useDefault] of [readListPointer]. *)
Definition listDefault (defaultValue : option (list Z)) (expected : FieldSize)
    (nestingLimit : Z) (a : ReaderArena) : ListReader * ReaderArena :=
  match defaultValue with
  | None => (ListReader_default, a)
  | Some blob =>
    if WirePointer.isNull (wordAt blob 0) then (ListReader_default, a)
    else
      match readListPointer_checks (Unchecked blob) (Unchecked blob, 0)
              expected nestingLimit a with
      | (Some r, a1) => (r, a1)
      | (None, a1) => (ListReader_default, a1)
      end
  end.

Lemma readListPointer_unfold (segment : SegmentRef) (ref : option Loc)
    (defaultValue : option (list Z)) (expected : FieldSize) (nestingLimit : Z)
    (a : ReaderArena) :
  readListPointer segment ref defaultValue expected nestingLimit a
  = match ref with
    | None => listDefault defaultValue expected nestingLimit a
    | Some r =>
      if WirePointer.isNull (wordOf r a) then listDefault defaultValue expected nestingLimit a
      else
        match readListPointer_checks segment r expected nestingLimit a with
        | (Some x, a1) => (x, a1)
        | (None, a1) => listDefault defaultValue expected nestingLimit a1
        end
    end.
Proof. reflexivity. Qed.

Lemma readListPointer_checks_nested (segment : SegmentRef) (ref : Loc) (expected : FieldSize)
    (nestingLimit : Z) (a : ReaderArena) :
  nestingLimit <= 0 ->
  readListPointer_checks segment ref expected nestingLimit a
  = (None, recordError
       "Message is too deeply-nested or contains cycles.  See capnproto::ReadOptions." a).
Proof.
  intros Hn. unfold readListPointer_checks.
  destruct (Z.gtb_spec nestingLimit 0); [lia | reflexivity].
Qed.

Lemma listInBounds_message (r : ListReader) (a a1 : ReaderArena) :
  message a1 = message a -> listInBounds r a -> listInBounds r a1.
Proof.
  intros Hm H id Hid Hs. destruct (H id Hid Hs) as (ptr & K).
  exists ptr. unfold getArray in *. rewrite Hm. exact K.
Qed.

Lemma listDefault_safe (defaultValue : option (list Z)) (expected : FieldSize)
    (nestingLimit : Z) (a : ReaderArena) :
  let r := fst (listDefault defaultValue expected nestingLimit a) in
  let a1 := snd (listDefault defaultValue expected nestingLimit a) in
  advances a a1 /\ ~ isChecked (lr_segment r)
  /\ (lr_ptr r <> None ->
      listCompatible expected r /\ 0 < nestingLimit /\ lr_nestingLimit r = nestingLimit - 1)
  /\ (nestingLimit <= 0 -> r = ListReader_default /\ limit a1 = limit a).
Proof.
  assert (Hnc : ~ isChecked (lr_segment ListReader_default))
    by (intros [id H]; discriminate H).
  assert (Hnone : lr_ptr ListReader_default <> None ->
    listCompatible expected ListReader_default /\ 0 < nestingLimit
    /\ lr_nestingLimit ListReader_default = nestingLimit - 1)
    by (intros H; destruct H; reflexivity).
  unfold listDefault. destruct defaultValue as [blob|]; cbv zeta.
  2: { cbn [fst snd]. split; [apply advances_refl | auto]. }
  destruct (WirePointer.isNull (wordAt blob 0)).
  { cbn [fst snd]. split; [apply advances_refl | auto]. }
  pose proof (readListPointer_checks_safe (Unchecked blob) (Unchecked blob, 0) expected
                nestingLimit a) as H.
  pose proof (readListPointer_checks_nested (Unchecked blob) (Unchecked blob, 0) expected
                nestingLimit a) as Hz.
  destruct (readListPointer_checks (Unchecked blob) (Unchecked blob, 0) expected
              nestingLimit a) as [[x|] a1]; cbn [fst snd]; destruct H as [HA H].
  - destruct H as (_ & Hnl & Hn1 & _ & _ & Hcompat & _ & Hu).
    destruct (Hu blob eq_refl) as [Hs ->].
    split; [apply advances_refl|].
    split; [rewrite Hs; intros [id K]; discriminate K|]. split; [auto | lia].
  - split; [exact HA|]. split; [exact Hnc|]. split; [exact Hnone|].
    intros Hn. specialize (Hz Hn). injection Hz as ->. split; reflexivity.
Qed.

(** X5.  [readListPointer], for every segment, pointer, default value,
    expected element size, nesting limit and arena: the message is left as
    it was, the limiter does not grow and the error log is only extended; a
    list of elements of at most one word returned on a segment of the message
    has all its elements inside that segment, and their bits were charged to
    the limiter; a list that is not the empty default has elements at least
    as large as expected and carries the nesting limit less one; a list on a
    segment of the message was read without an error; and with no nesting
    left the result is the empty default list and nothing is charged. *)
Theorem X5_readListPointer_safe (segment : SegmentRef) (ref : option Loc)
    (defaultValue : option (list Z)) (expected : FieldSize) (nestingLimit : Z)
    (a : ReaderArena) :
  let r := fst (readListPointer segment ref defaultValue expected nestingLimit a) in
  let a1 := snd (readListPointer segment ref defaultValue expected nestingLimit a) in
  advances a a1
  /\ listInBounds r a1
  /\ (lr_ptr r <> None ->
      listCompatible expected r /\ 0 < nestingLimit /\ lr_nestingLimit r = nestingLimit - 1)
  /\ (isChecked (lr_segment r) ->
      errors a1 = errors a
      /\ (lr_step r <= BITS_PER_WORD ->
          lr_elementCount r * lr_step r <= BITS_PER_WORD * (limit a - limit a1)))
  /\ (nestingLimit <= 0 -> r = ListReader_default /\ limit a1 = limit a).
Proof.
  assert (Hwrap : forall a0 : ReaderArena, advances a a0 -> limit a0 = limit a ->
    let p := listDefault defaultValue expected nestingLimit a0 in
    advances a (snd p) /\ listInBounds (fst p) (snd p)
    /\ (lr_ptr (fst p) <> None ->
        listCompatible expected (fst p) /\ 0 < nestingLimit
        /\ lr_nestingLimit (fst p) = nestingLimit - 1)
    /\ (isChecked (lr_segment (fst p)) ->
        errors (snd p) = errors a
        /\ (lr_step (fst p) <= BITS_PER_WORD ->
            lr_elementCount (fst p) * lr_step (fst p)
            <= BITS_PER_WORD * (limit a - limit (snd p))))
    /\ (nestingLimit <= 0 -> fst p = ListReader_default /\ limit (snd p) = limit a)).
  { intros a0 HA0 HL p.
    destruct (listDefault_safe defaultValue expected nestingLimit a0) as (K1 & K2 & K3 & K4).
    fold p in K1, K2, K3, K4.
    split; [eapply advances_trans; eauto|].
    split; [intros id Hid; destruct K2; eexists; exact Hid|].
    split; [exact K3|]. split; [intros Hc; destruct (K2 Hc)|].
    intros Hn. destruct (K4 Hn). split; [assumption | congruence]. }
  cbv zeta. rewrite readListPointer_unfold.
  destruct ref as [r|]; [|apply (Hwrap a (advances_refl a) eq_refl)].
  destruct (WirePointer.isNull (wordOf r a));
    [apply (Hwrap a (advances_refl a) eq_refl)|].
  pose proof (readListPointer_checks_safe segment r expected nestingLimit a) as H.
  pose proof (readListPointer_checks_nested segment r expected nestingLimit a) as Hz.
  destruct (readListPointer_checks segment r expected nestingLimit a) as [[x|] a1];
    destruct H as [HA H].
  - cbn [fst snd]. destruct H as (HE & Hnl & Hn1 & Hp & Hin & Hcompat & Hc & Hu).
    split; [exact HA|]. split; [eapply listInBounds_message; [|exact Hin]; apply HA|].
    split; [auto|]. split; [|lia]. intros Hx. split; [exact HE|].
    destruct segment as [id|blob].
    + destruct (Hc ltac:(eexists; reflexivity)) as [_ Hl]. exact Hl.
    + destruct (Hu blob eq_refl) as [Hs _]. rewrite Hs in Hx. destruct Hx as [id K].
      discriminate K.
  - destruct (Z_le_gt_dec nestingLimit 0) as [Hn|Hn].
    + specialize (Hz Hn). injection Hz as ->.
      eapply Hwrap; [apply advances_recordError | reflexivity].
    + destruct (listDefault_safe defaultValue expected nestingLimit a1)
        as (K1 & K2 & K3 & K4).
      split; [eapply advances_trans; eauto|].
      split; [intros id Hid; destruct K2; eexists; exact Hid|].
      split; [exact K3|]. split; [intros Hc; destruct (K2 Hc) | lia].
Qed.

(** A text or data reader into a segment of the message views [t_size t]
    bytes and [extra] more, all inside that segment and charged to the
    limiter. *)
Definition blobInBounds (extra : Z) (t : TextReader) (a a1 : ReaderArena) : Prop :=
  forall (id : nat) (off : Z), t_ptr t = SegmentChars (Checked id) off ->
    0 <= off /\ 0 <= t_size t
    /\ off + t_size t + extra <= BYTES_PER_WORD * Z.of_nat (length (getArray id a1))
    /\ t_size t + extra <= BYTES_PER_WORD * (limit a - limit a1)
    /\ errors a1 = errors a.

(** X6.  [readTextPointer] and [readDataPointer], for every segment, pointer,
    default value and arena: the message is left as it was, the limiter does
    not grow and the error log is only extended; the bytes of a reader
    returned into a segment of the message (for text, with the terminating
    NUL) lie inside that segment, were charged to the limiter and were read
    without an error. *)
Theorem X6_blob_readers_safe (segment : SegmentRef) (ref : option Loc)
    (defaultValue : option (list Z)) (defaultSize : Z) (a : ReaderArena) :
  (let t := fst (readTextPointer segment ref defaultValue defaultSize a) in
   let a1 := snd (readTextPointer segment ref defaultValue defaultSize a) in
   advances a a1 /\ blobInBounds 1 t a a1)
  /\ (let t := fst (readDataPointer segment ref defaultValue defaultSize a) in
      let a1 := snd (readDataPointer segment ref defaultValue defaultSize a) in
      advances a a1 /\ blobInBounds 0 t a a1).
Proof.
  assert (Hst : forall extra d a0 a1, blobInBounds extra (mkTextReader (StaticChars d) defaultSize) a0 a1)
    by (intros extra d a0 a1 id off H; discriminate H).
  split; cbv zeta.
  - unfold readTextPointer, defaultText.
    destruct ref as [r|]; [|cbn [fst snd]; split; [apply advances_refl | apply Hst]].
    destruct (WirePointer.isNull (wordOf r a));
      [cbn [fst snd]; split; [apply advances_refl | apply Hst]|].
    pose proof (followFars_advances r segment a) as HF.
    destruct (followFars r segment a) as [[[ptr ref1] segment1] a1].
    destruct HF as (HA & HC & HU & HS & HN).
    destruct ptr as [ptr|]; [|cbn [fst snd]; split; [exact HA | apply Hst]].
    specialize (HS ltac:(discriminate)).
    set (w := wordOf ref1 a1).
    destruct (WirePointer.Kind_eqb (WirePointer.kind w) WirePointer.LIST); cbn [negb];
      [|cbn [fst snd]; split; [apply advances_then_error, HA | apply Hst]].
    pose proof (elementCount_range w) as Hec.
    destruct (roundUpToWords_bytes_covers _ Hec) as [Hr0 Hr1].
    destruct (WirePointer.elementSize w);
      try (cbn [fst snd]; split; [apply advances_then_error, HA | apply Hst]).
    destruct (boundsCheck_advances segment1 ptr
                (ptr + roundUpToWords_bytes (WirePointer.elementCount w)) a1 ltac:(lia))
      as (HB1 & HB2 & _).
    destruct (boundsCheck segment1 ptr
                (ptr + roundUpToWords_bytes (WirePointer.elementCount w)) a1) as [ok a2].
    cbn [fst snd] in HB1, HB2.
    assert (HA2 : advances a a2) by (eapply advances_trans; eauto).
    destruct ok; cbn [negb];
      [|cbn [fst snd]; split; [apply advances_then_error, HA2 | apply Hst]].
    destruct (Z.gtb_spec (WirePointer.elementCount w) 0); cbn [negb];
      [|cbn [fst snd]; split; [apply advances_then_error, HA2 | apply Hst]].
    destruct (charAt (SegmentChars segment1 (8 * ptr)) (WirePointer.elementCount w - 1) a2 =? 0);
      cbn [negb]; [|cbn [fst snd]; split; [apply advances_then_error, HA2 | apply Hst]].
    cbn [fst snd]. split; [exact HA2|].
    intros id off [= -> <-]. cbn [t_size]. destruct (HB2 eq_refl) as [HE HIn].
    destruct (HIn id eq_refl) as (K1 & K2 & K3).
    assert (Hm : getArray id a2 = getArray id a1).
    { unfold getArray. rewrite (proj1 HB1). reflexivity. }
    rewrite Hm. destruct HA as (_ & HL & _). unfold BYTES_PER_WORD in *.
    repeat split; try lia. congruence.
  - unfold readDataPointer, defaultData.
    destruct ref as [r|]; [|cbn [fst snd]; split; [apply advances_refl | apply Hst]].
    destruct (WirePointer.isNull (wordOf r a));
      [cbn [fst snd]; split; [apply advances_refl | apply Hst]|].
    pose proof (followFars_advances r segment a) as HF.
    destruct (followFars r segment a) as [[[ptr ref1] segment1] a1].
    destruct HF as (HA & HC & HU & HS & HN).
    destruct ptr as [ptr|]; [|cbn [fst snd]; split; [exact HA | apply Hst]].
    specialize (HS ltac:(discriminate)).
    set (w := wordOf ref1 a1).
    destruct (WirePointer.Kind_eqb (WirePointer.kind w) WirePointer.LIST); cbn [negb];
      [|cbn [fst snd]; split; [apply advances_then_error, HA | apply Hst]].
    pose proof (elementCount_range w) as Hec.
    destruct (roundUpToWords_bytes_covers _ Hec) as [Hr0 Hr1].
    destruct (WirePointer.elementSize w);
      try (cbn [fst snd]; split; [apply advances_then_error, HA | apply Hst]).
    destruct (boundsCheck_advances segment1 ptr
                (ptr + roundUpToWords_bytes (WirePointer.elementCount w)) a1 ltac:(lia))
      as (HB1 & HB2 & _).
    destruct (boundsCheck segment1 ptr
                (ptr + roundUpToWords_bytes (WirePointer.elementCount w)) a1) as [ok a2].
    cbn [fst snd] in HB1, HB2.
    assert (HA2 : advances a a2) by (eapply advances_trans; eauto).
    destruct ok; cbn [negb];
      [|cbn [fst snd]; split; [apply advances_then_error, HA2 | apply Hst]].
    cbn [fst snd]. split; [exact HA2|].
    intros id off [= -> <-]. cbn [t_size]. destruct (HB2 eq_refl) as [HE HIn].
    destruct (HIn id eq_refl) as (K1 & K2 & K3).
    assert (Hm : getArray id a2 = getArray id a1).
    { unfold getArray. rewrite (proj1 HB1). reflexivity. }
    rewrite Hm. destruct HA as (_ & HL & _). unfold BYTES_PER_WORD in *.
    repeat split; try lia. congruence.
Qed.

(** X7.  [ReadLimiter::unread] on a limiter that holds a 64-bit count: the
    limit is never lowered and stays a 64-bit count; it grows by [amount]
    when the sum fits in 64 bits, and is left as it was when the sum
    overflows; and unreading what [canRead] has just granted restores the
    arena. *)
Theorem X7_unread_guarded (amount : Z) (a : ReaderArena) :
  0 <= limit a < 2 ^ 64 -> 0 <= amount < 2 ^ 64 ->
  message (unread amount a) = message a
  /\ errors (unread amount a) = errors a
  /\ limit a <= limit (unread amount a) < 2 ^ 64
  /\ (limit a + amount < 2 ^ 64 -> limit (unread amount a) = limit a + amount)
  /\ (2 ^ 64 <= limit a + amount -> unread amount a = a)
  /\ (fst (canRead amount a) = true -> unread amount (snd (canRead amount a)) = a).
Proof.
  intros Hl Ha. unfold unread, u64.
  change (2 ^ 64) with 18446744073709551616 in *.
  assert (Hbig : 18446744073709551616 <= limit a + amount ->
    (limit a + amount) mod 18446744073709551616 = limit a + amount - 18446744073709551616).
  { intros H. symmetry. apply Z.mod_unique with (q := 1); lia. }
  split; [destruct (_ >? _); reflexivity|]. split; [destruct (_ >? _); reflexivity|].
  split; [|split; [|split]].
  - destruct (Z.gtb_spec ((limit a + amount) mod 18446744073709551616) (limit a));
      cbn [set_limit limit]; [|lia].
    pose proof (Z.mod_pos_bound (limit a + amount) 18446744073709551616 ltac:(lia)). lia.
  - intros H. rewrite Z.mod_small by lia.
    destruct (Z.gtb_spec (limit a + amount) (limit a)); cbn [set_limit limit]; lia.
  - intros H. rewrite (Hbig H).
    destruct (Z.gtb_spec (limit a + amount - 18446744073709551616) (limit a));
      [lia | reflexivity].
  - unfold canRead. destruct (Z.gtb_spec amount (limit a)); cbn [fst snd]; [discriminate|].
    intros _. cbn [set_limit limit message errors].
    replace (limit a - amount + amount) with (limit a) by lia.
    rewrite Z.mod_small by lia.
    destruct (Z.gtb_spec (limit a) (limit a - amount)) as [Hg|Hg].
    + destruct a; reflexivity.
    + assert (amount = 0) as -> by lia. rewrite Z.sub_0_r. destruct a; reflexivity.
Qed.

Lemma X7_unread_guarded_witness :
  let a := newReaderArena [[0; 0]] 5 in
  limit (unread 3 a) = 8 /\ unread 3 (snd (canRead 3 a)) = a.
Proof.
  intros a.
  destruct (X7_unread_guarded 3 a ltac:(cbv; split; [discriminate | reflexivity])
              ltac:(cbv; split; [discriminate | reflexivity]))
    as (_ & _ & _ & H1 & _ & H2).
  split; [apply H1; reflexivity | apply H2; reflexivity].
Defined.

(** X8.  [StructReader::readRoot]: a root location outside the segment gives
    the empty default reader, records [Root location out-of-bounds.] and
    charges nothing; in every case the guarantees of [readStructPointer]
    hold of the result, and a reader returned on a segment of the message
    means that the root pointer itself was inside the segment and was
    charged as one more word. *)
Theorem X8_readRoot_safe (location : Z) (segment : nat) (nestingLimit : Z)
    (a : ReaderArena) :
  let r := fst (readRoot location segment nestingLimit a) in
  let a1 := snd (readRoot location segment nestingLimit a) in
  (location < 0 \/ Z.of_nat (length (getArray segment a)) < location + 1 ->
   r = StructReader_default /\ a1 = recordError "Root location out-of-bounds." a)
  /\ advances a a1
  /\ structInBounds r a1
  /\ (isChecked (sr_segment r) ->
      0 <= location < Z.of_nat (length (getArray segment a))
      /\ 1 + sr_dataSize r / BITS_PER_WORD + sr_pointerCount r <= limit a - limit a1
      /\ errors a1 = errors a)
  /\ (r = StructReader_default
      \/ (0 < nestingLimit /\ sr_nestingLimit r = nestingLimit - 1)).
Proof.
  cbv zeta. unfold readRoot, POINTER_SIZE_IN_WORDS.
  assert (Hout : location < 0 \/ Z.of_nat (length (getArray segment a)) < location + 1 ->
    boundsCheck (Checked segment) location (location + 1) a = (false, a)).
  { intros H. cbn [boundsCheck]. unfold containsInterval.
    destruct (Z.geb_spec location 0); cbn [andb]; [|reflexivity].
    destruct (Z.leb_spec (location + 1) (Z.of_nat (length (getArray segment a))));
      [lia | reflexivity]. }
  destruct (boundsCheck_advances (Checked segment) location (location + 1) a ltac:(lia))
    as (HB1 & HB2 & _).
  destruct (boundsCheck (Checked segment) location (location + 1) a) as [ok a1].
  cbn [fst snd] in HB1, HB2.
  destruct ok; cbn [negb].
  - destruct (HB2 eq_refl) as [HE HIn]. destruct (HIn segment eq_refl) as (K1 & K2 & K3).
    split; [intros H; specialize (Hout H); discriminate Hout|].
    destruct (readStructPointer_safe (Checked segment) (Some (Checked segment, location))
                None nestingLimit a1) as (R1 & R2 & R3 & R4 & _).
    split; [eapply advances_trans; eauto|]. split; [exact R2|]. split; [|exact R4].
    intros Hc. destruct (R3 Hc) as [R5 R6]. split; [lia|]. split; [lia | congruence].
  - assert (Hdef : readStructPointer (Checked segment) None None nestingLimit
                     (recordError "Root location out-of-bounds." a1)
                   = (StructReader_default, recordError "Root location out-of-bounds." a1))
      by reflexivity.
    rewrite Hdef. cbn [fst snd].
    split; [intros H; specialize (Hout H); injection Hout as <-; split; reflexivity|].
    split; [apply advances_then_error, HB1|]. split; [apply structInBounds_default|].
    split; [intros [id K]; discriminate K | auto].
Qed.

(** A caller descending into nested structs: [getStructField] along a path
    of pointer indices, each with its default value. *)
Fixpoint getStructFields (path : list (Z * option (list Z))) (r : StructReader)
    (a : ReaderArena) : StructReader * ReaderArena :=
  match path with
  | [] => (r, a)
  | (ptrIndex, defaultValue) :: rest =>
    let '(r1, a1) := getStructField r ptrIndex defaultValue a in
    getStructFields rest r1 a1
  end.

Lemma getStructFields_default (path : list (Z * option (list Z))) (a : ReaderArena) :
  path <> [] ->
  fst (getStructFields path StructReader_default a) = StructReader_default
  /\ advances a (snd (getStructFields path StructReader_default a)).
Proof.
  revert a. induction path as [|[i d] rest IH]; intros a Hne; [destruct Hne; reflexivity|].
  cbn [getStructFields]. unfold getStructField.
  destruct (readStructPointer_safe (sr_segment StructReader_default)
              (pointerField StructReader_default i) d
              (sr_nestingLimit StructReader_default) a) as (K1 & _ & _ & _ & K5).
  destruct (readStructPointer (sr_segment StructReader_default)
              (pointerField StructReader_default i) d
              (sr_nestingLimit StructReader_default) a) as [r1 a1].
  cbn [fst snd] in K1, K5. destruct (K5 ltac:(cbn; lia)) as [-> _].
  destruct rest as [|p rest]; [cbn [getStructFields fst snd]; auto|].
  destruct (IH a1 ltac:(discriminate)) as [H1 H2].
  split; [exact H1 | eapply advances_trans; eauto].
Qed.

(** X9.  The nesting limit bounds the depth of a descent: following more
    struct pointers than the reader's nesting limit allows ends in the empty
    default reader, whatever the message holds (a cycle of pointers
    included); the message is left as it was and the limiter has not grown
    nor passed below zero. *)
Theorem X9_nesting_limit_bounds_depth (path : list (Z * option (list Z)))
    (r : StructReader) (a : ReaderArena) :
  0 <= sr_nestingLimit r < Z.of_nat (length path) ->
  fst (getStructFields path r a) = StructReader_default
  /\ advances a (snd (getStructFields path r a)).
Proof.
  revert r a. induction path as [|[i d] rest IH]; intros r a Hn; [cbn in Hn; lia|].
  cbn [getStructFields]. unfold getStructField.
  destruct (readStructPointer_safe (sr_segment r) (pointerField r i) d
              (sr_nestingLimit r) a) as (K1 & _ & _ & K4 & K5).
  destruct (readStructPointer (sr_segment r) (pointerField r i) d (sr_nestingLimit r) a)
    as [r1 a1].
  cbn [fst snd] in K1, K4, K5. cbn [length] in Hn.
  destruct (Z.eq_dec (sr_nestingLimit r) 0) as [Hz|Hz].
  - destruct (K5 ltac:(lia)) as [-> _].
    destruct rest as [|p rest]; [cbn [getStructFields fst snd]; auto|].
    destruct (getStructFields_default (p :: rest) a1 ltac:(discriminate)) as [H1 H2].
    split; [exact H1 | eapply advances_trans; eauto].
  - destruct K4 as [->|[K4 K6]].
    + destruct rest as [|p rest]; [cbn [getStructFields fst snd]; auto|].
      destruct (getStructFields_default (p :: rest) a1 ltac:(discriminate)) as [H1 H2].
      split; [exact H1 | eapply advances_trans; eauto].
    + destruct (IH r1 a1 ltac:(lia)) as [H1 H2].
      split; [exact H1 | eapply advances_trans; eauto].
Qed.

(** A message whose only struct holds one pointer, to the struct itself. *)
Definition cyclicMessage : ReaderArena :=
  newReaderArena [[2 ^ 48; 2 ^ 32 - 4 + 2 ^ 48]] 1000.

Lemma X9_nesting_limit_bounds_depth_witness :
  let r := fst (readRoot 0 0 3 cyclicMessage) in
  sr_data r = Some 1 /\ sr_pointerCount r = 1 /\ sr_nestingLimit r = 2
  /\ fst (getStructFields [(0, None); (0, None); (0, None)] r
            (snd (readRoot 0 0 3 cyclicMessage))) = StructReader_default.
Proof.
  intros r. split; [reflexivity|]. split; [reflexivity|]. split; [reflexivity|].
  apply (X9_nesting_limit_bounds_depth [(0, None); (0, None); (0, None)] r
           (snd (readRoot 0 0 3 cyclicMessage))).
  vm_compute. split; [discriminate | reflexivity].
Defined.

End ReaderSafetyProps.

(** ** Builders: new objects, and what a reader sees of them *)

Section BuilderProps.
Import Builder.

Ltac run H := rewrite (bind_run _ _ _ _ _ H); cbv beta iota.

(** The slot [ref] of [a2] reaches the words at [ptr] through the pointer
    word [v] stored at [ref1]: [ref1] is the slot itself, or a landing pad
    right before [ptr] that the slot names with a far pointer. *)
Definition slotReaches (a2 : BuilderArena) (ref ref1 ptr : BLoc) (v : Z) : Prop :=
  allocated a2 ref
  /\ peek a2 ref1 = Some v
  /\ WirePointer.kind v <> WirePointer.FAR
  /\ fst ref1 = fst ptr /\ WirePointer.target (snd ref1) v = snd ptr
  /\ (ref1 = ref
      \/ (ref1 <> ref /\ allocated a2 ref1 /\ ptr = plus ref1 1
          /\ exists f, peek a2 ref = Some f
               /\ WirePointer.kind f = WirePointer.FAR
               /\ WirePointer.isDoubleFar f = false
               /\ WirePointer.segmentId f = Z.of_nat (fst ref1)
               /\ WirePointer.farPositionInSegment f = snd ref1)).

(** [allocate] on a null slot, followed by a setter [g] of the upper half of
    the pointer it has written. *)
Lemma allocate_set_spec (fuel : nat) (ref : BLoc) (amount : Z) (k : WirePointer.Kind)
    (g : Z -> Z) (w e x : Z) (a : BuilderArena) :
  wfArena a ->
  Z.of_nat (length (b_segments a)) < 2 ^ 32 ->
  peek a ref = Some w -> WirePointer.isNull w = true ->
  allocated a ref ->
  segEnd a (fst ref) = Some e -> segPos a (fst ref) = Some x ->
  0 <= amount < 2 ^ 28 - 1 ->
  k <> WirePointer.FAR ->
  (forall v, WirePointer.offsetAndKind (g v) = WirePointer.offsetAndKind v) ->
  exists (ptr ref1 : BLoc) (v : Z) (a1 a2 : BuilderArena),
    allocate fuel ref (fst ref) amount k a = Some ((ptr, ref1, fst ptr), a1)
    /\ update ref1 g a1 = Some (tt, a2)
    /\ evolves (fun q => q = ref \/ unallocated a q) a a2
    /\ wfArena a2
    /\ unallocated a ptr /\ 0 <= snd ptr
    /\ (exists x1, segPos a2 (fst ptr) = Some x1 /\ snd ptr + amount <= x1)
    /\ (amount <= e - x -> ptr = (fst ref, x))
    /\ WirePointer.kind v = k
    /\ slotReaches a2 ref ref1 ptr (g v).
Proof.
  intros Hwf Hcount Hw Hnull Hal He Hx Ham Hk0 Hg.
  destruct (allocate_null_spec fuel ref amount k w e x a
              Hwf Hcount Hw Hnull Hal He Hx Ham)
    as (ptr & ref1 & v & a1 & Hrun & Hev & Hwf1 & Hlen & Hfst & Hun & Hp0 & Hpos & Hv & Hk
        & Ht & Hcase).
  destruct (update_spec ref1 g v a1 Hv) as (a2 & Hup & Hsh & Hpk).
  destruct (kind_low (g v) v (Hg v)) as (Hk2 & Ht2 & _).
  assert (Hv2 : peek a2 ref1 = Some (g v))
    by (rewrite Hpk, decide_True by reflexivity; reflexivity).
  assert (Hev2 : evolves (fun q => q = ref \/ unallocated a q) a a2).
  { eapply evolves_write; [exact Hev | exact Hsh|].
    intros q Hq. rewrite Hpk. destruct (decide (q = ref1)) as [->|]; [|reflexivity].
    destruct Hq. destruct (decide (amount <= e - x)); [left | right]; apply Hcase. }
  exists ptr, ref1, v, a1, a2.
  split; [exact Hrun|]. split; [exact Hup|]. split; [exact Hev2|].
  split; [eapply sameShape_wf; eauto|]. split; [exact Hun|]. split; [exact Hp0|].
  split; [destruct Hpos as (x1 & Hx1 & Hle); exists x1;
          rewrite (sameShape_segPos _ _ _ Hsh); auto|].
  split; [intros Hd; destruct (decide (amount <= e - x)); [apply Hcase | lia]|].
  split; [exact Hk|].
  split; [eapply evolves_allocated; eauto|]. split; [exact Hv2|].
  split; [congruence|]. split; [exact Hfst|]. split; [rewrite Ht2; exact Ht|].
  destruct (decide (amount <= e - x)) as [Hd|Hd].
  - left. apply Hcase.
  - right. destruct Hcase as (Hu1 & Ha1 & Hptr & f & Hf & Hfk & Hfd & Hfid & Hfpos).
    assert (Hne : ref1 <> ref).
    { intros ->. exact (allocated_not_unallocated a ref Hal Hu1). }
    split; [exact Hne|].
    split; [destruct Ha1 as (xa & Hxa & Hra); exists xa;
            rewrite (sameShape_segPos _ _ _ Hsh); auto|].
    split; [exact Hptr|]. exists f.
    split; [rewrite Hpk, decide_False by congruence; exact Hf | auto].
Qed.

(** The builder's [followFars] on a slot that reaches [ptr]. *)
Lemma slotReaches_followFars (a2 : BuilderArena) (ref ref1 ptr : BLoc) (v : Z) :
  slotReaches a2 ref ref1 ptr v ->
  followFars ref (fst ref) a2 = Some ((ptr, ref1, fst ptr), a2).
Proof.
  intros (Hal & Hv & Hk & Hfst & Ht & Hcase).
  assert (Htgt : targetOf ref1 v = ptr).
  { unfold targetOf. rewrite Ht, Hfst. destruct ptr; reflexivity. }
  destruct Hcase as [->|(Hne & Ha1 & _ & f & Hf & Hfk & Hfd & Hfid & Hfpos)].
  - rewrite followFars_unfold, Hv. apply Kind_eqb_false in Hk. rewrite Hk, Htgt, Hfst.
    reflexivity.
  - rewrite followFars_unfold, Hf. apply Kind_eqb_spec in Hfk. rewrite Hfk, Hfid, Hfpos.
    rewrite Nat2Z.id. cbv zeta.
    assert (Hlt : (fst ref1 < length (b_segments a2))%nat).
    { apply peek_Some in Hv. destruct Hv as (s & Hs & _). eapply lookup_lt_Some; eauto. }
    rewrite decide_True by lia.
    replace (fst ref1, snd ref1) with ref1 by (destruct ref1; reflexivity).
    rewrite Hv, Hfd, Htgt, Hfst. reflexivity.
Qed.

(** The slot is not null when the landing pad is elsewhere or the pointer
    word itself is not null. *)
Lemma slotReaches_not_null (a2 : BuilderArena) (ref ref1 ptr : BLoc) (v f : Z) :
  slotReaches a2 ref ref1 ptr v -> WirePointer.isNull v = false ->
  peek a2 ref = Some f -> WirePointer.isNull f = false.
Proof.
  intros (Hal & Hv & Hk & Hfst & Ht & Hcase) Hnn Hf.
  destruct Hcase as [->|(Hne & Ha1 & _ & f' & Hf' & Hfk & _)].
  - congruence.
  - rewrite Hf in Hf'. injection Hf' as <-.
    apply not_null. intros Hz. apply isNull_kind in Hz. congruence.
Qed.

(** [WireHelpers::initStructPointer] on a null slot. *)
Lemma initStructPointer_null_spec (fuel : nat) (ref : BLoc) (size : StructSize) (w e x : Z)
    (a : BuilderArena) :
  wfArena a ->
  Z.of_nat (length (b_segments a)) < 2 ^ 32 ->
  peek a ref = Some w -> WirePointer.isNull w = true ->
  allocated a ref ->
  segEnd a (fst ref) = Some e -> segPos a (fst ref) = Some x ->
  0 <= ss_data size < 2 ^ 16 -> 0 <= ss_pointers size < 2 ^ 16 ->
  exists (ptr ref1 : BLoc) (v : Z) (a1 : BuilderArena),
    initStructPointer fuel ref (fst ref) size a
    = Some (mkStructBuilder (fst ptr) ptr (plus ptr (ss_data size))
              (ss_data size * BITS_PER_WORD) (ss_pointers size) 0, a1)
    /\ evolves (fun q => q = ref \/ unallocated a q) a a1
    /\ wfArena a1
    /\ unallocated a ptr /\ 0 <= snd ptr
    /\ (exists x1, segPos a1 (fst ptr) = Some x1 /\ snd ptr + ss_total size <= x1)
    /\ (ss_total size <= e - x -> ptr = (fst ref, x))
    /\ slotReaches a1 ref ref1 ptr v
    /\ WirePointer.kind v = WirePointer.STRUCT
    /\ WirePointer.dataSize v = ss_data size
    /\ WirePointer.ptrCount v = ss_pointers size
    /\ (0 < ss_total size -> WirePointer.isNull v = false).
Proof.
  intros Hwf Hcount Hw Hnull Hal He Hx HD HR.
  assert (Ham : 0 <= ss_total size < 2 ^ 28 - 1).
  { unfold ss_total, WORDS_PER_POINTER. change (2 ^ 16) with 65536 in *.
    change (2 ^ 28) with 268435456. lia. }
  destruct (allocate_set_spec fuel ref (ss_total size) WirePointer.STRUCT
              (WirePointer.structRef_set (ss_data size) (ss_pointers size)) w e x a
              Hwf Hcount Hw Hnull Hal He Hx Ham ltac:(discriminate)
              ltac:(intros v0; apply (structRef_set_spec _ _ v0 HD HR)))
    as (ptr & ref1 & v & a1 & a2 & Hrun & Hup & Hev & Hwf2 & Hun & Hp0 & Hpos & Hhere & Hk
        & Hreach).
  unfold initStructPointer. run Hrun. run Hup. rewrite ret_run.
  destruct (structRef_set_spec (ss_data size) (ss_pointers size) v HD HR)
    as (Hlow & Hds & Hrc).
  destruct (kind_low _ _ Hlow) as (Hk2 & _).
  exists ptr, ref1, (WirePointer.structRef_set (ss_data size) (ss_pointers size) v), a2.
  split; [reflexivity|]. split; [exact Hev|]. split; [exact Hwf2|].
  split; [exact Hun|]. split; [exact Hp0|]. split; [exact Hpos|]. split; [exact Hhere|].
  split; [exact Hreach|]. split; [congruence|]. split; [exact Hds|]. split; [exact Hrc|].
  intros Hpos2. apply not_null. intros Hz. apply isNull_spec in Hz. destruct Hz as [_ Hz].
  assert (Hds0 : WirePointer.dataSize
                   (WirePointer.structRef_set (ss_data size) (ss_pointers size) v) = 0)
    by (unfold WirePointer.dataSize; rewrite Hz; reflexivity).
  assert (Hrc0 : WirePointer.ptrCount
                   (WirePointer.structRef_set (ss_data size) (ss_pointers size) v) = 0)
    by (unfold WirePointer.ptrCount; rewrite Hz; reflexivity).
  unfold ss_total, WORDS_PER_POINTER in Hpos2. lia.
Qed.

(** X10.  [initStructPointer] on a null slot of a well-formed arena returns a
    builder of exactly the requested size on words that were not allocated
    before and now are, taken from the slot's own segment when it has room;
    it writes only the slot and words that were unallocated; and, when the
    struct has at least one word, [getWritableStructPointer] on the same
    slot, for any expected size that fits and any default value, then
    returns that same builder and leaves the arena as it is. *)
Theorem X10_initStructPointer_then_get (fuel : nat) (ref : BLoc) (size : StructSize)
    (w e x : Z) (a : BuilderArena) :
  wfArena a ->
  Z.of_nat (length (b_segments a)) < 2 ^ 32 ->
  peek a ref = Some w -> WirePointer.isNull w = true ->
  allocated a ref ->
  segEnd a (fst ref) = Some e -> segPos a (fst ref) = Some x ->
  0 <= ss_data size < 2 ^ 16 -> 0 <= ss_pointers size < 2 ^ 16 ->
  exists (b : StructBuilder) (a1 : BuilderArena),
    initStructPointer fuel ref (fst ref) size a = Some (b, a1)
    /\ b = mkStructBuilder (fst (stb_data b)) (stb_data b)
             (plus (stb_data b) (ss_data size))
             (ss_data size * BITS_PER_WORD) (ss_pointers size) 0
    /\ evolves (fun q => q = ref \/ unallocated a q) a a1
    /\ wfArena a1
    /\ unallocated a (stb_data b) /\ 0 <= snd (stb_data b)
    /\ (exists x1, segPos a1 (fst (stb_data b)) = Some x1
                   /\ snd (stb_data b) + ss_total size <= x1)
    /\ (ss_total size <= e - x -> stb_data b = (fst ref, x))
    /\ (0 < ss_total size ->
        forall (fuel1 : nat) (size1 : StructSize) (defaultValue : option (list Z)),
          ss_data size1 <= ss_data size -> ss_pointers size1 <= ss_pointers size ->
          getWritableStructPointer fuel1 ref (fst ref) size1 defaultValue a1 = Some (b, a1)).
Proof.
  intros Hwf Hcount Hw Hnull Hal He Hx HD HR.
  destruct (initStructPointer_null_spec fuel ref size w e x a Hwf Hcount Hw Hnull Hal He Hx
              HD HR)
    as (ptr & ref1 & v & a1 & Hrun & Hev & Hwf1 & Hun & Hp0 & Hpos & Hhere & Hreach & Hk
        & Hds & Hrc & Hnn).
  eexists. exists a1. split; [exact Hrun|]. cbn [stb_data].
  split; [reflexivity|]. split; [exact Hev|]. split; [exact Hwf1|].
  split; [exact Hun|]. split; [exact Hp0|]. split; [exact Hpos|]. split; [exact Hhere|].
  intros Hpos1 fuel1 size1 defaultValue HD1 HR1.
  assert (Hf : is_Some (peek a1 ref)).
  { eapply allocated_peek; [exact Hwf1|]. eapply evolves_allocated; eauto. }
  destruct Hf as [f Hf].
  rewrite (getWritableStructPointer_in_place fuel1 ref ptr ref1 (fst ptr) size1 defaultValue
             f v a1 Hf (slotReaches_not_null a1 ref ref1 ptr v f Hreach (Hnn Hpos1) Hf)
             (slotReaches_followFars a1 ref ref1 ptr v Hreach)
             (proj1 (proj2 Hreach)) Hk ltac:(lia) ltac:(lia)).
  rewrite Hds, Hrc. reflexivity.
Qed.

(** *** What is written out: [getSegmentsForOutput] *)

(** A reader arena over the segments a builder arena hands out. *)
Definition readsOutputOf (a : BuilderArena) (ra : Reader.ReaderArena) : Prop :=
  Reader.message ra = getSegmentsForOutput a.

Lemma output_array (a : BuilderArena) (ra : Reader.ReaderArena) (id : nat)
    (s : SegmentBuilder) :
  readsOutputOf a ra -> b_segments a !! id = Some s ->
  Reader.getArray id ra = take (Z.to_nat (sb_pos s)) (sb_words s).
Proof.
  intros Hm Hs. unfold Reader.getArray. rewrite Hm. unfold getSegmentsForOutput.
  rewrite list_lookup_fmap, Hs. reflexivity.
Qed.

Lemma output_length (a : BuilderArena) (ra : Reader.ReaderArena) (id : nat) (x : Z) :
  readsOutputOf a ra -> wfArena a -> segPos a id = Some x ->
  Z.of_nat (length (Reader.getArray id ra)) = x.
Proof.
  intros Hm Hwf Hx. unfold segPos in Hx.
  destruct (b_segments a !! id) as [s|] eqn:Hs; [|discriminate].
  cbn in Hx. injection Hx as <-.
  rewrite (output_array a ra id s Hm Hs), length_take.
  destruct (proj1 Hwf id (sb_end s) (sb_pos s)) as [H1 H2];
    [unfold segEnd; rewrite Hs; reflexivity | unfold segPos; rewrite Hs; reflexivity|].
  unfold sb_end in H1. lia.
Qed.

Lemma output_word (a : BuilderArena) (ra : Reader.ReaderArena) (q : BLoc) (w : Z) :
  readsOutputOf a ra -> allocated a q -> peek a q = Some w ->
  Reader.wordOf (Reader.Checked (fst q), snd q) ra = w.
Proof.
  intros Hm (x & Hx & Hq) Hw. apply peek_Some in Hw. destruct Hw as (s & Hs & Hr & Hw).
  unfold segPos in Hx. rewrite Hs in Hx. cbn in Hx. injection Hx as <-.
  unfold Reader.wordOf. cbn [fst snd Reader.arrayOf].
  rewrite (output_array a ra (fst q) s Hm Hs). unfold wordAt.
  destruct (Z.ltb_spec (snd q) 0); [lia|].
  rewrite lookup_take_lt by lia. rewrite Hw. reflexivity.
Qed.

Lemma output_tryGetSegment (a : BuilderArena) (ra : Reader.ReaderArena) (q : BLoc) :
  readsOutputOf a ra -> wfArena a -> allocated a q ->
  Reader.tryGetSegment (Z.of_nat (fst q)) ra = Some (fst q).
Proof.
  intros Hm Hwf (x & Hx & Hq). unfold Reader.tryGetSegment.
  destruct (Z.ltb_spec (Z.of_nat (fst q)) 0); [lia|]. rewrite Nat2Z.id, Hm.
  unfold segPos in Hx. destruct (b_segments a !! fst q) as [s|] eqn:Hs; [|discriminate].
  cbn in Hx. injection Hx as <-.
  unfold getSegmentsForOutput. rewrite list_lookup_fmap, Hs. cbn.
  destruct (proj1 Hwf (fst q) (sb_end s) (sb_pos s)) as [H1 H2];
    [unfold segEnd; rewrite Hs; reflexivity | unfold segPos; rewrite Hs; reflexivity|].
  unfold currentlyAllocated, sb_end in *.
  destruct (take (Z.to_nat (sb_pos s)) (sb_words s)) as [|y ys] eqn:E; [|reflexivity].
  apply (f_equal length) in E. rewrite length_take in E. cbn in E. lia.
Qed.

Lemma containsInterval_ok (id : nat) (from to : Z) (ra : Reader.ReaderArena) :
  0 <= from -> from <= to -> to <= Z.of_nat (length (Reader.getArray id ra)) ->
  to - from <= Reader.limit ra ->
  Reader.containsInterval id from to ra
  = (true, Reader.set_limit (Reader.limit ra - (to - from)) ra).
Proof.
  intros H0 H1 H2 H3. unfold Reader.containsInterval.
  destruct (Z.geb_spec from 0); [|lia].
  destruct (Z.leb_spec to (Z.of_nat (length (Reader.getArray id ra)))); [|lia].
  cbn [andb]. rewrite interval_words. apply canRead_true. exact H3.
Qed.

(** The reader's [followFars] on a slot that reaches [ptr], over the output
    of the builder: it arrives at [ptr] and at the pointer word [v], having
    charged at most the landing pad. *)
Lemma reader_follows_slot (a : BuilderArena) (ra : Reader.ReaderArena)
    (ref ref1 ptr : BLoc) (v : Z) :
  readsOutputOf a ra -> wfArena a -> slotReaches a ref ref1 ptr v ->
  1 <= Reader.limit ra ->
  exists ra1 : Reader.ReaderArena,
    Reader.followFars (Reader.Checked (fst ref), snd ref) (Reader.Checked (fst ref)) ra
    = (Some (snd ptr), (Reader.Checked (fst ref1), snd ref1), Reader.Checked (fst ptr), ra1)
    /\ readsOutputOf a ra1
    /\ Reader.errors ra1 = Reader.errors ra
    /\ Reader.limit ra - 1 <= Reader.limit ra1 <= Reader.limit ra
    /\ Reader.wordOf (Reader.Checked (fst ref1), snd ref1) ra1 = v.
Proof.
  intros Hm Hwf (Hal & Hv & Hk & Hfst & Ht & Hcase) Hlim.
  destruct Hcase as [->|(Hne & Ha1 & _ & f & Hf & Hfk & Hfd & Hfid & Hfpos)].
  - pose proof (output_word a ra ref v Hm Hal Hv) as Hword.
    exists ra. rewrite followFars_direct by (cbn [fst snd]; rewrite Hword; exact Hk).
    cbn [fst snd]. rewrite Hword, Ht, Hfst.
    split; [reflexivity|]. split; [exact Hm|]. split; [reflexivity|]. split; [lia|].
    reflexivity.
  - pose proof (output_word a ra ref f Hm Hal Hf) as Hword.
    pose proof (output_word a ra ref1 v Hm Ha1 Hv) as Hpadw.
    pose proof (output_tryGetSegment a ra ref1 Hm Hwf Ha1) as Hseg.
    destruct Ha1 as (xr & Hxr & Hrr).
    pose proof (output_length a ra (fst ref1) xr Hm Hwf Hxr) as Hlen.
    exists (Reader.set_limit (Reader.limit ra - 1) ra).
    unfold Reader.followFars. rewrite Hword. apply Kind_eqb_spec in Hfk.
    rewrite Hfk, Hfid, Hseg, Hfd, Hfpos. cbv zeta.
    unfold POINTER_SIZE_IN_WORDS. cbn [Reader.boundsCheck].
    replace ((1 + 0) * 1) with 1 by reflexivity.
    rewrite (containsInterval_ok (fst ref1) (snd ref1) (snd ref1 + 1) ra ltac:(lia)
               ltac:(lia) ltac:(lia) ltac:(lia)).
    cbn [negb]. replace (snd ref1 + 1 - snd ref1) with 1 by lia.
    assert (Hpadw2 : Reader.wordOf (Reader.Checked (fst ref1), snd ref1)
                       (Reader.set_limit (Reader.limit ra - 1) ra) = v) by exact Hpadw.
    rewrite Hpadw2, Ht, Hfst.
    split; [reflexivity|]. split; [exact Hm|]. split; [reflexivity|].
    split; [cbn [Reader.set_limit Reader.limit]; lia|].
    reflexivity.
Qed.

(** X11.  What [initStructPointer] builds, [readStructPointer] reads: over
    the segments handed out by [getSegmentsForOutput], reading the slot with
    nesting left and a traversal limit of the struct's size and one word
    gives the reader of the very words of the builder, with the builder's
    sizes, and records no error. *)
Theorem X11_reader_sees_new_struct (fuel : nat) (ref : BLoc) (size : StructSize)
    (w e x nestingLimit lim : Z) (a : BuilderArena) :
  wfArena a ->
  Z.of_nat (length (b_segments a)) < 2 ^ 32 ->
  peek a ref = Some w -> WirePointer.isNull w = true ->
  allocated a ref ->
  segEnd a (fst ref) = Some e -> segPos a (fst ref) = Some x ->
  0 <= ss_data size < 2 ^ 16 -> 0 <= ss_pointers size < 2 ^ 16 ->
  0 < ss_total size -> 0 < nestingLimit -> ss_total size + 1 <= lim ->
  exists (b : StructBuilder) (a1 : BuilderArena),
    initStructPointer fuel ref (fst ref) size a = Some (b, a1)
    /\ let r := Reader.readStructPointer (Reader.Checked (fst ref))
                  (Some (Reader.Checked (fst ref), snd ref)) None nestingLimit
                  (Reader.newReaderArena (getSegmentsForOutput a1) lim) in
       fst r = Reader.mkStructReader (Reader.Checked (stb_segment b))
                 (Some (snd (stb_data b))) (Some (snd (stb_pointers b)))
                 (stb_dataSize b) (stb_pointerCount b) (stb_bit0Offset b)
                 (nestingLimit - 1)
       /\ Reader.errors (snd r) = []
       /\ lim - ss_total size - 1 <= Reader.limit (snd r).
Proof.
  intros Hwf Hcount Hw Hnull Hal He Hx HD HR Htot Hnl Hlim.
  destruct (initStructPointer_null_spec fuel ref size w e x a Hwf Hcount Hw Hnull Hal He Hx
              HD HR)
    as (ptr & ref1 & v & a1 & Hrun & Hev & Hwf1 & Hun & Hp0 & Hpos & Hhere & Hreach & Hk
        & Hds & Hrc & Hnn).
  eexists. exists a1. split; [exact Hrun|].
  cbn [stb_segment stb_data stb_pointers stb_dataSize stb_pointerCount stb_bit0Offset plus
       fst snd].
  set (ra := Reader.newReaderArena (getSegmentsForOutput a1) lim).
  assert (Hm : readsOutputOf a1 ra) by reflexivity.
  assert (Hal1 : allocated a1 ref) by apply Hreach.
  destruct (allocated_peek a1 ref Hwf1 Hal1) as [f Hf].
  pose proof (output_word a1 ra ref f Hm Hal1 Hf) as Hword.
  pose proof (slotReaches_not_null a1 ref ref1 ptr v f Hreach (Hnn Htot) Hf) as Hfn.
  destruct (reader_follows_slot a1 ra ref ref1 ptr v Hm Hwf1 Hreach
              ltac:(change (Reader.limit ra) with lim; lia))
    as (ra1 & HF & Hm1 & He1 & Hl1 & Hv1).
  change (Reader.limit ra) with lim in Hl1. change (Reader.errors ra) with (@nil string) in He1.
  destruct Hpos as (x1 & Hx1 & Hle1).
  assert (Hws : WirePointer.wordSize v = ss_total size)
    by (unfold WirePointer.wordSize, ss_total; rewrite Hds, Hrc; reflexivity).
  unfold Reader.readStructPointer. rewrite Hword, Hfn.
  unfold Reader.readStructPointer_checks.
  destruct (Z.gtb_spec nestingLimit 0); [|lia]. cbn [negb].
  rewrite HF. cbv zeta. rewrite Hv1. apply Kind_eqb_spec in Hk. rewrite Hk. cbn [negb].
  cbn [Reader.boundsCheck]. rewrite Hws.
  rewrite (containsInterval_ok (fst ptr) (snd ptr) (snd ptr + ss_total size) ra1 Hp0
             ltac:(lia)
             ltac:(rewrite (output_length a1 ra1 (fst ptr) x1 Hm1 Hwf1 Hx1); lia)
             ltac:(lia)).
  cbn [negb fst snd Reader.errors Reader.limit Reader.set_limit]. rewrite Hds, Hrc.
  split; [reflexivity|]. split; [exact He1 | lia].
Qed.



(** A builder arena of one 4-word segment whose first word, the only one
    allocated, is a null slot; and the same slot in a segment with no room
    left. *)
Definition rootSlot : BuilderArena :=
  mkBuilderArena (fun _ n => replicate (Z.to_nat n) 0) [mkSegmentBuilder [0; 0; 0; 0] 1] [].

Definition fullSlot : BuilderArena :=
  mkBuilderArena (fun _ n => replicate (Z.to_nat n) 0) [mkSegmentBuilder [0] 1] [].

Lemma rootSlot_wf : wfArena rootSlot.
Proof.
  split.
  - intros id e x He Hx. destruct id as [|id]; [|discriminate He].
    cbv in He, Hx. injection He as <-. injection Hx as <-. lia.
  - intros k n Hn. cbn [rootSlot b_message]. rewrite length_replicate. lia.
Defined.

Lemma fullSlot_wf : wfArena fullSlot.
Proof.
  split.
  - intros id e x He Hx. destruct id as [|id]; [|discriminate He].
    cbv in He, Hx. injection He as <-. injection Hx as <-. lia.
  - intros k n Hn. cbn [fullSlot b_message]. rewrite length_replicate. lia.
Defined.

Lemma rootSlot_allocated : allocated rootSlot (0%nat, 0).
Proof. exists 1. split; [reflexivity|]. cbn [snd]. lia. Defined.

Lemma fullSlot_allocated : allocated fullSlot (0%nat, 0).
Proof. exists 1. split; [reflexivity|]. cbn [snd]. lia. Defined.

Lemma X10_initStructPointer_then_get_witness :
  exists b a1,
    initStructPointer 0 (0%nat, 0) 0 (mkStructSize 1 1) rootSlot = Some (b, a1)
    /\ stb_data b = (0%nat, 1)
    /\ getWritableStructPointer 0 (0%nat, 0) 0 (mkStructSize 1 0) None a1 = Some (b, a1).
Proof.
  destruct (X10_initStructPointer_then_get 0 (0%nat, 0) (mkStructSize 1 1) 0 4 1 rootSlot
              rootSlot_wf ltac:(vm_compute; reflexivity) eq_refl eq_refl rootSlot_allocated
              eq_refl eq_refl ltac:(vm_compute; split; [discriminate | reflexivity])
              ltac:(vm_compute; split; [discriminate | reflexivity]))
    as (b & a1 & H1 & _ & _ & _ & _ & _ & _ & Hhere & Hget).
  exists b, a1. split; [exact H1|].
  split; [apply Hhere; vm_compute; discriminate|].
  apply Hget; vm_compute; [reflexivity | discriminate | discriminate].
Defined.

Lemma X11_reader_sees_new_struct_witness :
  exists b a1,
    initStructPointer 0 (0%nat, 0) 0 (mkStructSize 1 1) fullSlot = Some (b, a1)
    /\ fst (Reader.readStructPointer (Reader.Checked 0) (Some (Reader.Checked 0, 0)) None 5
              (Reader.newReaderArena (getSegmentsForOutput a1) 3))
       = Reader.mkStructReader (Reader.Checked (stb_segment b))
           (Some (snd (stb_data b))) (Some (snd (stb_pointers b)))
           (stb_dataSize b) (stb_pointerCount b) (stb_bit0Offset b) 4.
Proof.
  destruct (X11_reader_sees_new_struct 0 (0%nat, 0) (mkStructSize 1 1) 0 1 1 5 3 fullSlot
              fullSlot_wf ltac:(vm_compute; reflexivity) eq_refl eq_refl fullSlot_allocated
              eq_refl eq_refl ltac:(vm_compute; split; [discriminate | reflexivity])
              ltac:(vm_compute; split; [discriminate | reflexivity])
              ltac:(vm_compute; reflexivity) ltac:(vm_compute; reflexivity)
              ltac:(vm_compute; discriminate))
    as (b & a1 & H1 & H2 & _).
  exists b, a1. split; [exact H1 | exact H2].
Defined.


(** X13.  [BuilderArena::getSegmentWithAvailable] in a well-formed arena
    always returns a segment with the room asked for.  It either leaves the
    arena as it is and returns segment 0 or the last segment, or appends one
    fresh segment obtained from the message, with nothing allocated in it;
    segment 0 is taken whenever it has the room. *)
Theorem X13_getSegmentWithAvailable (minimumAvailable : Z) (a : BuilderArena) :
  wfArena a -> 0 <= minimumAvailable < 2 ^ 28 ->
  exists (id : nat) (a1 : BuilderArena),
    getSegmentWithAvailable minimumAvailable a = Some (id, a1)
    /\ wfArena a1
    /\ (exists e x, segEnd a1 id = Some e /\ segPos a1 id = Some x
                    /\ minimumAvailable <= e - x)
    /\ ((a1 = a /\ (id = 0%nat \/ S id = length (b_segments a)))
        \/ (id = length (b_segments a)
            /\ a1 = set_segments
                      (b_segments a
                       ++ [newSegmentBuilder (b_message a id minimumAvailable)]) a))
    /\ (forall s0 more, b_segments a = s0 :: more -> minimumAvailable <= available s0 ->
        id = 0%nat /\ a1 = a).
Proof.
  intros Hwf Hmin.
  destruct (getSegmentWithAvailable_spec minimumAvailable a Hwf Hmin)
    as (id & a1 & Hrun & _ & Hwf1 & _ & _ & _ & Hroom).
  exists id, a1. split; [exact Hrun|]. split; [exact Hwf1|]. split; [exact Hroom|].
  unfold getSegmentWithAvailable in Hrun.
  destruct (b_segments a) as [|segment0 more] eqn:Hsegs.
  - injection Hrun as <- <-. split; [|intros s0 more0 H; discriminate H].
    right. split; reflexivity.
  - destruct (Z.geb_spec (available segment0) minimumAvailable) as [Hge|Hlt].
    + injection Hrun as <- <-. split; [left; auto|]. auto.
    + split.
      * destruct (last more) as [back|] eqn:Hlast.
        -- destruct (Z.geb_spec (available back) minimumAvailable).
           ++ injection Hrun as <- <-. left. split; [reflexivity|]. right. reflexivity.
           ++ injection Hrun as <- <-. right. split; reflexivity.
        -- injection Hrun as <- <-. right. split; reflexivity.
      * intros s0 more0 [= <- <-] Hav. lia.
Qed.

Lemma X13_getSegmentWithAvailable_witness :
  exists a1,
    getSegmentWithAvailable 2 rootSlot = Some (0%nat, rootSlot)
    /\ getSegmentWithAvailable 4 rootSlot = Some (1%nat, a1)
    /\ segPos a1 1 = Some 0.
Proof.
  destruct (X13_getSegmentWithAvailable 2 rootSlot rootSlot_wf
              ltac:(vm_compute; split; [discriminate | reflexivity]))
    as (id & a1 & H1 & _ & _ & _ & H5).
  destruct (H5 _ _ eq_refl ltac:(vm_compute; discriminate)) as [-> ->].
  eexists. split; [exact H1|]. split; reflexivity.
Defined.

(** X14.  [zeroPointerAndFars] zeroes the pointer and, for a far pointer,
    its landing pad (both words of it for a double-far pointer), and nothing
    else: every other word, the body of the object included, reads as
    before, and no segment changes its size or its bump pointer. *)
Theorem X14_zeroPointerAndFars (segment : nat) (ref : BLoc) (w : Z) (a : BuilderArena) :
  peek a ref = Some w ->
  (forall q, In q (pads a ref) -> is_Some (peek a q)) ->
  exists a1, zeroPointerAndFars segment ref a = Some (tt, a1)
    /\ sameShape a a1
    /\ (forall q, q = ref \/ In q (pads a ref) -> peek a1 q = Some 0)
    /\ (forall q, q <> ref -> ~ In q (pads a ref) -> peek a1 q = peek a q).
Proof.
  intros Hw Hpads. unfold zeroPointerAndFars. run (load_run ref w a Hw).
  assert (Href : inSeg a ref 1) by (apply peek_is_Some; eauto).
  destruct (WirePointer.Kind_eqb (WirePointer.kind w) WirePointer.FAR) eqn:Hk.
  - apply Kind_eqb_spec in Hk.
    pose proof (pads_far a ref w Hw Hk) as Hin.
    set (pad := (Z.to_nat (WirePointer.segmentId w), WirePointer.farPositionInSegment w)) in *.
    set (n := 1 + (if WirePointer.isDoubleFar w then 1 else 0)) in *.
    assert (Hn : 1 <= n <= 2) by (subst n; destruct (WirePointer.isDoubleFar w); lia).
    assert (Hpad : inSeg a pad n).
    { assert (H0 : inSeg a pad 1).
      { apply peek_is_Some, Hpads, Hin. split; [reflexivity | lia]. }
      destruct (Z.eq_dec n 1) as [->|Hne]; [exact H0|].
      assert (H1 : inSeg a (plus pad 1) 1).
      { apply peek_is_Some, Hpads, Hin. unfold within, plus. cbn [fst snd].
        split; [reflexivity | lia]. }
      destruct H0 as (e & He & Hr0). destruct H1 as (e1 & He1 & Hr1).
      unfold plus in He1, Hr1. cbn [fst snd] in He1, Hr1.
      exists e. split; [exact He|]. rewrite He in He1. injection He1 as <-. lia. }
    assert (Hid : 0 <= WirePointer.segmentId w < Z.of_nat (length (b_segments a))).
    { destruct Hpad as (e & He & _). unfold segEnd in He. subst pad. cbn [fst] in He.
      destruct (b_segments a !! Z.to_nat (WirePointer.segmentId w)) eqn:E; [|discriminate].
      apply lookup_lt_Some in E. pose proof (upper32Bits_range w).
      unfold WirePointer.segmentId in *. lia. }
    destruct (memset0_spec pad n a Hpad) as (a1 & Hrun1 & Hsh1 & Hpk1).
    destruct (memset0_spec ref 1 a1 (sameShape_inSeg _ _ _ _ Hsh1 Href))
      as (a2 & Hrun2 & Hsh2 & Hpk2).
    exists a2. split; [|split; [|split]].
    + unfold bind at 1. unfold bind at 1. rewrite getSegment_spec, decide_True by exact Hid.
      fold pad. fold n. rewrite Hrun1. exact Hrun2.
    + eapply sameShape_trans; eauto.
    + intros q Hq. rewrite Hpk2. destruct (decide (within ref 1 q)); [reflexivity|].
      rewrite Hpk1, decide_True; [reflexivity|].
      destruct Hq as [->|Hq]; [|apply Hin, Hq].
      exfalso. apply n0, within_one. reflexivity.
    + intros q Hne Hnin. rewrite Hpk2, decide_False by (rewrite within_one; exact Hne).
      rewrite Hpk1, decide_False by (rewrite <- Hin; exact Hnin). reflexivity.
  - destruct (memset0_spec ref 1 a Href) as (a2 & Hrun2 & Hsh2 & Hpk2).
    assert (Hnopad : pads a ref = []).
    { unfold pads. rewrite Hw, Hk. reflexivity. }
    exists a2. split; [|split; [|split]].
    + unfold bind at 1. unfold ret. exact Hrun2.
    + exact Hsh2.
    + intros q [->|Hq]; [|rewrite Hnopad in Hq; destruct Hq].
      rewrite Hpk2, decide_True by (apply within_one; reflexivity). reflexivity.
    + intros q Hne _. rewrite Hpk2, decide_False by (rewrite within_one; exact Hne).
      reflexivity.
Qed.

(** Two segments: the slot in word 0 of segment 0 is a double-far pointer to
    the two-word landing pad at the start of segment 1, which names the
    struct of one data word at word 1 of segment 0. *)
Definition doubleFarSlot : BuilderArena :=
  mkBuilderArena (fun _ n => replicate (Z.to_nat n) 0)
    [mkSegmentBuilder [6 + 2 ^ 32; 4660] 2;
     mkSegmentBuilder [10; 2 ^ 32; 7] 3] [].

Lemma X14_zeroPointerAndFars_witness :
  exists a1,
    zeroPointerAndFars 0 (0%nat, 0) doubleFarSlot = Some (tt, a1)
    /\ map (peek a1) [(0%nat, 0); (0%nat, 1); (1%nat, 0); (1%nat, 1); (1%nat, 2)]
       = [Some 0; Some 4660; Some 0; Some 0; Some 7].
Proof.
  destruct (X14_zeroPointerAndFars 0 (0%nat, 0) (6 + 2 ^ 32) doubleFarSlot eq_refl)
    as (a1 & H1 & _ & H3 & H4).
  { intros q Hq. vm_compute in Hq. destruct Hq as [<-|[<-|[]]]; vm_compute; eauto. }
  exists a1. split; [exact H1|]. cbn [map].
  rewrite (H3 (0%nat, 0)) by (left; reflexivity).
  rewrite (H3 (1%nat, 0)) by (right; vm_compute; auto).
  rewrite (H3 (1%nat, 1)) by (right; vm_compute; auto).
  rewrite (H4 (0%nat, 1)) by (try discriminate; vm_compute; intros [H|[H|[]]]; discriminate H).
  rewrite (H4 (1%nat, 2)) by (try discriminate; vm_compute; intros [H|[H|[]]]; discriminate H).
  reflexivity.
Defined.

(** X15.  [transferPointer] in a well-formed arena, onto an allocated word
    [dst]: a null source leaves [dst] null; otherwise [dst] is left not null
    and leads, through far pointers, to the same object with the same kind
    and the same upper half as the source did, provided a direct source
    points inside the 2^29-word range and, within one segment, not past
    [dst].  Only [dst] and words that were unallocated are written. *)
Theorem X15_transferPointer (dst src : BLoc) (s : Z) (a : BuilderArena) :
  wfArena a ->
  Z.of_nat (length (b_segments a)) < 2 ^ 32 ->
  peek a src = Some s ->
  allocated a dst ->
  exists a1,
    transferPointer (fst dst) dst (fst src) src a = Some (tt, a1)
    /\ evolves (fun q => q = dst \/ unallocated a q) a a1
    /\ wfArena a1
    /\ (WirePointer.isNull s = true -> peek a1 dst = Some 0)
    /\ (WirePointer.isNull s = false ->
        forall r : BLoc * WirePointer.Kind * Z,
          (WirePointer.kind s <> WirePointer.FAR ->
           0 <= WirePointer.target (snd src) s < 2 ^ 29
           /\ (fst dst = fst src -> WirePointer.target (snd src) s <= snd dst)) ->
          resolve src (fst src) a = Some r ->
          (forall q, In q (pads a src) -> allocated a q /\ q <> dst) ->
          (exists d, peek a1 dst = Some d /\ WirePointer.isNull d = false)
          /\ resolve dst (fst dst) a1 = Some r).
Proof.
  intros Hwf Hcount Hs Hdst.
  destruct (transferPointer_spec nowhere dst src s a Hwf Hcount Hs Hdst
              ltac:(intros q [])) as (a1 & Hrun & Hev & Hwf1 & _ & Hnull & Hmove).
  exists a1. split; [exact Hrun|]. split; [exact Hev|]. split; [exact Hwf1|].
  split; [exact Hnull|].
  intros Hnn r Hrange Hres Hpads.
  destruct (Hmove Hnn r Hrange) as [Hd Hr].
  - split; [exact Hres|]. intros q Hq. destruct (Hpads q Hq) as [H1 H2].
    split; [exact H1|]. intros [[]|H]. exact (H2 H).
  - split; [exact Hd | apply Hr].
Qed.

(** One segment, all four words allocated: word 2 points to the struct of
    one data word in word 1; words 0 and 3 are null slots. *)
Definition twoSlots : BuilderArena :=
  mkBuilderArena (fun _ n => replicate (Z.to_nat n) 0)
    [mkSegmentBuilder [0; 4660; 2 ^ 32 - 8 + 2 ^ 32; 0] 4] [].

Lemma twoSlots_wf : wfArena twoSlots.
Proof.
  split.
  - intros id e x He Hx. destruct id as [|id]; [|discriminate He].
    cbv in He, Hx. injection He as <-. injection Hx as <-. lia.
  - intros k n Hn. cbn [twoSlots b_message]. rewrite length_replicate. lia.
Defined.

Lemma X15_transferPointer_witness :
  exists a1,
    transferPointer 0 (0%nat, 3) 0 (0%nat, 2) twoSlots = Some (tt, a1)
    /\ resolve (0%nat, 2) 0 twoSlots = Some ((0%nat, 1), WirePointer.STRUCT, 1)
    /\ resolve (0%nat, 3) 0 a1 = Some ((0%nat, 1), WirePointer.STRUCT, 1).
Proof.
  destruct (X15_transferPointer (0%nat, 3) (0%nat, 2) (2 ^ 32 - 8 + 2 ^ 32) twoSlots
              twoSlots_wf ltac:(vm_compute; reflexivity) eq_refl
              ltac:(exists 4; split; [reflexivity | cbn [snd]; lia]))
    as (a1 & H1 & _ & _ & _ & H5).
  exists a1. split; [exact H1|]. split; [reflexivity|].
  apply (H5 eq_refl ((0%nat, 1), WirePointer.STRUCT, 1)).
  - intros _. vm_compute. repeat split; try discriminate.
  - reflexivity.
  - intros q Hq. vm_compute in Hq. destruct Hq.
Defined.

End BuilderProps.

(** ** Packed codec: sizes and buffers *)

Section PackedBoundsProps.
Import Packed.

Lemma handleBytes_length (w : word8) : (length (handleBytes w) <= 8)%nat.
Proof. rewrite handleBytes_filter. apply (filter_length_le (bytes w)). Qed.

Lemma pack_length_le (n : nat) :
  forall m : list word8, (length m <= n)%nat -> (length (pack m) <= 10 * length m)%nat.
Proof.
  induction n as [|n IH]; intros m Hm.
  - destruct m; [cbn; lia | cbn [length] in Hm; lia].
  - destruct m as [|w rest]; [cbn; lia|].
    cbn [length] in Hm. rewrite pack_cons. cbn [length]. rewrite length_app.
    pose proof (handleBytes_length w) as Hh.
    pose proof (zeroRun_le 255 rest) as [_ Hz].
    pose proof (literalRun_le 255 rest) as [_ Hl].
    destruct (tagOf w =? 0); [|destruct (tagOf w =? 255)].
    + cbn [length].
      pose proof (IH (drop (zeroRun 255 rest) rest) ltac:(rewrite length_drop; lia)) as H.
      rewrite length_drop in H. lia.
    + cbn [length]. rewrite length_app, flat_map_bytes_length, length_take.
      pose proof (IH (drop (literalRun 255 rest) rest) ltac:(rewrite length_drop; lia)) as H.
      rewrite length_drop in H. lia.
    + pose proof (IH rest ltac:(lia)). lia.
Qed.

(** X16.  [PackedOutputStream::write]: the bytes that reach the inner stream
    do not depend on the sizes of the buffers the inner stream hands out;
    they extend what it had received by at most ten bytes for each input
    word, and by at least two bytes when there is any input. *)
Theorem X16_packed_write_size (gw1 gw2 : list Z -> Z) (before : list Z) (m : list word8) :
  write gw1 before m = write gw2 before m
  /\ exists packed : list Z,
       write gw1 before m = before ++ packed
       /\ (length packed <= 10 * length m)%nat
       /\ (m <> [] -> (2 <= length packed)%nat).
Proof.
  rewrite !write_pack. split; [reflexivity|]. exists (pack m).
  split; [reflexivity|]. split; [apply (pack_length_le (length m)); lia|].
  destruct m as [|w rest]; [intros H; destruct H; reflexivity|]. intros _.
  rewrite pack_cons_tail. cbn [length]. rewrite length_app.
  destruct (tagOf_cases w) as (_ & _ & _ & Hz & _).
  destruct (Z.eqb_spec (tagOf w) 0) as [E|E].
  - unfold tailOf. rewrite E. cbn [Z.eqb length]. lia.
  - assert (Hnz : List.filter nonzero (bytes w) <> []).
    { intros Hf. apply E, Hz.
      destruct w as [x0 x1 x2 x3 x4 x5 x6 x7]. unfold bytes in Hf.
      cbn [b0 b1 b2 b3 b4 b5 b6 b7 List.filter] in Hf. unfold nonzero in Hf.
      repeat match type of Hf with
             | context [?x =? 0] => destruct (Z.eqb_spec x 0); cbn [negb] in Hf;
                                    [subst | discriminate Hf]
             end.
      reflexivity. }
    destruct (List.filter nonzero (bytes w)); [contradiction|]. cbn [length]. lia.
Qed.

Lemma zeroRun_replicate (limit n : nat) :
  zeroRun limit (replicate n zeroWord) = Nat.min limit n.
Proof.
  revert n. induction limit as [|limit IH]; intros [|n]; try reflexivity.
  cbn [replicate zeroRun]. replace (forallb (fun b => b =? 0) (bytes zeroWord)) with true
    by reflexivity.
  rewrite IH. reflexivity.
Qed.

Lemma pack_zero_words (k r : nat) :
  (r <= 255)%nat ->
  pack (replicate (256 * k + r + 1) zeroWord)
  = concat (replicate k [0; 255]) ++ [0; Z.of_nat r].
Proof.
  intros Hr. induction k as [|k IH].
  - replace (256 * 0 + r + 1)%nat with (S r) by lia. cbn [replicate concat app].
    rewrite pack_cons. replace (tagOf zeroWord) with 0 by reflexivity.
    replace (handleBytes zeroWord) with (@nil Z) by reflexivity.
    cbn [Z.eqb app]. rewrite zeroRun_replicate, Nat.min_r by lia.
    rewrite drop_replicate, Nat.sub_diag. cbn [replicate]. rewrite pack_nil.
    rewrite u8_small by lia. reflexivity.
  - replace (256 * S k + r + 1)%nat with (S (255 + (256 * k + r + 1))) by lia.
    cbn [replicate concat]. rewrite pack_cons.
    replace (tagOf zeroWord) with 0 by reflexivity.
    replace (handleBytes zeroWord) with (@nil Z) by reflexivity.
    cbn [Z.eqb app]. rewrite zeroRun_replicate, Nat.min_l by lia.
    rewrite drop_replicate.
    replace (255 + (256 * k + r + 1) - 255)%nat with (256 * k + r + 1)%nat by lia.
    rewrite IH. reflexivity.
Qed.

(** X17.  A run of zero words packs to two bytes for every 256 of them:
    [256 * k + r + 1] zero words ([r <= 255]) are written as [k] pairs
    [0; 255] followed by the pair [0; r], whatever the buffers. *)
Theorem X17_packed_zero_words (gw : list Z -> Z) (before : list Z) (k r : nat) :
  (r <= 255)%nat ->
  write gw before (replicate (256 * k + r + 1) zeroWord)
  = before ++ concat (replicate k [0; 255]) ++ [0; Z.of_nat r].
Proof. intros Hr. rewrite write_pack, pack_zero_words by exact Hr. reflexivity. Qed.

Lemma X17_packed_zero_words_witness :
  write (fun _ => 64) [] (replicate 600 zeroWord) = [0; 255; 0; 255; 0; 87].
Proof.
  exact (X17_packed_zero_words (fun _ => 64) [] 2 87 ltac:(lia)).
Defined.

(** X18.  The encoder never writes past the end of its buffer: when the
    inner stream hands out buffers of non-negative size, the room left in
    the buffer in use is never negative, after any number of rounds of the
    loop of [write]. *)
Theorem X18_packed_write_in_buffer (gw : list Z -> Z) (fuel : nat) (m : list word8)
    (st : OutState) :
  (forall received : list Z, 0 <= gw received) ->
  0 <= room st ->
  0 <= room (writeLoop gw fuel m st).
Proof.
  intros Hgw. revert m st. induction fuel as [|fuel IH]; intros m st Hst; [exact Hst|].
  destruct m as [|w rest]; [exact Hst|].
  cbn [writeLoop].
  set (st1 := if room st <? 10 then mkOutState (flush st) [] 20 else st).
  assert (H1 : 10 <= room st1).
  { subst st1. destruct (Z.ltb_spec (room st) 10); cbn [room]; lia. }
  pose proof (handleBytes_length w) as Hh.
  assert (H2 : 1 <= room (emit (tagOf w :: handleBytes w) st1)).
  { unfold emit. cbn [room length]. lia. }
  destruct (tagOf w =? 0).
  { apply IH. unfold emit at 1. cbn [room length]. lia. }
  destruct (tagOf w =? 255); [|apply IH; lia].
  set (st2 := emit [u8 (8 * Z.of_nat (literalRun 255 rest) / 8)]
                (emit (tagOf w :: handleBytes w) st1)).
  assert (H3 : 0 <= room st2).
  { subst st2. unfold emit at 1. cbn [room length]. lia. }
  destruct (Z.leb_spec (8 * Z.of_nat (literalRun 255 rest)) (room st2)).
  - apply IH. unfold emit at 1. cbn [room].
    rewrite flat_map_bytes_length, length_take.
    pose proof (literalRun_le 255 rest) as [_ Hl]. lia.
  - apply IH. cbn [room]. apply Hgw.
Qed.

Lemma X18_packed_write_in_buffer_witness :
  0 <= room (writeLoop (fun _ => 12) 3 [W8 1 2 3 4 5 6 7 8; W8 1 2 3 4 5 6 7 8; zeroWord]
               (mkOutState [] [] 12)).
Proof.
  apply (X18_packed_write_in_buffer (fun _ => 12) 3); [intros _; lia | cbn [room]; lia].
Defined.

(** *** The decoder stays inside the destination *)

Lemma innerTake_length (s : Inner) :
  forall n : nat, length (innerTake n s) = Nat.min n (length (concat s)).
Proof.
  induction s as [|c s IH]; intros n; cbn [innerTake concat].
  - cbn. lia.
  - rewrite length_app. destruct (Nat.leb_spec n (length c)).
    + rewrite length_take. lia.
    + rewrite length_app, IH. lia.
Qed.

(** What [read] guarantees of its result: the bytes stored fit the
    destination; and when no error is recorded, the value returned is the
    number of bytes stored, a whole number of words, at least [minBytes]. *)
Definition readSafe (minBytes maxBytes : Z) (log : ErrorLog) (r : ReadResult) : Prop :=
  Z.of_nat (length (output r)) <= maxBytes
  /\ (readErrors r = log ->
      bytesRead r = Z.of_nat (length (output r))
      /\ bytesRead r mod 8 = 0
      /\ minBytes <= bytesRead r).

Lemma record_neq (msg : string) (log : ErrorLog) : record msg log <> log.
Proof.
  unfold record. intros H. apply (f_equal (@length string)) in H.
  rewrite length_app in H. cbn in H. lia.
Qed.

Lemma REFRESH_BUFFER_spec (st st1 : InState) :
  REFRESH_BUFFER st = Some st1 -> cur st1 <> [] /\ out st1 = out st.
Proof.
  unfold REFRESH_BUFFER. destruct (getReadBuffer (next st)) as [|b c]; [discriminate|].
  intros [= <-]. split; [discriminate | reflexivity].
Qed.

Lemma slowByte_length (minBytes : Z) (log : ErrorLog) (tag i : Z) (st : InState) :
  match slowByte minBytes log tag i st with
  | inl r => output r = out st /\ readErrors r <> log
  | inr st1 => length (out st1) = S (length (out st))
  end.
Proof.
  unfold slowByte. destruct (tagBit tag i).
  2: { cbn [out]. rewrite length_app. cbn. lia. }
  destruct (cur st) as [|b c] eqn:Ec.
  - destruct (REFRESH_BUFFER st) as [st1|] eqn:Er.
    + destruct (REFRESH_BUFFER_spec st st1 Er) as [Hne Hout].
      destruct (cur st1) as [|b c]; [contradiction|].
      cbn [out]. rewrite length_app, Hout. cbn. lia.
    + cbn [prematureEnd output readErrors]. split; [reflexivity | apply record_neq].
  - rewrite Ec. cbn [out]. rewrite length_app. cbn. lia.
Qed.

Lemma slowBytes_length (minBytes : Z) (log : ErrorLog) (tag : Z) (n : nat) :
  forall (i : Z) (st : InState),
    match slowBytes minBytes log tag n i st with
    | inl r => (length (out st) <= length (output r) <= n + length (out st))%nat
               /\ readErrors r <> log
    | inr st1 => length (out st1) = (n + length (out st))%nat
    end.
Proof.
  induction n as [|n IH]; intros i st; cbn [slowBytes]; [reflexivity|].
  pose proof (slowByte_length minBytes log tag i st) as H.
  destruct (slowByte minBytes log tag i st) as [r|st1].
  - destruct H as [-> H]. split; [lia | exact H].
  - specialize (IH (i + 1) st1). destruct (slowBytes minBytes log tag n (i + 1) st1).
    + destruct IH as [H1 H2]. split; [lia | exact H2].
    + lia.
Qed.

Lemma HANDLE_BYTE_in_length (tag n : Z) (st : InState) :
  length (out (HANDLE_BYTE_in tag n st)) = S (length (out st)).
Proof. unfold HANDLE_BYTE_in. cbn [out]. rewrite length_app. cbn. lia. Qed.

(** The loop invariant at the head of the loop: whole words have been
    stored and the destination is not full. *)
Definition atLoopHead (maxBytes : Z) (st : InState) : Prop :=
  Z.of_nat (length (out st)) mod 8 = 0 /\ Z.of_nat (length (out st)) < maxBytes.

Lemma afterWord_safe (k : InState -> option ReadResult) (minBytes maxBytes : Z)
    (log : ErrorLog) (tag : Z) (st : InState) (r : ReadResult) :
  maxBytes mod 8 = 0 -> minBytes <= maxBytes ->
  (forall st1 r1, atLoopHead maxBytes st1 -> k st1 = Some r1 ->
                  readSafe minBytes maxBytes log r1) ->
  Z.of_nat (length (out st)) mod 8 = 0 -> Z.of_nat (length (out st)) <= maxBytes ->
  afterWord k minBytes maxBytes log tag st = Some r ->
  readSafe minBytes maxBytes log r.
Proof.
  intros Hmax Hmin Hk Hal Hle.
  assert (Hfinish : forall st1 : InState,
    Z.of_nat (length (out st1)) mod 8 = 0 -> Z.of_nat (length (out st1)) <= maxBytes ->
    (if Z.of_nat (length (out st1)) =? maxBytes
     then Some (mkReadResult maxBytes (out st1) (unconsumed st1) log)
     else k st1) = Some r ->
    readSafe minBytes maxBytes log r).
  { intros st1 H1 H2. destruct (Z.eqb_spec (Z.of_nat (length (out st1))) maxBytes) as [E|E].
    - intros [= <-]. split; cbn [output bytesRead]; [lia|]. intros _. lia.
    - apply Hk. split; [exact H1 | lia]. }
  assert (Hover : forall st1 : InState,
    Z.of_nat (length (out st1)) <= maxBytes ->
    readSafe minBytes maxBytes log
      (mkReadResult (Z.max minBytes (Z.of_nat (length (out st1)))) (out st1) (unskipped st1)
         (record "Packed input did not end cleanly on a segment boundary." log))).
  { intros st1 H1. split; cbn [output readErrors]; [exact H1|].
    intros H. destruct (record_neq _ _ H). }
  assert (Hrun : forall c : Z, Z.of_nat (Z.to_nat (c * 8)) mod 8 = 0).
  { intros c. destruct (Z_lt_le_dec (c * 8) 0).
    - replace (Z.to_nat (c * 8)) with 0%nat by lia. reflexivity.
    - rewrite Z2Nat.id by lia. apply Z_mod_mult. }
  assert (Hadd : forall x y, x mod 8 = 0 -> y mod 8 = 0 -> (x + y) mod 8 = 0).
  { intros x y Hx Hy. rewrite Z.add_mod, Hx, Hy by lia. reflexivity. }
  unfold afterWord. cbv zeta.
  destruct (tag =? 0).
  { destruct (cur st) as [|c cur1]; [discriminate|]. cbn [out cur next].
    destruct (Z.leb_spec (c * 8) (maxBytes - Z.of_nat (length (out st)))); cbn [negb].
    - apply (Hfinish (mkInState cur1 (next st) (out st ++ replicate (Z.to_nat (c * 8)) 0) (buf st)));
        cbn [out]; rewrite length_app, length_replicate, Nat2Z.inj_add.
      + apply Hadd; [exact Hal | apply Hrun].
      + specialize (Hrun c). lia.
    - intros [= <-]. apply (Hover (mkInState cur1 (next st) (out st) (buf st))). exact Hle. }
  destruct (tag =? 255); [|apply Hfinish; assumption].
  destruct (cur st) as [|c cur1]; [discriminate|]. cbn [out cur next].
  destruct (Z.leb_spec (c * 8) (maxBytes - Z.of_nat (length (out st)))); cbn [negb].
  2: { intros [= <-]. apply (Hover (mkInState cur1 (next st) (out st) (buf st))). exact Hle. }
  destruct (Z.geb_spec (Z.of_nat (length cur1)) (c * 8)) as [Hge|Hlt].
  - apply (Hfinish (mkInState (drop (Z.to_nat (c * 8)) cur1) (next st)
                      (out st ++ take (Z.to_nat (c * 8)) cur1) (buf st)));
      cbn [out]; rewrite length_app, length_take, Nat2Z.inj_add.
    + apply Hadd; [exact Hal|]. rewrite Nat.min_l by lia. apply Hrun.
    + specialize (Hrun c). lia.
  - destruct (innerRead (Z.to_nat (c * 8 - Z.of_nat (length cur1))) (next st))
      as [[bs inner1]|] eqn:Er; [|discriminate].
    assert (Hbs : length bs = Z.to_nat (c * 8 - Z.of_nat (length cur1))).
    { unfold innerRead in Er.
      destruct (Nat.leb_spec (Z.to_nat (c * 8 - Z.of_nat (length cur1)))
                  (length (concat (next st)))); [|discriminate].
      injection Er as <- _. rewrite innerTake_length. lia. }
    assert (Hlen : Z.of_nat (length ((out st ++ cur1) ++ bs))
                   = Z.of_nat (length (out st)) + c * 8).
    { rewrite !length_app, Hbs. lia. }
    assert (H8 : (c * 8) mod 8 = 0) by apply Z_mod_mult.
    rewrite Hlen.
    destruct (Z.eqb_spec (Z.of_nat (length (out st)) + c * 8) maxBytes) as [E|E].
    + intros [= <-]. split; cbn [output bytesRead]; [lia|]. intros _. lia.
    + apply Hk. split; cbn [out]; rewrite Hlen; [apply Hadd; assumption | lia].
Qed.

Lemma next_word_fits (len maxBytes : Z) :
  len mod 8 = 0 -> maxBytes mod 8 = 0 -> len < maxBytes -> len + 8 <= maxBytes.
Proof. intros H1 H2 H3. Z.div_mod_to_equations. lia. Qed.

Lemma readLoop_safe (fuel : nat) :
  forall (minBytes maxBytes : Z) (log : ErrorLog) (st : InState) (r : ReadResult),
    maxBytes mod 8 = 0 -> minBytes <= maxBytes ->
    atLoopHead maxBytes st ->
    readLoop fuel minBytes maxBytes log st = Some r ->
    readSafe minBytes maxBytes log r.
Proof.
  induction fuel as [|fuel IH]; intros minBytes maxBytes log st r Hmax Hmin [Hal Hlt];
    [discriminate|].
  pose proof (next_word_fits _ _ Hal Hmax Hlt) as Hfit.
  assert (Hk : forall st1 r1, atLoopHead maxBytes st1 ->
             readLoop fuel minBytes maxBytes log st1 = Some r1 ->
             readSafe minBytes maxBytes log r1).
  { intros st1 r1 H1 H2. exact (IH minBytes maxBytes log st1 r1 Hmax Hmin H1 H2). }
  assert (Hplus8 : forall n : nat, n = (8 + length (out st))%nat ->
             Z.of_nat n mod 8 = 0 /\ Z.of_nat n <= maxBytes).
  { intros n ->. rewrite Nat2Z.inj_add. split; [|lia].
    rewrite Z.add_mod, Hal by lia. reflexivity. }
  assert (Hend : forall st1 : InState, Z.of_nat (length (out st1)) <= maxBytes ->
             readSafe minBytes maxBytes log (prematureEnd minBytes st1 log)).
  { intros st1 H1. split; cbn [prematureEnd output readErrors]; [exact H1|].
    intros H. destruct (record_neq _ _ H). }
  cbn [readLoop]. cbv zeta.
  destruct (Z.ltb_spec (Z.of_nat (length (cur st))) 10).
  - destruct (Z.geb_spec (Z.of_nat (length (out st))) minBytes).
    { intros [= <-]. split; cbn [output bytesRead]; [lia|]. intros _. lia. }
    destruct (Z.of_nat (length (cur st)) =? 0).
    { destruct (REFRESH_BUFFER st) as [st1|] eqn:Er.
      - destruct (REFRESH_BUFFER_spec st st1 Er) as [_ Hout].
        apply Hk. unfold atLoopHead. rewrite Hout. auto.
      - intros [= <-]. apply Hend. lia. }
    destruct (cur st) as [|tag cur1]; [discriminate|].
    pose proof (slowBytes_length minBytes log tag 8 0 (mkInState cur1 (next st) (out st) (buf st)))
      as Hs.
    destruct (slowBytes minBytes log tag 8 0 (mkInState cur1 (next st) (out st) (buf st)))
      as [r1|st1]; cbn [out] in Hs.
    { intros [= <-]. destruct Hs as [[_ K1] K2]. split; [lia|]. intros K. contradiction. }
    destruct (Hplus8 _ Hs) as [Ha Hb].
    destruct ((length (cur st1) =? 0)%nat && ((tag =? 0) || (tag =? 255))).
    + destruct (REFRESH_BUFFER st1) as [st2|] eqn:Er.
      * destruct (REFRESH_BUFFER_spec st1 st2 Er) as [_ Hout].
        apply (afterWord_safe _ _ _ _ _ _ _ Hmax Hmin Hk); rewrite Hout; assumption.
      * intros [= <-]. apply Hend. exact Hb.
    + apply (afterWord_safe _ _ _ _ _ _ _ Hmax Hmin Hk); assumption.
  - destruct (cur st) as [|tag cur1]; [discriminate|].
    match goal with
    | |- afterWord _ _ _ _ _ ?s = _ -> _ =>
      assert (Hs : length (out s) = (8 + length (out st))%nat)
        by (rewrite !HANDLE_BYTE_in_length; reflexivity);
      destruct (Hplus8 _ Hs) as [Ha Hb];
      apply (afterWord_safe _ _ _ _ _ s _ Hmax Hmin Hk); assumption
    end.
Qed.

(** X19.  [PackedInputStream::read] with word-aligned sizes, on any input:
    a call that returns has stored at most [maxBytes] bytes at the
    destination; and when it has recorded no error, the value returned is the
    number of bytes stored, a whole number of words between [minBytes] and
    [maxBytes]. *)
Theorem X19_packed_read_in_bounds (minBytes maxBytes : Z) (inner : Inner) (r : ReadResult) :
  maxBytes mod 8 = 0 -> 0 <= minBytes <= maxBytes ->
  read minBytes maxBytes inner = Some r ->
  Z.of_nat (length (output r)) <= maxBytes
  /\ (readErrors r = [] ->
      bytesRead r = Z.of_nat (length (output r))
      /\ bytesRead r mod 8 = 0
      /\ minBytes <= bytesRead r <= maxBytes).
Proof.
  intros Hmax Hmin. unfold read.
  destruct (Z.eqb_spec maxBytes 0) as [E|E].
  { intros [= <-]. cbn [output bytesRead length]. split; [lia|]. intros _.
    split; [reflexivity|]. split; [reflexivity | lia]. }
  destruct (getReadBuffer inner) as [|b buffer] eqn:Eb.
  { intros [= <-]. cbn [output readErrors length]. split; [lia|].
    intros H. destruct (record_neq _ _ H). }
  intros Hr.
  assert (Hhead : atLoopHead maxBytes (mkInState (b :: buffer) (tl inner) [] (b :: buffer)))
    by (split; cbn [out length]; [reflexivity | lia]).
  destruct (readLoop_safe _ minBytes maxBytes [] _ r Hmax ltac:(lia) Hhead Hr) as [H1 H2].
  split; [exact H1|]. intros He. destruct (H2 He) as (K1 & K2 & K3).
  split; [exact K1|]. split; [exact K2 | lia].
Qed.

Lemma X19_packed_read_in_bounds_witness :
  read 8 8 [[1; 5]] = Some (mkReadResult 8 [5; 0; 0; 0; 0; 0; 0; 0] [] [])
  /\ Z.of_nat (length [5; 0; 0; 0; 0; 0; 0; 0]) <= 8.
Proof.
  split; [reflexivity|].
  exact (proj1 (X19_packed_read_in_bounds 8 8 [[1; 5]]
                  (mkReadResult 8 [5; 0; 0; 0; 0; 0; 0; 0] [] [])
                  eq_refl ltac:(lia) eq_refl)).
Defined.

End PackedBoundsProps.

(** ** Builders: zeroing and copying flat objects *)

Section FlatObjectProps.
Import Builder.

Ltac run H := rewrite (bind_run _ _ _ _ _ H); cbv beta iota.

(** The number of words of the object that the pointer word [w] describes,
    when the object holds no pointers: a struct without pointer section or a
    list of primitives. *)
Definition flatWords (w : Z) : option Z :=
  match WirePointer.kind w with
  | WirePointer.STRUCT =>
    if WirePointer.ptrCount w =? 0 then Some (WirePointer.dataSize w) else None
  | WirePointer.LIST =>
    match WirePointer.elementSize w with
    | VOID => Some 0
    | POINTER | INLINE_COMPOSITE => None
    | es => Some (Reader.roundUpToWords_bits
                    (WirePointer.elementCount w * dataBitsPerElement es))
    end
  | _ => None
  end.

(** X20.  [zeroObject] on a pointer to a struct without pointers or to a
    list of primitives zeroes exactly the words of that object: every other
    word, the pointer itself included, reads as before, and no segment
    changes its size or its bump pointer. *)
Theorem X20_zeroObject_flat (fuel segment : nat) (ref : BLoc) (w n : Z) (a : BuilderArena) :
  peek a ref = Some w ->
  flatWords w = Some n ->
  inSeg a (targetOf ref w) n ->
  exists a1, zeroObject (S fuel) segment ref a = Some (tt, a1)
    /\ sameShape a a1
    /\ (forall q, peek a1 q = if decide (within (targetOf ref w) n q) then Some 0
                              else peek a q).
Proof.
  intros Hw Hflat Hin. cbn [zeroObject]. run (load_run ref w a Hw).
  unfold flatWords in Hflat.
  destruct (WirePointer.kind w) eqn:Hk; try discriminate Hflat.
  - destruct (Z.eqb_spec (WirePointer.ptrCount w) 0) as [Hr|]; [|discriminate].
    injection Hflat as <-.
    unfold zeroObject_tag. run (load_run ref w a Hw). rewrite Hk, Hr.
    cbn [Z.to_nat forLoop]. run (ret_run tt a). run (load_run ref w a Hw).
    unfold WirePointer.wordSize. rewrite Hr, Z.mul_0_l, Z.add_0_r.
    apply memset0_spec. exact Hin.
  - unfold zeroObject_tag. run (load_run ref w a Hw). rewrite Hk.
    destruct (WirePointer.elementSize w) eqn:Hes; try discriminate Hflat;
      injection Hflat as <-; try (apply memset0_spec; exact Hin).
    exists a. split; [reflexivity|]. split; [apply sameShape_refl|].
    intros q. destruct (decide (within (targetOf ref w) 0 q)) as [[_ H]|]; [lia | reflexivity].
Qed.

Lemma X20_zeroObject_flat_witness :
  exists a1,
    zeroObject 1 0 (0%nat, 2) twoSlots = Some (tt, a1)
    /\ map (peek a1) [(0%nat, 0); (0%nat, 1); (0%nat, 2); (0%nat, 3)]
       = [Some 0; Some 0; Some (2 ^ 32 - 8 + 2 ^ 32); Some 0].
Proof.
  destruct (X20_zeroObject_flat 0 0 (0%nat, 2) (2 ^ 32 - 8 + 2 ^ 32) 1 twoSlots
              eq_refl eq_refl) as (a1 & H1 & _ & H3).
  { exists 4. split; [reflexivity|]. vm_compute. repeat split; discriminate. }
  exists a1. split; [exact H1|]. cbn [map]. rewrite !H3. reflexivity.
Defined.

Lemma blobWords_length (blob : list Z) (src n : Z) :
  length (blobWords blob src n) = Z.to_nat n.
Proof. unfold blobWords. rewrite length_map, length_seq. reflexivity. Qed.

Lemma blobWords_lookup (blob : list Z) (src n : Z) (i : nat) :
  (i < Z.to_nat n)%nat -> blobWords blob src n !! i = Some (wordAt blob (src + Z.of_nat i)).
Proof.
  intros Hi. unfold blobWords. rewrite list_lookup_fmap, lookup_seq_lt by exact Hi.
  reflexivity.
Qed.

(** [copyMessage] of a default value that is a struct without pointers, onto
    a null slot. *)
Lemma copyMessage_flat_struct (fuel : nat) (blob : list Z) (dst : BLoc) (w e x : Z)
    (a : BuilderArena) :
  let s := wordAt blob 0 in
  wfArena a ->
  Z.of_nat (length (b_segments a)) < 2 ^ 32 ->
  peek a dst = Some w -> WirePointer.isNull w = true ->
  allocated a dst ->
  segEnd a (fst dst) = Some e -> segPos a (fst dst) = Some x ->
  WirePointer.kind s = WirePointer.STRUCT -> WirePointer.isNull s = false ->
  WirePointer.ptrCount s = 0 ->
  exists (ptr ref1 : BLoc) (v : Z) (a1 : BuilderArena),
    copyMessage (S fuel) blob (fst dst) dst 0 a = Some ((Some ptr, ref1, fst ptr), a1)
    /\ evolves (fun q => q = dst \/ unallocated a q) a a1
    /\ wfArena a1
    /\ unallocated a ptr
    /\ slotReaches a1 dst ref1 ptr v
    /\ WirePointer.kind v = WirePointer.STRUCT
    /\ WirePointer.dataSize v = WirePointer.dataSize s
    /\ WirePointer.ptrCount v = 0
    /\ (forall i, 0 <= i < WirePointer.dataSize s ->
          peek a1 (plus ptr i) = Some (wordAt blob (WirePointer.target 0 s + i))).
Proof.
  intros s Hwf Hcount Hw Hnull Hal He Hx Hk Hsn Hr.
  pose proof (dataSize_range s) as HD.
  set (D := WirePointer.dataSize s) in *.
  assert (Hws : WirePointer.wordSize s = D)
    by (unfold WirePointer.wordSize; fold D; rewrite Hr; lia).
  assert (Ham : 0 <= D < 2 ^ 28 - 1).
  { change (2 ^ 16) with 65536 in HD. change (2 ^ 28) with 268435456. lia. }
  destruct (allocate_null_spec (S fuel) dst D WirePointer.STRUCT w e x a
              Hwf Hcount Hw Hnull Hal He Hx Ham)
    as (ptr & ref1 & v & a1 & Hrun & Hev & Hwf1 & Hlen & Hfst & Hun & Hp0 & Hpos & Hv & Hkv
        & Ht & Hcase).
  destruct Hpos as (x1 & Hx1 & Hle1).
  assert (Hin : inSeg a1 ptr (Z.of_nat (length (blobWords blob (WirePointer.target 0 s) D)))).
  { rewrite blobWords_length, Z2Nat.id by lia.
    destruct (proj2 (segEnd_segPos a1 (fst ptr)) (ex_intro _ x1 Hx1)) as [e1 He1].
    destruct (proj1 Hwf1 _ _ _ He1 Hx1). exists e1. split; [exact He1 | lia]. }
  destruct (storeWords_spec ptr (blobWords blob (WirePointer.target 0 s) D) a1 Hin)
    as (a2 & Hst & Hsh2 & Hpk2).
  rewrite blobWords_length, Z2Nat.id in Hpk2 by lia.
  assert (Hfresh : forall q, within ptr D q -> unallocated a q).
  { intros q [Hq1 Hq2] xq Hxq. rewrite Hq1 in Hxq. specialize (Hun xq Hxq). lia. }
  assert (Href1 : ~ within ptr D ref1).
  { destruct (decide (D <= e - x)) as [Hd|Hd].
    - destruct Hcase as [-> _]. intros Hq. exact (allocated_not_unallocated a dst Hal (Hfresh _ Hq)).
    - destruct Hcase as (_ & _ & -> & _). unfold within, plus. cbn [fst snd]. lia. }
  assert (Hv2 : peek a2 ref1 = Some v) by (rewrite Hpk2, decide_False by exact Href1; exact Hv).
  destruct (update_spec ref1 (WirePointer.structRef_set D (WirePointer.ptrCount s)) v a2 Hv2)
    as (a3 & Hup & Hsh3 & Hpk3).
  set (v3 := WirePointer.structRef_set D (WirePointer.ptrCount s) v) in *.
  destruct (structRef_set_spec D (WirePointer.ptrCount s) v HD ltac:(rewrite Hr; lia))
    as (Hlow & Hds & Hrc).
  fold v3 in Hlow, Hds, Hrc.
  destruct (kind_low v3 v Hlow) as (Hk3 & Ht3 & _).
  exists ptr, ref1, v3, a3. split.
  { cbn [copyMessage]. fold s. rewrite Hk, Hsn, Hws. run Hrun.
    assert (Hcopy : copyStruct_with (copyMessage fuel blob) (fst ptr) ptr blob
                      (WirePointer.target 0 s) D (WirePointer.ptrCount s) a1
                    = Some (tt, a2)).
    { unfold copyStruct_with. rewrite Hr. cbn [Z.to_nat forLoop]. unfold bind.
      rewrite Hst. reflexivity. }
    fold D. run Hcopy. run Hup. reflexivity. }
  assert (Hsh : sameShape a1 a3) by exact (sameShape_trans _ _ _ Hsh2 Hsh3).
  assert (Hev3 : evolves (fun q => q = dst \/ unallocated a q) a a3).
  { eapply evolves_write; [exact Hev | exact Hsh|].
    intros q Hq. rewrite Hpk3. destruct (decide (q = ref1)) as [->|Hne].
    - destruct Hq. destruct (decide (D <= e - x)); [left | right]; apply Hcase.
    - rewrite Hpk2. destruct (decide (within ptr D q)) as [Hin2|]; [|reflexivity].
      destruct Hq. right. apply Hfresh, Hin2. }
  split; [exact Hev3|]. split; [exact (sameShape_wf _ _ Hsh Hwf1)|]. split; [exact Hun|].
  assert (Hpk : forall q, q <> ref1 -> ~ within ptr D q -> peek a3 q = peek a1 q).
  { intros q H1 H2. rewrite Hpk3, decide_False by exact H1.
    rewrite Hpk2, decide_False by exact H2. reflexivity. }
  split.
  { split; [exact (evolves_allocated _ _ _ _ Hev3 Hal)|].
    split; [rewrite Hpk3, decide_True by reflexivity; reflexivity|].
    split; [rewrite Hk3, Hkv; discriminate|]. split; [exact Hfst|].
    split; [rewrite Ht3; exact Ht|].
    destruct (decide (D <= e - x)) as [Hd|Hd].
    - left. apply Hcase.
    - right. destruct Hcase as (Hu1 & Ha1 & Hptr & f & Hf & Hfk & Hfd & Hfid & Hfpos).
      assert (Hne : ref1 <> dst).
      { intros ->. exact (allocated_not_unallocated a dst Hal Hu1). }
      split; [exact Hne|].
      split; [destruct Ha1 as (xa & Hxa & Hra); exists xa;
              rewrite (sameShape_segPos _ _ _ Hsh); auto|].
      split; [exact Hptr|]. exists f. split; [|repeat split; assumption].
      rewrite Hpk; [exact Hf | congruence|].
      intros Hq. exact (allocated_not_unallocated a dst Hal (Hfresh _ Hq)). }
  split; [congruence|]. split; [exact Hds|]. split; [rewrite Hrc; exact Hr|].
  intros i Hi.
  assert (Hwi : within ptr D (plus ptr i)) by (apply within_plus; exact Hi).
  rewrite Hpk3, decide_False by (intros Heq; apply Href1; rewrite <- Heq; exact Hwi).
  rewrite Hpk2, decide_True by exact Hwi.
  unfold plus. cbn [snd]. replace (snd ptr + i - snd ptr) with i by lia.
  rewrite blobWords_lookup by lia. rewrite Z2Nat.id by lia. reflexivity.
Qed.

(** X21.  An unset struct field reads as a copy of its default value:
    [getWritableStructPointer] on a null slot, with a default value that is
    a struct without pointers at least as large as expected, returns a
    builder of the default's size on words that were not allocated before,
    and those words hold the data words of the default value.  Only the slot
    and words that were unallocated are written. *)
Theorem X21_default_struct_copied (fuel : nat) (blob : list Z) (ref : BLoc)
    (size : StructSize) (w e x : Z) (a : BuilderArena) :
  let s := wordAt blob 0 in
  wfArena a ->
  Z.of_nat (length (b_segments a)) < 2 ^ 32 ->
  peek a ref = Some w -> WirePointer.isNull w = true ->
  allocated a ref ->
  segEnd a (fst ref) = Some e -> segPos a (fst ref) = Some x ->
  WirePointer.kind s = WirePointer.STRUCT -> WirePointer.isNull s = false ->
  WirePointer.ptrCount s = 0 ->
  ss_data size <= WirePointer.dataSize s -> ss_pointers size <= 0 ->
  exists (b : StructBuilder) (a1 : BuilderArena),
    getWritableStructPointer (S fuel) ref (fst ref) size (Some blob) a = Some (b, a1)
    /\ b = mkStructBuilder (fst (stb_data b)) (stb_data b)
             (plus (stb_data b) (WirePointer.dataSize s))
             (WirePointer.dataSize s * BITS_PER_WORD) 0 0
    /\ unallocated a (stb_data b)
    /\ evolves (fun q => q = ref \/ unallocated a q) a a1
    /\ (forall i, 0 <= i < WirePointer.dataSize s ->
          peek a1 (plus (stb_data b) i)
          = Some (wordAt blob (WirePointer.target 0 s + i))).
Proof.
  intros s Hwf Hcount Hw Hnull Hal He Hx Hk Hsn Hr HD HR.
  destruct (copyMessage_flat_struct fuel blob ref w e x a Hwf Hcount Hw Hnull Hal He Hx
              Hk Hsn Hr)
    as (ptr & ref1 & v & a1 & Hrun & Hev & Hwf1 & Hun & Hreach & Hkv & Hds & Hrc & Hdata).
  fold s in Hds, Hdata.
  eexists. exists a1. split.
  - unfold getWritableStructPointer. cbv zeta. run (load_run ref w a Hw).
    rewrite Hnull. fold s. rewrite Hsn. run Hrun.
    destruct Hreach as (_ & Hv & Hnf & Hfst & Ht & _).
    assert (Hex : getWritableStructPointer_existing (S fuel) ref1 (fst ptr) size a1
                  = Some (Some (mkStructBuilder (fst ptr) ptr
                                  (plus ptr (WirePointer.dataSize s))
                                  (WirePointer.dataSize s * BITS_PER_WORD) 0 0), a1)).
    { unfold getWritableStructPointer_existing.
      assert (Hff : followFars ref1 (fst ptr) a1 = Some ((ptr, ref1, fst ptr), a1)).
      { rewrite followFars_unfold, Hv. apply Kind_eqb_false in Hnf. rewrite Hnf.
        unfold targetOf. rewrite Ht, Hfst. destruct ptr; reflexivity. }
      run Hff. run (load_run ref1 v a1 Hv).
      apply Kind_eqb_spec in Hkv. rewrite Hkv. cbn [negb]. cbv zeta. rewrite Hds, Hrc.
      destruct (Z.ltb_spec (WirePointer.dataSize s) (ss_data size)); [lia|].
      destruct (Z.ltb_spec 0 (ss_pointers size)); [lia|]. reflexivity. }
    run Hex. reflexivity.
  - cbn [stb_data]. split; [reflexivity|]. split; [exact Hun|]. split; [exact Hev|].
    exact Hdata.
Qed.

(** A default value: a struct of two data words, 17 and 34. *)
Definition flatDefault : list Z := [2 * 2 ^ 32; 17; 34].

Lemma X21_default_struct_copied_witness :
  exists b a1,
    getWritableStructPointer 1 (0%nat, 0) 0 (mkStructSize 1 0) (Some flatDefault) rootSlot
    = Some (b, a1)
    /\ stb_dataSize b = 128
    /\ peek a1 (plus (stb_data b) 0) = Some 17
    /\ peek a1 (plus (stb_data b) 1) = Some 34.
Proof.
  destruct (X21_default_struct_copied 0 flatDefault (0%nat, 0) (mkStructSize 1 0) 0 4 1
              rootSlot rootSlot_wf ltac:(vm_compute; reflexivity) eq_refl eq_refl
              rootSlot_allocated eq_refl eq_refl eq_refl eq_refl eq_refl
              ltac:(vm_compute; discriminate) ltac:(vm_compute; discriminate))
    as (b & a1 & H1 & H2 & _ & _ & H5).
  exists b, a1. split; [exact H1|]. split; [rewrite H2; reflexivity|].
  split; [apply (H5 0) | apply (H5 1)];
    (vm_compute; split; [discriminate | reflexivity]).
Defined.

End FlatObjectProps.

(** ** Packed codec: skipping a message *)

Section PackedSkipProps.
Import Packed.

(** The bytes that [skip] has still to go through. *)
Definition sflat (st : SkipState) : list Z := s_cur st ++ concat (s_next st).

(** [skip] has returned without an error and has left exactly [trailing] in
    the inner stream. *)
Definition skipDone (trailing : list Z) (log : ErrorLog) (o : option SkipResult) : Prop :=
  exists r : SkipResult,
    o = Some r /\ concat (skipStream r) = trailing /\ chunked (skipStream r)
    /\ skipErrors r = log.

(** A continuation that skips every encoded message in a stream holding
    fewer bytes and buffers than [bound]. *)
Definition goodSkip (k : Z -> SkipState -> option SkipResult) (trailing : list Z)
    (log : ErrorLog) (bound : nat) : Prop :=
  forall (ws : list word8) (st : SkipState),
    ws <> [] -> (length (sflat st) + length (s_next st) < bound)%nat ->
    chunked (s_next st) -> sflat st = pack ws ++ trailing ->
    8 * Z.of_nat (length ws) < 2 ^ 64 ->
    skipDone trailing log (k (8 * Z.of_nat (length ws)) st).

Lemma finish_skip_ok (k : Z -> SkipState -> option SkipResult) (trailing : list Z)
    (log : ErrorLog) (bound : nat) (ws : list word8) (d c : list Z) (nx : Inner) :
  goodSkip k trailing log bound ->
  (length (c ++ concat nx) + length nx < bound)%nat ->
  chunked nx -> c ++ concat nx = pack ws ++ trailing ->
  8 * Z.of_nat (length ws) < 2 ^ 64 ->
  skipDone trailing log
    (if 8 * Z.of_nat (length ws) =? 0
     then Some (mkSkipResult (skipped (mkSkipState d c nx)) log)
     else k (8 * Z.of_nat (length ws)) (mkSkipState d c nx)).
Proof.
  intros Hk Hb Hch Hflat Hlt.
  destruct ws as [|w ws].
  - cbn [length Z.of_nat Z.mul Z.eqb]. rewrite pack_nil in Hflat. cbn [app] in Hflat.
    eexists. split; [reflexivity|]. unfold skipped. cbn [skipStream skipErrors s_cur s_next].
    destruct c as [|b c1].
    + cbn [app] in Hflat. auto.
    + cbn [concat]. split; [exact Hflat|]. split; [|reflexivity].
      constructor; [discriminate | exact Hch].
  - rewrite (proj2 (Z.eqb_neq _ _)) by (cbn [length]; lia).
    apply (Hk (w :: ws) (mkSkipState d c nx)); auto; discriminate.
Qed.

Lemma skipByte_set (log : ErrorLog) (tag i b : Z) (st : SkipState) (s : list Z) :
  tagBit tag i = true -> sflat st = b :: s -> chunked (s_next st) ->
  exists st1 : SkipState,
    skipByte log tag i st = inr st1
    /\ sflat st1 = s
    /\ chunked (s_next st1) /\ (length (s_next st1) <= length (s_next st))%nat.
Proof.
  intros Hbit Hflat Hch. unfold skipByte. rewrite Hbit.
  destruct st as [d c nx]. unfold sflat in Hflat. cbn [s_done s_cur s_next] in *.
  destruct c as [|b1 c1].
  - cbn [app] in Hflat. unfold REFRESH_BUFFER_skip, getReadBuffer. cbn [s_next].
    destruct nx as [|c2 nx2]; [discriminate|].
    inversion Hch as [|? ? Hc2 Hnx2]; subst.
    destruct c2 as [|b2 c3]; [contradiction|].
    cbn [concat app] in Hflat. injection Hflat as -> Hs.
    cbn [tl]. eexists. split; [reflexivity|].
    unfold sflat, advance. cbn [s_done s_cur s_next take drop].
    repeat split; auto. cbn [length]. lia.
  - cbn [app] in Hflat. injection Hflat as -> Hs.
    eexists. split; [reflexivity|].
    unfold sflat, advance. cbn [s_done s_cur s_next take drop]. repeat split; auto.
Qed.

Lemma skipBytes_spec (log : ErrorLog) (tag : Z) (bs : list Z) :
  forall (i : Z) (st : SkipState) (s : list Z),
    (forall j : nat, (j < length bs)%nat ->
       tagBit tag (i + Z.of_nat j) = nonzero (nth j bs 0)) ->
    sflat st = List.filter nonzero bs ++ s -> chunked (s_next st) ->
    exists st1 : SkipState,
      skipBytes log tag (length bs) i st = inr st1
      /\ sflat st1 = s
      /\ chunked (s_next st1) /\ (length (s_next st1) <= length (s_next st))%nat.
Proof.
  induction bs as [|b bs IH]; intros i st s Hbits Hflat Hch.
  - exists st. cbn [skipBytes length]. repeat split; auto.
  - cbn [length skipBytes].
    pose proof (Hbits 0%nat ltac:(cbn [length]; lia)) as Hb0.
    rewrite Z.add_0_r in Hb0. cbn [nth] in Hb0.
    assert (Hrest : forall j : nat, (j < length bs)%nat ->
              tagBit tag (i + 1 + Z.of_nat j) = nonzero (nth j bs 0)).
    { intros j Hj. specialize (Hbits (S j) ltac:(cbn [length]; lia)).
      cbn [nth] in Hbits. rewrite <- Hbits. f_equal. lia. }
    cbn [List.filter] in Hflat.
    destruct (nonzero b) eqn:Enz.
    + cbn [app] in Hflat.
      destruct (skipByte_set log tag i b st _ Hb0 Hflat Hch) as (st1 & E1 & Hf1 & Hc1 & Hl1).
      rewrite E1.
      destruct (IH (i + 1) st1 s Hrest Hf1 Hc1) as (st2 & E2 & Hf2 & Hc2 & Hl2).
      exists st2. split; [exact E2|]. repeat split; auto. lia.
    + unfold skipByte. rewrite Hb0.
      destruct (IH (i + 1) st s Hrest Hflat Hch) as (st2 & E2 & Hf2 & Hc2 & Hl2).
      exists st2. repeat split; auto.
Qed.

(** The eight [HANDLE_BYTE]s of the fast path of [skip], as a loop. *)
Fixpoint fastSkip (tag : Z) (n : nat) (i : Z) (st : SkipState) : SkipState :=
  match n with
  | O => st
  | S n1 => fastSkip tag n1 (i + 1) (HANDLE_BYTE_skip tag i st)
  end.

Lemma fastSkip_spec (tag : Z) (bs : list Z) :
  forall (i : Z) (st : SkipState) (c1 : list Z),
    (forall j : nat, (j < length bs)%nat ->
       tagBit tag (i + Z.of_nat j) = nonzero (nth j bs 0)) ->
    s_cur st = List.filter nonzero bs ++ c1 ->
    s_cur (fastSkip tag (length bs) i st) = c1
    /\ s_next (fastSkip tag (length bs) i st) = s_next st.
Proof.
  induction bs as [|b bs IH]; intros i st c1 Hbits Hcur.
  - cbn [fastSkip length]. auto.
  - cbn [length fastSkip].
    pose proof (Hbits 0%nat ltac:(cbn [length]; lia)) as Hb0.
    rewrite Z.add_0_r in Hb0. cbn [nth] in Hb0.
    assert (Hrest : forall j : nat, (j < length bs)%nat ->
              tagBit tag (i + 1 + Z.of_nat j) = nonzero (nth j bs 0)).
    { intros j Hj. specialize (Hbits (S j) ltac:(cbn [length]; lia)).
      cbn [nth] in Hbits. rewrite <- Hbits. f_equal. lia. }
    cbn [List.filter] in Hcur.
    unfold HANDLE_BYTE_skip. rewrite Hb0.
    destruct (nonzero b) eqn:Enz.
    + cbn [app] in Hcur.
      apply (IH (i + 1) (advance 1 st) c1 Hrest).
      unfold advance. cbn [s_cur]. rewrite Hcur. reflexivity.
    + apply (IH (i + 1) (advance 0 st) c1 Hrest).
      unfold advance. cbn [s_cur]. rewrite drop_0. exact Hcur.
Qed.

Ltac skip_measure :=
  unfold sflat, advance in *; cbn [s_done s_cur s_next concat length take drop] in *;
  repeat match goal with
         | H : @eq (list Z) _ _ |- _ => apply (f_equal (@length Z)) in H
         end;
  rewrite ?length_app, ?length_drop in *; cbn [length] in *; lia.

Lemma afterSkipWord_ok (k : Z -> SkipState -> option SkipResult) (trailing : list Z)
    (log : ErrorLog) (bound : nat) (w : word8) (rest : list word8) (st : SkipState) :
  goodSkip k trailing log bound ->
  (length (sflat st) + length (s_next st) < bound)%nat ->
  chunked (s_next st) -> sflat st = tailOf w rest ++ trailing ->
  8 * Z.of_nat (length (w :: rest)) < 2 ^ 64 ->
  (tagOf w = 0 \/ tagOf w = 255 -> s_cur st <> []) ->
  skipDone trailing log (afterSkipWord k log (tagOf w) (8 * Z.of_nat (length rest)) st).
Proof.
  intros Hk Hb Hch Hflat Hlt Hcur.
  destruct st as [d c nx]. cbn [s_done s_cur s_next] in *.
  unfold afterSkipWord, tailOf in *. unfold sflat in Hflat, Hb.
  cbn [s_done s_cur s_next] in *. cbn [length] in Hlt.
  destruct (Z.eqb_spec (tagOf w) 0) as [Ht0|Ht0].
  - (* a run of zero words *)
    pose proof (zeroRun_le 255 rest) as [Hz1 Hz2].
    set (n := zeroRun 255 rest) in *.
    destruct c as [|c0 c1]; [exfalso; apply Hcur; auto|].
    rewrite u8_small in Hflat by lia. cbn [app length] in Hflat, Hb.
    injection Hflat as -> Hflat.
    destruct (Z.leb_spec (Z.of_nat n * 8) (8 * Z.of_nat (length rest))) as [_|Hx]; [|lia].
    cbn [negb]. unfold advance. cbn [s_done s_cur s_next take drop].
    rewrite drop_0.
    replace (8 * Z.of_nat (length rest) - Z.of_nat n * 8)
      with (8 * Z.of_nat (length (drop n rest))) by (rewrite length_drop; lia).
    apply (finish_skip_ok k trailing log bound (drop n rest)); auto.
    + lia.
    + rewrite length_drop. lia.
  - destruct (Z.eqb_spec (tagOf w) 255) as [Ht1|Ht1].
    + (* a run of words passed through *)
      pose proof (literalRun_le 255 rest) as [Hl1 Hl2].
      set (n := literalRun 255 rest) in *.
      destruct c as [|c0 c1]; [exfalso; apply Hcur; auto|].
      rewrite Z.mul_comm, Z.div_mul in Hflat by lia.
      rewrite u8_small in Hflat by lia. cbn [app length] in Hflat, Hb.
      injection Hflat as -> Hflat.
      destruct (Z.leb_spec (Z.of_nat n * 8) (8 * Z.of_nat (length rest))) as [_|Hx]; [|lia].
      cbn [negb]. unfold advance. cbn [s_done s_cur s_next take drop].
      rewrite drop_0.
      replace (8 * Z.of_nat (length rest) - Z.of_nat n * 8)
        with (8 * Z.of_nat (length (drop n rest))) by (rewrite length_drop; lia).
      replace (Z.to_nat (Z.of_nat n * 8)) with (8 * n)%nat by lia.
      assert (Hrun : length (flat_map bytes (take n rest)) = (8 * n)%nat).
      { rewrite flat_map_bytes_length, length_take. lia. }
      rewrite <- app_assoc in Hflat.
      destruct (Z.gtb_spec (Z.of_nat (length c1)) (Z.of_nat n * 8)) as [Hgt|Hle].
      * destruct (prefix_split c1 (concat nx) _ _ Hflat ltac:(lia)) as [Hc1 Hrest].
        rewrite Hrun in Hc1, Hrest.
        apply (finish_skip_ok k trailing log bound (drop n rest)); auto.
        -- rewrite length_app, length_drop. rewrite length_app in Hb. lia.
        -- rewrite length_drop. lia.
      * assert (Htot : (length c1 + length (concat nx) >= 8 * n)%nat).
        { apply (f_equal (@length Z)) in Hflat. rewrite !length_app, Hrun in Hflat. lia. }
        replace (Z.to_nat (Z.of_nat n * 8 - Z.of_nat (length c1)))
          with (8 * n - length c1)%nat by lia.
        unfold innerSkipExact.
        destruct (Nat.leb_spec (8 * n - length c1) (length (concat nx))) as [_|Hx]; [|lia].
        destruct (innerRead_spec nx (8 * n - length c1)%nat Hch ltac:(lia))
          as (_ & Hsk & Hch1 & Hle1).
        assert (Hpost : concat (innerSkip (8 * n - length c1) nx)
                        = pack (drop n rest) ++ trailing).
        { rewrite Hsk.
          assert (Hd : drop (8 * n) (c1 ++ concat nx) = pack (drop n rest) ++ trailing).
          { rewrite Hflat, <- Hrun, drop_app_length. reflexivity. }
          rewrite drop_app_ge in Hd by lia. exact Hd. }
        set (inner1 := innerSkip (8 * n - length c1) nx) in *.
        destruct (drop n rest) as [|w1 rest1] eqn:Edrop.
        -- cbn [length Z.of_nat Z.mul Z.eqb].
           rewrite pack_nil in Hpost. cbn [app] in Hpost.
           eexists. split; [reflexivity|]. cbn [skipStream skipErrors]. auto.
        -- rewrite (proj2 (Z.eqb_neq _ _)) by (cbn [length]; lia).
           assert (Hn : (length rest = n + S (length rest1))%nat).
           { apply (f_equal (@length word8)) in Edrop. rewrite length_drop in Edrop.
             cbn [length] in Edrop. lia. }
           apply (Hk (w1 :: rest1)).
           ++ discriminate.
           ++ unfold sflat. cbn [s_cur s_next].
              assert (Hcat : (length (concat inner1) <= length (concat nx))%nat).
              { rewrite Hsk, length_drop. lia. }
              rewrite length_app in Hb.
              destruct inner1 as [|i1 inner2]; cbn [getReadBuffer tl length concat] in *;
                rewrite ?length_app in *; cbn [length] in *; lia.
           ++ cbn [s_next]. destruct inner1; cbn [tl]; [constructor|].
              inversion Hch1; assumption.
           ++ unfold sflat. cbn [s_cur s_next]. rewrite <- Hpost.
              destruct inner1; reflexivity.
           ++ cbn [length] in *. lia.
    + (* the next tag follows *)
      apply (finish_skip_ok k trailing log bound rest); auto; lia.
Qed.

Lemma skipLoop_ok (fuel : nat) :
  forall (trailing : list Z) (log : ErrorLog),
    goodSkip (skipLoop fuel log) trailing log fuel.
Proof.
  induction fuel as [|fuel IH]; intros trailing log ws st Hne Hfuel Hch Hflat Hlt; [lia|].
  specialize (IH trailing log).
  destruct ws as [|w rest]; [contradiction|]. clear Hne.
  rewrite pack_cons_tail in Hflat. cbn [app] in Hflat. rewrite <- app_assoc in Hflat.
  remember (List.filter nonzero (bytes w)) as hb eqn:Ehb.
  destruct st as [d c nx]. unfold sflat in Hflat, Hfuel. cbn [s_done s_cur s_next] in *.
  assert (Hmeasure : (length (c ++ concat nx)
                      = length (tagOf w :: hb ++ tailOf w rest ++ trailing))%nat)
    by (rewrite Hflat; reflexivity).
  cbn [length] in Hmeasure. rewrite !length_app in Hmeasure. rewrite length_app in Hfuel.
  cbn [skipLoop]. cbn [s_done s_cur s_next].
  assert (Hbytes : length (bytes w) = 8%nat) by reflexivity.
  pose proof (filter_length_le (bytes w)) as Hfl. rewrite Hbytes, <- Ehb in Hfl.
  assert (Hu : u64 (8 * Z.of_nat (length (w :: rest)) - 8) = 8 * Z.of_nat (length rest)).
  { unfold u64. cbn [length] in *. rewrite Z.mod_small by lia. lia. }
  rewrite Hu.
  destruct (Z.ltb_spec (Z.of_nat (length c)) 10) as [Hshort|Hlong].
  - destruct c as [|t c1].
    + (* the buffer is used up: refresh and go round again *)
      cbn [length Z.of_nat Z.eqb app] in *.
      destruct nx as [|c2 nx2]; [discriminate|].
      pose proof (Forall_inv Hch) as Hc2. pose proof (Forall_inv_tail Hch) as Hnx2.
      unfold REFRESH_BUFFER_skip, getReadBuffer. cbn [s_next tl].
      destruct c2 as [|b2 c3]; [contradiction|].
      apply (IH (w :: rest)); auto;
        try solve [discriminate | cbn [s_cur s_next length] in *; lia].
      * unfold sflat. cbn [s_cur s_next concat length] in *. lia.
      * unfold sflat. cbn [s_cur s_next]. rewrite pack_cons_tail, <- Ehb.
        cbn [app]. rewrite <- app_assoc. exact Hflat.
    + (* the slow path *)
      rewrite (proj2 (Z.eqb_neq _ _)) by (cbn [length]; lia).
      cbn [app] in Hflat. injection Hflat as -> Hflat. rewrite Ehb in Hflat.
      assert (Hadv : sflat (advance 1 (mkSkipState d (tagOf w :: c1) nx))
                     = List.filter nonzero (bytes w) ++ tailOf w rest ++ trailing).
      { unfold sflat, advance. cbn [s_done s_cur s_next take drop]. rewrite drop_0.
        exact Hflat. }
      destruct (skipBytes_spec log (tagOf w) (bytes w) 0
                  (advance 1 (mkSkipState d (tagOf w :: c1) nx)) (tailOf w rest ++ trailing)
                  (tagBit_tagOf w) Hadv Hch)
        as (st1 & E1 & Hf1 & Hc1 & Hl1).
      rewrite Hbytes in E1. rewrite E1. cbn [advance s_next] in Hl1.
      destruct ((length (s_cur st1) =? 0)%nat && ((tagOf w =? 0) || (tagOf w =? 255)))
        eqn:Eref.
      * apply andb_true_iff in Eref as [Ecur Etag].
        apply Nat.eqb_eq in Ecur. apply orb_true_iff in Etag.
        rewrite !Z.eqb_eq in Etag.
        pose proof (tailOf_run_nonempty w rest Etag) as Hne.
        destruct st1 as [d2 c2 nx2]. cbn [s_done s_cur s_next] in *.
        destruct c2; [|discriminate]. unfold sflat in Hf1. cbn [s_cur s_next app] in Hf1.
        unfold REFRESH_BUFFER_skip, getReadBuffer. cbn [s_next].
        destruct nx2 as [|c3 nx3].
        { cbn [concat] in Hf1. destruct (tailOf w rest); [contradiction|discriminate]. }
        pose proof (Forall_inv Hc1) as Hc3. pose proof (Forall_inv_tail Hc1) as Hnx3.
        destruct c3 as [|b3 c4]; [contradiction|].
        cbn [tl].
        apply (afterSkipWord_ok _ trailing log fuel w rest); auto;
          try solve [cbn [s_cur s_next length] in *; lia | intros _; discriminate
                    | skip_measure].
      * apply (afterSkipWord_ok _ trailing log fuel w rest st1); auto;
          try solve [cbn [s_cur s_next length] in *; lia | skip_measure].
        intros Htag Hcur. rewrite Hcur in Eref. cbn [length Nat.eqb andb] in Eref.
        destruct Htag as [Ht|Ht]; rewrite Ht in Eref; discriminate.
  - (* the fast path *)
    destruct c as [|t c1]; [cbn [length] in Hlong; lia|].
    cbn [app] in Hflat. injection Hflat as -> Hflat.
    cbn [length] in Hlong.
    destruct (prefix_split c1 (concat nx) _ _ Hflat ltac:(lia)) as [Hc1 Hrest].
    rewrite Ehb in Hc1 at 1.
    change (HANDLE_BYTE_skip (tagOf w) 7 (HANDLE_BYTE_skip (tagOf w) 6
             (HANDLE_BYTE_skip (tagOf w) 5 (HANDLE_BYTE_skip (tagOf w) 4
             (HANDLE_BYTE_skip (tagOf w) 3 (HANDLE_BYTE_skip (tagOf w) 2
             (HANDLE_BYTE_skip (tagOf w) 1 (HANDLE_BYTE_skip (tagOf w) 0
                (advance 1 (mkSkipState d (tagOf w :: c1) nx))))))))))
      with (fastSkip (tagOf w) (length (bytes w)) 0
              (advance 1 (mkSkipState d (tagOf w :: c1) nx))).
    assert (Hadv : s_cur (advance 1 (mkSkipState d (tagOf w :: c1) nx))
                   = List.filter nonzero (bytes w) ++ drop (length hb) c1).
    { unfold advance. cbn [s_done s_cur s_next take drop]. rewrite drop_0. exact Hc1. }
    destruct (fastSkip_spec (tagOf w) (bytes w) 0 _ _ (tagBit_tagOf w) Hadv) as [Hcur Hnext].
    cbn [advance s_next] in Hnext.
    apply (afterSkipWord_ok _ trailing log fuel w rest); auto.
    + unfold sflat. rewrite Hcur, Hnext. rewrite length_app, length_drop. cbn [length] in Hfuel. lia.
    + unfold sflat. rewrite Hcur, Hnext. exact Hrest.
    + intros _. rewrite Hcur. intros Hd. apply (f_equal (@length Z)) in Hd.
      rewrite length_drop in Hd. cbn [length] in Hd. lia.
Qed.

Lemma skip_ok (getWriteBuffer : list Z -> Z) (m : list word8)
    (trailing : list Z) (inner : Inner) :
  chunked inner ->
  concat inner = write getWriteBuffer [] m ++ trailing ->
  8 * Z.of_nat (length m) < 2 ^ 64 ->
  exists r : SkipResult,
    skip (8 * Z.of_nat (length m)) inner = Some r
    /\ concat (skipStream r) = trailing
    /\ chunked (skipStream r)
    /\ skipErrors r = [].
Proof.
  intros Hch Hs Hlt. rewrite write_pack in Hs. cbn [app] in Hs.
  unfold skip. destruct m as [|w rest].
  - rewrite pack_nil in Hs. cbn [app] in Hs. cbn [length Z.of_nat Z.mul Z.eqb].
    eexists. split; [reflexivity|]. cbn [skipStream skipErrors]. auto.
  - rewrite (proj2 (Z.eqb_neq _ _)) by (cbn [length]; lia).
    destruct inner as [|c nx]; [rewrite pack_cons in Hs; discriminate|].
    pose proof (Forall_inv Hch) as Hc. pose proof (Forall_inv_tail Hch) as Hnx.
    destruct c as [|b c]; [contradiction|].
    cbn [getReadBuffer tl].
    apply (skipLoop_ok (S (length (concat ((b :: c) :: nx)) + length ((b :: c) :: nx)))
             trailing [] (w :: rest) (mkSkipState [] (b :: c) nx)); auto;
      try discriminate; try solve [unfold sflat; cbn [s_cur s_next concat length]; lia].
Qed.

Lemma read_ok (getWriteBuffer : list Z -> Z) (m : list word8) (inner : Inner) :
  chunked inner ->
  concat inner = write getWriteBuffer [] m ->
  read (8 * Z.of_nat (length m)) (8 * Z.of_nat (length m)) inner
  = Some (mkReadResult (8 * Z.of_nat (length m)) (flat_map bytes m) [] []).
Proof.
  intros Hch Hs. rewrite write_pack in Hs. cbn [app] in Hs.
  unfold read. destruct m as [|w rest].
  - rewrite pack_nil in Hs. rewrite (chunked_nil _ Hch Hs). reflexivity.
  - cbn [length]. rewrite (proj2 (Z.eqb_neq _ _)) by lia.
    destruct inner as [|c nx]; [rewrite pack_cons in Hs; discriminate|].
    pose proof (Forall_inv Hch) as Hc. pose proof (Forall_inv_tail Hch) as Hnx.
    destruct c as [|b c]; [contradiction|].
    cbn [getReadBuffer tl].
    apply (readLoop_ok (S (length (concat ((b :: c) :: nx)) + length ((b :: c) :: nx)))
             (8 * Z.of_nat (S (length rest))) [] (w :: rest)
             (mkInState (b :: c) nx [] (b :: c))); auto;
      try discriminate; try solve [unfold flat; cbn [cur next out buf concat length]; lia].
Qed.

(** X22. Skipping a packed message: for every message [m] of whole words
    (shorter than [2 ^ 64] bytes), whatever bytes [trailing] follow its
    encoding in the inner stream and however the stream is cut into
    (non-empty) buffers, [skip] for the size of [m] returns without an error
    and leaves exactly [trailing] in the inner stream. *)
Theorem X22_packed_skip (getWriteBuffer : list Z -> Z) (m : list word8)
    (trailing : list Z) (inner : Inner) :
  chunked inner ->
  concat inner = write getWriteBuffer [] m ++ trailing ->
  8 * Z.of_nat (length m) < 2 ^ 64 ->
  exists r : SkipResult,
    skip (8 * Z.of_nat (length m)) inner = Some r
    /\ concat (skipStream r) = trailing
    /\ chunked (skipStream r)
    /\ skipErrors r = [].
Proof. apply skip_ok. Qed.

Lemma X22_packed_skip_witness :
  chunked [[16; 2]; [0; 1; 7]; [9]]
  /\ concat [[16; 2]; [0; 1; 7]; [9]]
     = write (fun _ => 64) [] [W8 0 0 0 0 2 0 0 0; zeroWord; zeroWord] ++ [7; 9]
  /\ exists r : SkipResult,
       skip 24 [[16; 2]; [0; 1; 7]; [9]] = Some r
       /\ concat (skipStream r) = [7; 9]
       /\ chunked (skipStream r)
       /\ skipErrors r = [].
Proof.
  assert (H1 : chunked [[16; 2]; [0; 1; 7]; [9]]) by (repeat constructor; discriminate).
  assert (H2 : concat [[16; 2]; [0; 1; 7]; [9]]
               = write (fun _ => 64) [] [W8 0 0 0 0 2 0 0 0; zeroWord; zeroWord] ++ [7; 9])
    by reflexivity.
  split; [exact H1|]. split; [exact H2|].
  exact (X22_packed_skip (fun _ => 64) [W8 0 0 0 0 2 0 0 0; zeroWord; zeroWord]
           [7; 9] [[16; 2]; [0; 1; 7]; [9]] H1 H2 ltac:(vm_compute; reflexivity)).
Defined.

(** X23. Two messages written one after the other to a packed stream:
    skipping the first (by its size) and then reading the second (for its
    size) from what [skip] left yields the second message byte for byte,
    with no error on either call and nothing left in the stream. *)
Theorem X23_packed_skip_then_read (gw1 gw2 : list Z -> Z) (m1 m2 : list word8)
    (inner : Inner) :
  chunked inner ->
  concat inner = write gw2 (write gw1 [] m1) m2 ->
  8 * Z.of_nat (length m1) < 2 ^ 64 ->
  exists r : SkipResult,
    skip (8 * Z.of_nat (length m1)) inner = Some r
    /\ skipErrors r = []
    /\ read (8 * Z.of_nat (length m2)) (8 * Z.of_nat (length m2)) (skipStream r)
       = Some (mkReadResult (8 * Z.of_nat (length m2)) (flat_map bytes m2) [] []).
Proof.
  intros Hch Hs Hlt.
  rewrite (write_pack gw2) in Hs.
  destruct (skip_ok gw1 m1 (pack m2) inner Hch Hs Hlt) as (r & Hr & Hcat & Hchr & Herr).
  exists r. split; [exact Hr|]. split; [exact Herr|].
  apply (read_ok gw2 m2 (skipStream r) Hchr).
  rewrite write_pack. exact Hcat.
Qed.

Lemma X23_packed_skip_then_read_witness :
  chunked [[16; 2]; [0; 1; 1]; [5]]
  /\ concat [[16; 2]; [0; 1; 1]; [5]]
     = write (fun _ => 64)
         (write (fun _ => 64) [] [W8 0 0 0 0 2 0 0 0; zeroWord; zeroWord])
         [W8 5 0 0 0 0 0 0 0]
  /\ exists r : SkipResult,
       skip 24 [[16; 2]; [0; 1; 1]; [5]] = Some r
       /\ skipErrors r = []
       /\ read 8 8 (skipStream r)
          = Some (mkReadResult 8 (flat_map bytes [W8 5 0 0 0 0 0 0 0]) [] []).
Proof.
  assert (H1 : chunked [[16; 2]; [0; 1; 1]; [5]]) by (repeat constructor; discriminate).
  assert (H2 : concat [[16; 2]; [0; 1; 1]; [5]]
               = write (fun _ => 64)
                   (write (fun _ => 64) [] [W8 0 0 0 0 2 0 0 0; zeroWord; zeroWord])
                   [W8 5 0 0 0 0 0 0 0])
    by reflexivity.
  split; [exact H1|]. split; [exact H2|].
  exact (X23_packed_skip_then_read (fun _ => 64) (fun _ => 64)
           [W8 0 0 0 0 2 0 0 0; zeroWord; zeroWord] [W8 5 0 0 0 0 0 0 0]
           [[16; 2]; [0; 1; 1]; [5]] H1 H2 ltac:(vm_compute; reflexivity)).
Defined.

End PackedSkipProps.

(** ** The traversal limit has no memory *)

Section ReadLimitProps.
Import Reader.

(** Two runs of the same code, from [a] to [a'] and from [c] to [c'], over
    the same message: the same number of words has been charged, without
    taking the limiter below zero, and the same errors have been recorded. *)
Definition sameRun (a a' c c' : ReaderArena) : Prop :=
  message a' = message a /\ message c' = message c
  /\ limit c - limit c' = limit a - limit a'
  /\ (0 <= limit c -> 0 <= limit c')
  /\ exists more : ErrorLog, errors a' = errors a ++ more /\ errors c' = errors c ++ more.

(** The run from [c] to [c'] has recorded the traversal-limit error. *)
Definition limitRefused (c c' : ReaderArena) : Prop :=
  message c' = message c
  /\ exists pre post : ErrorLog, errors c' = errors c ++ pre ++ limitMessage :: post.

(** The run from [c] has been refused by the limiter where the run from [a],
    which had more words left, has been charged more than [c] had left. *)
Definition refusedRun (a a' c c' : ReaderArena) : Prop :=
  limit c < limit a /\ limit c < limit a - limit a' /\ limitRefused c c'.

(** Either the two runs agree, or the one from [c] has been refused, and has
    returned one of the results [fails]. *)
Definition dichotomy {X : Type} (fails : X -> Prop) (a c : ReaderArena)
    (ra rc : X * ReaderArena) : Prop :=
  (fst rc = fst ra /\ sameRun a (snd ra) c (snd rc))
  \/ (fails (fst rc) /\ refusedRun a (snd ra) c (snd rc)).

Lemma sameRun_start (a c : ReaderArena) : sameRun a a c c.
Proof.
  split; [reflexivity|]. split; [reflexivity|]. split; [lia|]. split; [auto|].
  exists []. rewrite !app_nil_r. auto.
Qed.

Lemma sameRun_trans (a a1 a2 c c1 c2 : ReaderArena) :
  sameRun a a1 c c1 -> sameRun a1 a2 c1 c2 -> sameRun a a2 c c2.
Proof.
  intros (M1 & M2 & L & P & m & E1 & E2) (N1 & N2 & K & Q & n & F1 & F2).
  split; [congruence|]. split; [congruence|]. split; [lia|]. split; [auto|].
  exists (m ++ n). rewrite F1, F2, E1, E2, !app_assoc. auto.
Qed.

Lemma sameRun_recordError (msg : string) (a a1 c c1 : ReaderArena) :
  sameRun a a1 c c1 -> sameRun a (recordError msg a1) c (recordError msg c1).
Proof.
  intros (M1 & M2 & L & P & m & E1 & E2).
  split; [exact M1|]. split; [exact M2|]. split; [exact L|]. split; [exact P|].
  exists (m ++ [msg]). unfold recordError, record. cbn [errors].
  rewrite E1, E2, !app_assoc. auto.
Qed.

Lemma sameRun_DPRECOND (cond : bool) (msg : string) (a a1 c c1 : ReaderArena) :
  sameRun a a1 c c1 -> sameRun a (DPRECOND cond msg a1) c (DPRECOND cond msg c1).
Proof.
  unfold sameRun. rewrite !DPRECOND_message, !DPRECOND_limit, !DPRECOND_errors. auto.
Qed.

Lemma limitRefused_then (c c1 c2 : ReaderArena) :
  limitRefused c c1 -> message c2 = message c1 ->
  (exists more : ErrorLog, errors c2 = errors c1 ++ more) ->
  limitRefused c c2.
Proof.
  intros (M & pre & post & E) M2 (more & E2).
  split; [congruence|]. exists pre, (post ++ more).
  rewrite E2, E, <- !app_assoc. reflexivity.
Qed.

Lemma limitRefused_after (c c1 c2 : ReaderArena) :
  message c1 = message c -> (exists more : ErrorLog, errors c1 = errors c ++ more) ->
  limitRefused c1 c2 -> limitRefused c c2.
Proof.
  intros M1 (more & E1) (M & pre & post & E).
  split; [congruence|]. exists (more ++ pre), post.
  rewrite E, E1, <- !app_assoc. reflexivity.
Qed.

(** The refused run goes on from [c1] to [c2], the other from [a1] to [a2]. *)
Lemma refusedRun_then (a a1 a2 c c1 c2 : ReaderArena) :
  refusedRun a a1 c c1 -> limit a2 <= limit a1 ->
  message c2 = message c1 -> (exists more : ErrorLog, errors c2 = errors c1 ++ more) ->
  refusedRun a a2 c c2.
Proof.
  intros (L1 & L2 & R) La M E. split; [exact L1|]. split; [lia|].
  exact (limitRefused_then c c1 c2 R M E).
Qed.

Lemma refusedRun_after (a a1 a2 c c1 c2 : ReaderArena) :
  sameRun a a1 c c1 -> refusedRun a1 a2 c1 c2 -> refusedRun a a2 c c2.
Proof.
  intros (M1 & M2 & L & P & m & E1 & E2) (L1 & L2 & R).
  split; [lia|]. split; [lia|].
  apply (limitRefused_after c c1 c2 M2); [exists m; exact E2 | exact R].
Qed.

Lemma canRead_dichotomy (amount : Z) (a c : ReaderArena) :
  message c = message a -> limit c <= limit a ->
  dichotomy (fun ok => ok = false) a c (canRead amount a) (canRead amount c).
Proof.
  intros M L. unfold dichotomy, canRead.
  destruct (Z.gtb_spec amount (limit a)) as [Ha|Ha];
    destruct (Z.gtb_spec amount (limit c)) as [Hc|Hc]; cbn [fst snd]; try lia.
  - left. split; [reflexivity|]. apply sameRun_recordError, sameRun_start.
  - right. split; [reflexivity|]. split; [lia|]. split; [cbn [limit set_limit]; lia|].
    split; [reflexivity|]. exists [], []. reflexivity.
  - left. split; [reflexivity|]. split; [reflexivity|]. split; [reflexivity|].
    split; [cbn [limit set_limit]; lia|]. split; [cbn [limit set_limit]; lia|].
    exists []. cbn [errors set_limit]. rewrite !app_nil_r. auto.
Qed.

Lemma getArray_message (id : nat) (a c : ReaderArena) :
  message c = message a -> getArray id c = getArray id a.
Proof. intros M. unfold getArray. rewrite M. reflexivity. Qed.

Lemma boundsCheck_dichotomy (segment : SegmentRef) (from to : Z) (a c : ReaderArena) :
  message c = message a -> limit c <= limit a ->
  dichotomy (fun ok => ok = false) a c
    (boundsCheck segment from to a) (boundsCheck segment from to c).
Proof.
  intros M L. destruct segment as [id|blob]; cbn [boundsCheck].
  2: { left. split; [reflexivity | apply sameRun_start]. }
  unfold containsInterval. rewrite (getArray_message id a c M).
  destruct ((from >=? 0) && (to <=? Z.of_nat (length (getArray id a)))).
  - apply canRead_dichotomy; assumption.
  - left. split; [reflexivity | apply sameRun_start].
Qed.

Lemma sameRun_message (a a1 c c1 : ReaderArena) :
  message c = message a -> sameRun a a1 c c1 -> message c1 = message a1.
Proof. intros M (M1 & M2 & _). congruence. Qed.

Lemma sameRun_limit (a a1 c c1 : ReaderArena) :
  limit c <= limit a -> sameRun a a1 c c1 -> limit c1 <= limit a1.
Proof. intros L (_ & _ & K & _). lia. Qed.

Lemma sameRun_grows (a a1 c c1 : ReaderArena) :
  sameRun a a1 c c1 -> exists more : ErrorLog, errors c1 = errors c ++ more.
Proof. intros (_ & _ & _ & _ & m & _ & E). exists m. exact E. Qed.

Lemma grows_recordError (msg : string) (c : ReaderArena) :
  exists more : ErrorLog, errors (recordError msg c) = errors c ++ more.
Proof. exists [msg]. reflexivity. Qed.

Lemma followFars_dichotomy (ref : Loc) (segment : SegmentRef) (a c : ReaderArena) :
  message c = message a -> limit c <= limit a ->
  dichotomy (fun x : option Z * Loc * SegmentRef => fst (fst x) = None) a c
    (followFars ref segment a) (followFars ref segment c).
Proof.
  intros M L. unfold followFars.
  rewrite (wordOf_message ref c a M). set (w := wordOf ref a).
  destruct segment as [id|blob].
  2: { left. split; [reflexivity | apply sameRun_start]. }
  destruct (WirePointer.Kind_eqb (WirePointer.kind w) WirePointer.FAR).
  2: { left. split; [reflexivity | apply sameRun_start]. }
  rewrite (tryGetSegment_message _ c a M).
  destruct (tryGetSegment (WirePointer.segmentId w) a) as [id1|].
  2: { left. split; [reflexivity | apply sameRun_recordError, sameRun_start]. }
  set (ptr := WirePointer.farPositionInSegment w).
  set (padWords := (1 + (if WirePointer.isDoubleFar w then 1 else 0)) * POINTER_SIZE_IN_WORDS).
  destruct (boundsCheck_dichotomy (Checked id1) ptr (ptr + padWords) a c M L)
    as [[Hok Hs]|[Hok Hr]];
    destruct (boundsCheck (Checked id1) ptr (ptr + padWords) a) as [oka a1];
    destruct (boundsCheck (Checked id1) ptr (ptr + padWords) c) as [okc c1];
    cbn [fst snd] in Hok, Hs || cbn [fst snd] in Hok, Hr; subst okc.
  - (* the bounds check of the landing pad agrees *)
    pose proof (sameRun_message a a1 c c1 M Hs) as M1.
    destruct oka; cbn [negb].
    2: { left. split; [reflexivity | apply sameRun_recordError, Hs]. }
    rewrite (wordOf_message _ c1 a1 M1), (tryGetSegment_message _ c1 a1 M1).
    destruct (WirePointer.isDoubleFar w); cbn [negb].
    2: { left. split; [reflexivity | exact Hs]. }
    destruct (tryGetSegment _ a1).
    + left. split; [reflexivity | apply sameRun_DPRECOND, Hs].
    + left. split; [reflexivity | apply sameRun_recordError, Hs].
  - (* the run from [c] is refused *)
    cbn [negb]. right. split; [reflexivity|].
    assert (Hc : refusedRun a a1 c
                   (recordError "Message contains out-of-bounds far pointer." c1)).
    { apply (refusedRun_then a a1 a1 c c1); [exact Hr | lia | reflexivity
                                             | apply grows_recordError]. }
    destruct oka; cbn [negb].
    2: { apply (refusedRun_then a a1 _ c _ _ Hc); [cbn; lia | reflexivity | exists []; rewrite app_nil_r; reflexivity]. }
    destruct (WirePointer.isDoubleFar w); cbn [negb]; [|exact Hc].
    destruct (tryGetSegment _ a1); cbv zeta; cbn [snd].
    + apply (refusedRun_then a a1 _ c _ _ Hc);
        [rewrite DPRECOND_limit; lia | reflexivity | exists []; rewrite app_nil_r; reflexivity].
    + apply (refusedRun_then a a1 _ c _ _ Hc);
        [cbn; lia | reflexivity | exists []; rewrite app_nil_r; reflexivity].
Qed.

Lemma wordSize_nonneg (w : Z) : 0 <= WirePointer.wordSize w.
Proof.
  pose proof (dataSize_range w). pose proof (ptrCount_range w).
  unfold WirePointer.wordSize, WORDS_PER_POINTER. lia.
Qed.

Lemma boundsCheck_limit (segment : SegmentRef) (from to : Z) (a : ReaderArena) :
  from <= to -> limit (snd (boundsCheck segment from to a)) <= limit a.
Proof.
  intros H. destruct (boundsCheck_advances segment from to a H) as ((_ & K & _) & _).
  exact K.
Qed.

Ltac agree_leaf Hs :=
  left; split; [reflexivity|];
  first [ exact Hs | apply sameRun_recordError, Hs ].

Lemma readStructPointer_checks_dichotomy (segment : SegmentRef) (ref : Loc)
    (nestingLimit : Z) (a c : ReaderArena) :
  message c = message a -> limit c <= limit a ->
  dichotomy (fun x : option StructReader => x = None) a c
    (readStructPointer_checks segment ref nestingLimit a)
    (readStructPointer_checks segment ref nestingLimit c).
Proof.
  intros M L. unfold readStructPointer_checks.
  destruct (nestingLimit >? 0); cbn [negb].
  2: { agree_leaf (sameRun_start a c). }
  destruct (followFars_dichotomy ref segment a c M L) as [[Hx Hs]|[Hx Hr]];
    destruct (followFars ref segment a) as [[[pa ra] sa] a1];
    destruct (followFars ref segment c) as [[[pc rc] sc] c1];
    cbn [fst snd] in *.
  - injection Hx as -> -> ->.
    pose proof (sameRun_message a a1 c c1 M Hs) as M1.
    pose proof (sameRun_limit a a1 c c1 L Hs) as L1.
    destruct pa as [ptr|]; [|agree_leaf Hs].
    rewrite (wordOf_message _ c1 a1 M1). set (w := wordOf ra a1).
    destruct (WirePointer.Kind_eqb (WirePointer.kind w) WirePointer.STRUCT); cbn [negb];
      [|agree_leaf Hs].
    destruct (boundsCheck_dichotomy sa ptr (ptr + WirePointer.wordSize w) a1 c1 M1 L1)
      as [[Hok Hs2]|[Hok Hr2]];
      destruct (boundsCheck sa ptr (ptr + WirePointer.wordSize w) a1) as [oka a2];
      destruct (boundsCheck sa ptr (ptr + WirePointer.wordSize w) c1) as [okc c2];
      cbn [fst snd] in *; subst okc.
    + pose proof (sameRun_trans _ _ _ _ _ _ Hs Hs2) as Hs3.
      destruct oka; cbn [negb]; agree_leaf Hs3.
    + cbn [negb]. right. split; [reflexivity|].
      apply (refusedRun_after a a1 _ c c1 _ Hs).
      apply (refusedRun_then a1 a2 _ c1 c2 _ Hr2);
        [destruct oka; cbn; lia | reflexivity | apply grows_recordError].
  - subst pc. right. split; [reflexivity|].
    apply (refusedRun_then a a1 _ c c1 _ Hr);
      [| reflexivity | exists []; rewrite app_nil_r; reflexivity].
    destruct pa as [ptr|]; [|cbn; lia].
    set (w := wordOf ra a1).
    destruct (WirePointer.Kind_eqb (WirePointer.kind w) WirePointer.STRUCT); cbn [negb];
      [|cbn; lia].
    pose proof (boundsCheck_limit sa ptr (ptr + WirePointer.wordSize w) a1
                  ltac:(pose proof (wordSize_nonneg w); lia)) as Hb.
    destruct (boundsCheck sa ptr (ptr + WirePointer.wordSize w) a1) as [oka a2].
    cbn [snd] in Hb. destruct oka; cbn [negb snd limit recordError]; exact Hb.
Qed.

Lemma le_add_roundUp_bits (p x : Z) : p <= p + roundUpToWords_bits x.
Proof.
  unfold roundUpToWords_bits, u32.
  pose proof (Z.mod_pos_bound (u64 (x + 63) / BITS_PER_WORD) (2 ^ 32) ltac:(lia)). lia.
Qed.

Lemma le_add_roundUp_bytes (p x : Z) : p <= p + roundUpToWords_bytes x.
Proof.
  unfold roundUpToWords_bytes, u32, BYTES_PER_WORD.
  pose proof (Z.mod_pos_bound (x + 7) (2 ^ 32) ltac:(lia)).
  pose proof (Z.div_pos ((x + 7) mod 2 ^ 32) 8 ltac:(lia) ltac:(lia)). lia.
Qed.

Lemma le_composite (p : Z) (w : Z) :
  p + POINTER_SIZE_IN_WORDS - POINTER_SIZE_IN_WORDS
  <= p + POINTER_SIZE_IN_WORDS + WirePointer.inlineCompositeWordCount w.
Proof.
  pose proof (elementCount_range w).
  unfold POINTER_SIZE_IN_WORDS, WirePointer.inlineCompositeWordCount. lia.
Qed.

(** Case analysis on what is left of a reader after its bounds check. *)
Ltac split_tail :=
  repeat match goal with
         | |- context [negb ?b] => destruct b; cbn [negb]
         end.

Lemma readListPointer_checks_limit (segment : SegmentRef) (ref : Loc)
    (expected : FieldSize) (nestingLimit : Z) (a : ReaderArena) :
  (nestingLimit >? 0) = true ->
  limit (snd (readListPointer_checks segment ref expected nestingLimit a))
  <= limit (snd (followFars ref segment a)).
Proof.
  intros Hnl. unfold readListPointer_checks. rewrite Hnl. cbn [negb].
  destruct (followFars ref segment a) as [[[pa ra] sa] a1]. cbn [snd].
  destruct pa as [ptr|]; [|cbn; lia].
  set (w := wordOf ra a1).
  destruct (WirePointer.Kind_eqb (WirePointer.kind w) WirePointer.LIST); cbn [negb];
    [|cbn; lia].
  cbv zeta.
  destruct (WirePointer.elementSize w);
    match goal with
    | |- context [boundsCheck ?s ?f ?t a1] =>
      let H := fresh "Hb" in
      assert (H : limit (snd (boundsCheck s f t a1)) <= limit a1)
        by (apply boundsCheck_limit;
            first [apply le_add_roundUp_bits | apply le_composite]);
      destruct (boundsCheck s f t a1) as [oka a2]; cbn [snd] in H
    end;
    destruct expected; split_tail; cbn [snd limit recordError]; exact Hb.
Qed.

Lemma readListPointer_checks_dichotomy (segment : SegmentRef) (ref : Loc)
    (expected : FieldSize) (nestingLimit : Z) (a c : ReaderArena) :
  message c = message a -> limit c <= limit a ->
  dichotomy (fun x : option ListReader => x = None) a c
    (readListPointer_checks segment ref expected nestingLimit a)
    (readListPointer_checks segment ref expected nestingLimit c).
Proof.
  intros M L.
  pose proof (readListPointer_checks_limit segment ref expected nestingLimit a) as Htail.
  unfold readListPointer_checks in *.
  destruct (nestingLimit >? 0); cbn [negb] in *.
  2: { agree_leaf (sameRun_start a c). }
  specialize (Htail eq_refl).
  destruct (followFars_dichotomy ref segment a c M L) as [[Hx Hs]|[Hx Hr]];
    destruct (followFars ref segment a) as [[[pa ra] sa] a1];
    destruct (followFars ref segment c) as [[[pc rc] sc] c1];
    cbn [fst snd] in Hx, Hs, Htail || cbn [fst snd] in Hx, Hr, Htail.
  - clear Htail. injection Hx as -> -> ->.
    pose proof (sameRun_message a a1 c c1 M Hs) as M1.
    pose proof (sameRun_limit a a1 c c1 L Hs) as L1.
    destruct pa as [ptr|]; [|agree_leaf Hs].
    rewrite (wordOf_message _ c1 a1 M1). set (w := wordOf ra a1).
    destruct (WirePointer.Kind_eqb (WirePointer.kind w) WirePointer.LIST); cbn [negb];
      [|agree_leaf Hs].
    cbv zeta.
    destruct (WirePointer.elementSize w);
      match goal with
      | |- context [boundsCheck ?s ?f ?t a1] =>
        let G := fresh "Hlim" in
        assert (G : limit (snd (boundsCheck s f t a1)) <= limit a1)
          by (apply boundsCheck_limit;
              first [apply le_add_roundUp_bits | apply le_composite]);
        destruct (boundsCheck_dichotomy s f t a1 c1 M1 L1) as [[Hok Hs2]|[Hok Hr2]];
        destruct (boundsCheck s f t a1) as [oka a2];
        destruct (boundsCheck s f t c1) as [okc c2];
        cbn [fst snd] in Hok, Hs2, G || cbn [fst snd] in Hok, Hr2, G; subst okc
      end;
      try (pose proof (sameRun_trans _ _ _ _ _ _ Hs Hs2) as Hs3;
           pose proof (sameRun_message a1 a2 c1 c2 M1 Hs2) as M2;
           rewrite ?(wordOf_message _ c2 a2 M2);
           destruct expected; split_tail; agree_leaf Hs3);
      (cbn [negb]; right; split; [reflexivity|];
       apply (refusedRun_after a a1 _ c c1 _ Hs);
       apply (refusedRun_then a1 a2 _ c1 c2 _ Hr2);
       [ destruct expected; split_tail; cbn [snd limit recordError]; lia
       | reflexivity | apply grows_recordError ]).
  - subst pc. right. split; [reflexivity|].
    apply (refusedRun_then a a1 _ c c1 _ Hr);
      [exact Htail | reflexivity | exists []; rewrite app_nil_r; reflexivity].
Qed.

(** Reading a default value charges nothing and does not depend on the
    arena. *)
Definition uniform {X : Type} (f : ReaderArena -> X * ReaderArena) : Prop :=
  forall a c : ReaderArena,
    fst (f c) = fst (f a) /\ sameRun a (snd (f a)) c (snd (f c))
    /\ limit (snd (f a)) = limit a.

Ltac uniform_leaf :=
  split; [reflexivity|]; split; [|reflexivity];
  first [ apply sameRun_start | apply sameRun_recordError, sameRun_start ].

Lemma wordOf_unchecked (blob : list Z) (p : Z) (a : ReaderArena) :
  wordOf (Unchecked blob, p) a = wordAt blob p.
Proof. reflexivity. Qed.

Lemma structDefault_uniform (defaultValue : option (list Z)) (nestingLimit : Z) :
  uniform (structDefault defaultValue nestingLimit).
Proof.
  intros a c. unfold structDefault.
  destruct defaultValue as [blob|]; [|uniform_leaf].
  destruct (WirePointer.isNull (wordAt blob 0)); [uniform_leaf|].
  unfold readStructPointer_checks.
  destruct (nestingLimit >? 0); cbn [negb]; [|uniform_leaf].
  cbn [followFars boundsCheck].
  change (wordOf (Unchecked blob, 0) a) with (wordAt blob 0).
  change (wordOf (Unchecked blob, 0) c) with (wordAt blob 0).
  destruct (WirePointer.Kind_eqb (WirePointer.kind (wordAt blob 0)) WirePointer.STRUCT);
    cbn [negb]; uniform_leaf.
Qed.

Lemma listDefault_uniform (defaultValue : option (list Z)) (expected : FieldSize)
    (nestingLimit : Z) :
  uniform (listDefault defaultValue expected nestingLimit).
Proof.
  intros a c. unfold listDefault.
  destruct defaultValue as [blob|]; [|uniform_leaf].
  destruct (WirePointer.isNull (wordAt blob 0)); [uniform_leaf|].
  unfold readListPointer_checks.
  destruct (nestingLimit >? 0); cbn [negb]; [|uniform_leaf].
  cbn [followFars].
  change (wordOf (Unchecked blob, 0) a) with (wordAt blob 0).
  change (wordOf (Unchecked blob, 0) c) with (wordAt blob 0).
  destruct (WirePointer.Kind_eqb (WirePointer.kind (wordAt blob 0)) WirePointer.LIST);
    cbn [negb]; [|uniform_leaf].
  cbv zeta. cbn [boundsCheck]. rewrite ?wordOf_unchecked.
  destruct (WirePointer.elementSize (wordAt blob 0)); destruct expected;
    split_tail; uniform_leaf.
Qed.

Lemma readStructPointer_dichotomy (segment : SegmentRef) (ref : option Loc)
    (defaultValue : option (list Z)) (nestingLimit : Z) (a c : ReaderArena) :
  message c = message a -> limit c <= limit a ->
  dichotomy
    (fun x => x = fst (readStructPointer segment None defaultValue nestingLimit c)) a c
    (readStructPointer segment ref defaultValue nestingLimit a)
    (readStructPointer segment ref defaultValue nestingLimit c).
Proof.
  intros M L. rewrite !readStructPointer_unfold.
  pose proof (structDefault_uniform defaultValue nestingLimit) as HU.
  destruct ref as [r|].
  2: { left. destruct (HU a c) as (K1 & K2 & _). auto. }
  rewrite (wordOf_message r c a M).
  destruct (WirePointer.isNull (wordOf r a)).
  { left. destruct (HU a c) as (K1 & K2 & _). auto. }
  destruct (readStructPointer_checks_dichotomy segment r nestingLimit a c M L)
    as [[Hx Hs]|[Hx Hr]];
    destruct (readStructPointer_checks segment r nestingLimit a) as [xa a1];
    destruct (readStructPointer_checks segment r nestingLimit c) as [xc c1];
    cbn [fst snd] in *; subst xc.
  - destruct xa as [x|]; [left; auto|].
    destruct (HU a1 c1) as (K1 & K2 & _). left. split; [exact K1|].
    exact (sameRun_trans _ _ _ _ _ _ Hs K2).
  - right. split; [apply (HU c c1)|].
    destruct (HU c1 c1) as (_ & K2 & _).
    apply (refusedRun_then a a1 _ c c1 _ Hr);
      [| apply K2 | exact (sameRun_grows _ _ _ _ K2)].
    destruct xa as [x|]; cbn [snd]; [lia|].
    destruct (HU a1 a1) as (_ & _ & K3). lia.
Qed.

Lemma readListPointer_dichotomy (segment : SegmentRef) (ref : option Loc)
    (defaultValue : option (list Z)) (expected : FieldSize) (nestingLimit : Z)
    (a c : ReaderArena) :
  message c = message a -> limit c <= limit a ->
  dichotomy
    (fun x => x = fst (readListPointer segment None defaultValue expected nestingLimit c))
    a c
    (readListPointer segment ref defaultValue expected nestingLimit a)
    (readListPointer segment ref defaultValue expected nestingLimit c).
Proof.
  intros M L. rewrite !readListPointer_unfold.
  pose proof (listDefault_uniform defaultValue expected nestingLimit) as HU.
  destruct ref as [r|].
  2: { left. destruct (HU a c) as (K1 & K2 & _). auto. }
  rewrite (wordOf_message r c a M).
  destruct (WirePointer.isNull (wordOf r a)).
  { left. destruct (HU a c) as (K1 & K2 & _). auto. }
  destruct (readListPointer_checks_dichotomy segment r expected nestingLimit a c M L)
    as [[Hx Hs]|[Hx Hr]];
    destruct (readListPointer_checks segment r expected nestingLimit a) as [xa a1];
    destruct (readListPointer_checks segment r expected nestingLimit c) as [xc c1];
    cbn [fst snd] in *; subst xc.
  - destruct xa as [x|]; [left; auto|].
    destruct (HU a1 c1) as (K1 & K2 & _). left. split; [exact K1|].
    exact (sameRun_trans _ _ _ _ _ _ Hs K2).
  - right. split; [apply (HU c c1)|].
    destruct (HU c1 c1) as (_ & K2 & _).
    apply (refusedRun_then a a1 _ c c1 _ Hr);
      [| apply K2 | exact (sameRun_grows _ _ _ _ K2)].
    destruct xa as [x|]; cbn [snd]; [lia|].
    destruct (HU a1 a1) as (_ & _ & K3). lia.
Qed.

Lemma readTextPointer_limit (segment : SegmentRef) (r : Loc)
    (d : option (list Z)) (ds : Z) (a : ReaderArena) :
  WirePointer.isNull (wordOf r a) = false ->
  limit (snd (readTextPointer segment (Some r) d ds a))
  <= limit (snd (followFars r segment a)).
Proof.
  intros Hn. unfold readTextPointer. rewrite Hn.
  destruct (followFars r segment a) as [[[pa ra] sa] a1]. cbn [snd].
  destruct pa as [ptr|]; [|cbn; lia].
  set (w := wordOf ra a1).
  destruct (WirePointer.Kind_eqb (WirePointer.kind w) WirePointer.LIST); cbn [negb];
    [|cbn; lia].
  destruct (WirePointer.elementSize w); try (cbn; lia).
  pose proof (boundsCheck_limit sa ptr (ptr + roundUpToWords_bytes (WirePointer.elementCount w))
                a1 (le_add_roundUp_bytes _ _)) as Hb.
  destruct (boundsCheck sa ptr (ptr + roundUpToWords_bytes (WirePointer.elementCount w)) a1)
    as [oka a2].
  cbn [snd] in Hb. split_tail; cbn [snd limit recordError]; exact Hb.
Qed.

Lemma readTextPointer_dichotomy (segment : SegmentRef) (ref : option Loc)
    (d : option (list Z)) (ds : Z) (a c : ReaderArena) :
  message c = message a -> limit c <= limit a ->
  dichotomy (fun x => x = fst (readTextPointer segment None d ds c)) a c
    (readTextPointer segment ref d ds a) (readTextPointer segment ref d ds c).
Proof.
  intros M L.
  destruct ref as [r|]; [|agree_leaf (sameRun_start a c)].
  pose proof (readTextPointer_limit segment r d ds a) as Htail.
  unfold readTextPointer in *. rewrite (wordOf_message r c a M).
  destruct (WirePointer.isNull (wordOf r a)); [agree_leaf (sameRun_start a c)|].
  specialize (Htail eq_refl).
  destruct (followFars_dichotomy r segment a c M L) as [[Hx Hs]|[Hx Hr]];
    destruct (followFars r segment a) as [[[pa ra] sa] a1];
    destruct (followFars r segment c) as [[[pc rc] sc] c1];
    cbn [fst snd] in Hx, Hs, Htail || cbn [fst snd] in Hx, Hr, Htail.
  - clear Htail. injection Hx as -> -> ->.
    pose proof (sameRun_message a a1 c c1 M Hs) as M1.
    pose proof (sameRun_limit a a1 c c1 L Hs) as L1.
    destruct pa as [ptr|]; [|agree_leaf Hs].
    rewrite (wordOf_message _ c1 a1 M1). set (w := wordOf ra a1).
    destruct (WirePointer.Kind_eqb (WirePointer.kind w) WirePointer.LIST); cbn [negb];
      [|agree_leaf Hs].
    destruct (WirePointer.elementSize w); try agree_leaf Hs.
    pose proof (boundsCheck_limit sa ptr
                  (ptr + roundUpToWords_bytes (WirePointer.elementCount w))
                  a1 (le_add_roundUp_bytes _ _)) as Hlim.
    destruct (boundsCheck_dichotomy sa ptr
                (ptr + roundUpToWords_bytes (WirePointer.elementCount w)) a1 c1 M1 L1)
      as [[Hok Hs2]|[Hok Hr2]];
      destruct (boundsCheck sa ptr (ptr + roundUpToWords_bytes (WirePointer.elementCount w)) a1)
        as [oka a2];
      destruct (boundsCheck sa ptr (ptr + roundUpToWords_bytes (WirePointer.elementCount w)) c1)
        as [okc c2];
      cbn [fst snd] in *; subst okc.
    + pose proof (sameRun_trans _ _ _ _ _ _ Hs Hs2) as Hs3.
      pose proof (sameRun_message a1 a2 c1 c2 M1 Hs2) as M2.
      rewrite (charAt_message _ _ c2 a2 M2).
      split_tail; agree_leaf Hs3.
    + cbn [negb]. right. split; [reflexivity|].
      apply (refusedRun_after a a1 _ c c1 _ Hs).
      apply (refusedRun_then a1 a2 _ c1 c2 _ Hr2);
        [split_tail; cbn [snd limit recordError]; lia | reflexivity
         | apply grows_recordError].
  - subst pc. right. split; [reflexivity|].
    apply (refusedRun_then a a1 _ c c1 _ Hr);
      [exact Htail | reflexivity | exists []; rewrite app_nil_r; reflexivity].
Qed.

Lemma readDataPointer_limit (segment : SegmentRef) (r : Loc)
    (d : option (list Z)) (ds : Z) (a : ReaderArena) :
  WirePointer.isNull (wordOf r a) = false ->
  limit (snd (readDataPointer segment (Some r) d ds a))
  <= limit (snd (followFars r segment a)).
Proof.
  intros Hn. unfold readDataPointer. rewrite Hn.
  destruct (followFars r segment a) as [[[pa ra] sa] a1]. cbn [snd].
  destruct pa as [ptr|]; [|cbn; lia].
  set (w := wordOf ra a1).
  destruct (WirePointer.Kind_eqb (WirePointer.kind w) WirePointer.LIST); cbn [negb];
    [|cbn; lia].
  destruct (WirePointer.elementSize w); try (cbn; lia).
  pose proof (boundsCheck_limit sa ptr (ptr + roundUpToWords_bytes (WirePointer.elementCount w))
                a1 (le_add_roundUp_bytes _ _)) as Hb.
  destruct (boundsCheck sa ptr (ptr + roundUpToWords_bytes (WirePointer.elementCount w)) a1)
    as [oka a2].
  cbn [snd] in Hb. split_tail; cbn [snd limit recordError]; exact Hb.
Qed.

Lemma readDataPointer_dichotomy (segment : SegmentRef) (ref : option Loc)
    (d : option (list Z)) (ds : Z) (a c : ReaderArena) :
  message c = message a -> limit c <= limit a ->
  dichotomy (fun x => x = fst (readDataPointer segment None d ds c)) a c
    (readDataPointer segment ref d ds a) (readDataPointer segment ref d ds c).
Proof.
  intros M L.
  destruct ref as [r|]; [|agree_leaf (sameRun_start a c)].
  pose proof (readDataPointer_limit segment r d ds a) as Htail.
  unfold readDataPointer in *. rewrite (wordOf_message r c a M).
  destruct (WirePointer.isNull (wordOf r a)); [agree_leaf (sameRun_start a c)|].
  specialize (Htail eq_refl).
  destruct (followFars_dichotomy r segment a c M L) as [[Hx Hs]|[Hx Hr]];
    destruct (followFars r segment a) as [[[pa ra] sa] a1];
    destruct (followFars r segment c) as [[[pc rc] sc] c1];
    cbn [fst snd] in Hx, Hs, Htail || cbn [fst snd] in Hx, Hr, Htail.
  - clear Htail. injection Hx as -> -> ->.
    pose proof (sameRun_message a a1 c c1 M Hs) as M1.
    pose proof (sameRun_limit a a1 c c1 L Hs) as L1.
    destruct pa as [ptr|]; [|agree_leaf Hs].
    rewrite (wordOf_message _ c1 a1 M1). set (w := wordOf ra a1).
    destruct (WirePointer.Kind_eqb (WirePointer.kind w) WirePointer.LIST); cbn [negb];
      [|agree_leaf Hs].
    destruct (WirePointer.elementSize w); try agree_leaf Hs.
    destruct (boundsCheck_dichotomy sa ptr
                (ptr + roundUpToWords_bytes (WirePointer.elementCount w)) a1 c1 M1 L1)
      as [[Hok Hs2]|[Hok Hr2]];
      destruct (boundsCheck sa ptr (ptr + roundUpToWords_bytes (WirePointer.elementCount w)) a1)
        as [oka a2];
      destruct (boundsCheck sa ptr (ptr + roundUpToWords_bytes (WirePointer.elementCount w)) c1)
        as [okc c2];
      cbn [fst snd] in *; subst okc.
    + pose proof (sameRun_trans _ _ _ _ _ _ Hs Hs2) as Hs3.
      split_tail; agree_leaf Hs3.
    + cbn [negb]. right. split; [reflexivity|].
      apply (refusedRun_after a a1 _ c c1 _ Hs).
      apply (refusedRun_then a1 a2 _ c1 c2 _ Hr2);
        [split_tail; cbn [snd limit recordError]; lia | reflexivity
         | apply grows_recordError].
  - subst pc. right. split; [reflexivity|].
    apply (refusedRun_then a a1 _ c c1 _ Hr);
      [exact Htail | reflexivity | exists []; rewrite app_nil_r; reflexivity].
Qed.

Lemma readRoot_dichotomy (location : Z) (segment : nat) (nestingLimit : Z)
    (a c : ReaderArena) :
  message c = message a -> limit c <= limit a ->
  dichotomy (fun x => x = StructReader_default) a c
    (readRoot location segment nestingLimit a) (readRoot location segment nestingLimit c).
Proof.
  intros M L. unfold readRoot.
  destruct (boundsCheck_dichotomy (Checked segment) location
              (location + POINTER_SIZE_IN_WORDS) a c M L) as [[Hok Hs]|[Hok Hr]];
    destruct (boundsCheck (Checked segment) location (location + POINTER_SIZE_IN_WORDS) a)
      as [oka a1];
    destruct (boundsCheck (Checked segment) location (location + POINTER_SIZE_IN_WORDS) c)
      as [okc c1];
    cbn [fst snd] in *; subst okc.
  - pose proof (sameRun_message a a1 c c1 M Hs) as M1.
    pose proof (sameRun_limit a a1 c c1 L Hs) as L1.
    destruct oka; cbn [negb].
    2: { left. split; [reflexivity | apply sameRun_recordError, Hs]. }
    destruct (readStructPointer_dichotomy (Checked segment)
                (Some (Checked segment, location)) None nestingLimit a1 c1 M1 L1)
      as [[Kx Ks]|[Kx Kr]].
    + left. split; [exact Kx | exact (sameRun_trans _ _ _ _ _ _ Hs Ks)].
    + right. split; [exact Kx | exact (refusedRun_after _ _ _ _ _ _ Hs Kr)].
  - cbn [negb]. right. split; [reflexivity|].
    apply (refusedRun_then a a1 _ c c1 _ Hr);
      [| reflexivity | apply grows_recordError].
    destruct oka; cbn [negb].
    + destruct (readStructPointer_safe (Checked segment) (Some (Checked segment, location))
                  None nestingLimit a1) as ((_ & K & _) & _). exact K.
    + cbn. lia.
Qed.

(** *** Every pointer resolution *)

(** A pointer resolution: the reader called and its arguments.  [RootPointer]
    is [StructReader::readRoot]. *)
Inductive Resolution : Type :=
| StructPointer (segment : SegmentRef) (ref : option Loc) (defaultValue : option (list Z))
    (nestingLimit : Z)
| ListPointer (segment : SegmentRef) (ref : option Loc) (defaultValue : option (list Z))
    (expectedElementSize : FieldSize) (nestingLimit : Z)
| TextPointer (segment : SegmentRef) (ref : option Loc) (defaultValue : option (list Z))
    (defaultSize : Z)
| DataPointer (segment : SegmentRef) (ref : option Loc) (defaultValue : option (list Z))
    (defaultSize : Z)
| RootPointer (location : Z) (segment : nat) (nestingLimit : Z).

(** What a resolution returns. *)
Inductive View : Type :=
| StructView (r : StructReader)
| ListView (r : ListReader)
| BlobView (t : TextReader).

Definition resolution (q : Resolution) (a : ReaderArena) : View * ReaderArena :=
  match q with
  | StructPointer segment ref d nestingLimit =>
    let '(r, a1) := readStructPointer segment ref d nestingLimit a in (StructView r, a1)
  | ListPointer segment ref d expected nestingLimit =>
    let '(r, a1) := readListPointer segment ref d expected nestingLimit a in (ListView r, a1)
  | TextPointer segment ref d ds =>
    let '(t, a1) := readTextPointer segment ref d ds a in (BlobView t, a1)
  | DataPointer segment ref d ds =>
    let '(t, a1) := readDataPointer segment ref d ds a in (BlobView t, a1)
  | RootPointer location segment nestingLimit =>
    let '(r, a1) := readRoot location segment nestingLimit a in (StructView r, a1)
  end.

(** The same call on a null pointer ([ref == nullptr]); for the root, a
    struct pointer without default. *)
Definition nullOf (q : Resolution) : Resolution :=
  match q with
  | StructPointer segment _ d nestingLimit => StructPointer segment None d nestingLimit
  | ListPointer segment _ d expected nestingLimit =>
    ListPointer segment None d expected nestingLimit
  | TextPointer segment _ d ds => TextPointer segment None d ds
  | DataPointer segment _ d ds => DataPointer segment None d ds
  | RootPointer _ segment nestingLimit =>
    StructPointer (Checked segment) None None nestingLimit
  end.

Lemma dichotomy_map {X Y : Type} (f : X -> Y) (fails : X -> Prop) (fails' : Y -> Prop)
    (a c : ReaderArena) (ra rc : X * ReaderArena) :
  (forall x, fails x -> fails' (f x)) ->
  dichotomy fails a c ra rc ->
  dichotomy fails' a c (f (fst ra), snd ra) (f (fst rc), snd rc).
Proof.
  intros Hf [[Hx Hs]|[Hx Hr]]; [left | right]; cbn [fst snd].
  - split; [congruence | exact Hs].
  - split; [apply Hf, Hx | exact Hr].
Qed.

Lemma pair_let {X Y : Type} (f : X -> Y) (p : X * ReaderArena) :
  (let '(x, a1) := p in (f x, a1)) = (f (fst p), snd p).
Proof. destruct p; reflexivity. Qed.

Lemma resolution_dichotomy (q : Resolution) (a c : ReaderArena) :
  message c = message a -> limit c <= limit a ->
  dichotomy (fun v => v = fst (resolution (nullOf q) c)) a c
    (resolution q a) (resolution q c).
Proof.
  intros M L. destruct q; cbn [resolution nullOf]; rewrite !pair_let; cbn [fst].
  - refine (dichotomy_map StructView _ _ a c _ _ _
              (readStructPointer_dichotomy segment ref defaultValue nestingLimit a c M L)).
    intros x Hx. cbv beta in Hx. rewrite Hx. reflexivity.
  - refine (dichotomy_map ListView _ _ a c _ _ _
              (readListPointer_dichotomy segment ref defaultValue expectedElementSize
                 nestingLimit a c M L)).
    intros x Hx. cbv beta in Hx. rewrite Hx. reflexivity.
  - refine (dichotomy_map BlobView _ _ a c _ _ _
              (readTextPointer_dichotomy segment ref defaultValue defaultSize a c M L)).
    intros x Hx. cbv beta in Hx. rewrite Hx. reflexivity.
  - refine (dichotomy_map BlobView _ _ a c _ _ _
              (readDataPointer_dichotomy segment ref defaultValue defaultSize a c M L)).
    intros x Hx. cbv beta in Hx. rewrite Hx. reflexivity.
  - refine (dichotomy_map StructView _ _ a c _ _ _
              (readRoot_dichotomy location segment nestingLimit a c M L)).
    intros x Hx. cbv beta in Hx. rewrite Hx. reflexivity.
Qed.

(** C3 (as amended). A [canRead] call that asks for more words than the
    limiter has left fails, records the traversal-limit error and leaves the
    limiter as it was: the failure is not remembered.  Afterwards every
    pointer resolution (struct, list, text, data or root; any pointer,
    default and nesting limit) returns the same view, charges the same words
    and records the same further errors as on the arena where no read has
    failed.  Measured against any arena [b] over the same message that has
    at least as many words left, on which the resolution charges [n] words:
    when [n] words are left it does exactly what it does on [b]; when fewer
    are left it records the traversal-limit error and returns what the same
    call returns for a null pointer.  For a struct pointer that is not far
    and whose target is in its segment, [n] is the size of the struct. *)
Theorem C3_read_limit (a : ReaderArena) (amount : Z) :
  limit a < amount ->
  let a1 := snd (canRead amount a) in
  fst (canRead amount a) = false
  /\ errors a1 = errors a ++ [limitMessage]
  /\ limit a1 = limit a
  /\ message a1 = message a
  /\ (forall amount2 : Z, fst (canRead amount2 a1) = true <-> amount2 <= limit a)
  /\ (forall q : Resolution,
        fst (resolution q a1) = fst (resolution q a)
        /\ limit (snd (resolution q a1)) = limit (snd (resolution q a))
        /\ exists more : ErrorLog,
             errors (snd (resolution q a)) = errors a ++ more
             /\ errors (snd (resolution q a1)) = errors a1 ++ more)
  /\ (forall (q : Resolution) (b : ReaderArena),
        message b = message a -> limit a <= limit b ->
        let n := limit b - limit (snd (resolution q b)) in
        (n <= limit a ->
         fst (resolution q a1) = fst (resolution q b)
         /\ limit (snd (resolution q a1)) = limit a - n
         /\ exists more : ErrorLog,
              errors (snd (resolution q b)) = errors b ++ more
              /\ errors (snd (resolution q a1)) = errors a1 ++ more)
        /\ (limit a < n -> 0 <= limit a ->
            fst (resolution q a1) = fst (resolution (nullOf q) a1)
            /\ exists pre post : ErrorLog,
                 errors (snd (resolution q a1))
                 = errors a1 ++ pre ++ limitMessage :: post))
  /\ (forall (id : nat) (ref nestingLimit : Z),
        let w := wordOf (Checked id, ref) a1 in
        let ptr := WirePointer.target ref w in
        WirePointer.isNull w = false ->
        WirePointer.kind w = WirePointer.STRUCT ->
        0 < nestingLimit ->
        0 <= ptr ->
        ptr + WirePointer.wordSize w <= Z.of_nat (length (getArray id a1)) ->
        let r := readStructPointer (Checked id) (Some (Checked id, ref)) None nestingLimit a1 in
        (limit a < WirePointer.wordSize w ->
           fst r = StructReader_default /\ errors (snd r) <> errors a1)
        /\ (WirePointer.wordSize w <= limit a ->
             sr_data (fst r) = Some ptr /\ errors (snd r) = errors a1
             /\ limit (snd r) = limit a - WirePointer.wordSize w)).
Proof.
  intros Hlt a1. subst a1. rewrite canRead_false by lia.
  cbn [fst snd]. set (a1 := reportReadLimitReached a).
  assert (Hl : limit a1 = limit a) by reflexivity.
  assert (Hm : message a1 = message a) by reflexivity.
  split; [reflexivity|]. split; [reflexivity|]. split; [reflexivity|].
  split; [reflexivity|]. split; [|split; [|split]].
  - intros amount2. unfold canRead. rewrite Hl.
    destruct (Z.gtb_spec amount2 (limit a)); cbn [fst]; split; intros; try lia;
      try discriminate; reflexivity.
  - intros q.
    destruct (resolution_dichotomy q a a1 Hm ltac:(lia)) as [[Hx Hs]|[_ (Hr & _)]]; [|lia].
    destruct Hs as (_ & _ & Hc & _ & more & E1 & E2).
    split; [exact Hx|]. split; [lia|]. exists more. auto.
  - intros q b Mb Lb. cbv zeta.
    destruct (resolution_dichotomy q b a1 ltac:(congruence) ltac:(lia))
      as [[Hx Hs]|[Hx (_ & Hr & _ & Hlog)]].
    + destruct Hs as (_ & _ & Hc & Hpos & more & E1 & E2). split.
      * intros _. split; [exact Hx|]. split; [lia|]. exists more. auto.
      * intros Hn H0. specialize (Hpos ltac:(lia)). lia.
    + split; [intros Hn; lia|]. intros _ _. split; [exact Hx | exact Hlog].
  - intros id ref nestingLimit Hnull Hkind Hnest Hlo Hhi.
    rewrite readStructPointer_direct by assumption.
    set (w := wordOf (Checked id, ref) a1) in *.
    set (ptr := WirePointer.target ref w) in *.
    unfold containsInterval. rewrite interval_words.
    destruct (Z.geb_spec ptr 0) as [_|Hx]; [|lia].
    destruct (Z.leb_spec (ptr + WirePointer.wordSize w)
                (Z.of_nat (length (getArray id a1)))) as [_|Hx]; [|lia].
    cbn [andb].
    replace (ptr + WirePointer.wordSize w - ptr) with (WirePointer.wordSize w) by lia.
    split; intros Hsz.
    + rewrite canRead_false by lia. cbn [fst snd]. split; [reflexivity|].
      unfold recordError, reportReadLimitReached, recordError, record. cbn [errors].
      intros Heq.
      apply (f_equal (@length string)) in Heq. rewrite !length_app in Heq.
      cbn [length] in Heq. lia.
    + rewrite canRead_true by lia. cbn [fst snd sr_data set_limit errors limit].
      repeat split.
Qed.

Lemma C3_read_limit_witness :
  limit (newReaderArena [[2 ^ 32; 5]] 4) < 10
  /\ fst (canRead 1 (snd (canRead 10 (newReaderArena [[2 ^ 32; 5]] 4)))) = true
  /\ fst (resolution (RootPointer 0 0 64) (snd (canRead 10 (newReaderArena [[2 ^ 32; 5]] 4))))
     = fst (resolution (RootPointer 0 0 64) (newReaderArena [[2 ^ 32; 5]] 4)).
Proof.
  assert (H : limit (newReaderArena [[2 ^ 32; 5]] 4) < 10) by (simpl; lia).
  split; [exact H|].
  destruct (C3_read_limit (newReaderArena [[2 ^ 32; 5]] 4) 10 H)
    as (_ & _ & _ & _ & Hc & Hq & _).
  split; [apply Hc; simpl; lia | exact (proj1 (Hq (RootPointer 0 0 64)))].
Defined.

(** C3 (as stated) fails: after a [canRead] that failed, a pointer whose
    target fits in what is left of the limit still resolves to its struct. *)
Lemma C3_counterexample :
  ~ (forall (a : ReaderArena) (amount : Z) (segment : nat) (ref nestingLimit : Z),
       fst (canRead amount a) = false ->
       fst (readStructPointer (Checked segment) (Some (Checked segment, ref)) None
              nestingLimit (snd (canRead amount a))) = StructReader_default).
Proof.
  intros H.
  specialize (H (newReaderArena [[2 ^ 32; 5]] 4) 10 0%nat 0 64 eq_refl).
  vm_compute in H. discriminate H.
Qed.

End ReadLimitProps.
